(* ===== verification/_CoqProject ===== *)
-Q . S2P
Prelude.v
V2Framing.v
Uuid.v
Storage.v
Identity.v
IdentityHistory.v
Ownership.v
Descriptors.v
TrustTables.v
TrustStore.v
TrustLedger.v
TrustContract.v
TrustOpen.v
StoreResources.v
SessionAuth.v
EventBus.v
Registry.v
Logging.v
Packet.v
Connection.v
Timing.v
Locks.v
Network.v
Revocation.v
Service.v
HttpApi.v
Avahi.v
Discovery.v
Noise.v
NoiseContract.v
Daemon.v
Process.v
