(* ===== verification/Prelude.v ===== *)
(** * Gasoline: a verification library for the device daemon

    Gasoline is a daemon that lets a user's devices find each other and exchange
    messages.  Peers are trusted by key: a trust store (SQLite) pins each peer
    UUID to one public key with a revision and permissions; a session with a peer
    becomes READY only under an authorization read from the store, and is stopped
    when that authorization is no longer current.  This library models the C++ of
    the daemon and the Rust library it calls, and proves what makes them correct.
    This file is the prelude: results and exceptions, the state-and-exception monad
    [stx] with its notations, tactics and lemmas, machine integers, bytes and texts.

    ** The parts, the files and the code

    Protocol:
    - [V2Framing.v]: [core/protocol/v2_framing.*].  The record [RecordParser] has
      the fields of the class; [consume] is the loop of the code, one definition per
      phase, with its callback as a state-passing function that may throw; [finish],
      [encode_record].
    - [Uuid.v]: the texts of UUIDs: parsing and printing (trust store), the two
      validators (identity, discovery), generation (identity).
    - [Packet.v]: [core/protocol/packet.cpp], the handlers and the router, and the
      bounded packet buffer of [connection.cpp].  The class [JsonLibrary] stands for
      nlohmann/json, [JsonLaws] for the documented behaviour used of it; the module
      [SmallJson] is an instance.

    Identity:
    - [Storage.v]: a directory as the code sees it: entries, inodes, the outcomes of
      system calls, and what a power loss may leave of it.
    - [Identity.v]: [core/identity/device_identity.cpp], call by call.  libsodium is
      the class [Sodium] with the laws [SodiumLaws].
    - [IdentityHistory.v]: histories of calls, kills and power losses.
    - [Ownership.v]: objects that own a resource, their moves and destructors, scopes
      left by a return or an exception, and rules for programs that use them.
    - [Descriptors.v]: the class [FileDescriptor] and the functions of [Identity.v] with
      the scopes of their objects; the operations [fd_load_or_create], [fd_atomic_write] and
      so on are those of [Identity.v], on the descriptors of the process as well.

    Trust:
    - [TrustTables.v]: the data types of [core/trust/trust_store.hpp], the tables of
      [trust_schema.hpp] with their CHECK, UNIQUE and foreign-key constraints, and a
      definition per SQL statement of [trust_store.cpp].
    - [TrustStore.v]: every public operation of [core/trust/trust_store.cpp] on an
      open store, with its binds, steps, transactions and file checks; the
      environment [Env] decides which SQLite call fails, what [stat] reports and
      what the clock says.
    - [TrustLedger.v]: the specification of the store, a ledger of key, status,
      revision and permissions by UUID; requests, histories and their effects.
    - [TrustContract.v]: the theorems on the store.
    - [TrustOpen.v]: the constructor of the store: directory, lock, file checks,
      pragmas and migration; its specification [open_spec].
    - [StoreResources.v]: the same constructor with its objects: [Fd], the members
      [directory] and [db], the lock, statements and the transaction ([r_open_store]).
    - [SessionAuth.v]: [core/auth/session_authentication.*]: authorizations, the live
      sessions, and the monitor thread as a step function.  The class [TrustQueries]
      is the interface to the store; [trust_store_queries] implements it.

    Sessions:
    - [Logging.v]: [core/utils/logger.cpp] and [packet_monitor.cpp].
    - [EventBus.v]: [core/events/event_bus.cpp].
    - [Registry.v]: [core/device/device_registry.cpp] with the arbitration of
      duplicate connections, and [core/networking/connection_manager.cpp].
    - [Connection.v]: [core/networking/connection.cpp] with [send_packet.cpp],
      [client_handler.cpp] and [services/message_service.cpp].  [World] is the
      shared state all components act on; each operation of the class is an action
      on it.
    - [Timing.v]: the loops of [connection.cpp] that wait, [wait_for_socket],
      [send_all] and [receive_loop], with the clock running and every call taking time.
    - [Locks.v]: for every function of the daemon, the mutexes and references it takes
      and the guarded data it touches, and the threads that run them.
    - [Network.v]: the threads together: a step relation whose states are worlds with
      the monitor's position, one step per section that other threads can see.
    - [Revocation.v]: runs of the threads together with the requests of this and of
      other processes to the store, from a change in the store to the end of the sessions.
    - [Service.v]: authentication, the worker of a session and the message service
      seen as whole operations.

    Outside:
    - [HttpApi.v]: [interface/api_server.cpp]: receiving a request, the three
      endpoints, the response, the accept loop.
    - [Avahi.v]: [platform/linux/discovery/*]: browser and publisher over a heap of
      the objects of the Avahi client library.
    - [Discovery.v]: [core/discovery/*], [core/networking/connect.cpp] and
      [server.cpp]: the set of pending connections and its detached threads, beside
      the sessions ([daemon_step]).
    - [Noise.v], [NoiseContract.v]: [core/noise/noise_session.*] and
      [core/noise/clatter_ffi/src/lib.rs]: handles, buffers with addresses, the mutex
      and its poisoning; then the specification without them.  The crate clatter is
      the class [Clatter], with [ClatterLaws] and [NoiseChannel] as what is relied on.
    - [Daemon.v]: [daemon/main.cpp]: the identity, the store, then a life of the daemon.
    - [Process.v]: [daemon/main.cpp] statement by statement ([main_code], [main_next]),
      its threads and what each may do ([activity]), and the end of the process;
      [core/utils/device_id.cpp].

    The store is asked by the session authentication, the session authentication and
    the registry by connections, the event bus by the message handler, the registry
    and connections by the message service; the monitor calls back into connections;
    discovery and the accept loop create connections, the HTTP interface calls the
    message service.  In the code these parts meet in globals and mutexes, here in
    [World].  The Noise session has no caller in the daemon yet.

    ** What the theorems show

    - Framing: [consume] implements a byte-at-a-time decoder on every input, state
      and handler, hence independently of how the stream is cut into reads; what
      [encode_record] writes is read back exactly, and only that; the buffer stays
      within the limit; errors are terminal.
    - Identity: over every history of calls, failures, kills and power losses at most
      one key pair is generated and one identity returned; an interrupted creation is
      refused, never repaired with new keys; an identity that was returned loads again.
      Every descriptor the identity code opens is closed once, on every path.
    - Store: failed requests change nothing; every history is a run of the ledger;
      table constraints, the permanent binding of keys, optimistic concurrency by
      revision, pairing only by confirmed and unexpired attempts, finality of revocation,
      exactness of the authorization query, soundness of the change token, and that
      a revocation succeeds when nothing fails.  Opening refines its specification,
      refuses for ever what it does not accept, and succeeds when nothing fails; it
      throws with every resource released, or returns with a descriptor and a handle.
    - Sessions: authorization fails closed; application data is sent and received
      only by READY sessions whose authorization is current at that moment; before
      authentication a peer can only say hello, once; an authentication is all or
      nothing, whatever happens between its two halves; two hosts that dial each other keep the same connection; a message
      reaches exactly its recipients; a worker ends and cleans up.
    - Threads: in every reachable state the registry, the live authorizations and the
      manager agree with the sessions, outgoing streams are whole frames, sessions only move
      forward, READY sessions were authorized by the store and are watched by the
      monitor.  In every interleaving, an authorization that the store has withdrawn
      stays withdrawn, and its session is stopped within a stated number of steps of the
      monitor, which always has a next step until then.  A stopped monitor returns.
    - Mutexes: no two threads touch guarded data at the same time; whoever waits for a
      mutex can get it, so the daemon does not deadlock, also where the last reference
      to a connection runs its destructor and where exceptions leave a scope.
    - Deadlines: a send ends within the write timeout and an unauthenticated session
      within the handshake timeout, however the peer behaves.
    - HTTP: a request is understood however it is split; each client gets one
      well-formed response and is closed once; a posted message reaches its device.
    - Avahi: browser and publisher use and free only live objects and free them all; the
      browser reports only services resolved to an IPv4 address, with an identifier.
    - Discovery: the daemon makes only steps of the network; the pending set is
      exactly the devices of the running attempts, and drains.
    - Noise: handles are owned by exactly one object and freed once; the wrapper
      implements sessions that are plain values; a failed session stays failed; two
      sessions that met understand each other.
    - Process: no thread and no session before the identity and the store are loaded; a
      READY session goes back to an entry of the tables found on disk or put there by a
      request; a first start trusts nobody; [main] returns 0 after its threads, goes on
      until then except in a join, and an ended process stays ended.

    Four theorems show weaknesses: [Registry.uppercase_identity_diverges], with
    an identity file in upper case the agreement on duplicates fails for exactly the
    peers whose id is between the two spellings;
    [HttpApi.malformed_body_terminates], a body whose bytes cannot be quoted ends the
    process; [Discovery.worker_outlives_client], a connection attempt uses the
    discovery client after its destruction; [Timing.ready_session_expires], a session
    that becomes READY while its worker waits is closed by the handshake deadline when
    the peer is silent.

    ** Bounds, fuel and abstractions

    - Integers have the width of the code where it matters: 64-bit revisions,
      generations and session ids wrap around or are bounded as in the code, record
      lengths are 16-bit, the packet buffer's subtraction is modulo 2^64, addresses
      are below 2^64.  [Connection.create] is
      considered for session ids below 2^64 - 1; the change token is sound for fewer
      than 2^64 requests between two readings, and the runs of [Revocation.v] have
      fewer than 2^64 steps.  Of the data version SQLite reports, only that it is a new
      number after a commit of another process is used.
    - The loop of [consume] takes a fuel of one iteration per byte of input, and
      [monitor_run] one of three steps per session plus two; both are proved to be
      enough, as is the fuel of [find_home], one per doubling of its buffer, and of
      [HttpApi.digits], one per bit.  In [Timing.v] every call takes at least a
      nanosecond, and one iteration per nanosecond left to the deadline is proved to be
      enough.  All other recursion is structural.
    - Sockets are the outcomes of [send], [poll] and [recv], any sequence of them; an
      outcome list that ends is a call that waits for ever.  For files and for opening
      the store, an outcome list that ends means that all later calls succeed, and an
      outcome may be that the process is killed there.  The clock is constant
      within an operation and arbitrary between two, except in [Timing.v], where it runs.
    - In [Locks.v] conditions on data are free choices, and loops may end at any round;
      waiting for a condition variable is taking the mutex, testing and giving it back.
      Authentication of a peer has no caller in the code yet, so some thread does it, and
      the requests of the store, at any time.
    - SQLite is the meaning of the statements the code runs; each call may fail with
      any code.  A database has each pair of tables with the columns of the schema or not
      at all; other schemas under the same version are not represented.  Text is measured through [SqlText], since SQLite counts characters.
    - In [Network.v] an iteration of the receive loop, a send, and a request of the
      store are single steps; activation and cleanup take one step per guarded
      section, and the monitor one per access to shared state.  An object is kept
      after its destruction as a closed session, which no reference can reach.
    - A power loss keeps, of each file that was not synchronized, any contents, and of
      the directory any of the versions since its last synchronization.

    ** What is not modelled

    The log calls inside the other components, which only write output; wiping of
    secret buffers, which cannot be observed; the constructors of the Noise library and
    the signing hook of identities that exist for tests; the destruction of globals when
    [main] returns while detached threads still run.  Headers are covered by the
    definitions of what they declare.  The JSON, SQLite, Avahi, libsodium and clatter
    libraries are parameters or are modelled by what the code uses of them.

    Possible next: the identity's and the store's paths as paths of one file system;
    interleaved [fsync] of two processes at the store's directory; the Noise session on
    a connection, once the code uses it there. *)

From stdpp Require Export base tactics numbers list gmap strings sorting.
From Stdlib Require Export Strings.Byte.
From Stdlib Require Import Lia.

#[export] Set Warnings "-clear-no-such-hyp,-level-tolerance,-register-all".

Declare Scope gasoline_scope.
Delimit Scope gasoline_scope with gas.
Global Open Scope gasoline_scope.
Global Open Scope Z_scope.

(** ** Results of code that may throw *)

(** A C++ call either returns a value or throws an exception of type [E]. *)
Inductive result (E A : Type) : Type :=
| Ok (a : A)
| Throw (e : E).
Arguments Ok {E A} a.
Arguments Throw {E A} e.

Definition is_ok {E A} (r : result E A) : bool :=
  match r with Ok _ => true | Throw _ => false end.

(** ** State and exceptions

    Effects performed before a [throw] stay performed, as in C++: the state is
    returned on both outcomes. *)

Definition stx (S E A : Type) : Type := S -> result E A * S.

Definition ret {S E A} (a : A) : stx S E A := fun s => (Ok a, s).
Definition throw {S E A} (e : E) : stx S E A := fun s => (Throw e, s).
Definition bind {S E A B} (m : stx S E A) (k : A -> stx S E B) : stx S E B :=
  fun s => match m s with
           | (Ok a, s') => k a s'
           | (Throw e, s') => (Throw e, s')
           end.
Definition gets {S E A} (f : S -> A) : stx S E A := fun s => (Ok (f s), s).
Definition modify {S E} (f : S -> S) : stx S E unit := fun s => (Ok tt, f s).
Definition require {S E} (e : E) (b : bool) : stx S E unit :=
  if b then ret tt else throw e.

Notation "'let!' x ':=' m 'in' k" := (bind m (fun x => k))
  (at level 10, x name, m at level 200, k at level 200) : gasoline_scope.
Notation "'let!' ' p ':=' m 'in' k" := (bind m (fun p => k))
  (at level 10, p strict pattern, m at level 200, k at level 200) : gasoline_scope.
Notation "m ;;; k" := (bind m (fun _ => k))
  (at level 199, right associativity) : gasoline_scope.

Section stx_lemmas.
Context {S E : Type}.

Lemma bind_ok {A B} (m : stx S E A) (k : A -> stx S E B) s b s' :
  bind m k s = (Ok b, s') <->
  exists a s1, m s = (Ok a, s1) /\ k a s1 = (Ok b, s').
Proof.
  unfold bind. destruct (m s) as [[a|e] s1]; split.
  - eauto.
  - intros (a' & s1' & [= -> ->] & H). exact H.
  - discriminate.
  - intros (a' & s1' & [=] & _).
Qed.

Lemma bind_throw {A B} (m : stx S E A) (k : A -> stx S E B) s e s' :
  bind m k s = (Throw e, s') <->
  m s = (Throw e, s') \/ exists a s1, m s = (Ok a, s1) /\ k a s1 = (Throw e, s').
Proof.
  unfold bind. destruct (m s) as [[a|e1] s1]; split.
  - eauto 6.
  - intros [[=]|(a' & s1' & [= -> ->] & H)]. exact H.
  - intros [= -> ->]. auto.
  - intros [[= -> ->]|(a' & s1' & [=] & _)]. reflexivity.
Qed.

Lemma bind_run {A B} (m : stx S E A) (k : A -> stx S E B) s r s' :
  bind m k s = (r, s') ->
  (exists a s1, m s = (Ok a, s1) /\ k a s1 = (r, s')) \/ exists e, m s = (Throw e, s') /\ r = Throw e.
Proof. unfold bind. destruct (m s) as [[a|e] s1]; [eauto|]. intros [= <- <-]. eauto. Qed.

Lemma bind_assoc {A B C} (m : stx S E A) (k : A -> stx S E B) (h : B -> stx S E C) s :
  bind m (fun a => bind (k a) h) s = bind (bind m k) h s.
Proof. unfold bind. by destruct (m s) as [[a|e] s1]. Qed.

Lemma bind_gets {A B} (f : S -> A) (k : A -> stx S E B) s : bind (gets f) k s = k (f s) s.
Proof. reflexivity. Qed.

Lemma require_ok (e : E) b (s : S) u s' :
  require e b s = (Ok u, s') <-> b = true /\ s' = s.
Proof.
  destruct u. unfold require, ret, throw. destruct b; split.
  - intros H. injection H as ->. auto.
  - intros [_ Hs]. by rewrite Hs.
  - discriminate.
  - intros [H _]. discriminate H.
Qed.

Lemma require_throw (e : E) b (s : S) e' s' :
  require e b s = (Throw e', s') <-> b = false /\ e' = e /\ s' = s.
Proof.
  unfold require, ret, throw. destruct b; split.
  - discriminate.
  - intros [H _]. discriminate H.
  - intros H. injection H as -> ->. auto.
  - intros (_ & -> & ->). reflexivity.
Qed.
End stx_lemmas.

(** A run is determined by its outcome and its final state. *)
Lemma run_eta {A B} (x : A * B) a : fst x = a -> x = (a, snd x).
Proof. destruct x. by intros <-. Qed.

(** Split a successful (or failed) run of a monadic program into the runs of
    its parts. *)
Ltac run_inv_step :=
  match goal with
  | H : bind _ _ _ = (Ok _, _) |- _ =>
      let a := fresh "a" in let s := fresh "s" in
      let H1 := fresh "Hrun" in let H2 := fresh "Hrun" in
      apply bind_ok in H as (a & s & H1 & H2)
  | H : require _ _ _ = (Ok _, _) |- _ =>
      let Hb := fresh "Hreq" in apply require_ok in H as [Hb ->]
  | H : ret _ _ = (Ok _, _) |- _ => unfold ret in H; injection H as ? ?; subst
  | H : gets _ _ = (Ok _, _) |- _ => unfold gets in H; injection H as ? ?; subst
  | H : modify _ _ = (Ok _, _) |- _ => unfold modify in H; injection H as ? ?; subst
  | H : throw _ _ = (Ok _, _) |- _ => discriminate H
  | H : (Throw _, _) = (Ok _, _) |- _ => discriminate H
  | H : (Ok _, _) = (Throw _, _) |- _ => discriminate H
  | H : (Ok _, _) = (Ok _, _) |- _ => injection H as ? ?; subst
  end.
Ltac run_inv := repeat run_inv_step.

(** Turn boolean guards that hold into the propositions they decide. *)
Ltac bool_inv :=
  repeat match goal with
         | H : bool_decide _ = true |- _ => apply bool_decide_eq_true in H
         | H : bool_decide _ = false |- _ => apply bool_decide_eq_false in H
         | H : negb _ = true |- _ => apply negb_true_iff in H
         | H : _ && _ = true |- _ => apply andb_prop in H as [? ?]
         | H : (_ <=? _)%nat = true |- _ => apply Nat.leb_le in H
         | H : (_ =? _)%nat = true |- _ => apply Nat.eqb_eq in H
         | H : (_ =? _)%Z = true |- _ => apply Z.eqb_eq in H
         | H : (_ <=? _)%Z = true |- _ => apply Z.leb_le in H
         | H : (_ <? _)%Z = true |- _ => apply Z.ltb_lt in H
         | H : (_ >? _)%Z = true |- _ => apply Z.gtb_lt in H
         end.

(** ** Bytes

    [char]/[uint8_t] values are [Byte.byte]; arithmetic goes through [Z]. *)

Definition Z_of_byte (b : byte) : Z := Z.of_N (Byte.to_N b).

(** [static_cast<char>] / [static_cast<unsigned char>] of an integer. *)
Definition byte_of_Z (z : Z) : byte := default x00 (Byte.of_N (Z.to_N (z `mod` 256))).

Lemma Z_of_byte_range b : 0 <= Z_of_byte b < 256.
Proof. unfold Z_of_byte. pose proof (Byte.to_N_bounded b). lia. Qed.

Lemma Z_of_byte_of_Z z : Z_of_byte (byte_of_Z z) = z `mod` 256.
Proof.
  unfold Z_of_byte, byte_of_Z.
  assert (0 <= z `mod` 256 < 256) by (apply Z.mod_pos_bound; lia).
  destruct (Byte.of_N _) as [b|] eqn:Hb; cbn.
  - apply Byte.to_of_N in Hb. rewrite Hb. lia.
  - apply Byte.of_N_None_iff in Hb. lia.
Qed.

Lemma byte_of_Z_of_byte b : byte_of_Z (Z_of_byte b) = b.
Proof.
  pose proof (Z_of_byte_range b). unfold byte_of_Z. rewrite Z.mod_small by done.
  unfold Z_of_byte. rewrite N2Z.id, Byte.of_to_N. reflexivity.
Qed.

Lemma Z_of_byte_inj b1 b2 : Z_of_byte b1 = Z_of_byte b2 -> b1 = b2.
Proof. intros H. rewrite <-(byte_of_Z_of_byte b1), H. apply byte_of_Z_of_byte. Qed.

#[export] Instance byte_eq_decision : EqDecision byte := Byte.byte_eq_dec.
#[export] Instance byte_inhabited : Inhabited byte := populate x00.
#[export] Program Instance byte_countable : Countable byte :=
  inj_countable Byte.to_N Byte.of_N _.
Next Obligation. intros b. apply Byte.of_to_N. Qed.

(** [size()] of a string, vector or string view. *)
Abbreviation zlen l := (Z.of_nat (length l)).

(** ** Machine integers *)

(** Unsigned 64-bit subtraction ([size_t]). *)
Definition size_t_sub (a b : Z) : Z := (a - b) `mod` 2 ^ 64.
(** Unsigned 64-bit increment. *)
Definition u64_succ (a : Z) : Z := (a + 1) `mod` 2 ^ 64.
(** [static_cast<int>] of a wider integer. *)
Definition to_int (a : Z) : Z := (a + 2 ^ 31) `mod` 2 ^ 32 - 2 ^ 31.
(** [std::numeric_limits<int64_t>::max()]. *)
Definition int64_max : Z := 2 ^ 63 - 1.

Lemma size_t_sub_small a b : 0 <= b <= a -> a < 2 ^ 64 -> size_t_sub a b = a - b.
Proof. intros. unfold size_t_sub. apply Z.mod_small. lia. Qed.

(** A byte below a value shifted by eight bits adds. *)
Lemma lor_shiftl_8 h l : 0 <= l < 256 -> Z.lor (Z.shiftl h 8) l = h * 256 + l.
Proof.
  intros Hl. rewrite <-(Z.mod_small l 256) at 1 by done. change 256 with (2 ^ 8) at 1.
  rewrite <-Z.land_ones by lia.
  replace (Z.lor _ _) with (Z.shiftl h 8 + Z.land l (Z.ones 8)).
  - rewrite Z.shiftl_mul_pow2, Z.land_ones by lia. change (2 ^ 8) with 256.
    rewrite (Z.mod_small l) by lia. lia.
  - rewrite <-Z.add_lor_land. cut (Z.land (h ≪ 8) (Z.land l (Z.ones 8)) = 0); [lia|].
    apply Z.bits_inj'. intros n Hn.
    rewrite !Z.land_spec, Z.shiftl_spec, Z.bits_0 by lia.
    destruct (decide (n < 8)).
    + by rewrite (Z.testbit_neg_r _ (n - 8)) by lia.
    + rewrite Z.testbit_ones_nonneg by lia.
      destruct (Z.ltb_spec n 8); [lia|]. by rewrite !andb_false_r.
Qed.

(** The two-byte network-order split used by the wire format is inverted by
    the join. *)
Lemma be16_split z :
  0 <= z < 65536 ->
  Z.lor (Z.shiftl (Z_of_byte (byte_of_Z (Z.land (Z.shiftr z 8) 255))) 8)
        (Z_of_byte (byte_of_Z (Z.land z 255))) = z.
Proof.
  intros Hz. rewrite !Z_of_byte_of_Z. change 255 with (Z.ones 8).
  rewrite !Z.land_ones by lia. change (2 ^ 8) with 256. rewrite !Z.mod_mod by lia.
  rewrite lor_shiftl_8 by (apply Z.mod_pos_bound; lia).
  rewrite Z.shiftr_div_pow2 by lia. change (2 ^ 8) with 256.
  rewrite (Z.mod_small (z `div` 256))
    by (split; [apply Z.div_pos; lia | apply Z.div_lt_upper_bound; lia]).
  pose proof (Z.div_mod z 256 ltac:(lia)). lia.
Qed.

Lemma be16_join_split (h l : byte) :
  let z := Z.lor (Z.shiftl (Z_of_byte h) 8) (Z_of_byte l) in
  0 <= z < 65536 /\
  byte_of_Z (Z.land (Z.shiftr z 8) 255) = h /\ byte_of_Z (Z.land z 255) = l.
Proof.
  pose proof (Z_of_byte_range h). pose proof (Z_of_byte_range l). cbn zeta.
  rewrite lor_shiftl_8 by done. split; [lia|].
  change 255 with (Z.ones 8). rewrite !Z.land_ones, Z.shiftr_div_pow2 by lia.
  change (2 ^ 8) with 256. split; apply Z_of_byte_inj; rewrite Z_of_byte_of_Z, Z.mod_mod by lia.
  - rewrite Z.div_add_l, (Z.div_small (Z_of_byte l)), Z.add_0_r, Z.mod_small by lia. done.
  - rewrite Z.add_comm, Z.mod_add, Z.mod_small by lia. done.
Qed.

(** ** Texts as bytes *)

Definition bytes_of (s : string) : list byte := String.list_byte_of_string s.
Definition text_of_bytes (l : list byte) : string := String.string_of_list_byte l.

Lemma bytes_of_text l : bytes_of (text_of_bytes l) = l.
Proof. apply String.list_byte_of_string_of_list_byte. Qed.
Lemma text_of_bytes_of s : text_of_bytes (bytes_of s) = s.
Proof. apply String.string_of_list_byte_of_string. Qed.
Lemma length_bytes_of s : length (bytes_of s) = String.length s.
Proof.
  unfold bytes_of, String.list_byte_of_string. rewrite length_map.
  induction s as [|c s IH]; cbn; [done|]. by rewrite IH.
Qed.
Lemma length_text l : String.length (text_of_bytes l) = length l.
Proof. by rewrite <-length_bytes_of, bytes_of_text. Qed.
Lemma append_length s1 s2 : String.length (String.append s1 s2) = (String.length s1 + String.length s2)%nat.
Proof. induction s1 as [|c s1 IH]; [done|]. exact (f_equal S IH). Qed.

(** Files of different suffixes are different files. *)
Lemma suffix_ne name s1 s2 : s1 <> s2 -> String.append name s1 <> String.append name s2.
Proof. intros Hne Heq. by apply String.app_inj in Heq. Qed.
Lemma suffix_ne_name name s : s <> EmptyString -> String.append name s <> name.
Proof.
  intros Hne Heq. apply (f_equal String.length) in Heq. rewrite append_length in Heq.
  destruct s; [done|]. cbn in Heq. lia.
Qed.
