(* ===== verification/V2Framing.v ===== *)
(** * Protocol v2 framing ([core/protocol/v2_framing.hpp], [v2_framing.cpp])

    The incremental [RecordParser]: its state, [consume] (with its callback, as
    a state-passing function that may itself throw), [finish], the observers,
    and [encode_record].  The theorems: the parser's invariant, termination of
    the consume loop, equivalence with a byte-at-a-time reference machine (and
    hence independence of stream fragmentation), encode/decode round trips in
    both directions, the size bounds and the terminal error states. *)

From S2P Require Import Prelude.

(** ** Data *)

Create HintDb framing.

Definition WIRE_VERSION : Z := 2.
Definition PREFACE_SIZE : nat := 10.
Definition RECORD_HEADER_SIZE : nat := 2.
Definition MAX_RECORD_SIZE : Z := 65535.

(** The ten bytes ['G' 'A' 'S' 'O' 'L' 'I' 'N' 'E'] and the network-order version. *)
Definition preface_bytes : list byte :=
  [x47; x41; x53; x4f; x4c; x49; x4e; x45;
   byte_of_Z (Z.land (Z.shiftr WIRE_VERSION 8) 0xff);
   byte_of_Z (Z.land WIRE_VERSION 0xff)].

Inductive FramingErrorCode : Type :=
| InvalidPreface | OversizedRecord | TruncatedPreface
| TruncatedHeader | TruncatedPayload | ParserFinished.

Inductive Phase : Type := Preface | Header | Payload.

Record RecordParser : Type := mkRecordParser {
  maximum_record_size_ : Z;
  phase_ : Phase;
  preface_offset_ : nat;
  header_ : list byte;
  header_offset_ : nat;
  expected_payload_size_ : Z;
  payload_ : list byte;
  failed_ : bool;
  finished_ : bool
}.

#[export] Instance Phase_eq_dec : EqDecision Phase.
Proof. solve_decision. Defined.
#[export] Instance FramingErrorCode_eq_dec : EqDecision FramingErrorCode.
Proof. solve_decision. Defined.

(** Field assignments. *)
Definition set_phase ph p := mkRecordParser (maximum_record_size_ p) ph (preface_offset_ p)
  (header_ p) (header_offset_ p) (expected_payload_size_ p) (payload_ p) (failed_ p) (finished_ p).
Definition set_preface_offset n p := mkRecordParser (maximum_record_size_ p) (phase_ p) n
  (header_ p) (header_offset_ p) (expected_payload_size_ p) (payload_ p) (failed_ p) (finished_ p).
Definition set_header h n p := mkRecordParser (maximum_record_size_ p) (phase_ p) (preface_offset_ p)
  h n (expected_payload_size_ p) (payload_ p) (failed_ p) (finished_ p).
Definition set_expected n p := mkRecordParser (maximum_record_size_ p) (phase_ p) (preface_offset_ p)
  (header_ p) (header_offset_ p) n (payload_ p) (failed_ p) (finished_ p).
Definition set_payload bs p := mkRecordParser (maximum_record_size_ p) (phase_ p) (preface_offset_ p)
  (header_ p) (header_offset_ p) (expected_payload_size_ p) bs (failed_ p) (finished_ p).
Definition set_failed p := mkRecordParser (maximum_record_size_ p) (phase_ p) (preface_offset_ p)
  (header_ p) (header_offset_ p) (expected_payload_size_ p) (payload_ p) true (finished_ p).
Definition set_finished p := mkRecordParser (maximum_record_size_ p) (phase_ p) (preface_offset_ p)
  (header_ p) (header_offset_ p) (expected_payload_size_ p) (payload_ p) (failed_ p) true.

(** ** Operations *)

(** [encode_record]: [None] is the [std::length_error]. *)
Definition encode_record (payload : list byte) : option (list byte) :=
  if zlen payload >? MAX_RECORD_SIZE then None
  else Some (byte_of_Z (Z.land (Z.shiftr (zlen payload) 8) 0xff)
             :: byte_of_Z (Z.land (zlen payload) 0xff) :: payload).

(** The constructor: [None] is the [std::invalid_argument]. *)
Definition new_RecordParser (maximum_record_size : Z) : option RecordParser :=
  if maximum_record_size >? MAX_RECORD_SIZE then None
  else Some (mkRecordParser maximum_record_size Preface 0 [x00; x00] 0 0 [] false false).

Definition preface_complete (p : RecordParser) : bool := negb (bool_decide (phase_ p = Preface)).
Definition buffered_payload_size (p : RecordParser) : Z := zlen (payload_ p).

(** The inner loop of the preface phase: [inl] when a byte differs. *)
Fixpoint preface_loop (input : list byte) (offset : nat) : (nat + nat * list byte) :=
  match input with
  | [] => inr (offset, [])
  | c :: rest =>
      if (offset <? length preface_bytes)%nat then
        if bool_decide (preface_bytes !! offset = Some c)
        then preface_loop rest (S offset)
        else inl offset
      else inr (offset, input)
  end.

(** The inner loop of the header phase. *)
Fixpoint header_loop (input header : list byte) (offset : nat) : list byte * nat * list byte :=
  match input with
  | [] => (header, offset, [])
  | c :: rest =>
      if (offset <? RECORD_HEADER_SIZE)%nat
      then header_loop rest (<[offset := c]> header) (S offset)
      else (header, offset, input)
  end.

(** Big-endian 16-bit read of the header. *)
Definition header_size (header : list byte) : Z :=
  Z.lor (Z.shiftl (Z_of_byte (default x00 (header !! 0%nat))) 8)
        (Z_of_byte (default x00 (header !! 1%nat))).

(** An exception leaving [consume]: its own [FramingError], or whatever the
    record handler threw. *)
Inductive consume_error (Ex : Type) : Type :=
| Framing (code : FramingErrorCode)
| HandlerThrew (e : Ex).
Arguments Framing {Ex} code.
Arguments HandlerThrew {Ex} e.

Section consume.
(** The record handler: a callback over the state [St] it captures, which may
    throw an exception of type [Ex]. *)
Context {St Ex : Type}.
Variable handler : list byte -> stx St Ex bool.

(** What one iteration of the [while] loop does. *)
Inductive iteration : Type :=
| Next (p : RecordParser) (input : list byte) (s : St)
| Return (b : bool) (p : RecordParser) (s : St)
| Raise (e : consume_error Ex) (p : RecordParser) (s : St).

(** [handler(payload)] with the parser state [p] left behind by the code
    before the call, and the statements after it. *)
Definition call_handler (payload : list byte) (p : RecordParser)
    (after : RecordParser -> RecordParser) (input : list byte) (s : St) : iteration :=
  match handler payload s with
  | (Ok true, s') => Next (after p) input s'
  | (Ok false, s') => Return false (set_failed (after p)) s'
  | (Throw e, s') => Raise (HandlerThrew e) p s'
  end.

Definition preface_iteration (p : RecordParser) (input : list byte) (s : St) : iteration :=
  match preface_loop input (preface_offset_ p) with
  | inl offset => Raise (Framing InvalidPreface) (set_failed (set_preface_offset offset p)) s
  | inr (offset, rest) =>
      let p1 := set_preface_offset offset p in
      Next (if bool_decide (offset = length preface_bytes) then set_phase Header p1 else p1) rest s
  end.

(** The header phase once both length bytes are in. *)
Definition header_complete (p1 : RecordParser) (rest : list byte) (s : St) : iteration :=
  let size := header_size (header_ p1) in
  let p2 := set_header (header_ p1) 0 (set_expected size p1) in
  if size >? maximum_record_size_ p2 then
    Raise (Framing OversizedRecord) (set_failed p2) s
  else if size =? 0 then
    call_handler [] (set_payload [] p2) id rest s
  else Next (set_phase Payload (set_payload [] p2)) rest s.

Definition header_iteration (p : RecordParser) (input : list byte) (s : St) : iteration :=
  let '(header, offset, rest) := header_loop input (header_ p) (header_offset_ p) in
  let p1 := set_header header offset p in
  if negb (bool_decide (offset = RECORD_HEADER_SIZE)) then Next p1 rest s
  else header_complete p1 rest s.

Definition payload_iteration (p : RecordParser) (input : list byte) (s : St) : iteration :=
  let remaining := size_t_sub (expected_payload_size_ p) (zlen (payload_ p)) in
  let count := Z.min remaining (zlen input) in
  let p1 := set_payload (payload_ p ++ take (Z.to_nat count) input) p in
  let rest := drop (Z.to_nat count) input in
  if zlen (payload_ p1) =? expected_payload_size_ p1 then
    call_handler (payload_ p1) (set_expected 0 (set_phase Header p1)) (set_payload []) rest s
  else Next p1 rest s.

Definition loop_body (p : RecordParser) (input : list byte) (s : St) : iteration :=
  match phase_ p with
  | Preface => preface_iteration p input s
  | Header => header_iteration p input s
  | Payload => payload_iteration p input s
  end.

(** The [while (!input.empty())] loop.  [None] only when [fuel] runs out;
    [consume] passes enough (see [consume_terminates]). *)
Fixpoint consume_loop (fuel : nat) (p : RecordParser) (input : list byte) (s : St)
  : option (result (consume_error Ex) bool * RecordParser * St) :=
  match input with
  | [] => Some (Ok true, p, s)
  | _ :: _ =>
      match fuel with
      | O => None
      | S fuel =>
          match loop_body p input s with
          | Next p' rest s' => consume_loop fuel p' rest s'
          | Return b p' s' => Some (Ok b, p', s')
          | Raise e p' s' => Some (Throw e, p', s')
          end
      end
  end.

Definition consume (p : RecordParser) (input : list byte) (s : St)
  : option (result (consume_error Ex) bool * RecordParser * St) :=
  if failed_ p || finished_ p then Some (Throw (Framing ParserFinished), set_failed p, s)
  else consume_loop (length input) p input s.
End consume.

(** [finish]: marks EOF. *)
Definition finish (p : RecordParser) : result FramingErrorCode unit * RecordParser :=
  if failed_ p then (Throw ParserFinished, set_failed p)
  else if finished_ p then (Ok tt, p)
  else match phase_ p with
       | Preface => (Throw TruncatedPreface, set_failed p)
       | Payload => (Throw TruncatedPayload, set_failed p)
       | Header =>
           if negb (header_offset_ p =? 0)%nat then (Throw TruncatedHeader, set_failed p)
           else (Ok tt, set_finished p)
       end.

(** ** The parser's invariant *)

Record parser_ok (p : RecordParser) : Prop := {
  ok_max : 0 <= maximum_record_size_ p <= MAX_RECORD_SIZE;
  ok_header : length (header_ p) = RECORD_HEADER_SIZE;
  ok_buffer : zlen (payload_ p) <= maximum_record_size_ p;
  ok_phase : match phase_ p with
             | Preface => (preface_offset_ p < PREFACE_SIZE)%nat /\ header_offset_ p = 0%nat
             | Header => preface_offset_ p = PREFACE_SIZE /\ (header_offset_ p < RECORD_HEADER_SIZE)%nat
             | Payload => preface_offset_ p = PREFACE_SIZE /\ header_offset_ p = 0%nat /\
                          zlen (payload_ p) < expected_payload_size_ p <= maximum_record_size_ p
             end
}.

Lemma parser_ok_new max p :
  0 <= max -> new_RecordParser max = Some p -> parser_ok p.
Proof.
  unfold new_RecordParser. destruct (Z.gtb_spec max MAX_RECORD_SIZE); [done|].
  intros ? [= <-]. split; cbn; [lia|done|lia|unfold PREFACE_SIZE; lia].
Qed.

Lemma parser_ok_set_failed p : parser_ok p -> parser_ok (set_failed p).
Proof. intros []. split; cbn; auto. Qed.

Lemma parser_ok_set_finished p : parser_ok p -> parser_ok (set_finished p).
Proof. intros []. split; cbn; auto. Qed.

#[export] Hint Resolve parser_ok_set_failed parser_ok_set_finished : framing.

Section run.
Context {St Ex : Type}.
Variable handler : list byte -> stx St Ex bool.

(** Byte at a time: the loop body applied to one byte after another. *)
Fixpoint run (p : RecordParser) (input : list byte) (s : St)
  : result (consume_error Ex) bool * RecordParser * St :=
  match input with
  | [] => (Ok true, p, s)
  | c :: rest =>
      match loop_body handler p [c] s with
      | Next p' _ s' => run p' rest s'
      | Return b p' s' => (Ok b, p', s')
      | Raise e p' s' => (Throw e, p', s')
      end
  end.

(** What the loop does after an iteration. *)
Definition resume (it : iteration (St:=St) (Ex:=Ex)) :=
  match it with
  | Next p' rest s' => run p' rest s'
  | Return b p' s' => (Ok b, p', s')
  | Raise e p' s' => (Throw e, p', s')
  end.

(** What [run] does after an iteration on one byte. *)
Definition proceed (it : iteration (St:=St) (Ex:=Ex)) (rest : list byte) :=
  match it with
  | Next p' _ s' => run p' rest s'
  | Return b p' s' => (Ok b, p', s')
  | Raise e p' s' => (Throw e, p', s')
  end.

Lemma run_cons p c rest s : run p (c :: rest) s = proceed (loop_body handler p [c] s) rest.
Proof. reflexivity. Qed.

Lemma call_handler_proceed pl p after rest s :
  proceed (call_handler handler pl p after [] s) rest = resume (call_handler handler pl p after rest s).
Proof. unfold call_handler. destruct (handler pl s) as [[[]|e] s']; reflexivity. Qed.

Lemma header_complete_proceed p rest s :
  proceed (header_complete handler p [] s) rest = resume (header_complete handler p rest s).
Proof.
  unfold header_complete. case_match; [done|]. case_match; [|done]. apply call_handler_proceed.
Qed.

(** The loop body only ever returns [false]. *)
Lemma loop_body_return p input s b p' s' :
  loop_body handler p input s = Return b p' s' -> b = false.
Proof.
  unfold loop_body, preface_iteration, header_iteration, header_complete,
    payload_iteration, call_handler.
  repeat case_match; intros; simplify_eq; done.
Qed.

Lemma run_app p a b s :
  run p (a ++ b) s =
  match run p a s with
  | (Ok true, p', s') => run p' b s'
  | r => r
  end.
Proof.
  revert p s. induction a as [|c a IH]; intros p s; [done|].
  cbn [app]. rewrite !run_cons.
  destruct (loop_body handler p [c] s) as [p' r s'|b' p' s'|e p' s'] eqn:Hb;
    [apply IH| |done].
  by rewrite (loop_body_return _ _ _ _ _ _ Hb).
Qed.

Lemma preface_loop_full input offset :
  offset = PREFACE_SIZE -> preface_loop input offset = inr (offset, input).
Proof. intros ->. by destruct input. Qed.

Lemma preface_iteration_run p input s :
  parser_ok p -> phase_ p = Preface -> input <> [] ->
  run p input s = resume (preface_iteration p input s).
Proof.
  intros Hok Hph Hne. pose proof (ok_phase _ Hok) as Hp. rewrite Hph in Hp.
  destruct Hp as [Hoff _]. clear Hok. revert p Hph Hoff Hne.
  induction input as [|c input IH]; intros p Hph Hoff Hne; [done|].
  rewrite run_cons. unfold loop_body. rewrite Hph.
  unfold preface_iteration. cbn [preface_loop].
  rewrite (proj2 (Nat.ltb_lt _ _)) by done.
  case_bool_decide as Hc; [|done].
  destruct input as [|d input]; [by cbn [preface_loop resume proceed run]|].
  destruct (decide (S (preface_offset_ p) = PREFACE_SIZE)) as [Hfull|Hnot].
  - rewrite preface_loop_full by done. cbn [resume proceed]. by rewrite !bool_decide_true by done.
  - cbn [proceed]. rewrite bool_decide_false by done.
    rewrite IH; [done| done | cbn; unfold PREFACE_SIZE in *; lia | done].
Qed.

Lemma header_iteration_last p c input s :
  header_offset_ p = 1%nat ->
  header_iteration handler p (c :: input) s =
  header_complete handler (set_header (<[1%nat := c]> (header_ p)) 2 p) input s.
Proof. intros Ho. unfold header_iteration. rewrite Ho. by destruct input. Qed.

Lemma header_iteration_run p input s :
  parser_ok p -> phase_ p = Header -> input <> [] ->
  run p input s = resume (header_iteration handler p input s).
Proof.
  intros Hok Hph Hne. pose proof (ok_phase _ Hok) as Hp. rewrite Hph in Hp.
  destruct Hp as [_ Hoff]. destruct input as [|c input]; [done|].
  rewrite run_cons. unfold loop_body at 1. rewrite Hph.
  destruct p as [mx ph po h ho e pl f g]. cbn in Hph, Hoff. subst ph.
  assert (ho = 0%nat \/ ho = 1%nat) as [->| ->] by (unfold RECORD_HEADER_SIZE in *; lia).
  - (* first length byte *)
    assert (header_iteration handler (mkRecordParser mx Header po h 0 e pl f g) [c] s =
            Next (mkRecordParser mx Header po (<[0%nat := c]> h) 1 e pl f g) [] s) as -> by done.
    destruct input as [|d input]; [done|].
    cbn [proceed]. rewrite run_cons. unfold loop_body. cbn [phase_].
    rewrite header_iteration_last by done. rewrite header_complete_proceed.
    by destruct input.
  - rewrite header_iteration_last by done. rewrite header_complete_proceed.
    by destruct input.
Qed.

Lemma payload_iteration_run p input s :
  parser_ok p -> phase_ p = Payload -> input <> [] ->
  run p input s = resume (payload_iteration handler p input s).
Proof.
  intros Hok Hph Hne. pose proof (ok_phase _ Hok) as Hp. rewrite Hph in Hp.
  destruct Hp as (_ & _ & Hsz).
  pose proof (ok_max _ Hok) as Hmx. unfold MAX_RECORD_SIZE in Hmx. clear Hok.
  revert p Hph Hsz Hne Hmx. induction input as [|c input IH]; intros p Hph Hsz Hne Hmx; [done|].
  rewrite run_cons. unfold loop_body. rewrite Hph.
  unfold payload_iteration. rewrite !size_t_sub_small by lia.
  cbn [length]. rewrite (Z.min_r _ (Z.of_nat 1)) by lia.
  change (Z.to_nat (Z.of_nat 1)) with 1%nat. cbn [take drop].
  set (q := set_payload (payload_ p ++ [c]) p).
  assert (Hq : zlen (payload_ q) = zlen (payload_ p) + 1) by (cbn; rewrite length_app; cbn; lia).
  destruct (decide (expected_payload_size_ p = zlen (payload_ p) + 1)) as [Hlast|Hmore].
  - (* the byte completes the record *)
    rewrite (proj2 (Z.eqb_eq (zlen (payload_ q)) _)) by (rewrite Hq; cbn; lia).
    rewrite Hlast, Z.min_l by lia.
    replace (zlen (payload_ p) + 1 - zlen (payload_ p)) with 1 by lia.
    change (Z.to_nat 1) with 1%nat. cbn [take drop]. rewrite take_0, drop_0. fold q.
    rewrite (proj2 (Z.eqb_eq _ _)) by (rewrite Hq; cbn; lia). apply call_handler_proceed.
  - rewrite (proj2 (Z.eqb_neq (zlen (payload_ q)) _)) by (rewrite Hq; cbn; lia).
    cbn [proceed].
    destruct input as [|d input].
    { cbn [length]. rewrite Z.min_r by lia. change (Z.to_nat (Z.of_nat 1)) with 1%nat.
      cbn [take drop]. fold q. by rewrite (proj2 (Z.eqb_neq _ _)) by (rewrite Hq; cbn; lia). }
    rewrite IH; [|done|rewrite Hq; cbn; lia|done|done].
    unfold payload_iteration. rewrite size_t_sub_small by (rewrite ?Hq; cbn; lia).
    rewrite Hq. cbn [expected_payload_size_ q set_payload].
    set (n := Z.min (expected_payload_size_ p - (zlen (payload_ p) + 1)) (zlen (d :: input))).
    replace (Z.min (expected_payload_size_ p - zlen (payload_ p)) (Z.of_nat (S (length (d :: input)))))
      with (n + 1) by (unfold n; lia).
    assert (0 <= n) by (unfold n; lia).
    replace (Z.to_nat (n + 1)) with (S (Z.to_nat n)) by lia.
    cbn [take drop]. subst q. cbn [payload_ set_payload].
    rewrite <-app_assoc. reflexivity.
Qed.
End run.

(** ** The loop keeps the invariant and terminates *)

Lemma length_preface : length preface_bytes = PREFACE_SIZE.
Proof. reflexivity. Qed.

Lemma preface_loop_cons c input offset :
  preface_loop (c :: input) offset =
  if decide (offset < PREFACE_SIZE)%nat then
    if decide (preface_bytes !! offset = Some c) then preface_loop input (S offset) else inl offset
  else inr (offset, c :: input).
Proof.
  cbn [preface_loop]. rewrite length_preface.
  destruct (Nat.ltb_spec offset PREFACE_SIZE); case_decide; try lia; [|done].
  case_bool_decide; by case_decide.
Qed.

Lemma preface_loop_inl input offset k :
  preface_loop input offset = inl k -> (offset <= k < PREFACE_SIZE)%nat.
Proof.
  revert offset. induction input as [|c input IH]; intros offset; [done|].
  rewrite preface_loop_cons. repeat case_decide; [intros Hk%IH; lia| |done].
  intros [= <-]. lia.
Qed.

Lemma preface_loop_inr input offset k rest :
  (offset <= PREFACE_SIZE)%nat -> preface_loop input offset = inr (k, rest) ->
  (offset <= k <= PREFACE_SIZE)%nat /\ (length rest + k = length input + offset)%nat.
Proof.
  revert offset. induction input as [|c input IH]; intros offset Hle.
  { intros [= <- <-]. cbn. lia. }
  rewrite preface_loop_cons. repeat case_decide; [|done|intros [= <- <-]; lia].
  intros Hk%IH; cbn; lia.
Qed.

Lemma header_loop_spec input h offset h' k rest :
  (offset <= RECORD_HEADER_SIZE)%nat -> header_loop input h offset = (h', k, rest) ->
  length h' = length h /\ (offset <= k <= RECORD_HEADER_SIZE)%nat /\
  (length rest + k = length input + offset)%nat /\
  (k = RECORD_HEADER_SIZE \/ rest = []).
Proof.
  revert h offset. induction input as [|c input IH]; intros h offset Hle; cbn [header_loop].
  { intros [= <- <- <-]. auto with lia. }
  destruct (Nat.ltb_spec offset RECORD_HEADER_SIZE).
  - intros Hk%IH; [|lia]. rewrite length_insert in Hk.
    unfold RECORD_HEADER_SIZE in *. cbn [length]. destruct Hk as (?&?&?&?). split_and!; [done|lia|lia|lia|done].
  - intros [= <- <- <-]. unfold RECORD_HEADER_SIZE in *. cbn. split_and!; lia.
Qed.

Lemma header_size_range h : 0 <= header_size h < 65536.
Proof. apply be16_join_split. Qed.

Section invariant.
Context {St Ex : Type}.
Variable handler : list byte -> stx St Ex bool.

Implicit Types (p : RecordParser) (s : St).

(** What every iteration leaves behind: the invariant, the configured limit,
    a strictly shorter input when the loop goes on, and the failed flag
    exactly when the parser gives up. *)
Definition iteration_good (p : RecordParser) (n : nat)
    (it : iteration (St:=St) (Ex:=Ex)) : Prop :=
  match it with
  | Next p' rest _ =>
      parser_ok p' /\ maximum_record_size_ p' = maximum_record_size_ p /\
      failed_ p' = failed_ p /\ finished_ p' = finished_ p /\ (length rest < n)%nat
  | Return _ p' _ | Raise (Framing _) p' _ =>
      parser_ok p' /\ maximum_record_size_ p' = maximum_record_size_ p /\
      failed_ p' = true /\ finished_ p' = finished_ p
  | Raise (HandlerThrew _) p' _ =>
      parser_ok p' /\ maximum_record_size_ p' = maximum_record_size_ p /\
      failed_ p' = failed_ p /\ finished_ p' = finished_ p
  end.

Lemma call_handler_good p0 n pl p after rest s :
  parser_ok p -> parser_ok (after p) ->
  maximum_record_size_ p = maximum_record_size_ p0 ->
  maximum_record_size_ (after p) = maximum_record_size_ p0 ->
  failed_ p = failed_ p0 -> failed_ (after p) = failed_ p0 ->
  finished_ p = finished_ p0 -> finished_ (after p) = finished_ p0 ->
  (length rest < n)%nat ->
  iteration_good p0 n (call_handler handler pl p after rest s).
Proof.
  intros. unfold call_handler. destruct (handler pl s) as [[[]|e] s']; cbn; auto 6 with framing.
Qed.

Lemma preface_iteration_good p input s :
  parser_ok p -> phase_ p = Preface -> input <> [] ->
  iteration_good p (length input) (preface_iteration p input s).
Proof.
  intros [Hm Hh Hb Hp] Hph Hne. rewrite Hph in Hp. destruct Hp as [Ho Hho].
  unfold preface_iteration. destruct (preface_loop _ _) as [k|[k rest]] eqn:Hl.
  - apply preface_loop_inl in Hl. cbn. split; [|done].
    split; cbn; rewrite ?Hph; auto. lia.
  - pose proof Hl as Hr. apply preface_loop_inr in Hr; [|lia].
    destruct input as [|c input]; [done|].
    assert (preface_offset_ p < k)%nat.
    { rewrite preface_loop_cons in Hl. repeat case_decide; [|done|lia].
      apply preface_loop_inr in Hl; lia. }
    cbn in Hr. unfold iteration_good. case_bool_decide as Hk; rewrite length_preface in Hk; cbn.
    + split_and!; [|done..|lia]. split; cbn; auto. rewrite Hho. unfold RECORD_HEADER_SIZE. lia.
    + split_and!; [|done..|lia]. split; cbn; rewrite ?Hph; auto. split; [lia|done].
Qed.

Lemma header_complete_good p0 n p rest s :
  parser_ok p0 -> phase_ p0 = Header ->
  maximum_record_size_ p = maximum_record_size_ p0 -> phase_ p = Header ->
  preface_offset_ p = preface_offset_ p0 -> length (header_ p) = RECORD_HEADER_SIZE ->
  payload_ p = payload_ p0 -> failed_ p = failed_ p0 -> finished_ p = finished_ p0 ->
  (length rest < n)%nat ->
  iteration_good p0 n (header_complete handler p rest s).
Proof.
  intros [Hm Hh Hb Hp] Hph0 Em Eph Epo Ehl Epl Ef Eg Hn. rewrite Hph0 in Hp.
  unfold header_complete. cbn [maximum_record_size_ set_header set_expected].
  pose proof (header_size_range (header_ p)).
  destruct (Z.gtb_spec (header_size (header_ p)) (maximum_record_size_ p)) as [Hbig|Hfit].
  - cbn. split_and!; auto. split; cbn; rewrite ?Eph, ?Em, ?Epl, ?Epo; auto.
    unfold RECORD_HEADER_SIZE. intuition lia.
  - destruct (Z.eqb_spec (header_size (header_ p)) 0) as [Hz|Hnz].
    + apply call_handler_good; cbn; auto; split; cbn; rewrite ?Eph, ?Em, ?Epo; auto; try lia;
        unfold RECORD_HEADER_SIZE; intuition lia.
    + cbn. split_and!; auto. split; cbn; rewrite ?Em, ?Epo; auto; [lia|].
      rewrite Em in Hfit. intuition lia.
Qed.

Lemma loop_body_good p input s :
  parser_ok p -> input <> [] ->
  iteration_good p (length input) (loop_body handler p input s).
Proof.
  intros Hok Hne. unfold loop_body. destruct (phase_ p) eqn:Hph.
  - by apply preface_iteration_good.
  - unfold header_iteration.
    pose proof Hok as [Hm Hh Hb Hp]. rewrite Hph in Hp. destruct Hp as [Hpo Hho].
    destruct (header_loop _ _ _) as [[h k] rest] eqn:Hl.
    apply header_loop_spec in Hl as (Hlen & Hk & Hsz & Hend); [|lia].
    case_bool_decide as Hfull; cbn [negb].
    + apply header_complete_good; cbn; auto; [congruence|]. lia.
    + cbn. split_and!; auto; [|destruct input; [done|]; destruct Hend as [|Hr]; [done|]; rewrite Hr; cbn; lia].
      split; cbn; rewrite ?Hph; auto; [congruence|lia].
  - unfold payload_iteration.
    pose proof Hok as [Hm Hh Hb Hp]. rewrite Hph in Hp. destruct Hp as (Hpo & Hho & Hsz).
    unfold MAX_RECORD_SIZE in Hm. rewrite size_t_sub_small by lia.
    set (n := Z.min (expected_payload_size_ p - zlen (payload_ p)) (zlen input)).
    assert (Hn : 0 < n) by (destruct input; [done|]; cbn [length] in n; lia).
    assert (Hpl : zlen (payload_ p ++ take (Z.to_nat n) input) = zlen (payload_ p) + n)
      by (rewrite length_app, length_take; lia).
    assert (Hrest : (length (drop (Z.to_nat n) input) < length input)%nat)
      by (rewrite length_drop; destruct input; [done|cbn [length]; lia]).
    cbn [payload_ expected_payload_size_ set_payload]. rewrite Hpl.
    destruct (Z.eqb_spec (zlen (payload_ p) + n) (expected_payload_size_ p)) as [Heq|Hne'].
    + apply call_handler_good; cbn; auto; split; cbn; rewrite ?Hho; auto; try lia;
        unfold RECORD_HEADER_SIZE; intuition lia.
    + cbn. split_and!; auto. split; cbn; rewrite ?Hph; auto; [lia|]. rewrite Hpl. lia.
Qed.

Lemma loop_body_run p input s :
  parser_ok p -> input <> [] -> run handler p input s = resume handler (loop_body handler p input s).
Proof.
  intros Hok Hne. unfold loop_body. destruct (phase_ p) eqn:Hph.
  - by apply preface_iteration_run.
  - by apply header_iteration_run.
  - by apply payload_iteration_run.
Qed.

Lemma consume_loop_run fuel p input s :
  parser_ok p -> (length input <= fuel)%nat ->
  consume_loop handler fuel p input s = Some (run handler p input s).
Proof.
  revert p input s. induction fuel as [|fuel IH]; intros p [|c input] s Hok Hf; try done; [cbn in Hf; lia|].
  rewrite loop_body_run by done. cbn [consume_loop].
  pose proof (loop_body_good p (c :: input) s Hok ltac:(done)) as Hg.
  destruct (loop_body _ _ _ _) as [p' rest s'|b p' s'|e p' s']; cbn [resume]; [|done|done].
  apply IH; [apply Hg|]. destruct Hg as (_ & _ & _ & _ & Hlt). cbn in Hlt, Hf. lia.
Qed.
End invariant.

(** ** Abstract specification: a decoder that reads one byte at a time

    The specification has no offsets, buffers-in-progress or flags: it is in the
    preface, at a length byte, or inside a record body. *)

Inductive DecoderState : Type :=
| DPreface (matched : nat)
| DLength0
| DLength1 (high : byte)
| DBody (size : Z) (body : list byte).

Inductive decoded (St Ex : Type) : Type :=
| Decoding (d : DecoderState) (s : St)
| Stopped (s : St)
| Rejected (code : FramingErrorCode) (s : St)
| HandlerRaised (e : Ex) (s : St).
Arguments Decoding {St Ex} d s.
Arguments Stopped {St Ex} s.
Arguments Rejected {St Ex} code s.
Arguments HandlerRaised {St Ex} e s.

Section decoder.
Context {St Ex : Type}.
Variables (limit : Z) (handler : list byte -> stx St Ex bool).

Definition deliver (record : list byte) (s : St) : decoded St Ex :=
  match handler record s with
  | (Ok true, s') => Decoding DLength0 s'
  | (Ok false, s') => Stopped s'
  | (Throw e, s') => HandlerRaised e s'
  end.

Definition decode_byte (d : DecoderState) (c : byte) (s : St) : decoded St Ex :=
  match d with
  | DPreface n =>
      if decide (preface_bytes !! n = Some c)
      then Decoding (if decide (S n = PREFACE_SIZE) then DLength0 else DPreface (S n)) s
      else Rejected InvalidPreface s
  | DLength0 => Decoding (DLength1 c) s
  | DLength1 h =>
      let size := Z_of_byte h * 256 + Z_of_byte c in
      if decide (limit < size) then Rejected OversizedRecord s
      else if decide (size = 0) then deliver [] s
      else Decoding (DBody size []) s
  | DBody size body =>
      if decide (zlen body + 1 = size) then deliver (body ++ [c]) s
      else Decoding (DBody size (body ++ [c])) s
  end.

Fixpoint decode (d : DecoderState) (input : list byte) (s : St) : decoded St Ex :=
  match input with
  | [] => Decoding d s
  | c :: rest =>
      match decode_byte d c s with
      | Decoding d' s' => decode d' rest s'
      | stop => stop
      end
  end.

Lemma decode_app d a b s :
  decode d (a ++ b) s =
  match decode d a s with
  | Decoding d' s' => decode d' b s'
  | stop => stop
  end.
Proof.
  revert d s. induction a as [|c a IH]; intros d s; [done|]. cbn [app decode].
  destruct (decode_byte d c s); [apply IH|done..].
Qed.
End decoder.

(** The decoder state a parser implements. *)
Definition view (p : RecordParser) : DecoderState :=
  match phase_ p with
  | Preface => DPreface (preface_offset_ p)
  | Header => if decide (header_offset_ p = 0%nat) then DLength0
              else DLength1 (default x00 (header_ p !! 0%nat))
  | Payload => DBody (expected_payload_size_ p) (payload_ p)
  end.

Section refinement.
Context {St Ex : Type}.
Variable handler : list byte -> stx St Ex bool.

(** The outcome of the parser agrees with the outcome of the specification. *)
Definition agrees (r : result (consume_error Ex) bool) (p' : RecordParser) (s' : St)
    (spec : decoded St Ex) : Prop :=
  match spec with
  | Decoding d s1 => r = Ok true /\ failed_ p' = false /\ view p' = d /\ s' = s1
  | Stopped s1 => r = Ok false /\ failed_ p' = true /\ s' = s1
  | Rejected code s1 => r = Throw (Framing code) /\ failed_ p' = true /\ s' = s1
  | HandlerRaised e s1 =>
      r = Throw (HandlerThrew e) /\ failed_ p' = false /\ view p' = DLength0 /\ s' = s1
  end.

(** One byte of the parser is one byte of the specification. *)
Definition simulates (it : iteration (St:=St) (Ex:=Ex)) (spec : decoded St Ex) : Prop :=
  match it with
  | Next p' _ s' => spec = Decoding (view p') s'
  | Return b p' s' => b = false /\ spec = Stopped s'
  | Raise (Framing code) p' s' => spec = Rejected code s'
  | Raise (HandlerThrew e) p' s' => view p' = DLength0 /\ spec = HandlerRaised e s'
  end.

Lemma call_handler_simulates pl p after s :
  view p = DLength0 -> view (after p) = DLength0 ->
  simulates (call_handler handler pl p after [] s) (deliver handler pl s).
Proof.
  intros Hv Ha. unfold call_handler, deliver. destruct (handler pl s) as [[[]|e] s']; cbn; by rewrite ?Ha.
Qed.

Lemma loop_body_simulates p c s :
  parser_ok p ->
  simulates (loop_body handler p [c] s)
            (decode_byte (maximum_record_size_ p) handler (view p) c s).
Proof.
  intros [Hm Hh Hb Hp]. unfold loop_body, view. destruct (phase_ p) eqn:Hph.
  - destruct Hp as [Ho Hho]. unfold preface_iteration, decode_byte. rewrite preface_loop_cons.
    rewrite decide_True by done. case_decide; [|done]. cbn -[PREFACE_SIZE length].
    rewrite length_preface. unfold view. case_bool_decide; cbn.
    + rewrite decide_True by done. by rewrite Hho.
    + rewrite decide_False by done. by rewrite Hph.
  - destruct Hp as [Hpo Hho]. destruct (header_ p) as [|b0 [|b1 [|]]] eqn:Eh; try done.
    assert (header_offset_ p = 0%nat \/ header_offset_ p = 1%nat) as [Ho|Ho]
      by (unfold RECORD_HEADER_SIZE in Hho; lia).
    + rewrite decide_True by done. unfold header_iteration. rewrite Ho, Eh. cbn.
      rewrite bool_decide_false by done. cbn. unfold view. cbn. by rewrite Hph.
    + rewrite decide_False by lia. rewrite header_iteration_last by done. rewrite Eh. cbn -[header_complete].
      unfold header_complete.
      replace (header_size _) with (Z_of_byte b0 * 256 + Z_of_byte c)
        by (symmetry; apply lor_shiftl_8, Z_of_byte_range).
      cbn [maximum_record_size_ set_header set_expected].
      pose proof (Z_of_byte_range b0). pose proof (Z_of_byte_range c).
      destruct (Z.gtb_spec (Z_of_byte b0 * 256 + Z_of_byte c) (maximum_record_size_ p)).
      { by rewrite decide_True by lia. }
      rewrite decide_False by lia.
      destruct (Z.eqb_spec (Z_of_byte b0 * 256 + Z_of_byte c) 0).
      { rewrite decide_True by done. apply call_handler_simulates; unfold view; cbn; by rewrite Hph. }
      by rewrite decide_False by done.
  - destruct Hp as (Hpo & Hho & Hsz). unfold MAX_RECORD_SIZE in Hm.
    unfold payload_iteration, decode_byte. rewrite size_t_sub_small by lia.
    cbn [length]. rewrite Z.min_r by lia. change (Z.to_nat (Z.of_nat 1)) with 1%nat. cbn [take drop].
    cbn [payload_ expected_payload_size_ set_payload]. rewrite length_app. cbn [length].
    destruct (Z.eqb_spec (Z.of_nat (length (payload_ p) + 1)) (expected_payload_size_ p)).
    + rewrite decide_True by lia. apply call_handler_simulates; unfold view; cbn; by rewrite Hho.
    + rewrite decide_False by lia. cbn. unfold view. cbn. by rewrite Hph.
Qed.

Lemma run_good p input s :
  parser_ok p ->
  let '(r, p', s') := run handler p input s in
  parser_ok p' /\ maximum_record_size_ p' = maximum_record_size_ p /\
  finished_ p' = finished_ p /\
  (failed_ p = false -> agrees r p' s' (decode (maximum_record_size_ p) handler (view p) input s)).
Proof.
  revert p s. induction input as [|c input IH]; intros p s Hok; [done|].
  rewrite run_cons. cbn [decode].
  pose proof (loop_body_good handler p [c] s Hok ltac:(done)) as Hg.
  pose proof (loop_body_simulates p c s Hok) as Hs.
  destruct (loop_body handler p [c] s) as [p' rest s'|b p' s'|[code|e] p' s']; cbn in *.
  - destruct Hg as (Hok' & Hm & Hf & Hfin & _). specialize (IH p' s' Hok').
    destruct (run handler p' input s') as [[r p''] s'']. destruct IH as (? & ? & ? & Hag).
    rewrite Hs. split_and!; [done|congruence|congruence|]. intros Hnf.
    rewrite <-Hm. apply Hag. congruence.
  - destruct Hs as [-> ->], Hg as (? & ? & ? & ?). split_and!; cbn; auto.
  - rewrite Hs. destruct Hg as (? & ? & ? & ?). split_and!; cbn; auto.
  - destruct Hs as [Hv ->], Hg as (? & ? & ? & ?). split_and!; cbn; auto.
    intros; split_and!; congruence.
Qed.

Lemma consume_run p input s :
  parser_ok p -> failed_ p = false -> finished_ p = false ->
  consume handler p input s = Some (run handler p input s).
Proof. intros Hok Hf Hg. unfold consume. rewrite Hf, Hg. by apply consume_loop_run. Qed.
End refinement.

(** ** Streams: chunked consumption, encoding and decoding *)

(** The reader's loop: one [consume] call per chunk that [recv] returned. *)
Fixpoint consume_chunks {St Ex} (handler : list byte -> stx St Ex bool)
    (p : RecordParser) (chunks : list (list byte)) (s : St)
  : option (result (consume_error Ex) bool * RecordParser * St) :=
  match chunks with
  | [] => Some (Ok true, p, s)
  | chunk :: rest =>
      match consume handler p chunk s with
      | Some (Ok true, p', s') => consume_chunks handler p' rest s'
      | r => r
      end
  end.

(** A handler that records what it is given and always continues. *)
Definition collect {Ex} (record : list byte) : stx (list (list byte)) Ex bool :=
  fun rs => (Ok true, rs ++ [record]).

Section streams.
Context {St Ex : Type}.
Variable handler : list byte -> stx St Ex bool.

Lemma run_true_live p input s p' s' :
  parser_ok p -> failed_ p = false -> finished_ p = false ->
  run handler p input s = (Ok true, p', s') ->
  parser_ok p' /\ failed_ p' = false /\ finished_ p' = false /\
  maximum_record_size_ p' = maximum_record_size_ p.
Proof.
  intros Hok Hf Hg Hr. pose proof (run_good handler p input s Hok) as H. rewrite Hr in H.
  destruct H as (? & ? & ? & Ha). specialize (Ha Hf). unfold agrees in Ha.
  destruct (decode _ _ _ _ _); [split_and!; try congruence; tauto|destruct Ha; congruence..].
Qed.

Lemma consume_app p a b s :
  parser_ok p -> failed_ p = false -> finished_ p = false ->
  consume handler p (a ++ b) s =
  match consume handler p a s with
  | Some (Ok true, p', s') => consume handler p' b s'
  | r => r
  end.
Proof.
  intros Hok Hf Hg. rewrite !consume_run, run_app by done.
  destruct (run handler p a s) as [[[[]|e] p'] s'] eqn:Hr; try done.
  apply run_true_live in Hr as (? & ? & ? & _); [|done..]. by rewrite consume_run.
Qed.

Lemma consume_chunks_run p chunks s :
  parser_ok p -> failed_ p = false -> finished_ p = false ->
  consume_chunks handler p chunks s = Some (run handler p (concat chunks) s).
Proof.
  revert p s. induction chunks as [|c chunks IH]; intros p s Hok Hf Hg; [done|].
  cbn [consume_chunks concat]. rewrite consume_run, run_app by done.
  destruct (run handler p c s) as [[[[]|e] p'] s'] eqn:Hr; try done.
  apply run_true_live in Hr as (? & ? & ? & _); [|done..]. by apply IH.
Qed.

Lemma decode_body limit size body xs s :
  xs <> [] -> zlen body + zlen xs = size ->
  decode limit handler (DBody size body) xs s = deliver handler (body ++ xs) s.
Proof.
  revert body. induction xs as [|c xs IH]; intros body Hne Hsz; [done|].
  cbn [decode decode_byte]. destruct xs as [|d xs].
  - rewrite decide_True by (cbn in Hsz; lia). by destruct (deliver _ _ _).
  - rewrite decide_False by (cbn in Hsz; lia).
    rewrite IH; [by rewrite <-app_assoc|done|]. rewrite length_app. cbn [length] in *. lia.
Qed.

Lemma decode_encoded limit r e s :
  limit <= MAX_RECORD_SIZE -> encode_record r = Some e -> zlen r <= limit ->
  decode limit handler DLength0 e s = deliver handler r s.
Proof.
  unfold encode_record, MAX_RECORD_SIZE. intros Hl. destruct (Z.gtb_spec (zlen r) 65535); [done|].
  intros [= <-] Hr. cbn [decode decode_byte].
  rewrite <-lor_shiftl_8 by apply Z_of_byte_range. rewrite be16_split by lia.
  rewrite decide_False by lia. destruct r as [|b r].
  - cbn. by destruct (deliver _ _ _).
  - rewrite decide_False by (cbn; lia). by rewrite decode_body by done.
Qed.

Lemma decode_preface limit s rest :
  decode limit handler (DPreface 0) (preface_bytes ++ rest) s = decode limit handler DLength0 rest s.
Proof. reflexivity. Qed.
End streams.

Lemma decode_records {Ex} limit rs es acc :
  limit <= MAX_RECORD_SIZE -> Forall2 (fun r e => encode_record r = Some e) rs es ->
  Forall (fun r => zlen r <= limit) rs ->
  decode limit (collect (Ex:=Ex)) DLength0 (concat es) acc = Decoding DLength0 (acc ++ rs).
Proof.
  intros Hl H2. revert acc. induction H2 as [|r e rs es He H2 IH]; intros acc Hf.
  { cbn. by rewrite app_nil_r. }
  apply Forall_cons in Hf as [Hr Hf]. cbn [concat]. rewrite decode_app.
  rewrite (decode_encoded _ _ r) by done. cbn. rewrite IH by done. by rewrite <-app_assoc.
Qed.

(** What the bytes read so far must have been. *)
Definition partial (d : DecoderState) : list byte :=
  match d with
  | DPreface n => take n preface_bytes
  | DLength0 => []
  | DLength1 h => [h]
  | DBody size body =>
      [byte_of_Z (Z.land (Z.shiftr size 8) 255); byte_of_Z (Z.land size 255)] ++ body
  end.

Definition history (limit : Z) (d : DecoderState) (rs : list (list byte)) (input : list byte) : Prop :=
  match d with
  | DPreface n => (n < PREFACE_SIZE)%nat /\ rs = [] /\ input = take n preface_bytes
  | _ => exists es, Forall2 (fun r e => encode_record r = Some e) rs es /\
                    Forall (fun r => zlen r <= limit) rs /\
                    input = preface_bytes ++ concat es ++ partial d /\
                    match d with DBody size body => zlen body < size <= limit | _ => True end
  end.

Lemma encode_record_size r :
  zlen r <= MAX_RECORD_SIZE ->
  encode_record r = Some (byte_of_Z (Z.land (Z.shiftr (zlen r) 8) 255)
                          :: byte_of_Z (Z.land (zlen r) 255) :: r).
Proof. intros. unfold encode_record. by destruct (Z.gtb_spec (zlen r) MAX_RECORD_SIZE); [lia|]. Qed.

Lemma decode_byte_history {Ex} limit d rs input c d' rs' :
  0 <= limit <= MAX_RECORD_SIZE -> history limit d rs input ->
  decode_byte limit (collect (Ex:=Ex)) d c rs = Decoding d' rs' ->
  history limit d' rs' (input ++ [c]).
Proof.
  intros Hl Hh. unfold decode_byte, deliver, collect. destruct d as [n| |h|size body].
  - destruct Hh as (Hn & -> & ->). case_decide as Hc; [|done]. intros [= <- <-].
    pose proof (take_S_r _ _ _ Hc) as Ht. case_decide as Hfull.
    + exists []. split_and!; [constructor|constructor| |done].
      rewrite <-Ht, Hfull. cbn. done.
    + cbn. split_and!; [unfold PREFACE_SIZE in *; lia|done|by rewrite <-Ht].
  - destruct Hh as (es & ? & ? & -> & _). intros [= <- <-]. exists es. split_and!; try done.
    cbn. by rewrite <-!app_assoc.
  - destruct Hh as (es & Hes & Hrs & -> & _).
    pose proof (Z_of_byte_range h). pose proof (Z_of_byte_range c).
    destruct (be16_join_split h c) as (_ & Hj1 & Hj2). rewrite lor_shiftl_8 in Hj1, Hj2 by done.
    case_decide; [done|]. case_decide as Hz; intros [= <- <-].
    + exists (es ++ [[h; c]]). split_and!; [..|done].
      * apply Forall2_app; [done|]. constructor; [|constructor].
        rewrite encode_record_size by (cbn; unfold MAX_RECORD_SIZE; lia).
        cbn [length]. change (Z.of_nat 0) with 0. rewrite Hz in Hj1, Hj2. by rewrite Hj1, Hj2.
      * apply Forall_app; split; [done|]. constructor; [cbn; lia|constructor].
      * rewrite concat_app. cbn. by rewrite <-!app_assoc.
    + exists es. split_and!; [done|done| |cbn; lia|cbn; lia].
      cbn [partial app]. rewrite Hj1, Hj2. by rewrite <-!app_assoc.
  - destruct Hh as (es & Hes & Hrs & -> & Hsz). case_decide as Hlast; intros [= <- <-].
    + exists (es ++ [partial (DBody size (body ++ [c]))]).
      assert (Hn : zlen (body ++ [c]) = size) by (rewrite length_app; cbn; lia).
      split_and!; [..|done].
      * apply Forall2_app; [done|]. constructor; [|constructor].
        rewrite encode_record_size by lia. by rewrite Hn.
      * apply Forall_app; split; [done|]. constructor; [lia|constructor].
      * rewrite concat_app. cbn. by rewrite <-!app_assoc, app_nil_r.
    + exists es. split_and!; [done|done| |rewrite length_app; cbn; lia|lia].
      cbn. by rewrite <-!app_assoc.
Qed.

Lemma decode_history {Ex} limit input d' rs' :
  0 <= limit <= MAX_RECORD_SIZE ->
  decode limit (collect (Ex:=Ex)) (DPreface 0) input [] = Decoding d' rs' ->
  history limit d' rs' input.
Proof.
  intros Hl. revert d' rs'. induction input as [|c input IH] using rev_ind; intros d' rs'.
  { intros [= <- <-]. cbn. unfold PREFACE_SIZE. auto with lia. }
  rewrite decode_app. destruct (decode _ _ _ input _) as [d rs| | |]; try done.
  cbn [decode]. destruct (decode_byte _ _ _ _ _) eqn:Hb; try done.
  intros [= -> ->]. eapply decode_byte_history; eauto.
Qed.

Lemma consume_loop_gives_up {St Ex} (handler : list byte -> stx St Ex bool) fuel p input s r p' s' :
  consume_loop handler fuel p input s = Some (r, p', s') ->
  r = Ok false \/ (exists code, r = Throw (Framing code)) -> failed_ p' = true.
Proof.
  revert p input s. induction fuel as [|fuel IH]; intros p [|c input] s; cbn [consume_loop];
    [intros [= <- <- <-] [?|[]]; done|done|intros [= <- <- <-] [?|[]]; done|].
  destruct (loop_body _ _ _ _) as [q rest s1|b q s1|e q s1] eqn:Hb; [apply IH|..];
    intros [= <- <- <-] Hr; revert Hb;
    unfold loop_body, preface_iteration, header_iteration, header_complete, payload_iteration, call_handler;
    repeat case_match; intros; simplify_eq; try done; destruct Hr as [?|[]]; done.
Qed.

(** ** Properties *)

(** C4. [RecordParser::consume] implements the byte-at-a-time decoder.  On
    every parser in a valid, live state and every input, [consume] returns (the
    loop terminates), keeps the parser's invariant and configured limit, and its
    outcome is the decoder's: it returns [true] and stands for the decoder's
    state; or a record handler returned [false] and the parser is failed; or the
    framing error the decoder reports is thrown and the parser is failed; or the
    handler's own exception passes through and the parser is left at a record
    boundary, not failed. *)
Theorem consume_refines_decoder {St Ex} (handler : list byte -> stx St Ex bool) p input s :
  parser_ok p -> failed_ p = false -> finished_ p = false ->
  exists r p' s',
    consume handler p input s = Some (r, p', s') /\
    parser_ok p' /\ maximum_record_size_ p' = maximum_record_size_ p /\ finished_ p' = false /\
    agrees r p' s' (decode (maximum_record_size_ p) handler (view p) input s).
Proof.
  intros Hok Hf Hg. rewrite consume_run by done.
  pose proof (run_good handler p input s Hok) as H.
  destruct (run handler p input s) as [[r p'] s']. destruct H as (? & ? & ? & Ha).
  exists r, p', s'. split_and!; try done; [congruence|by apply Ha].
Qed.

(** Stream fragmentation is invisible: however the peer's bytes are cut into
    [recv] chunks, feeding the chunks one by one gives exactly the result, the
    parser state and the handler effects of feeding them at once, on every
    outcome. *)
Theorem consume_fragmentation {St Ex} (handler : list byte -> stx St Ex bool) p chunks s :
  parser_ok p -> failed_ p = false -> finished_ p = false ->
  consume_chunks handler p chunks s = consume handler p (concat chunks) s.
Proof. intros. by rewrite consume_chunks_run, consume_run. Qed.

(** C15. Round trip: records that fit the parser's limit, written as the preface
    followed by their [encode_record] encodings and delivered in any chunks, are
    handed to the handler exactly once each, in order and unchanged; the parser
    stays live and end of stream is clean. *)
Theorem stream_roundtrip {Ex} limit p rs es chunks :
  0 <= limit -> new_RecordParser limit = Some p ->
  mapM encode_record rs = Some es -> Forall (fun r => zlen r <= limit) rs ->
  concat chunks = preface_bytes ++ concat es ->
  exists p', consume_chunks (collect (Ex:=Ex)) p chunks [] = Some (Ok true, p', rs) /\
             finish p' = (Ok tt, set_finished p').
Proof.
  intros Hl Hp Hes Hrs Hc. pose proof (parser_ok_new _ _ Hl Hp) as Hok.
  assert (failed_ p = false /\ finished_ p = false /\ view p = DPreface 0 /\
          maximum_record_size_ p = limit /\ limit <= MAX_RECORD_SIZE) as (Hf & Hg & Hv & Hm & Hb).
  { revert Hp. unfold new_RecordParser. destruct (Z.gtb_spec limit MAX_RECORD_SIZE); [done|].
    by intros [= <-]. }
  rewrite consume_chunks_run, Hc by done.
  pose proof (run_good (collect (Ex:=Ex)) p (preface_bytes ++ concat es) [] Hok) as H.
  destruct (run _ _ _ _) as [[r p'] rs']. destruct H as (_ & _ & Hg' & Ha). specialize (Ha Hf).
  rewrite Hv, Hm, decode_preface, (decode_records _ rs) in Ha
    by (done || by apply mapM_Some).
  destruct Ha as (-> & Hf' & Hv' & ->). exists p'. split; [done|].
  unfold finish, view in *. rewrite Hf', Hg', Hg. destruct (phase_ p'); try done.
  by case_decide as Ho; [rewrite Ho|].
Qed.

(** Exactness: a stream on which a fresh parser never fails and whose end is
    clean is byte for byte the preface followed by the encodings of the delivered
    records, each within the limit.  No other byte string is accepted. *)
Theorem stream_exact {Ex} limit p input p' rs p'' :
  0 <= limit -> new_RecordParser limit = Some p ->
  consume (collect (Ex:=Ex)) p input [] = Some (Ok true, p', rs) ->
  finish p' = (Ok tt, p'') ->
  exists es, mapM encode_record rs = Some es /\ Forall (fun r => zlen r <= limit) rs /\
             input = preface_bytes ++ concat es.
Proof.
  intros Hl Hp Hc Hfin. pose proof (parser_ok_new _ _ Hl Hp) as Hok.
  revert Hp. unfold new_RecordParser.
  destruct (Z.gtb_spec limit MAX_RECORD_SIZE); [done|]. intros [= Hp].
  rewrite consume_run in Hc by (done || by subst p). injection Hc as Hr.
  pose proof (run_good (collect (Ex:=Ex)) p input [] Hok) as H'. rewrite Hr in H'.
  destruct H' as (_ & _ & Hg & Ha). specialize (Ha ltac:(by subst p)).
  replace (maximum_record_size_ p) with limit in Ha by (by subst p).
  replace (view p) with (DPreface 0) in Ha by (by subst p).
  unfold agrees in Ha. destruct (decode _ _ _ _ _) as [d rs'| | |] eqn:Hd; [|destruct Ha; congruence..].
  destruct Ha as (_ & Hf & Hv & <-). apply decode_history in Hd; [|lia].
  assert (d = DLength0) as ->.
  { revert Hfin. rewrite <-Hv. unfold finish, view. rewrite Hf, Hg.
    replace (finished_ p) with false by (by subst p).
    destruct (phase_ p'); try done. destruct (Nat.eqb_spec (header_offset_ p') 0); cbn; [|done].
    by rewrite decide_True. }
  destruct Hd as (es & Hes & Hrs & -> & _). exists es.
  split_and!; [by apply mapM_Some|done|]. cbn. by rewrite app_nil_r.
Qed.

(** Memory bound: whatever the peer sends and however the handler behaves,
    the parser never buffers more than its configured limit, which is at most
    65,535 bytes; the declared length is checked before the payload phase is
    entered. *)
Theorem buffer_bounded {St Ex} (handler : list byte -> stx St Ex bool) p chunks s r p' s' :
  parser_ok p -> failed_ p = false -> finished_ p = false ->
  consume_chunks handler p chunks s = Some (r, p', s') ->
  buffered_payload_size p' <= maximum_record_size_ p <= MAX_RECORD_SIZE /\
  (phase_ p' = Payload -> expected_payload_size_ p' <= maximum_record_size_ p).
Proof.
  intros Hok Hf Hg. rewrite consume_chunks_run by done. intros [= Hr].
  pose proof (run_good handler p (concat chunks) s Hok) as H. rewrite Hr in H.
  destruct H as (Hok' & Hm & _ & _). rewrite <-Hm.
  split; [split; [apply Hok'|apply Hok']|].
  intros Hph. pose proof (ok_phase _ Hok') as Hp. rewrite Hph in Hp. apply Hp.
Qed.

(** Terminal states: once [consume] has thrown a framing error or a handler
    has returned [false], every later [consume] throws [ParserFinished] without
    calling its handler (the handler's state is untouched), and so does
    [finish]. *)
Theorem terminal_parser {St Ex} (handler : list byte -> stx St Ex bool) p input s r p' s' :
  consume handler p input s = Some (r, p', s') ->
  r = Ok false \/ (exists code, r = Throw (Framing code)) ->
  finish p' = (Throw ParserFinished, set_failed p') /\
  forall handler' input' (s2 : St),
    consume (Ex:=Ex) handler' p' input' s2 = Some (Throw (Framing ParserFinished), set_failed p', s2).
Proof.
  intros Hc Hr. assert (failed_ p' = true) as Hf.
  { revert Hc. unfold consume. case_match; [by intros [= <- <- <-]|].
    intros Hc. by eapply consume_loop_gives_up. }
  unfold finish, consume. by rewrite Hf.
Qed.

(** End of stream: on a live parser [finish] succeeds exactly at a record
    boundary after a complete preface, and otherwise reports which unit was cut
    short. *)
Theorem finish_classifies_eof p :
  parser_ok p -> failed_ p = false -> finished_ p = false ->
  fst (finish p) = match view p with
                   | DPreface _ => Throw TruncatedPreface
                   | DLength0 => Ok tt
                   | DLength1 _ => Throw TruncatedHeader
                   | DBody _ _ => Throw TruncatedPayload
                   end.
Proof.
  intros Hok Hf Hg. unfold finish, view. rewrite Hf, Hg.
  destruct (phase_ p); try done. by destruct (header_offset_ p).
Qed.

(** ** Concrete runs *)

Definition example_parser : RecordParser :=
  mkRecordParser 4096 Preface 0 [x00; x00] 0 0 [] false false.
Definition example_records : list (list byte) := [[x68; x69]; []; [x21]].
Definition example_encodings : list (list byte) := [[x00; x02; x68; x69]; [x00; x00]; [x00; x01; x21]].
Definition example_stream : list byte := preface_bytes ++ concat example_encodings.
Definition example_chunks : list (list byte) :=
  [take 4 example_stream; take 9 (drop 4 example_stream); drop 13 example_stream].

Lemma example_parser_ok : parser_ok example_parser.
Proof. by apply (parser_ok_new 4096). Qed.

Lemma consume_refines_decoder_witness :
  exists r p' s', consume (collect (Ex:=False)) example_parser example_stream [] = Some (r, p', s') /\
    parser_ok p' /\ maximum_record_size_ p' = 4096 /\ finished_ p' = false /\
    agrees r p' s' (decode 4096 collect (DPreface 0) example_stream []).
Proof.
  exact (consume_refines_decoder (collect (Ex:=False)) example_parser example_stream []
           example_parser_ok eq_refl eq_refl).
Defined.

Lemma consume_fragmentation_witness :
  consume_chunks (collect (Ex:=False)) example_parser example_chunks [] =
  consume collect example_parser (concat example_chunks) [].
Proof.
  exact (consume_fragmentation (collect (Ex:=False)) example_parser example_chunks []
           example_parser_ok eq_refl eq_refl).
Defined.

Lemma stream_roundtrip_witness :
  exists p', consume_chunks (collect (Ex:=False)) example_parser example_chunks [] =
               Some (Ok true, p', example_records) /\ finish p' = (Ok tt, set_finished p').
Proof.
  apply (stream_roundtrip 4096 example_parser example_records example_encodings example_chunks);
    [lia|reflexivity|vm_compute; reflexivity|repeat constructor; cbn; lia|vm_compute; reflexivity].
Defined.

Definition example_final : RecordParser :=
  mkRecordParser 4096 Header 10 [x00; x01] 0 0 [] false false.

Lemma stream_exact_witness :
  exists es, mapM encode_record example_records = Some es /\
    Forall (fun r => zlen r <= 4096) example_records /\ example_stream = preface_bytes ++ concat es.
Proof.
  apply (stream_exact (Ex:=False) 4096 example_parser example_stream example_final example_records
           (set_finished example_final)); [lia|reflexivity|vm_compute; reflexivity|reflexivity].
Defined.

Lemma buffer_bounded_witness :
  let p' := mkRecordParser 4096 Payload 10 [x10; x00] 0 4096 [x68] false false in
  buffered_payload_size p' <= 4096 <= MAX_RECORD_SIZE /\
  (phase_ p' = Payload -> expected_payload_size_ p' <= 4096).
Proof.
  apply (buffer_bounded (collect (Ex:=False)) example_parser [preface_bytes; [x10]; [x00; x68]] []
           (Ok true) _ []); [exact example_parser_ok|reflexivity|reflexivity|vm_compute; reflexivity].
Defined.

Lemma terminal_parser_witness :
  let p' := set_failed (set_preface_offset 1 example_parser) in
  finish p' = (Throw ParserFinished, set_failed p') /\
  forall handler' input' (s2 : list (list byte)),
    consume (Ex:=False) handler' p' input' s2 = Some (Throw (Framing ParserFinished), set_failed p', s2).
Proof.
  apply (terminal_parser (collect (Ex:=False)) example_parser [x47; x42] []
           (Throw (Framing InvalidPreface)) _ []); [vm_compute; reflexivity|eauto].
Defined.

Lemma finish_classifies_eof_witness : fst (finish example_parser) = Throw TruncatedPreface.
Proof. exact (finish_classifies_eof example_parser example_parser_ok eq_refl eq_refl). Defined.
