(* ===== verification/Uuid.v ===== *)
(** * UUID text and bytes

    The three places that read or write textual UUIDs:
    [trust_uuid_from_string] / [trust_uuid_to_string] / [trust_public_key_from_bytes]
    ([core/trust/trust_store.cpp]), [is_valid_uuid] (two copies:
    [core/identity/device_identity.cpp] and [core/discovery/discovery_client.cpp])
    and [generate_uuid] ([core/identity/device_identity.cpp]).  The theorems: the
    text/byte round trip, agreement of the validators with the parser, and the
    version-4 shape of generated identifiers. *)

From S2P Require Import Prelude.
From Stdlib Require Import Ascii.

Local Open Scope nat_scope.

(** ** Data *)

(** [std::array<unsigned char, 16>] and [std::array<unsigned char, 32>]. *)
Definition TrustUuid : Type := list byte.
Definition TrustPublicKey : Type := list byte.

(** [TrustStoreError]: a failed [require] with its message, or a SQLite result code. *)
Inductive TrustStoreError : Type :=
| Required (message : string)
| SqliteError (code : Z).

(** [value[i]]; every index the code uses is in range. *)
Definition char_at (value : string) (i : nat) : ascii := default zero (String.get i value).

Definition char_in (lo c hi : ascii) : bool :=
  ((N_of_ascii lo <=? N_of_ascii c) && (N_of_ascii c <=? N_of_ascii hi))%N.

Definition char_sub (c base : ascii) : Z := (Z.of_N (N_of_ascii c) - Z.of_N (N_of_ascii base))%Z.

(** ** [trust_uuid_from_string] *)

(** The [hex] lambda: [None] is its [throw]. *)
Definition hex (c : ascii) : option Z :=
  if char_in "0" c "9" then Some (char_sub c "0")
  else if char_in "a" c "f" then Some (char_sub c "a" + 10)%Z
  else if char_in "A" c "F" then Some (char_sub c "A" + 10)%Z
  else None.

Definition is_separator_byte (i : nat) : bool := (i =? 4) || (i =? 6) || (i =? 8) || (i =? 10).

(** The [for] loop over the 16 result bytes; [input] is the read position. *)
Fixpoint uuid_from_loop (value : string) (remaining i input : nat)
  : result TrustStoreError (list byte) :=
  match remaining with
  | O => Ok []
  | S remaining =>
      let sep := is_separator_byte i in
      if sep && negb (bool_decide (char_at value input = "-"%char))
      then Throw (Required "invalid UUID separator")
      else
        let input := if sep then S input else input in
        match hex (char_at value input), hex (char_at value (S input)) with
        | Some h, Some l =>
            match uuid_from_loop value remaining (S i) (input + 2) with
            | Ok rest => Ok (byte_of_Z (Z.lor (Z.shiftl h 4) l) :: rest)
            | Throw e => Throw e
            end
        | _, _ => Throw (Required "invalid UUID hex digit")
        end
  end.

Definition trust_uuid_from_string (value : string) : result TrustStoreError TrustUuid :=
  if negb (String.length value =? 36) then Throw (Required "UUID must have 36 characters")
  else uuid_from_loop value 16 0 0.

(** ** [trust_uuid_to_string] *)

Definition digits : string := "0123456789abcdef".
Definition digit (z : Z) : ascii := char_at digits (Z.to_nat z).

Fixpoint uuid_to_loop (value : list byte) (i : nat) : string :=
  match value with
  | [] => ""
  | b :: rest =>
      let tail := String (digit (Z.shiftr (Z_of_byte b) 4))
                    (String (digit (Z.land (Z_of_byte b) 15)) (uuid_to_loop rest (S i))) in
      if is_separator_byte i then String "-" tail else tail
  end.

Definition trust_uuid_to_string (value : TrustUuid) : string := uuid_to_loop value 0.

Definition trust_public_key_from_bytes (value : list byte) : result TrustStoreError TrustPublicKey :=
  if length value =? 32 then Ok value
  else Throw (Required "Ed25519 public key must have 32 bytes").

(** ** [is_valid_uuid] *)

Definition is_hex_digit (c : ascii) : bool :=
  char_in "0" c "9" || char_in "a" c "f" || char_in "A" c "F".

Definition is_dash_index (i : nat) : bool := (i =? 8) || (i =? 13) || (i =? 18) || (i =? 23).

(** The checks from index [i] on. *)
Fixpoint valid_uuid_loop (value : string) (i : nat) : bool :=
  match value with
  | EmptyString => true
  | String c rest =>
      if is_dash_index i then
        if negb (bool_decide (c = "-"%char)) then false else valid_uuid_loop rest (S i)
      else if negb (is_hex_digit c) then false else valid_uuid_loop rest (S i)
  end.

(** [is_valid_uuid] of [discovery_client.cpp]. *)
Definition discovery_is_valid_uuid (value : string) : bool :=
  if negb (String.length value =? 36) then false else valid_uuid_loop value 0.

(** [is_valid_uuid] of [device_identity.cpp], whose hex test is written inline. *)
Definition UUID_SIZE : nat := 36.
Fixpoint identity_uuid_loop (value : string) (i : nat) : bool :=
  match value with
  | EmptyString => true
  | String c rest =>
      if is_dash_index i then
        if bool_decide (c <> "-"%char) then false else identity_uuid_loop rest (S i)
      else if negb (char_in "0" c "9" || char_in "a" c "f" || char_in "A" c "F") then false
      else identity_uuid_loop rest (S i)
  end.
Definition identity_is_valid_uuid (value : string) : bool :=
  if negb (String.length value =? UUID_SIZE) then false else identity_uuid_loop value 0.

(** ** [generate_uuid] *)

(** The 16 random bytes are the result of [randombytes_buf]. *)
Definition set_version_bits (bytes : list byte) : list byte :=
  let bytes := <[6 := byte_of_Z (Z.lor (Z.land (Z_of_byte (default x00 (bytes !! 6))) 0x0F) 0x40)]> bytes in
  <[8 := byte_of_Z (Z.lor (Z.land (Z_of_byte (default x00 (bytes !! 8))) 0x3F) 0x80)]> bytes.

Definition generate_uuid (random : list byte) : string := uuid_to_loop (set_version_bits random) 0.

(** ** Lemmas *)

Lemma is_hex_digit_hex c : is_hex_digit c = match hex c with Some _ => true | None => false end.
Proof. unfold is_hex_digit, hex. by repeat case_match. Qed.

(** Every hexadecimal character encodes a nibble. *)
Lemma hex_range c h : hex c = Some h -> (0 <= h < 16)%Z.
Proof. destruct c as [[] [] [] [] [] [] [] []]; vm_compute; intros H; by simplify_eq. Qed.

Lemma hex_digit z : (0 <= z < 16)%Z -> hex (digit z) = Some z.
Proof.
  intros Hz. assert (z ∈ [0;1;2;3;4;5;6;7;8;9;10;11;12;13;14;15]%Z) as Hin.
  { repeat rewrite elem_of_cons. lia. }
  repeat (apply elem_of_cons in Hin as [->|Hin]; [reflexivity|]). by apply elem_of_nil in Hin.
Qed.

Lemma nibbles b :
  let h := Z.shiftr (Z_of_byte b) 4 in let l := Z.land (Z_of_byte b) 15 in
  (0 <= h < 16)%Z /\ (0 <= l < 16)%Z /\ byte_of_Z (Z.lor (Z.shiftl h 4) l) = b.
Proof. destruct b; vm_compute; repeat split; intros; discriminate. Qed.

Lemma nibbles_join h l :
  (0 <= h < 16)%Z -> (0 <= l < 16)%Z ->
  Z.shiftr (Z_of_byte (byte_of_Z (Z.lor (Z.shiftl h 4) l))) 4 = h /\
  Z.land (Z_of_byte (byte_of_Z (Z.lor (Z.shiftl h 4) l))) 15 = l.
Proof.
  intros Hh Hl.
  assert (Hin : forall z, (0 <= z < 16)%Z -> z ∈ [0;1;2;3;4;5;6;7;8;9;10;11;12;13;14;15]%Z).
  { intros z Hz. repeat rewrite elem_of_cons. lia. }
  apply Hin in Hh, Hl. clear Hin.
  assert (Hall : Forall (fun h => Forall (fun l =>
            Z.shiftr (Z_of_byte (byte_of_Z (Z.lor (Z.shiftl h 4) l))) 4 = h /\
            Z.land (Z_of_byte (byte_of_Z (Z.lor (Z.shiftl h 4) l))) 15 = l)
            [0;1;2;3;4;5;6;7;8;9;10;11;12;13;14;15]%Z) [0;1;2;3;4;5;6;7;8;9;10;11;12;13;14;15]%Z).
  { repeat constructor. }
  rewrite Forall_forall in Hall. specialize (Hall h Hh). rewrite Forall_forall in Hall. by apply Hall.
Qed.

(** Lower case of a hexadecimal character (the form [trust_uuid_to_string] writes). *)
Definition lower (c : ascii) : ascii :=
  if char_in "A" c "F" then ascii_of_N (N_of_ascii c + 32) else c.
Fixpoint lower_string (s : string) : string :=
  match s with EmptyString => "" | String c s => String (lower c) (lower_string s) end.

Lemma digit_hex c h : hex c = Some h -> digit h = lower c.
Proof. destruct c as [[] [] [] [] [] [] [] []]; vm_compute; intros H; by simplify_eq. Qed.

Lemma lower_dash : lower "-" = "-"%char.
Proof. reflexivity. Qed.

Lemma length_36_inv value :
  String.length value = 36 -> exists cs, length cs = 36 /\ value = String.string_of_list_ascii cs.
Proof.
  intros H. exists (String.list_ascii_of_string value).
  rewrite String.string_of_list_ascii_of_string. split; [|done].
  rewrite <-H. clear H. induction value as [|c value IH]; cbn; [done|by rewrite IH].
Qed.

(** Name the 36 characters of a string, the 16 bytes of an identifier. *)
Ltac explode_list l H :=
  lazymatch type of H with
  | length _ = 0 => apply nil_length_inv in H; subst l
  | _ => let c := fresh "c" in destruct l as [|c l]; [discriminate H|];
         cbn [length] in H; apply Nat.succ_inj in H; explode_list l H
  end.

Lemma digits_of_pair c c' h l :
  hex c = Some h -> hex c' = Some l ->
  digit (Z.shiftr (Z_of_byte (byte_of_Z (Z.lor (Z.shiftl h 4) l))) 4) = lower c /\
  digit (Z.land (Z_of_byte (byte_of_Z (Z.lor (Z.shiftl h 4) l))) 15) = lower c'.
Proof.
  intros Hh Hl.
  destruct (nibbles_join h l (hex_range _ _ Hh) (hex_range _ _ Hl)) as [-> ->].
  eauto using digit_hex.
Qed.

(** Parsing reads the characters in the order the validators test them: it
    succeeds exactly on valid text, and printing gives the text back in lower
    case. *)
Lemma from_loop_spec cs :
  length cs = 36 ->
  match uuid_from_loop (String.string_of_list_ascii cs) 16 0 0 with
  | Ok u => valid_uuid_loop (String.string_of_list_ascii cs) 0 = true /\ length u = 16 /\
            uuid_to_loop u 0 = lower_string (String.string_of_list_ascii cs)
  | Throw _ => valid_uuid_loop (String.string_of_list_ascii cs) 0 = false
  end.
Proof.
  intros H. explode_list cs H.
  cbn [String.string_of_list_ascii uuid_from_loop is_separator_byte is_dash_index valid_uuid_loop
       Nat.eqb orb andb negb char_at String.get default Nat.add id].
  rewrite !is_hex_digit_hex.
  repeat (match goal with
          | |- context [hex ?c] => destruct (hex c) as [?|] eqn:?; [|reflexivity]
          | |- context [bool_decide (?c = _)] =>
              destruct (bool_decide_reflect (c = "-"%char)); [subst c|reflexivity]
          end; cbn [negb]).
  split; [done|split; [done|]].
  cbn [uuid_to_loop is_separator_byte Nat.eqb orb lower_string].
  repeat match goal with
         | |- context [Z.lor (Z.shiftl ?h 4) ?l] =>
             match goal with
             | Hh : hex ?c = Some h, Hl : hex ?c' = Some l |- _ =>
                 destruct (digits_of_pair c c' h l Hh Hl) as [-> ->]; clear Hh Hl
             end
         end.
  reflexivity.
Qed.

Lemma identity_loop_agrees value i : identity_uuid_loop value i = valid_uuid_loop value i.
Proof.
  revert i. induction value as [|c value IH]; intros i; [done|].
  cbn. unfold is_hex_digit. rewrite !IH. by repeat case_bool_decide.
Qed.

Lemma lower_string_length s : String.length (lower_string s) = String.length s.
Proof. induction s as [|c s IH]; cbn; auto. Qed.

Lemma from_to_loop u :
  length u = 16 -> uuid_from_loop (uuid_to_loop u 0) 16 0 0 = Ok u /\ String.length (uuid_to_loop u 0) = 36.
Proof.
  intros H. explode_list u H.
  cbn [uuid_to_loop uuid_from_loop is_separator_byte Nat.eqb orb andb negb char_at String.get
       default Nat.add id].
  rewrite !bool_decide_true by done. cbn [negb]. split; [|reflexivity].
  repeat (match goal with
          | |- context [hex (digit (Z.shiftr (Z_of_byte ?b) 4))] =>
              let Hb := fresh in
              destruct (nibbles b) as (? & ? & Hb);
              rewrite (hex_digit (Z.shiftr (Z_of_byte b) 4)), (hex_digit (Z.land (Z_of_byte b) 15)), Hb by done;
              clear Hb
          end).
  reflexivity.
Qed.

(** ** Properties *)

(** UUID text round trip: every 16-byte identifier printed by
    [trust_uuid_to_string] is parsed back to itself by [trust_uuid_from_string];
    so the text form is injective. *)
Theorem uuid_roundtrip (u : TrustUuid) :
  length u = 16 -> trust_uuid_from_string (trust_uuid_to_string u) = Ok u.
Proof.
  intros H. destruct (from_to_loop u H) as [Hf Hl].
  unfold trust_uuid_from_string, trust_uuid_to_string. by rewrite Hl, Hf.
Qed.

(** The validators and the parser agree: the two [is_valid_uuid] copies
    accept the same strings, exactly those [trust_uuid_from_string] parses (to 16
    bytes), and printing the parsed bytes gives the input back in lower case. *)
Theorem uuid_validators_agree (value : string) :
  identity_is_valid_uuid value = discovery_is_valid_uuid value /\
  match trust_uuid_from_string value with
  | Ok u => discovery_is_valid_uuid value = true /\ length u = 16 /\
            trust_uuid_to_string u = lower_string value
  | Throw _ => discovery_is_valid_uuid value = false
  end.
Proof.
  unfold identity_is_valid_uuid, discovery_is_valid_uuid, trust_uuid_from_string, UUID_SIZE.
  rewrite identity_loop_agrees. split; [done|].
  destruct (Nat.eqb_spec (String.length value) 36) as [Hl|]; cbn [negb]; [|done].
  apply length_36_inv in Hl as (cs & Hcs & ->). by apply from_loop_spec.
Qed.

(** A generated identifier is a valid lower-case version-4 UUID: it passes
    [is_valid_uuid], parses to the random bytes with only the version nibble
    (4) and the variant bits (binary 10) replaced. *)
Theorem generated_uuid_valid (random : list byte) :
  length random = 16 ->
  let u := set_version_bits random in
  identity_is_valid_uuid (generate_uuid random) = true /\
  trust_uuid_from_string (generate_uuid random) = Ok u /\
  (exists b, u !! 6 = Some b /\ Z.shiftr (Z_of_byte b) 4 = 4%Z) /\
  (exists b, u !! 8 = Some b /\ Z.shiftr (Z_of_byte b) 6 = 2%Z) /\
  (forall i, i <> 6 -> i <> 8 -> u !! i = random !! i).
Proof.
  intros H u. assert (Hu : length u = 16) by (subst u; unfold set_version_bits; by rewrite !length_insert).
  destruct (from_to_loop u Hu) as [Hf Hl].
  assert (Hp : trust_uuid_from_string (generate_uuid random) = Ok u).
  { unfold trust_uuid_from_string, generate_uuid. fold u. by rewrite Hl, Hf. }
  split_and!.
  - destruct (length_36_inv _ Hl) as (cs & Hcs & Heq). unfold identity_is_valid_uuid, generate_uuid.
    fold u. rewrite Hl. cbn [negb Nat.eqb UUID_SIZE]. rewrite identity_loop_agrees.
    pose proof (from_loop_spec cs Hcs) as Hs. rewrite <-Heq, Hf in Hs. apply Hs.
  - exact Hp.
  - clear -H. explode_list random H. eexists. split; [reflexivity|]. by destruct c5.
  - clear -H. explode_list random H. eexists. split; [reflexivity|]. by destruct c7.
  - intros i H6 H8. unfold u, set_version_bits. by rewrite !list_lookup_insert_ne.
Qed.

(** ** Concrete runs *)

Definition example_uuid : TrustUuid :=
  [x55; x0e; x84; x00; xe2; x9b; x41; xd4; xa7; x16; x44; x66; x55; x44; x00; x00].

Lemma example_uuid_text : trust_uuid_to_string example_uuid = "550e8400-e29b-41d4-a716-446655440000".
Proof. vm_compute. reflexivity. Qed.

Lemma uuid_roundtrip_witness : trust_uuid_from_string (trust_uuid_to_string example_uuid) = Ok example_uuid.
Proof. exact (uuid_roundtrip example_uuid eq_refl). Defined.

Lemma generated_uuid_valid_witness :
  identity_is_valid_uuid (generate_uuid example_uuid) = true.
Proof. exact (proj1 (generated_uuid_valid example_uuid eq_refl)). Defined.
