(* ===== verification/Storage.v ===== *)
(** * A directory of private files

    What [core/identity/device_identity.cpp] uses of the operating system: one
    directory, opened once, with its files by inode, and the calls it makes on
    them.  A call meets an outcome of a list given in advance -- it may be
    interrupted, be served in part, fail, or be the point where the process is
    killed; when the list is exhausted every call succeeds.

    The model keeps what a power loss may take away.  A file is [i_stable] once it
    was flushed after its last change; the contents of one that is not are lost.
    [st_older] lists the tables of entries the directory had since it was last
    flushed: after a power loss any of them, or the current one, may be found. *)

From S2P Require Import Prelude.

Inductive Kind : Type := Regular | Symlink | OtherKind.
#[export] Instance Kind_eq_dec : EqDecision Kind.
Proof. solve_decision. Defined.

Record Inode : Type := mkInode {
  i_kind : Kind;
  i_uid : Z;
  i_nlink : Z;
  i_mode : Z;            (** the permission bits, [st_mode & 07777] *)
  i_data : list byte;
  i_stable : bool
}.
Definition set_data data nd := mkInode (i_kind nd) (i_uid nd) (i_nlink nd) (i_mode nd) data (i_stable nd).
Definition set_stable b nd := mkInode (i_kind nd) (i_uid nd) (i_nlink nd) (i_mode nd) (i_data nd) b.

Abbreviation table := (gmap string nat).

Record Storage : Type := mkStorage {
  st_inodes : gmap nat Inode;
  st_entries : table;
  st_older : list table;
  st_dir_uid : Z;
  st_dir_mode : Z
}.
Definition set_inodes x st := mkStorage x (st_entries st) (st_older st) (st_dir_uid st) (st_dir_mode st).
(** A change of the entries; the former table may come back. *)
Definition change_entries x st :=
  mkStorage (st_inodes st) x (st_entries st :: st_older st) (st_dir_uid st) (st_dir_mode st).
Definition forget_older st := mkStorage (st_inodes st) (st_entries st) [] (st_dir_uid st) (st_dir_mode st).
Definition set_dir_mode x st := mkStorage (st_inodes st) (st_entries st) (st_older st) (st_dir_uid st) x.

(** The tables a restart may find. *)
Definition tables (st : Storage) : list table := st_entries st :: st_older st.

Inductive Outcome : Type :=
| SysDone
| SysShort (count : positive)     (** a read or write of at most so many bytes *)
| SysIntr                         (** [EINTR]; of a [flock], before its deadline *)
| SysAgain (expired : bool)       (** [EWOULDBLOCK], or [EINTR] of a [flock], and whether its deadline has passed *)
| SysFail
| SysKill.

(** [sys_keys] records the key pairs generated, by their seeds. *)
Record Sys : Type := mkSys {
  sys_storage : Storage;
  sys_outcomes : list Outcome;
  sys_keys : list (list byte)
}.
Definition set_outcomes x s := mkSys (sys_storage s) x (sys_keys s).
Definition set_storage x s := mkSys x (sys_outcomes s) (sys_keys s).
Definition add_key seed s := mkSys (sys_storage s) (sys_outcomes s) (seed :: sys_keys s).

Inductive StorageError : Type := StorageFailure (message : string) | ProcessKilled.

Abbreviation sysop := (stx Sys StorageError).
Definition fail_with {A} (message : string) : sysop A := throw (StorageFailure message).

(** ** Calls *)

(** One call that succeeds or fails. *)
Definition call : sysop bool :=
  fun s => match sys_outcomes s with
           | [] => (Ok true, s)
           | SysKill :: rest => (Throw ProcessKilled, set_outcomes rest s)
           | SysDone :: rest | SysShort _ :: rest => (Ok true, set_outcomes rest s)
           | _ :: rest => (Ok false, set_outcomes rest s)
           end.

(** A call repeated while it is interrupted. *)
Fixpoint retry_loop (out : list Outcome) : result StorageError bool * list Outcome :=
  match out with
  | [] => (Ok true, [])
  | SysIntr :: rest => retry_loop rest
  | SysKill :: rest => (Throw ProcessKilled, rest)
  | SysDone :: rest | SysShort _ :: rest => (Ok true, rest)
  | SysAgain _ :: rest | SysFail :: rest => (Ok false, rest)
  end.
Definition retry : sysop bool :=
  fun s => let '(r, rest) := retry_loop (sys_outcomes s) in (r, set_outcomes rest s).

(** [fstatat] without following links: the inode, or [ENOENT]. *)
Definition lookup_entry (name : string) (st : Storage) : option Inode :=
  st_entries st !! name ≫= fun i => st_inodes st !! i.

(** 384 is 0600 in octal.  [open] by name: without [O_CREAT] the entry must exist, with [O_EXCL] it must
    not; links are not followed.  A new file belongs to the caller, with the
    permission bits the umask leaves. *)
Definition new_file (euid umask : Z) : Inode := mkInode Regular euid 1 (Z.land 384 (Z.lnot umask)) [] false.
Definition open_entry (euid umask : Z) (name : string) (creat excl : bool) : sysop (option nat) :=
  let! ok := call in
  if negb ok then ret None
  else
    let! st := gets sys_storage in
    match st_entries st !! name with
    | Some i =>
        match st_inodes st !! i with
        | Some nd => ret (if creat && excl || bool_decide (i_kind nd = Symlink) then None else Some i)
        | None => ret None
        end
    | None =>
        if creat then
          let i := fresh (dom (st_inodes st)) in
          modify (set_storage (change_entries (<[name := i]> (st_entries st))
                                 (set_inodes (<[i := new_file euid umask]> (st_inodes st)) st)));;;
          ret (Some i)
        else ret None
    end.

(** [fstat] of an open file. *)
Definition stat_file (i : nat) : sysop (option Inode) :=
  let! ok := call in
  let! st := gets sys_storage in
  ret (if ok then st_inodes st !! i else None).

(** The reads of a loop: until [capacity] bytes, the end of the file, or an error. *)
Fixpoint read_loop (out : list Outcome) (rest : list byte) (capacity : nat) (acc : list byte)
  : result StorageError (option (list byte)) * list Outcome :=
  match capacity with
  | O => (Ok (Some acc), out)
  | S _ =>
      match out with
      | [] => (Ok (Some (acc ++ take capacity rest)), [])
      | SysIntr :: out' => read_loop out' rest capacity acc
      | SysKill :: out' => (Throw ProcessKilled, out')
      | SysAgain _ :: out' | SysFail :: out' => (Ok None, out')
      | SysDone :: out' =>
          match rest with
          | [] => (Ok (Some acc), out')
          | _ :: _ => read_loop out' (drop capacity rest) (capacity - length rest) (acc ++ take capacity rest)
          end
      | SysShort n :: out' =>
          match rest with
          | [] => (Ok (Some acc), out')
          | _ :: _ =>
              let count := Nat.min (Pos.to_nat n) capacity in
              read_loop out' (drop count rest) (capacity - Nat.min count (length rest)) (acc ++ take count rest)
          end
      end
  end.

(** The writes of a loop: what was written, and whether it was all. *)
Fixpoint write_loop (out : list Outcome) (data : list byte) : list byte * result StorageError bool * list Outcome :=
  match data with
  | [] => ([], Ok true, out)
  | _ :: _ =>
      match out with
      | [] => (data, Ok true, [])
      | SysIntr :: out' => write_loop out' data
      | SysKill :: out' => ([], Throw ProcessKilled, out')
      | SysAgain _ :: out' | SysFail :: out' => ([], Ok false, out')
      | SysDone :: out' => (data, Ok true, out')
      | SysShort n :: out' =>
          let '(more, r, out'') := write_loop out' (drop (Pos.to_nat n) data) in
          (take (Pos.to_nat n) data ++ more, r, out'')
      end
  end.

(** Waiting for an exclusive lock, until a deadline. *)
Fixpoint lock_loop (out : list Outcome) : result StorageError unit * list Outcome :=
  match out with
  | [] => (Ok tt, [])
  | SysDone :: rest | SysShort _ :: rest => (Ok tt, rest)
  | SysIntr :: rest | SysAgain false :: rest => lock_loop rest
  | SysAgain true :: rest => (Throw (StorageFailure "timed out waiting for identity storage lock"), rest)
  | SysFail :: rest => (Throw (StorageFailure "unable to lock identity storage"), rest)
  | SysKill :: rest => (Throw ProcessKilled, rest)
  end.

Definition update_inode (i : nat) (f : Inode -> Inode) (st : Storage) : Storage :=
  set_inodes (alter f i (st_inodes st)) st.

(** ** Power loss *)

(** A flushed file keeps its contents; any other has arbitrary ones. *)
Definition survives (nd nd' : Inode) : Prop :=
  i_kind nd' = i_kind nd /\ i_uid nd' = i_uid nd /\ i_nlink nd' = i_nlink nd /\ i_mode nd' = i_mode nd /\
  i_stable nd' = true /\ (i_stable nd = true -> i_data nd' = i_data nd).

Inductive power_loss (st : Storage) : Storage -> Prop :=
| power_lost inodes entries mode :
    entries ∈ tables st -> (forall i, option_Forall2 survives (st_inodes st !! i) (inodes !! i)) ->
    power_loss st (mkStorage inodes entries [] (st_dir_uid st) mode).

(** ** Operations that leave the storage alone *)

Class ReadsOnly {A} (m : sysop A) : Prop :=
  reads_only s : sys_storage (snd (m s)) = sys_storage s /\ sys_keys (snd (m s)) = sys_keys s.

#[export] Instance ret_reads {A} (a : A) : ReadsOnly (ret a).
Proof. done. Qed.
#[export] Instance throw_reads {A} e : ReadsOnly (throw (A:=A) e).
Proof. done. Qed.
#[export] Instance fail_reads {A} e : ReadsOnly (fail_with (A:=A) e).
Proof. done. Qed.
#[export] Instance gets_reads {A} (f : Sys -> A) : ReadsOnly (gets f).
Proof. done. Qed.
#[export] Instance bind_reads {A B} (m : sysop A) (k : A -> sysop B) :
  ReadsOnly m -> (forall a, ReadsOnly (k a)) -> ReadsOnly (bind m k).
Proof.
  intros Hm Hk s. specialize (Hm s). unfold bind. destruct (m s) as [[a|e] s1]; [|done].
  specialize (Hk a s1). cbn in Hm. destruct Hm as [<- <-]. done.
Qed.
#[export] Instance if_reads {A} (b : bool) (m m' : sysop A) : ReadsOnly m -> ReadsOnly m' -> ReadsOnly (if b then m else m').
Proof. by destruct b. Qed.
#[export] Instance call_reads : ReadsOnly call.
Proof. intros s. unfold call. destruct (sys_outcomes s) as [|[] ?]; done. Qed.
#[export] Instance retry_reads : ReadsOnly retry.
Proof. intros s. unfold retry. by destruct (retry_loop _). Qed.
(** A loop over the outcomes. *)
Lemma outcomes_reads {A} (f : list Outcome -> result StorageError A * list Outcome) :
  ReadsOnly (fun s => let '(r, rest) := f (sys_outcomes s) in (r, set_outcomes rest s)).
Proof. intros s. by destruct (f _). Qed.
#[export] Instance stat_reads i : ReadsOnly (stat_file i).
Proof. apply _. Qed.
#[export] Instance open_reads euid umask name : ReadsOnly (open_entry euid umask name false false).
Proof.
  unfold open_entry. apply bind_reads; [apply _|]. intros [|]; cbn; [|apply _]. apply bind_reads; [apply _|].
  intros st. destruct (st_entries st !! name); [|apply _]. destruct (st_inodes st !! _); apply _.
Qed.

Lemma read_state {A} (m : sysop A) s r s' :
  ReadsOnly m -> m s = (r, s') -> sys_storage s' = sys_storage s /\ sys_keys s' = sys_keys s.
Proof. intros Hm H. specialize (Hm s). by rewrite H in Hm. Qed.

(** ** Reading loops *)

Lemma take_in_parts {A} (l : list A) count capacity :
  (count <= capacity)%nat ->
  take count l ++ take (capacity - Nat.min count (length l)) (drop count l) = take capacity l.
Proof.
  intros Hle. destruct (le_lt_dec count (length l)) as [Hc|Hc].
  - rewrite Nat.min_l by lia. rewrite take_take_drop. f_equal. lia.
  - rewrite drop_ge, take_nil, app_nil_r, !take_ge by lia. done.
Qed.

Lemma read_loop_spec out rest capacity acc data out' :
  read_loop out rest capacity acc = (Ok (Some data), out') -> data = acc ++ take capacity rest.
Proof.
  revert rest capacity acc. induction out as [|o out IH]; intros rest [|capacity] acc; cbn [read_loop];
    try (intros [= <- _]; by rewrite ?take_0, ?app_nil_r).
  destruct o as [|n| |b| |]; try (apply IH); try done;
    (destruct rest as [|c rest]; [intros [= <- _]; by rewrite take_nil, app_nil_r|]);
    intros ->%IH; rewrite <-app_assoc; f_equal.
  - rewrite <-(take_in_parts (c :: rest) (S capacity) (S capacity)) at 2 by done. do 2 f_equal. lia.
  - apply take_in_parts. lia.
Qed.

Lemma write_loop_spec out data written r out' :
  write_loop out data = (written, r, out') -> written `prefix_of` data /\ (r = Ok true -> written = data).
Proof.
  revert data written. induction out as [|o out IH]; intros [|c data] written; cbn [write_loop];
    try (intros [= <- <- <-]; split; [|done]; done || apply prefix_nil).
  destruct o as [|n| |b| |]; try (apply IH); try (intros [= <- <- <-]; split; [done || apply prefix_nil|done]).
  destruct (write_loop out _) as [[more r'] out''] eqn:E. intros [= <- <- <-]. apply IH in E as [Hp Hall]. split.
  - rewrite <-(take_drop (Pos.to_nat n) (c :: data)) at 2. by apply prefix_app.
  - intros Hr. rewrite (Hall Hr). apply take_drop.
Qed.

(** ** What a restart may find *)

(** Every entry has an inode. *)
Definition storage_ok (st : Storage) : Prop :=
  forall E, E ∈ tables st -> forall x i, E !! x = Some i -> is_Some (st_inodes st !! i).

(** The files of [st] are still as they were, and every table a restart may find
    agrees, on the names in [P], with one that could be found before. *)
Record keeps (P : string -> Prop) (st st' : Storage) : Prop := {
  keeps_inodes : forall i nd, st_inodes st !! i = Some nd -> st_inodes st' !! i = Some nd;
  keeps_tables : forall E', E' ∈ tables st' -> exists E, E ∈ tables st /\ forall x, P x -> E' !! x = E !! x
}.

#[export] Instance keeps_preorder P : PreOrder (keeps P).
Proof.
  split.
  - intros st. split; [done|]. intros E HE. by exists E.
  - intros st1 st2 st3 [Hi1 Ht1] [Hi2 Ht2]. split; [auto|]. intros E HE.
    destruct (Ht2 E HE) as (E2 & HE2 & H2). destruct (Ht1 E2 HE2) as (E1 & HE1 & H1). exists E1. split; [done|].
    intros x Hx. by rewrite H2, H1.
Qed.

Lemma keeps_weaken (P Q : string -> Prop) st st' : (forall x, Q x -> P x) -> keeps P st st' -> keeps Q st st'.
Proof.
  intros HPQ [Hi Ht]. split; [done|]. intros E HE. destruct (Ht E HE) as (E0 & ? & H). exists E0. split; [done|]. auto.
Qed.

(** The entry [name] has a flushed file with the contents [data]. *)
Definition holds (st : Storage) (E : table) (name : string) (data : list byte) : Prop :=
  exists i nd, E !! name = Some i /\ st_inodes st !! i = Some nd /\ i_stable nd = true /\ i_data nd = data.

Lemma holds_unique st E name d1 d2 : holds st E name d1 -> holds st E name d2 -> d1 = d2.
Proof. intros (i & nd & ? & ? & _ & <-) (j & nd' & ? & ? & _ & <-). congruence. Qed.

Lemma keeps_holds P st st' E' E name data :
  keeps P st st' -> E' !! name = E !! name -> holds st E name data -> holds st' E' name data.
Proof. intros [Hi _] Heq (i & nd & ? & ? & ? & ?). exists i, nd. rewrite Heq. auto. Qed.

(** The entry, if there is one, has a flushed file that satisfies [P]. *)
Definition settled_at (st : Storage) (E : table) (name : string) (P : Inode -> Prop) : Prop :=
  forall i, E !! name = Some i -> exists nd, st_inodes st !! i = Some nd /\ i_stable nd = true /\ P nd.

Lemma keeps_settled Q st st' E' E name P :
  keeps Q st st' -> E' !! name = E !! name -> settled_at st E name P -> settled_at st' E' name P.
Proof.
  intros [Hi _] Heq H i. rewrite Heq. intros (nd & ? & ? & ?)%H. exists nd. auto.
Qed.

(** ** The storage after a flush, after a creation *)

Lemma forget_keeps P st : keeps P st (forget_older st).
Proof. split; [done|]. intros E ->%list_elem_of_singleton. exists (st_entries st). split; [left|done]. Qed.
Lemma forget_ok st : storage_ok st -> storage_ok (forget_older st).
Proof. intros H E ->%list_elem_of_singleton. apply H. left. Qed.

(** A new file under a new name. *)
Definition with_file (name : string) (i : nat) (nd : Inode) (st : Storage) : Storage :=
  change_entries (<[name := i]> (st_entries st)) (set_inodes (<[i := nd]> (st_inodes st)) st).

Lemma with_file_keeps name i nd st :
  st_inodes st !! i = None -> keeps (fun x => x <> name) st (with_file name i nd st).
Proof.
  intros Hi. split.
  - intros j nd' Hj. change (<[i := nd]> (st_inodes st) !! j = Some nd').
    rewrite lookup_insert_ne; [done|]. intros <-. congruence.
  - intros E HE. apply elem_of_cons in HE as [->|HE]; [|by exists E].
    exists (st_entries st). split; [left|]. intros x Hx. change (<[name := i]> (st_entries st) !! x = st_entries st !! x).
    by rewrite lookup_insert_ne.
Qed.
Lemma with_file_ok name i nd st : storage_ok st -> storage_ok (with_file name i nd st).
Proof.
  intros H E HE x j Hj. change (is_Some (<[i := nd]> (st_inodes st) !! j)).
  destruct (decide (j = i)) as [->|Hne]; [rewrite lookup_insert_eq; by eexists|]. rewrite lookup_insert_ne by done.
  apply elem_of_cons in HE as [->|HE]; [|by apply (H _ HE x)].
  change (<[name := i]> (st_entries st) !! x = Some j) in Hj.
  apply lookup_insert_Some in Hj as [[_ ?]|[_ Hj]]; [congruence|].
  apply (H (st_entries st) ltac:(left) x _ Hj).
Qed.

Lemma fresh_inode (st : Storage) : st_inodes st !! fresh (dom (st_inodes st)) = None.
Proof. apply not_elem_of_dom, is_fresh. Qed.

(** [open_entry] gives an existing inode, or makes one. *)
Lemma open_entry_spec euid umask name creat excl s r s' :
  open_entry euid umask name creat excl s = (r, s') ->
  sys_keys s' = sys_keys s /\
  (sys_storage s' = sys_storage s /\
     (forall i, r = Ok (Some i) -> st_entries (sys_storage s) !! name = Some i /\ creat && excl = false) \/
   creat = true /\ st_entries (sys_storage s) !! name = None /\
     exists i, st_inodes (sys_storage s) !! i = None /\ r = Ok (Some i) /\
       sys_storage s' = with_file name i (new_file euid umask) (sys_storage s)).
Proof.
  unfold open_entry, bind at 1. pose proof (call_reads s) as Hc.
  destruct (call s) as [[ok|e] s1]; cbn in Hc; destruct Hc as [Hst Hk]; [|intros [= <- <-]; split; [done|left; done]].
  destruct ok; cbn [negb]; [|intros [= <- <-]; split; [done|left; done]].
  rewrite bind_gets, Hst. destruct (st_entries (sys_storage s) !! name) as [i|] eqn:He.
  - destruct (st_inodes (sys_storage s) !! i) as [nd|]; intros [= <- <-]; (split; [done|]); left; (split; [done|]).
    + intros j. destruct (creat && excl) eqn:Hce; [done|]. cbn [orb]. case_bool_decide; [done|]. intros [= <-]. done.
    + done.
  - destruct creat; intros [= <- <-]; (split; [done|]); [right|left; done].
    split; [done|]. split; [done|]. eexists. split; [apply fresh_inode|]. split; [done|]. done.
Qed.

(** ** Paths *)

Fixpoint ends_with_slash (s : string) : bool :=
  match s with
  | EmptyString => false
  | String c EmptyString => bool_decide (Ascii.byte_of_ascii c = x2f)
  | String _ rest => ends_with_slash rest
  end.
(** [std::filesystem::path::operator/] with a relative right side. *)
Definition path_join (a b : string) : string :=
  if bool_decide (a = EmptyString) || ends_with_slash a then a +:+ b else a +:+ "/" +:+ b.
Definition is_absolute (s : string) : bool :=
  match s with String c _ => bool_decide (Ascii.byte_of_ascii c = x2f) | EmptyString => false end.
