(* ===== verification/Identity.v ===== *)
(** * The device identity ([core/identity/device_identity.cpp])

    [DeviceIdentity::load_or_create] on the storage of [Storage.v]: the directory is
    secured and flushed, a lock is taken, an interrupted initialization is refused,
    and then the identity is read back, or created by writing a manifest that says
    that keys are required before the first key is generated.  The lemmas say what
    each part leaves in the storage; [IdentityHistory.v] has the theorems. *)

From S2P Require Import Prelude Uuid Storage.

(** ** libsodium *)

(** Sizes: seeds and public keys of 32 bytes, secret keys of 64. *)
Class Sodium : Type := {
  sign_seed_keypair : list byte -> list byte * list byte;   (** public key, secret key *)
  sign_sk_to_seed : list byte -> list byte
}.
Class SodiumLaws `{Sodium} : Prop := {
  seed_keypair_sizes seed : length seed = 32%nat ->
    length (sign_seed_keypair seed).1 = 32%nat /\ length (sign_seed_keypair seed).2 = 64%nat;
  sk_to_seed_keypair seed : length seed = 32%nat -> sign_sk_to_seed (sign_seed_keypair seed).2 = seed
}.

(** ** Data *)

Record DeviceIdentity : Type := mkDeviceIdentity {
  device_id_ : string;
  public_key_ : list byte;
  private_key_ : list byte
}.

Definition IDENTITY_MARKER : list byte := x0a :: bytes_of "ed25519-v1" ++ [x0a].
Definition KEY_MAGIC : list byte := bytes_of "GASOLINE-ED25519-V1" ++ [x0a].
Definition KEY_FILE_SIZE : nat := length KEY_MAGIC + UUID_SIZE + 32 + 64.

(** What a call depends on: the effective user, the umask, the number of ancestors
    of the directory, and the random bytes it would draw. *)
Record IdentityEnv : Type := mkIdentityEnv {
  ie_euid : Z;
  ie_umask : Z;
  ie_depth : nat;
  ie_uuid_bytes : list byte;
  ie_seed : list byte
}.

Section identity.
Context {SO : Sodium} (env : IdentityEnv).

(** ** Files *)

(** [sync_file]: of the directory, of a file, of an ancestor. *)
Definition sync_with (f : Storage -> Storage) : sysop unit :=
  let! ok := retry in
  if ok then modify (fun s => set_storage (f (sys_storage s)) s)
  else fail_with "failed to flush identity storage".
Definition sync_directory : sysop unit := sync_with forget_older.
Definition sync_file (i : nat) : sysop unit := sync_with (update_inode i (set_stable true)).
Definition sync_ancestor : sysop unit := sync_with id.

(** The calls after the flush of a directory: its parent is opened and both are
    inspected. *)
Definition inspect_parent : sysop unit :=
  let! opened := call in
  if negb opened then fail_with "unable to inspect identity directory's ancestor"
  else
    let! current := call in
    if negb current then fail_with "unable to inspect identity directory's ancestor"
    else
      let! parent := call in
      if negb parent then fail_with "unable to inspect identity directory's ancestor" else ret tt.
Fixpoint sync_ancestors (depth : nat) : sysop unit :=
  match depth with
  | O => ret tt
  | S depth => sync_ancestor;;; inspect_parent;;; sync_ancestors depth
  end.
(** The root is its own parent, so the loop ends there. *)
Definition sync_directory_tree : sysop unit :=
  let! duplicated := call in
  if negb duplicated then fail_with "unable to duplicate identity directory handle"
  else sync_directory;;; inspect_parent;;; sync_ancestors (ie_depth env).

Definition open_identity_directory : sysop unit :=
  let! created := call in
  if negb created then fail_with "failed to create identity directory"
  else
    let! opened := call in
    let! inspected := (if opened then call else ret false) in
    let! st := gets sys_storage in
    if negb inspected || negb (st_dir_uid st =? ie_euid env)
    then fail_with "identity directory is inaccessible, symlinked, or not owned by this user"
    else
      let! secured := call in
      if negb secured then fail_with "failed to secure identity directory permissions"
      else
        modify (fun s => set_storage (set_dir_mode 448 (sys_storage s)) s);;;   (* 0700 *)
        sync_directory_tree.

Definition entry_exists (name : string) : sysop bool :=
  let! ok := call in
  let! st := gets sys_storage in
  if ok then ret (bool_decide (is_Some (lookup_entry name st)))
  else fail_with (String.append "unable to inspect " name).

(** A regular file of the user with mode 0600 and no other link. *)
Definition is_private (nd : Inode) : bool :=
  bool_decide (i_kind nd = Regular) && (i_uid nd =? ie_euid env) && (i_nlink nd =? 1) && (i_mode nd =? 384).

(** The checks on an opened file. *)
Definition check_private (name : string) (i : nat) : sysop nat :=
  let! info := stat_file i in
  match info with
  | None => fail_with (String.append "unable to access " name)
  | Some nd =>
      if is_private nd then ret i
      else fail_with (String.append name " must be a regular, user-owned 0600 file without additional hard links")
  end.
Definition open_private_file (name : string) (creat excl : bool) : sysop nat :=
  let! fd := open_entry (ie_euid env) (ie_umask env) name creat excl in
  match fd with
  | None => fail_with (String.append "unable to access " name)
  | Some i => check_private name i
  end.

Definition acquire_lock (name : string) : sysop nat :=
  let! i := open_private_file name true false in
  (fun s => let '(r, rest) := lock_loop (sys_outcomes s) in (r, set_outcomes rest s));;;
  ret i.

Definition read_file (name : string) (capacity : nat) : sysop (list byte) :=
  let! i := open_private_file name false false in
  let! st := gets sys_storage in
  let contents := default [] (i_data <$> st_inodes st !! i) in
  let! r := (fun s => let '(r, rest) := read_loop (sys_outcomes s) contents capacity [] in (r, set_outcomes rest s)) in
  match r with
  | None => fail_with (String.append "failed to read " name)
  | Some data =>
      if (length data <? capacity)%nat then ret data
      else
        let! ok := retry in
        if ok && (length contents <=? capacity)%nat then ret data
        else fail_with (String.append "invalid size or read failure in " name)
  end.

(** After the data is written: flush, close, rename, flush the directory. *)
Definition publish (name : string) (i : nat) : sysop unit :=
  sync_file i;;;
  let! closed := call in
  if negb closed then fail_with "failed to close persisted identity file"
  else
    let! renamed := call in
    if negb renamed then fail_with (String.append "failed to publish " name)
    else
      modify (fun s => set_storage (change_entries (<[name := i]> (delete (String.append name ".tmp")
                                                     (st_entries (sys_storage s)))) (sys_storage s)) s);;;
      sync_directory.

Definition atomic_write (name : string) (data : list byte) : sysop unit :=
  let temporary := String.append name ".tmp" in
  let! i := open_private_file temporary true true in
  let! ok := (fun s =>
    let '(written, r, rest) := write_loop (sys_outcomes s) data in
    (r, set_outcomes rest (set_storage
          (update_inode i (fun nd => set_stable false (set_data (i_data nd ++ written) nd)) (sys_storage s)) s))) in
  if negb ok then fail_with (String.append "failed to write " temporary) else publish name i.

(** ** The identity *)

(** [while (!text.empty() && (text.back() == '\n' || text.back() == '\r')) text.pop_back()]. *)
Fixpoint drop_newlines (l : list byte) : list byte :=
  match l with
  | c :: rest => if bool_decide (c = x0a) || bool_decide (c = x0d) then drop_newlines rest else l
  | [] => []
  end.
Definition pop_newlines (text : list byte) : list byte := rev (drop_newlines (rev text)).

(** The contents of the identity file: whether keys are required, and the UUID text. *)
Definition read_manifest (text : list byte) : bool * list byte :=
  if (length text =? UUID_SIZE + length IDENTITY_MARKER)%nat && bool_decide (drop UUID_SIZE text = IDENTITY_MARKER)
  then (true, take UUID_SIZE text)
  else (false, pop_newlines text).

Definition manifest (uuid : string) : list byte := bytes_of uuid ++ IDENTITY_MARKER.
Definition key_record (uuid : string) (public private : list byte) : list byte :=
  KEY_MAGIC ++ bytes_of uuid ++ public ++ private.

(** [uuid] and [keys_required] after the identity file was read. *)
Definition load_manifest (name : string) : sysop (bool * option string) :=
  let! exists_ := entry_exists name in
  if exists_ then
    let! contents := read_file name 64 in
    let '(keys_required, text) := read_manifest contents in
    if identity_is_valid_uuid (text_of_bytes text) then ret (keys_required, Some (text_of_bytes text))
    else fail_with "invalid UUID or identity format"
  else ret (false, None).

(** The keys of an established identity, checked against each other. *)
Definition check_keys (uuid : string) (record : list byte) : sysop DeviceIdentity :=
  if negb (length record =? KEY_FILE_SIZE)%nat ||
     negb (bool_decide (take (length KEY_MAGIC) record = KEY_MAGIC)) ||
     negb (bool_decide (take UUID_SIZE (drop (length KEY_MAGIC) record) = bytes_of uuid))
  then fail_with "invalid key record format, length, or UUID binding"
  else
    let public := take 32 (drop (length KEY_MAGIC + UUID_SIZE) record) in
    let private := take 64 (drop (length KEY_MAGIC + UUID_SIZE + 32) record) in
    let! extracted := call in
    let! derived := (if extracted then call else ret false) in
    let '(derived_public, derived_private) := sign_seed_keypair (sign_sk_to_seed private) in
    if negb derived || negb (bool_decide (public = derived_public)) || negb (bool_decide (private = derived_private))
    then fail_with "corrupt or inconsistent Ed25519 key material"
    else ret (mkDeviceIdentity uuid public private).
Definition load_keys (keys_name : string) (uuid : string) : sysop DeviceIdentity :=
  let! record := read_file keys_name KEY_FILE_SIZE in
  check_keys uuid record.

(** The marker is committed before any key material exists. *)
Definition create_keys (name keys_name : string) (uuid : option string) : sysop DeviceIdentity :=
  let uuid := match uuid with Some uuid => uuid | None => generate_uuid (ie_uuid_bytes env) end in
  atomic_write name (manifest uuid);;;
  let! generated := call in
  if negb generated then fail_with "Ed25519 key generation failed"
  else
    modify (add_key (ie_seed env));;;
    let '(public, private) := sign_seed_keypair (ie_seed env) in
    atomic_write keys_name (key_record uuid public private);;;
    ret (mkDeviceIdentity uuid public private).

(** Once the directory is locked. *)
Definition load_or_create_locked (name : string) : sysop DeviceIdentity :=
  let keys_name := String.append name ".keys" in
  let! manifest_tmp := entry_exists (String.append name ".tmp") in
  let! keys_tmp := (if manifest_tmp then ret true else entry_exists (String.append keys_name ".tmp")) in
  if manifest_tmp || keys_tmp
  then fail_with "interrupted identity initialization; restore the complete identity before retrying"
  else
    let! '(keys_required, uuid) := load_manifest name in
    let! keys_exist := entry_exists keys_name in
    if negb (Bool.eqb keys_exist keys_required)
    then fail_with (if keys_required then "established key material is missing; identity will not be regenerated"
                    else "key material has no matching versioned UUID identity")
    else
      match keys_required, uuid with
      | true, Some uuid => load_keys keys_name uuid
      | _, uuid => create_keys name keys_name uuid
      end.

Definition load_or_create (name : string) : sysop DeviceIdentity :=
  let! initialized := call in
  if negb initialized then fail_with "libsodium initialization failed"
  else if bool_decide (name = EmptyString) || bool_decide (name = ".") || bool_decide (name = "..")
  then fail_with "invalid identity filename"
  else
    open_identity_directory;;;
    acquire_lock (String.append name ".lock");;;
    load_or_create_locked name.

(** ** What the operations do to the storage *)

#[local] Instance inspect_parent_reads : ReadsOnly inspect_parent.
Proof. unfold inspect_parent. apply _. Qed.
#[local] Instance entry_exists_reads name : ReadsOnly (entry_exists name).
Proof. unfold entry_exists. apply _. Qed.
#[local] Instance check_private_reads name i : ReadsOnly (check_private name i).
Proof. unfold check_private. apply bind_reads; [apply _|]. intros [nd|]; apply _. Qed.
#[local] Instance open_private_reads name : ReadsOnly (open_private_file name false false).
Proof. unfold open_private_file. apply bind_reads; [apply _|]. intros [i|]; apply _. Qed.
#[local] Instance read_file_reads name capacity : ReadsOnly (read_file name capacity).
Proof.
  unfold read_file. apply bind_reads; [apply _|]. intros i. apply bind_reads; [apply _|]. intros st.
  apply bind_reads; [apply (outcomes_reads (fun out => read_loop out _ capacity []))|]. intros [data|]; apply _.
Qed.
#[local] Instance load_manifest_reads name : ReadsOnly (load_manifest name).
Proof.
  unfold load_manifest. apply bind_reads; [apply _|]. intros [|]; [|apply _]. apply bind_reads; [apply _|].
  intros contents. destruct (read_manifest contents). apply _.
Qed.
#[local] Instance load_keys_reads name uuid : ReadsOnly (load_keys name uuid).
Proof.
  unfold load_keys, check_keys. apply bind_reads; [apply _|]. intros record. apply if_reads; [apply _|].
  apply bind_reads; [apply _|]. intros b. apply bind_reads; [apply _|]. intros d.
  destruct (sign_seed_keypair _). apply _.
Qed.

Lemma entry_exists_ok name s b s' :
  storage_ok (sys_storage s) -> entry_exists name s = (Ok b, s') ->
  sys_storage s' = sys_storage s /\ sys_keys s' = sys_keys s /\
  b = bool_decide (is_Some (st_entries (sys_storage s) !! name)).
Proof.
  intros Hok H. destruct (read_state _ _ _ _ (entry_exists_reads name) H) as [Hst Hk]. split_and!; [done..|].
  unfold entry_exists in H. apply bind_ok in H as (ok & s1 & Hc & H). apply read_state in Hc as [Hs1 _]; [|apply _].
  rewrite bind_gets, Hs1 in H. destruct ok; [|done]. injection H as <- _. apply bool_decide_ext.
  unfold lookup_entry. destruct (st_entries (sys_storage s) !! name) as [i|] eqn:E; cbn; [|split; intros [? [=]]].
  destruct (Hok (st_entries (sys_storage s)) ltac:(left) _ _ E) as [nd ->]. split; by eexists.
Qed.

Lemma check_private_ok name i s j s' :
  check_private name i s = (Ok j, s') ->
  j = i /\ exists nd, st_inodes (sys_storage s) !! i = Some nd /\ is_private nd = true.
Proof.
  unfold check_private, stat_file. intros H. apply bind_ok in H as (info & s1 & H1 & H).
  apply bind_ok in H1 as (ok & s2 & Hc & H1). apply read_state in Hc as [Hs _]; [|apply _].
  rewrite bind_gets, Hs in H1. injection H1 as <- <-. destruct ok; [|done].
  destruct (st_inodes (sys_storage s) !! i) as [nd|]; [|done]. destruct (is_private nd) eqn:Hp; [|done].
  injection H as <- _. split; [done|]. by exists nd.
Qed.

Lemma open_private_spec name creat excl s r s' :
  open_private_file name creat excl s = (r, s') ->
  sys_keys s' = sys_keys s /\
  (sys_storage s' = sys_storage s /\
     (forall i, r = Ok i -> creat && excl = false /\ st_entries (sys_storage s) !! name = Some i /\
        exists nd, st_inodes (sys_storage s) !! i = Some nd /\ is_private nd = true) \/
   creat = true /\ st_entries (sys_storage s) !! name = None /\
     exists i, st_inodes (sys_storage s) !! i = None /\
       sys_storage s' = with_file name i (new_file (ie_euid env) (ie_umask env)) (sys_storage s) /\
       forall j, r = Ok j -> j = i /\ is_private (new_file (ie_euid env) (ie_umask env)) = true).
Proof.
  unfold open_private_file, bind at 1.
  destruct (open_entry _ _ name creat excl s) as [r1 s1] eqn:Ho. apply open_entry_spec in Ho as [Hk Ho].
  destruct r1 as [[i|]|e].
  2, 3: intros [= <- <-]; split; [done|]; destruct Ho as [[Hs1 _]|(_ & _ & i' & _ & [=] & _)]; left; split; done.
  intros H. destruct (read_state _ _ _ _ (check_private_reads name i) H) as [Hs2 Hk2]. split; [congruence|].
  destruct Ho as [[Hs1 Hi]|(-> & Hne & i' & Hfresh & [= <-] & Hs1)]; [left|right].
  - split; [congruence|]. intros j ->. apply check_private_ok in H as (-> & nd & Hnd & Hp).
    destruct (Hi i eq_refl) as [He Hce]. split_and!; [done|done|]. exists nd. by rewrite <-Hs1.
  - split_and!; [done|done|]. exists i. split_and!; [done|congruence|]. intros j ->.
    apply check_private_ok in H as (-> & nd & Hnd & Hp). split; [done|]. rewrite Hs1 in Hnd.
    change (<[i := new_file (ie_euid env) (ie_umask env)]> (st_inodes (sys_storage s)) !! i = Some nd) in Hnd.
    rewrite lookup_insert_eq in Hnd. congruence.
Qed.

(** What an attempt to write a file leaves behind: nothing, a temporary file, or
    the published file, which is flushed; [complete] when the directory is, too. *)
Inductive written (name : string) (data : list byte) (st : Storage) : bool -> Storage -> Prop :=
| written_nothing : written name data st false st
| written_temporary i nd :
    st_inodes st !! i = None ->
    written name data st false (with_file (String.append name ".tmp") i nd st)
| written_published i nd (complete : bool) :
    st_inodes st !! i = None -> st_entries st !! String.append name ".tmp" = None ->
    i_stable nd = true -> i_data nd = data -> is_private nd = true ->
    let st1 := with_file (String.append name ".tmp") i nd st in
    let st2 := change_entries (<[name := i]> (delete (String.append name ".tmp") (st_entries st1))) st1 in
    written name data st complete (if complete then forget_older st2 else st2).

Lemma update_with_file name i nd f st :
  update_inode i f (with_file name i nd st) = with_file name i (f nd) st.
Proof.
  unfold update_inode, with_file, change_entries, set_inodes. cbn. f_equal. apply map_eq. intros j.
  destruct (decide (j = i)) as [->|]; [by rewrite lookup_alter_eq, !lookup_insert_eq|].
  by rewrite lookup_alter_ne, !lookup_insert_ne.
Qed.

Lemma sync_with_spec f s r s' :
  sync_with f s = (r, s') ->
  sys_keys s' = sys_keys s /\
  (r = Ok tt /\ sys_storage s' = f (sys_storage s) \/ is_ok r = false /\ sys_storage s' = sys_storage s).
Proof.
  unfold sync_with, bind at 1. pose proof (retry_reads s) as Hr. destruct (retry s) as [[ok|e] s1]; cbn in Hr.
  - destruct ok; intros [= <- <-]; cbn; destruct Hr as [-> ->]; auto.
  - intros [= <- <-]. destruct Hr as [-> ->]. auto.
Qed.

(** One call of a program: it goes on from the same storage, or ends there. *)
Lemma call_bind {A} (k : bool -> sysop A) s r s' :
  bind call k s = (r, s') ->
  (exists b s1, sys_storage s1 = sys_storage s /\ sys_keys s1 = sys_keys s /\ k b s1 = (r, s')) \/
  is_ok r = false /\ sys_storage s' = sys_storage s /\ sys_keys s' = sys_keys s.
Proof.
  unfold bind. pose proof (call_reads s) as Hc. destruct (call s) as [[b|e] s1]; cbn in Hc; destruct Hc as [Hs Hk].
  - intros H. left. by exists b, s1.
  - intros [= <- <-]. by right.
Qed.

Lemma publish_spec name i nd st s r s' :
  st_inodes st !! i = None -> st_entries st !! String.append name ".tmp" = None ->
  sys_storage s = with_file (String.append name ".tmp") i nd st -> is_private nd = true ->
  publish name i s = (r, s') ->
  sys_keys s' = sys_keys s /\ written name (i_data nd) st (is_ok r) (sys_storage s').
Proof.
  intros Hi He Hs Hp. unfold publish, bind at 1. destruct (sync_file i s) as [r1 s1] eqn:H1.
  apply sync_with_spec in H1 as [Hk1 [[-> Hs1]|[Hr1 Hs1]]].
  2: { destruct r1; [done|]. intros [= <- <-]. split; [done|]. rewrite Hs1, Hs. by constructor. }
  rewrite Hs, update_with_file in Hs1. rewrite <-Hk1. clear Hk1 Hs.
  intros [(b & s2 & Hs2 & Hk2 & H)|(Hr & Hs2 & Hk2)]%call_bind.
  2: { split; [done|]. rewrite Hr, Hs2, Hs1. by constructor. }
  destruct b; cbn [negb] in H.
  2: { injection H as <- <-. split; [done|]. rewrite Hs2, Hs1. by constructor. }
  apply call_bind in H as [(b & s3 & Hs3 & Hk3 & H)|(Hr & Hs3 & Hk3)].
  2: { split; [congruence|]. rewrite Hr, Hs3, Hs2, Hs1. by constructor. }
  destruct b; cbn [negb] in H.
  2: { injection H as <- <-. split; [congruence|]. rewrite Hs3, Hs2, Hs1. by constructor. }
  unfold bind at 1, modify in H. apply sync_with_spec in H as [Hk4 H]. cbn [sys_storage set_storage sys_keys] in H, Hk4.
  split; [congruence|]. rewrite Hs3, Hs2, Hs1 in H.
  pose proof (written_published name (i_data nd) st i (set_stable true nd)) as Hw.
  destruct H as [[-> ->]|[-> ->]].
  - by apply (Hw true).
  - by apply (Hw false).
Qed.

Lemma atomic_write_spec name data s r s' :
  atomic_write name data s = (r, s') ->
  sys_keys s' = sys_keys s /\ written name data (sys_storage s) (is_ok r) (sys_storage s').
Proof.
  unfold atomic_write, bind at 1.
  destruct (open_private_file _ true true s) as [r1 s1] eqn:Ho. apply open_private_spec in Ho as [Hk1 Ho].
  destruct r1 as [i|e].
  2: { intros [= <- <-]. split; [done|]. destruct Ho as [[-> _]|(_ & _ & i & ? & -> & _)]; by constructor. }
  destruct Ho as [[_ Hx]|(_ & He & i' & Hi & Hs1 & Hp)]; [by destruct (Hx i eq_refl)|].
  destruct (Hp i eq_refl) as [-> Hpriv]. clear Hp. unfold bind at 1.
  destruct (write_loop (sys_outcomes s1) data) as [[wr r2] out] eqn:Hw. apply write_loop_spec in Hw as [_ Hall].
  rewrite Hs1, update_with_file. cbn [new_file i_data app].
  destruct r2 as [[|]|e]; cbn [negb].
  2, 3: intros [= <- <-]; cbn; split; [done|]; by constructor.
  rewrite (Hall eq_refl). intros H.
  eapply publish_spec in H as [Hk2 H]; [|exact Hi|exact He|reflexivity|exact Hpriv]. split; [|exact H].
  by rewrite Hk2.
Qed.

(** ** Reading *)

Lemma read_file_ok name capacity s data s' :
  read_file name capacity s = (Ok data, s') ->
  exists i nd, st_entries (sys_storage s) !! name = Some i /\ st_inodes (sys_storage s) !! i = Some nd /\
    is_private nd = true /\ i_data nd = data.
Proof.
  unfold read_file. intros H. apply bind_ok in H as (i & s1 & Ho & H).
  apply open_private_spec in Ho as [_ [[Hs1 Hi]|[[=] _]]]. destruct (Hi i eq_refl) as (_ & He & nd & Hnd & Hp).
  exists i, nd. split_and!; [done..|]. rewrite bind_gets, Hs1, Hnd in H. cbn [fmap option_fmap option_map default from_option id] in H.
  apply bind_ok in H as (od & s2 & Hr & H). cbv beta in Hr. destruct (read_loop _ _ _ _) as [r rest] eqn:Hl.
  injection Hr as -> <-. destruct od as [d|]; [|done]. apply read_loop_spec in Hl. cbn [app] in Hl. subst d.
  rewrite length_take in H. destruct (Nat.ltb_spec (Nat.min capacity (length (i_data nd))) capacity).
  - injection H as <- _. rewrite take_ge; [done|lia].
  - apply bind_ok in H as (ok & s3 & _ & H). destruct ok; cbn [andb] in H; [|done].
    destruct (Nat.leb_spec (length (i_data nd)) capacity); [|done]. injection H as <- _. by rewrite take_ge.
Qed.

Lemma valid_uuid_length value : identity_is_valid_uuid value = true -> String.length value = UUID_SIZE.
Proof. unfold identity_is_valid_uuid. destruct (Nat.eqb_spec (String.length value) UUID_SIZE); [done|]. done. Qed.

(** The manifest of a UUID is recognized, and nothing else asks for keys. *)
Lemma read_manifest_of uuid : String.length uuid = UUID_SIZE -> read_manifest (manifest uuid) = (true, bytes_of uuid).
Proof.
  intros Hl. unfold read_manifest, manifest.
  rewrite length_app, length_bytes_of, Hl, Nat.eqb_refl, <-Hl, <-length_bytes_of, drop_app_length, take_app_length.
  by rewrite bool_decide_eq_true_2.
Qed.
Lemma read_manifest_required text uuid :
  read_manifest text = (true, uuid) -> text = manifest (text_of_bytes uuid).
Proof.
  unfold read_manifest. destruct (_ =? _)%nat; [|done]. cbn [andb]. case_bool_decide as Hm; [|done].
  intros [= <-]. unfold manifest. by rewrite bytes_of_text, <-Hm, take_drop.
Qed.

Lemma load_manifest_ok name s k u s' :
  storage_ok (sys_storage s) -> load_manifest name s = (Ok (k, u), s') ->
  u = None /\ k = false /\ st_entries (sys_storage s) !! name = None \/
  exists uuid i nd, u = Some uuid /\ identity_is_valid_uuid uuid = true /\
    st_entries (sys_storage s) !! name = Some i /\ st_inodes (sys_storage s) !! i = Some nd /\ is_private nd = true /\
    (if k then i_data nd = manifest uuid else forall v, String.length v = UUID_SIZE -> i_data nd <> manifest v).
Proof.
  intros Hok H. unfold load_manifest in H. apply bind_ok in H as (b & s1 & He & H).
  apply entry_exists_ok in He as (Hs1 & _ & Hb); [|done]. destruct b.
  2: { injection H as <- <- _. left. symmetry in Hb. apply bool_decide_eq_false in Hb. split_and!; [done..|]. by apply eq_None_not_Some. }
  right. apply bind_ok in H as (contents & s2 & Hr & H). apply read_file_ok in Hr as (i & nd & He & Hi & Hp & Hd).
  rewrite Hs1 in He, Hi. destruct (read_manifest contents) as [k' text] eqn:Hm.
  destruct (identity_is_valid_uuid (text_of_bytes text)) eqn:Hv; [|done]. injection H as <- <- _.
  exists (text_of_bytes text), i, nd. split_and!; [done..|]. rewrite Hd. destruct k'.
  - by apply read_manifest_required.
  - intros v Hv' ->. by rewrite read_manifest_of in Hm.
Qed.

(** The parts of a key record, in their places. *)
Lemma key_record_parts uuid public private :
  String.length uuid = UUID_SIZE -> length public = 32%nat -> length private = 64%nat ->
  let record := key_record uuid public private in
  length record = KEY_FILE_SIZE /\ take (length KEY_MAGIC) record = KEY_MAGIC /\
  take UUID_SIZE (drop (length KEY_MAGIC) record) = bytes_of uuid /\
  take 32 (drop (length KEY_MAGIC + UUID_SIZE) record) = public /\
  take 64 (drop (length KEY_MAGIC + UUID_SIZE + 32) record) = private.
Proof.
  intros Hu Hp Hs record. unfold record, key_record, KEY_FILE_SIZE.
  rewrite <-!drop_drop, drop_app_length, take_app_length, !length_app, length_bytes_of, Hu, Hp, Hs.
  rewrite <-length_bytes_of in Hu. split_and!; [lia|done|..].
  - by rewrite <-Hu, take_app_length.
  - by rewrite <-Hu, drop_app_length, <-Hp, take_app_length.
  - by rewrite <-Hu, drop_app_length, <-Hp, drop_app_length, take_ge by lia.
Qed.
Lemma key_record_of record uuid :
  length record = KEY_FILE_SIZE -> take (length KEY_MAGIC) record = KEY_MAGIC ->
  take UUID_SIZE (drop (length KEY_MAGIC) record) = bytes_of uuid ->
  let public := take 32 (drop (length KEY_MAGIC + UUID_SIZE) record) in
  let private := take 64 (drop (length KEY_MAGIC + UUID_SIZE + 32) record) in
  record = key_record uuid public private /\ length public = 32%nat /\ length private = 64%nat.
Proof.
  intros Hl Hm Hu public private. unfold public, private. rewrite !length_take, !length_drop, Hl. unfold KEY_FILE_SIZE.
  split_and!; [|lia..]. unfold key_record. rewrite <-Hm at 1. rewrite <-Hu.
  rewrite (take_ge (drop (_ + 32) record)) by (rewrite length_drop, Hl; unfold KEY_FILE_SIZE; lia).
  by rewrite app_assoc, take_take_drop, app_assoc, take_take_drop, take_drop.
Qed.

Lemma load_keys_ok keys_name uuid s d s' :
  load_keys keys_name uuid s = (Ok d, s') ->
  exists public private i nd, d = mkDeviceIdentity uuid public private /\
    length public = 32%nat /\ length private = 64%nat /\
    st_entries (sys_storage s) !! keys_name = Some i /\ st_inodes (sys_storage s) !! i = Some nd /\
    is_private nd = true /\ i_data nd = key_record uuid public private /\
    sign_seed_keypair (sign_sk_to_seed private) = (public, private).
Proof.
  unfold load_keys, check_keys. intros H. apply bind_ok in H as (record & s1 & Hr & H).
  apply read_file_ok in Hr as (i & nd & He & Hi & Hp & Hd).
  destruct (Nat.eqb_spec (length record) KEY_FILE_SIZE) as [Hl|]; cbn [negb orb] in H; [|done].
  case_bool_decide as Hm; cbn [negb orb] in H; [|done]. case_bool_decide as Hu; cbn [negb orb] in H; [|done].
  destruct (key_record_of record uuid Hl Hm Hu) as (Hrec & Hlp & Hls).
  apply bind_ok in H as (b1 & s2 & _ & H). apply bind_ok in H as (b2 & s3 & _ & H).
  destruct (sign_seed_keypair _) as [dp ds] eqn:Hk. destruct b2; cbn [negb orb] in H; [|done].
  case_bool_decide as Hdp; cbn [negb orb] in H; [|done]. case_bool_decide as Hds; cbn [negb orb] in H; [|done].
  injection H as <- _. do 2 eexists. exists i, nd. split_and!; [reflexivity|done..| |].
  - by rewrite Hd.
  - rewrite <-Hdp, <-Hds in Hk. exact Hk.
Qed.

(** ** The parts of a call *)

(** What the opening and the locking leave: the same files, and under every name but
    the lock's the same entries; when they succeed, nothing else can be found after
    a power loss, and a lock file is a private one. *)
Record prepared (lock : string) (done : bool) (st st' : Storage) : Prop := {
  prepared_ok : storage_ok st -> storage_ok st';
  prepared_keeps : keeps (fun x => x <> lock) st st';
  prepared_entries x : x <> lock -> st_entries st' !! x = st_entries st !! x;
  prepared_dir : st_dir_uid st' = st_dir_uid st;
  prepared_owner : done = true -> st_dir_uid st = ie_euid env;
  prepared_tables E : done = true -> E ∈ tables st' ->
    (forall x, x <> lock -> E !! x = st_entries st' !! x) /\
    (forall i, E !! lock = Some i -> exists nd, st_inodes st' !! i = Some nd /\ is_private nd = true)
}.

Lemma sync_ancestor_reads : ReadsOnly sync_ancestor.
Proof. intros s. unfold sync_ancestor. destruct (sync_with id s) as [r s'] eqn:H.
  apply sync_with_spec in H as [Hk [[_ Hs]|[_ Hs]]]; done.
Qed.
Lemma sync_ancestors_reads depth : ReadsOnly (sync_ancestors depth).
Proof.
  induction depth as [|depth IH]; cbn; [apply _|].
  apply bind_reads; [apply sync_ancestor_reads|]. intros _. apply bind_reads; [apply _|]. done.
Qed.

#[local] Ltac unchanged := cbn; split_and!; (done || by left).

(** The directory is opened: only its mode changes, and it is flushed on success. *)
Lemma open_directory_spec s r s' :
  open_identity_directory s = (r, s') ->
  sys_keys s' = sys_keys s /\
  st_inodes (sys_storage s') = st_inodes (sys_storage s) /\ st_entries (sys_storage s') = st_entries (sys_storage s) /\
  st_dir_uid (sys_storage s') = st_dir_uid (sys_storage s) /\
  (st_older (sys_storage s') = st_older (sys_storage s) /\ is_ok r = false \/ st_older (sys_storage s') = []) /\
  (is_ok r = true -> st_dir_uid (sys_storage s) = ie_euid env).
Proof.
  unfold open_identity_directory. intros [(b & s1 & Hs1 & Hk1 & H)|(Hr & Hs1 & Hk1)]%call_bind.
  2: { rewrite Hs1, Hk1, Hr. unchanged. }
  destruct b; cbn [negb] in H; [|injection H as <- <-; rewrite Hs1, Hk1; unchanged].
  apply call_bind in H as [(b & s2 & Hs2 & Hk2 & H)|(Hr & Hs2 & Hk2)].
  2: { rewrite Hs2, Hk2, Hs1, Hk1, Hr. unchanged. }
  rewrite Hs1 in Hs2. rewrite Hk1 in Hk2. clear s1 Hs1 Hk1. rename s2 into s1, Hs2 into Hs1, Hk2 into Hk1.
  apply bind_run in H as [(insp & s2 & Hi & H)|(e & Hi & ->)];
    (apply read_state in Hi as [Hs2 Hk2]; [|destruct b; apply _]); rewrite Hs1 in Hs2; rewrite Hk1 in Hk2;
    [|rewrite Hs2, Hk2; unchanged].
  rewrite bind_gets, Hs2 in H. destruct insp; cbn [negb orb] in H; [|injection H as <- <-; rewrite Hs2, Hk2; unchanged].
  destruct (Z.eqb_spec (st_dir_uid (sys_storage s)) (ie_euid env)) as [Hu|];
    cbn [negb] in H; [|injection H as <- <-; rewrite Hs2, Hk2; unchanged].
  apply call_bind in H as [(b' & s3 & Hs3 & Hk3 & H)|(Hr & Hs3 & Hk3)].
  2: { rewrite Hs3, Hk3, Hs2, Hk2, Hr. unchanged. }
  rewrite Hs2 in Hs3. rewrite Hk2 in Hk3.
  destruct b'; cbn [negb] in H; [|injection H as <- <-; rewrite Hs3, Hk3; unchanged].
  unfold bind at 1, modify in H. unfold sync_directory_tree in H.
  apply call_bind in H as [(b' & s4 & Hs4 & Hk4 & H)|(Hr & Hs4 & Hk4)].
  2: { rewrite Hs4, Hk4, Hr. cbn. rewrite Hs3, Hk3. unchanged. }
  cbn [sys_storage sys_keys set_storage] in Hs4, Hk4. rewrite Hs3 in Hs4. rewrite Hk3 in Hk4.
  destruct b'; cbn [negb] in H; [|injection H as <- <-; rewrite Hs4, Hk4; unchanged].
  apply bind_run in H as [(u & s5 & Hd & H)|(e & Hd & ->)]; apply sync_with_spec in Hd as [Hk5 [[? Hs5]|[? Hs5]]];
    try done; rewrite Hs4 in Hs5; rewrite Hk4 in Hk5.
  2: { rewrite Hs5, Hk5. unchanged. }
  apply read_state in H as [-> ->].
  2: { apply bind_reads; [apply _|]. intros _. apply sync_ancestors_reads. }
  rewrite Hs5, Hk5. cbn. split_and!; [done..|by right|done].
Qed.

(** The directory is flushed. *)
Lemma flushed_prepared lock (done : bool) st st' :
  st_inodes st' = st_inodes st -> st_entries st' = st_entries st -> st_dir_uid st' = st_dir_uid st ->
  (st_older st' = st_older st /\ done = false \/ st_older st' = []) -> done = false ->
  prepared lock done st st'.
Proof.
  intros Hi He Hu Ho ->.
  assert (Ht : forall E, E ∈ tables st' -> E ∈ tables st).
  { intros E. unfold tables. rewrite He. destruct Ho as [[-> _]| ->]; [done|]. intros ->%list_elem_of_singleton. left. }
  split; try done; rewrite ?Hi, ?He; [|split|done].
  - intros Hok E HE x i Hx. rewrite Hi. by apply (Hok E (Ht E HE) x).
  - by rewrite Hi.
  - intros E HE. exists E. by auto.
Qed.

(** The lock file exists and is private, or is created. *)
Lemma locked_prepared lock (done : bool) st st1 st' r :
  st_inodes st1 = st_inodes st -> st_entries st1 = st_entries st -> st_dir_uid st1 = st_dir_uid st ->
  st_older st1 = [] -> st_dir_uid st = ie_euid env ->
  (st' = st1 /\
     (forall i, r = Ok i -> true && false = false /\ st_entries st1 !! lock = Some i /\
        exists nd, st_inodes st1 !! i = Some nd /\ is_private nd = true) \/
   true = true /\ st_entries st1 !! lock = None /\
     exists i, st_inodes st1 !! i = None /\ st' = with_file lock i (new_file (ie_euid env) (ie_umask env)) st1 /\
       forall j, r = Ok j -> j = i /\ is_private (new_file (ie_euid env) (ie_umask env)) = true) ->
  (done = true -> is_ok (E:=StorageError) r = true) ->
  prepared lock done st st'.
Proof.
  intros Hi He Hu Ho Hown Hcase Hd.
  assert (Hpre : prepared lock false st st1) by (apply flushed_prepared; auto).
  destruct Hcase as [[-> Hr]|(_ & Hne & i & Hfresh & -> & Hr)].
  - destruct Hpre. split; try done. intros E Hdone HE. unfold tables in HE. rewrite Ho in HE.
    apply list_elem_of_singleton in HE as ->. split; [done|]. intros i Hx.
    specialize (Hd Hdone). destruct r as [j|]; [|done]. destruct (Hr j eq_refl) as (_ & He' & nd & Hnd & Hp).
    rewrite He' in Hx. injection Hx as <-. by exists nd.
  - destruct Hpre as [Hok Hk Hent _ _ _].
    pose proof (with_file_keeps lock i (new_file (ie_euid env) (ie_umask env)) st1 Hfresh) as Hk2. split.
    + intros H. by apply with_file_ok, Hok.
    + by etransitivity.
    + intros x Hx. change (<[lock := i]> (st_entries st1) !! x = st_entries st !! x).
      rewrite lookup_insert_ne by done. auto.
    + done.
    + done.
    + intros E Hdone HE. specialize (Hd Hdone). destruct r as [j|]; [|done].
      destruct (Hr j eq_refl) as [-> Hpriv]. change (E ∈ <[lock := i]> (st_entries st1) :: st_entries st1 :: st_older st1) in HE.
      change (st_entries (with_file lock i (new_file (ie_euid env) (ie_umask env)) st1))
        with (<[lock := i]> (st_entries st1)).
      change (st_inodes (with_file lock i (new_file (ie_euid env) (ie_umask env)) st1))
        with (<[i := new_file (ie_euid env) (ie_umask env)]> (st_inodes st1)).
      rewrite Ho in HE. apply elem_of_cons in HE as [->| ->%list_elem_of_singleton].
      * split; [done|]. intros k. rewrite lookup_insert_eq. intros [= <-]. eexists. by rewrite lookup_insert_eq.
      * split; [intros x Hx; by rewrite lookup_insert_ne|]. intros k Hk'. congruence.
Qed.

Lemma prepare_spec lock s r s' :
  (open_identity_directory;;; acquire_lock lock) s = (r, s') ->
  sys_keys s' = sys_keys s /\ prepared lock (is_ok r) (sys_storage s) (sys_storage s').
Proof.
  intros [(u & s1 & Hd & H)|(e & Hd & ->)]%bind_run; apply open_directory_spec in Hd as (Hk & Hi & He & Hu & Ho & Hown).
  2: { split; [done|]. apply flushed_prepared; try done. }
  destruct Ho as [[_ [=]]|Ho]. unfold acquire_lock in H.
  apply bind_run in H as [(i & s2 & Hl & H)|(e & Hl & ->)]; apply open_private_spec in Hl as [Hk2 Hl].
  - apply read_state in H as [-> ->].
    2: { apply bind_reads; [apply (outcomes_reads lock_loop)|]. apply _. }
    split; [congruence|]. eapply locked_prepared; eauto.
  - split; [congruence|]. eapply locked_prepared; eauto.
Qed.

(** How a call goes on once it holds the lock and found no temporary file: it loads
    the identity its manifest announces, or creates the keys of a directory that has
    neither manifest nor keys. *)
Inductive continues (name : string) (s : Sys) (r : result StorageError DeviceIdentity) (s' : Sys) : Prop :=
| continues_stopped :
    is_ok r = false -> sys_storage s' = sys_storage s -> sys_keys s' = sys_keys s -> continues name s r s'
| continues_loading uuid i nd :
    identity_is_valid_uuid uuid = true ->
    st_entries (sys_storage s) !! name = Some i -> st_inodes (sys_storage s) !! i = Some nd ->
    is_private nd = true -> i_data nd = manifest uuid ->
    is_Some (st_entries (sys_storage s) !! String.append name ".keys") ->
    (exists sl, sys_storage sl = sys_storage s /\ sys_keys sl = sys_keys s /\
                load_keys (String.append name ".keys") uuid sl = (r, s')) ->
    continues name s r s'
| continues_creating uuid :
    (forall i nd, st_entries (sys_storage s) !! name = Some i -> st_inodes (sys_storage s) !! i = Some nd ->
       forall v, String.length v = UUID_SIZE -> i_data nd <> manifest v) ->
    (forall u, uuid = Some u -> identity_is_valid_uuid u = true) ->
    st_entries (sys_storage s) !! String.append name ".keys" = None ->
    (exists sl, sys_storage sl = sys_storage s /\ sys_keys sl = sys_keys s /\
                create_keys name (String.append name ".keys") uuid sl = (r, s')) ->
    continues name s r s'.

Lemma load_or_create_locked_run name s r s' :
  storage_ok (sys_storage s) -> load_or_create_locked name s = (r, s') ->
  is_ok r = false /\ sys_storage s' = sys_storage s /\ sys_keys s' = sys_keys s \/
  st_entries (sys_storage s) !! String.append name ".tmp" = None /\
  st_entries (sys_storage s) !! String.append (String.append name ".keys") ".tmp" = None /\
  continues name s r s'.
Proof.
  intros Hok H. unfold load_or_create_locked in H.
  apply bind_run in H as [(b1 & s1 & He & H)|(e & He & ->)].
  2: { left. by apply read_state in He as [-> ->]; [|apply _]. }
  apply entry_exists_ok in He as (Hs1 & Hk1 & Hb1); [|done].
  apply bind_run in H as [(b2 & s2 & He & H)|(e & He & ->)].
  2: { left. apply read_state in He as [-> ->]; [|destruct b1; apply _]. done. }
  destruct b1.
  { injection He as <- <-. injection H as <- <-. left. done. }
  apply entry_exists_ok in He as (Hs2 & Hk2 & Hb2); [|by rewrite Hs1]. rewrite Hs1 in Hs2, Hb2. rewrite Hk1 in Hk2.
  destruct b2; cbn [orb] in H.
  { injection H as <- <-. left. done. }
  symmetry in Hb1, Hb2. apply bool_decide_eq_false in Hb1, Hb2. rewrite <-eq_None_not_Some in Hb1, Hb2.
  right. split_and!; [done..|]. clear s1 Hs1 Hk1 Hb1 Hb2.
  apply bind_run in H as [([k u] & s3 & Hm & H)|(e & Hm & ->)].
  2: { apply read_state in Hm as [Hs3 Hk3]; [|apply _]. apply continues_stopped; [done|congruence..]. }
  pose proof (read_state _ _ _ _ (load_manifest_reads name) Hm) as [Hs3 Hk3].
  apply load_manifest_ok in Hm; [|by rewrite Hs2]. rewrite Hs2 in Hm, Hs3. rewrite Hk2 in Hk3.
  apply bind_run in H as [(b & s4 & He & H)|(e & He & ->)].
  2: { apply read_state in He as [Hs4 Hk4]; [|apply _]. apply continues_stopped; [done|congruence..]. }
  apply entry_exists_ok in He as (Hs4 & Hk4 & Hb); [|by rewrite Hs3]. rewrite Hs3 in Hs4, Hb. rewrite Hk3 in Hk4.
  clear s2 Hs2 Hk2 s3 Hs3 Hk3.
  destruct (Bool.eqb b k) eqn:Hbk; cbn [negb] in H.
  2: { destruct k; injection H as <- <-; by apply continues_stopped. }
  apply eqb_prop in Hbk as ->. destruct k; symmetry in Hb.
  - destruct Hm as [(_ & [=] & _)|(uuid & i & nd & -> & ? & ? & ? & ? & ?)]. apply bool_decide_eq_true in Hb.
    eapply continues_loading; eauto.
  - apply bool_decide_eq_false in Hb. rewrite <-eq_None_not_Some in Hb.
    apply (continues_creating _ _ _ _ u); [..|done|by exists s4].
    + intros i nd Hi Hnd. destruct Hm as [(_ & _ & ?)|(uuid & i' & nd' & -> & _ & Hi' & Hnd' & _ & Hne)]; [congruence|].
      assert (nd' = nd) as <- by congruence. done.
    + intros v ->. by destruct Hm as [([=] & _)|(uuid & i' & nd' & [= ->] & ? & _)].
Qed.

Lemma load_or_create_run name s r s' :
  storage_ok (sys_storage s) -> load_or_create name s = (r, s') ->
  exists s1 ok, sys_keys s1 = sys_keys s /\ prepared (String.append name ".lock") ok (sys_storage s) (sys_storage s1) /\
    (is_ok r = false /\ sys_storage s' = sys_storage s1 /\ sys_keys s' = sys_keys s1 \/
     ok = true /\ st_entries (sys_storage s1) !! String.append name ".tmp" = None /\
     st_entries (sys_storage s1) !! String.append (String.append name ".keys") ".tmp" = None /\
     continues name s1 r s').
Proof.
  intros Hok H. unfold load_or_create in H.
  assert (Hsame : forall s1, sys_storage s1 = sys_storage s -> prepared (String.append name ".lock") false (sys_storage s) (sys_storage s1)).
  { intros s1 ->. apply flushed_prepared; auto. }
  apply call_bind in H as [(b & s1 & Hs1 & Hk1 & H)|(Hr & Hs1 & Hk1)].
  2: { exists s', false. auto 10. }
  destruct b; cbn [negb] in H.
  2: { injection H as <- <-. exists s1, false. auto 10. }
  destruct (_ || _ || _).
  { injection H as <- <-. exists s1, false. auto 10. }
  rewrite bind_assoc in H. apply bind_run in H as [(l & s2 & Hp & H)|(e & Hp & ->)]; apply prepare_spec in Hp as [Hk2 Hp];
    rewrite Hs1 in Hp; rewrite Hk1 in Hk2.
  2: { exists s', false. auto 10. }
  exists s2, true. split_and!; [done..|]. apply load_or_create_locked_run in H as [H|H]; auto.
  by apply (prepared_ok _ _ _ _ Hp).
Qed.

(** ** What a written file leaves to be found *)

Lemma published_keeps name data st i nd :
  st_inodes st !! i = None -> i_stable nd = true -> i_data nd = data ->
  let st1 := with_file (String.append name ".tmp") i nd st in
  let st2 := change_entries (<[name := i]> (delete (String.append name ".tmp") (st_entries st1))) st1 in
  holds st2 (st_entries st2) name data /\
  (forall x, x <> name -> x <> String.append name ".tmp" -> st_entries st2 !! x = st_entries st !! x) /\
  st_entries st2 !! String.append name ".tmp" = None.
Proof.
  intros Hi Hs Hd st1 st2.
  pose proof (suffix_ne_name name ".tmp" ltac:(done)) as Hne.
  change (st_entries st2) with
    (<[name := i]> (delete (String.append name ".tmp") (<[String.append name ".tmp" := i]> (st_entries st)))).
  split_and!.
  - exists i, nd. rewrite lookup_insert_eq. split_and!; [done| |done..].
    change (<[i := nd]> (st_inodes st) !! i = Some nd). apply lookup_insert_eq.
  - intros x Hx Hx'. by rewrite lookup_insert_ne, lookup_delete_ne, lookup_insert_ne.
  - by rewrite lookup_insert_ne, lookup_delete_eq.
Qed.

(** Every table to be found afterwards is a former one, except that [name] may have
    the new contents and the temporary file may be there. *)
Lemma written_tables name data st complete st' E' :
  written name data st complete st' -> E' ∈ tables st' ->
  exists E, E ∈ tables st /\ (forall x, x <> name -> x <> String.append name ".tmp" -> E' !! x = E !! x) /\
    (E' !! name = E !! name \/ holds st' E' name data).
Proof.
  pose proof (suffix_ne_name name ".tmp" ltac:(done)) as Hne.
  destruct 1 as [|i nd Hi|i nd complete Hi Hx Hs Hd Hp st1 st2].
  - intros HE. exists E'. auto.
  - intros HE. destruct (keeps_tables _ _ _ (with_file_keeps _ _ nd _ Hi) _ HE) as (E & ? & HE'). exists E. auto.
  - intros HE. destruct (published_keeps name data st i nd Hi Hs Hd) as (Hh & Hk & _). fold st1 st2 in Hh, Hk.
    assert (E' = st_entries st2 \/ E' ∈ tables st1) as [->|HE1].
    { destruct complete; [left; by apply list_elem_of_singleton in HE|]. by apply elem_of_cons in HE. }
    + exists (st_entries st). split_and!; [left|done|]. right. by destruct complete.
    + destruct (keeps_tables _ _ _ (with_file_keeps _ _ nd _ Hi) _ HE1) as (E & ? & HE'). exists E. auto.
Qed.

Lemma written_inodes name data st complete st' j nd' :
  written name data st complete st' -> st_inodes st !! j = Some nd' -> st_inodes st' !! j = Some nd'.
Proof.
  intros Hw Hj.
  assert (Hk : forall i nd, st_inodes st !! i = None -> st_inodes (with_file (String.append name ".tmp") i nd st) !! j = Some nd').
  { intros i nd Hi. by apply (keeps_inodes _ _ _ (with_file_keeps _ _ nd _ Hi)). }
  destruct Hw as [|i nd Hi|i nd complete Hi ? ? ? ?]; [done|by apply Hk|]. destruct complete; by apply Hk.
Qed.

Lemma written_dir name data st complete st' : written name data st complete st' -> st_dir_uid st' = st_dir_uid st.
Proof. destruct 1 as [| |i nd complete]; [done..|]. by destruct complete. Qed.

Lemma written_ok name data st complete st' : written name data st complete st' -> storage_ok st -> storage_ok st'.
Proof.
  intros Hw Hok E HE x i Hx.
  destruct Hw as [|j nd Hj|j nd complete Hj Hn Hs Hd Hp st1 st2]; [by apply (Hok E HE x)|by eapply with_file_ok|].
  assert (Hok1 : storage_ok st1) by (by apply with_file_ok).
  assert (E = st_entries st2 \/ E ∈ tables st1) as [->|HE1].
  { destruct complete; [left; by apply list_elem_of_singleton in HE|]. by apply elem_of_cons in HE. }
  2: { destruct complete; by apply (Hok1 E HE1 x). }
  assert (is_Some (st_inodes st1 !! i)) as Hi by
    (change (<[name := j]> (delete (String.append name ".tmp") (st_entries st1)) !! x = Some i) in Hx;
     apply lookup_insert_Some in Hx as [[_ <-]|[_ [_ Hx]%lookup_delete_Some]];
     [eexists; apply lookup_insert_eq|by apply (Hok1 (st_entries st1) ltac:(left) x)]).
  by destruct complete.
Qed.

(** A write that succeeds leaves one table, with the file in it. *)
Lemma written_complete name data st st' E' :
  written name data st true st' -> E' ∈ tables st' ->
  E' = st_entries st' /\
  (exists i nd, E' !! name = Some i /\ st_inodes st' !! i = Some nd /\ i_stable nd = true /\ i_data nd = data /\
     is_private nd = true) /\
  (forall x, x <> name -> x <> String.append name ".tmp" -> E' !! x = st_entries st !! x) /\
  E' !! String.append name ".tmp" = None.
Proof.
  intros Hw. remember true as c eqn:Hc.
  destruct Hw as [| |i nd complete Hi Hx Hs Hd Hp st1 st2]; [done..|]. subst complete.
  intros ->%list_elem_of_singleton. destruct (published_keeps name data st i nd Hi Hs Hd) as (_ & Hk & Ht).
  split_and!; [done| |done..]. exists i, nd. split_and!; [|by apply lookup_insert_eq|done..].
  apply (lookup_insert_eq (delete (String.append name ".tmp") (st_entries st1))).
Qed.
End identity.

(** ** Where the identity is kept *)

(** [getpwuid]: [pw_dir], or no entry or directory. *)
Definition resolve_home_directory (pw_dir : option string) : result StorageError string :=
  match pw_dir with
  | Some dir => if bool_decide (dir = EmptyString)
                then Throw (StorageFailure "unable to determine the current user's home directory") else Ok dir
  | None => Throw (StorageFailure "unable to determine the current user's home directory")
  end.
Definition default_identity_path (pw_dir : option string) : result StorageError string :=
  match resolve_home_directory pw_dir with
  | Ok home => Ok (path_join (path_join (path_join home ".config") "gasoline") "device_id")
  | Throw e => Throw e
  end.
