(* ===== verification/IdentityHistory.v ===== *)
(** * Histories of the device identity ([core/identity/device_identity.cpp])

    The theorems on [DeviceIdentity::load_or_create] of [Identity.v]: over any
    history of calls, failures, kills and power losses at most one key pair is ever
    generated and every successful call returns the same identity; an identity that
    was returned can be loaded again, also after a power loss; an interrupted or
    inconsistent directory is never repaired by rekeying.

    Calls of a history do not overlap: everything after the opening of the
    directory happens under the exclusive lock, and the opening only flushes. *)

From S2P Require Import Prelude Uuid Storage Identity.

(** ** Histories *)

Section history.
Context {SO : Sodium} {SL : SodiumLaws} (name : string).
Abbreviation keys_name := (String.append name ".keys").

(** A history of the directory: calls by any user, with any umask, meeting any
    outcomes, and power losses, from a directory at rest.  It records the key pairs
    generated, by their seeds, and the identities returned. *)
Inductive history : Storage -> list (list byte) -> list DeviceIdentity -> Prop :=
| history_start st :
    storage_ok st -> st_older st = [] -> (forall i nd, st_inodes st !! i = Some nd -> i_stable nd = true) ->
    history st [] []
| history_call env st outcomes keys returned r s' :
    history st keys returned -> length (ie_seed env) = 32%nat -> length (ie_uuid_bytes env) = 16%nat ->
    load_or_create env name (mkSys st outcomes keys) = (r, s') ->
    history (sys_storage s') (sys_keys s') (match r with Ok d => d :: returned | Throw _ => returned end)
| history_loss st st' keys returned :
    history st keys returned -> power_loss st st' -> history st' keys returned.

(** ** The invariant *)

Definition stable_names (st : Storage) : Prop :=
  forall E, E ∈ tables st ->
    settled_at st E name (fun _ => True) /\ settled_at st E keys_name (fun _ => True).

(** The directory can only give the identity [d], whichever table is found. *)
Record established (d : DeviceIdentity) (st : Storage) : Prop := {
  established_uuid : String.length (device_id_ d) = UUID_SIZE;
  established_public : length (public_key_ d) = 32%nat;
  established_private : length (private_key_ d) = 64%nat;
  established_tables E : E ∈ tables st ->
    holds st E name (manifest (device_id_ d)) /\
    settled_at st E keys_name
      (fun nd => i_data nd = key_record (device_id_ d) (public_key_ d) (private_key_ d))
}.

Definition identity_inv (st : Storage) (keys : list (list byte)) (returned : list DeviceIdentity) : Prop :=
  storage_ok st /\ stable_names st /\
  (keys = [] /\ returned = [] \/
   exists d, established d st /\ (length keys <= 1)%nat /\
     (forall seed, seed ∈ keys -> sign_seed_keypair seed = (public_key_ d, private_key_ d)) /\
     forall d', d' ∈ returned -> d' = d).

Lemma keeps_stable_names P st st' :
  keeps P st st' -> P name -> P keys_name -> stable_names st -> stable_names st'.
Proof.
  intros Hk Hn Hkn H E' HE'. destruct (keeps_tables _ _ _ Hk E' HE') as (E & HE & Heq).
  destruct (H E HE). split; apply (keeps_settled P st st' E' E); auto.
Qed.
Lemma keeps_established P d st st' :
  keeps P st st' -> P name -> P keys_name -> established d st -> established d st'.
Proof.
  intros Hk Hn Hkn [? ? ? H]. split; [done..|]. intros E' HE'.
  destruct (keeps_tables _ _ _ Hk E' HE') as (E & HE & Heq). destruct (H E HE).
  split; [apply (keeps_holds P st st' E' E)|apply (keeps_settled P st st' E' E)]; auto.
Qed.

Lemma survives_holds st st' E x data :
  (forall i, option_Forall2 survives (st_inodes st !! i) (st_inodes st' !! i)) ->
  holds st E x data -> holds st' E x data.
Proof.
  intros Hs (i & nd & He & Hi & Hst & Hd). specialize (Hs i). rewrite Hi in Hs. inversion Hs as [? nd' Hv Heq|]; subst.
  exists i, nd'. destruct Hv as (_ & _ & _ & _ & Hst' & Hd'). rewrite Hd' by done. done.
Qed.
Lemma survives_settled st st' E x data :
  (forall i, option_Forall2 survives (st_inodes st !! i) (st_inodes st' !! i)) ->
  settled_at st E x (fun nd => i_data nd = data) -> settled_at st' E x (fun nd => i_data nd = data).
Proof.
  intros Hs H i Hi. destruct (H i Hi) as (nd & Hnd & Hst & Hd).
  destruct (survives_holds st st' E x data Hs) as (j & nd' & Hj & Hnd' & ? & ?); [by exists i, nd|].
  rewrite Hi in Hj. injection Hj as <-. eauto.
Qed.

Lemma loss_inv st st' keys returned : identity_inv st keys returned -> power_loss st st' -> identity_inv st' keys returned.
Proof.
  intros (Hok & Hst & Hd) Hl. inversion Hl as [inodes entries mode HE Hs Heq]. rewrite Heq. clear Hl.
  assert (Hs' : forall i, option_Forall2 survives (st_inodes st !! i) (st_inodes st' !! i)) by (by rewrite <-Heq).
  assert (Ht' : forall E, E ∈ tables st' -> E = entries) by (rewrite <-Heq; intros E HE'; by apply list_elem_of_singleton).
  clear Heq Hs.
  assert (Hok' : forall E x i, E ∈ tables st' -> E !! x = Some i -> exists nd, st_inodes st' !! i = Some nd /\ i_stable nd = true).
  { intros E x i ->%Ht' Hx. destruct (Hok entries HE x i Hx) as [nd Hnd]. specialize (Hs' i).
    rewrite Hnd in Hs'. inversion Hs' as [? nd' Hv Heq|]; subst. exists nd'. split; [done|]. apply Hv. }
  split_and!.
  - intros E HE' x i Hx. destruct (Hok' E x i HE' Hx) as (nd & ? & _). by exists nd.
  - intros E HE'. split; intros i Hx; destruct (Hok' E _ i HE' Hx) as (nd & ? & ?); by exists nd.
  - destruct Hd as [?|(d & [? ? ? Htab] & ?)]; [by left|]. right. exists d. split; [|done]. split; [done..|].
    intros E ->%Ht'. destruct (Htab entries HE) as [Hh Hset]. split.
    + by apply (survives_holds st).
    + by apply (survives_settled st).
Qed.

Lemma prepared_inv env ok st st' keys returned :
  prepared env (String.append name ".lock") ok st st' -> identity_inv st keys returned -> identity_inv st' keys returned.
Proof.
  intros [Hok Hk _ _ _ _] (? & ? & Hd).
  assert (name <> String.append name ".lock") by (apply not_eq_sym, suffix_ne_name; done).
  assert (keys_name <> String.append name ".lock") by (by apply suffix_ne).
  split_and!; [auto|by eapply keeps_stable_names|]. destruct Hd as [?|(d & ? & ?)]; [by left|].
  right. exists d. split; [|done]. by eapply keeps_established.
Qed.

(** A file written under one of the two names is stable. *)
Lemma written_settled env x data st complete st' y (P : Inode -> Prop) :
  written env x data st complete st' -> y <> String.append x ".tmp" ->
  (forall E, E ∈ tables st -> settled_at st E y P) -> (y = x -> forall nd, i_data nd = data -> P nd) ->
  forall E, E ∈ tables st' -> settled_at st' E y P.
Proof.
  intros Hw Hy H HP E' HE' i Hi. destruct (written_tables _ _ _ _ _ _ _ Hw HE') as (E & HE & Hx & Hn).
  assert (Hold : E' !! y = E !! y -> exists nd, st_inodes st' !! i = Some nd /\ i_stable nd = true /\ P nd).
  { intros Heq. rewrite Heq in Hi. destruct (H E HE i Hi) as (nd & Hnd & ? & ?). exists nd.
    split; [|done]. by eapply written_inodes. }
  destruct (decide (y = x)) as [->|Hne]; [|by apply Hold, Hx].
  destruct Hn as [?|(j & nd & Hj & Hnd & ? & ?)]; [by apply Hold|].
  rewrite Hi in Hj. injection Hj as <-. exists nd. auto.
Qed.

Lemma name_ne_tmp : name <> String.append name ".tmp" /\ name <> String.append keys_name ".tmp" /\
  keys_name <> String.append name ".tmp" /\ keys_name <> String.append keys_name ".tmp" /\ keys_name <> name /\
  String.append name ".tmp" <> String.append keys_name ".tmp".
Proof.
  split_and!; try (apply not_eq_sym, suffix_ne_name; done); try (apply suffix_ne_name; done); try (by apply suffix_ne).
  all: intros Heq%(f_equal String.length); rewrite !append_length in Heq; cbn in Heq; lia.
Qed.

Lemma written_stable env x data st complete st' :
  x = name \/ x = keys_name -> written env x data st complete st' -> stable_names st -> stable_names st'.
Proof.
  intros Hx Hw Hst E' HE'. destruct name_ne_tmp as (? & ? & ? & ? & ? & _).
  split; eapply (written_settled env x); eauto; try (by destruct Hx as [->| ->]); intros E HE; by apply Hst.
Qed.

(** The key record of [d] may be written without endangering [d]. *)
Lemma written_established env d st complete st' :
  written env keys_name (key_record (device_id_ d) (public_key_ d) (private_key_ d)) st complete st' ->
  established d st -> established d st'.
Proof.
  intros Hw [? ? ? H]. destruct name_ne_tmp as (? & ? & ? & ? & ? & _). split; [done..|]. intros E' HE'. split.
  - destruct (written_tables _ _ _ _ _ _ _ Hw HE') as (E & HE & Hx & _).
    destruct (H E HE) as [(i & nd & Hi & Hnd & ? & ?) _]. exists i, nd. rewrite Hx by done.
    split_and!; [done|by eapply written_inodes|done..].
  - eapply (written_settled env keys_name); eauto. intros E HE. by apply H.
Qed.

(** The creation of keys: the manifest is written; only then is a key pair generated,
    and its record written. *)
Inductive creates (env : IdentityEnv) (uuid : string) (s : Sys) (r : result StorageError DeviceIdentity) (s' : Sys) : Prop :=
| creates_no_key complete :
    written env name (manifest uuid) (sys_storage s) complete (sys_storage s') -> is_ok r = false ->
    sys_keys s' = sys_keys s -> creates env uuid s r s'
| creates_key st1 d complete :
    d = mkDeviceIdentity uuid (sign_seed_keypair (ie_seed env)).1 (sign_seed_keypair (ie_seed env)).2 ->
    written env name (manifest uuid) (sys_storage s) true st1 ->
    written env keys_name (key_record uuid (public_key_ d) (private_key_ d)) st1 complete (sys_storage s') ->
    (if complete then r = Ok d else is_ok r = false) ->
    sys_keys s' = ie_seed env :: sys_keys s -> creates env uuid s r s'.

Lemma create_keys_run env u s r s' :
  create_keys env name keys_name u s = (r, s') ->
  creates env (match u with Some uuid => uuid | None => generate_uuid (ie_uuid_bytes env) end) s r s'.
Proof.
  unfold create_keys. set (uuid := match u with Some _ => _ | None => _ end).
  intros [(t & s1 & Hw & H)|(e & Hw & ->)]%bind_run; apply atomic_write_spec in Hw as [Hk1 Hw].
  2: by eapply creates_no_key.
  apply call_bind in H as [(b & s2 & Hs2 & Hk2 & H)|(Hr & Hs2 & Hk2)].
  2: { eapply creates_no_key; [by rewrite Hs2|done|congruence]. }
  destruct b; cbn [negb] in H.
  2: { injection H as <- <-. eapply creates_no_key; [by rewrite Hs2|done|congruence]. }
  unfold bind at 1, modify in H. destruct (sign_seed_keypair (ie_seed env)) as [public private] eqn:Hkp.
  apply bind_run in H as [(t' & s3 & Hw2 & H)|(e & Hw2 & ->)]; apply atomic_write_spec in Hw2 as [Hk3 Hw2];
    cbn [sys_keys sys_storage add_key] in Hk3, Hw2; rewrite Hs2 in Hw2; rewrite Hk2, Hk1 in Hk3.
  - injection H as <- <-. eapply (creates_key _ _ _ _ _ _ _ true); rewrite ?Hkp; eauto.
  - eapply (creates_key _ _ _ _ _ _ _ false); rewrite ?Hkp; eauto.
Qed.

Lemma created_inv env uuid s r s' returned :
  length (ie_seed env) = 32%nat -> String.length uuid = UUID_SIZE ->
  st_entries (sys_storage s) !! keys_name = None ->
  identity_inv (sys_storage s) (sys_keys s) returned -> sys_keys s = [] -> returned = [] ->
  creates env uuid s r s' ->
  identity_inv (sys_storage s') (sys_keys s') (match r with Ok d => d :: returned | Throw _ => returned end).
Proof.
  intros Hseed Hu Hnk (Hok & Hst & _) Hks -> [complete Hw Hr Hk|st1 d complete Hd Hw1 Hw2 Hr Hk].
  - destruct r; [done|]. split_and!; [by eapply written_ok|by eapply written_stable; [left|..]|]. left. by rewrite Hk.
  - assert (Hok1 : storage_ok st1) by (by eapply written_ok).
    split_and!; [by eapply written_ok|by eapply written_stable; [right|eauto|eapply written_stable; [left|..]]|]. right.
    exists d. destruct (seed_keypair_sizes _ Hseed) as [Hl1 Hl2]. split_and!.
    + eapply (written_established env d); [by rewrite Hd in *|]. rewrite Hd. split; cbn; [done..|]. intros E HE.
      destruct (written_complete _ _ _ _ _ _ Hw1 HE) as (_ & (i & nd & ? & ? & ? & ? & _) & Hx & _).
      split; [by exists i, nd|]. intros j Hj. destruct name_ne_tmp as (_ & _ & ? & _ & ? & _).
      rewrite Hx, Hnk in Hj; done.
    + rewrite Hk, Hks. cbn. lia.
    + intros seed. rewrite Hk, Hks, list_elem_of_singleton, Hd. intros ->. cbn. by destruct (sign_seed_keypair _).
    + intros d' Hd'. destruct r as [d''|]; [|by apply not_elem_of_nil in Hd'].
      apply list_elem_of_singleton in Hd' as ->. destruct complete; [congruence|done].
Qed.

Lemma manifest_inj u1 u2 : manifest u1 = manifest u2 -> u1 = u2.
Proof. intros H%app_inv_tail. by rewrite <-(text_of_bytes_of u1), H, text_of_bytes_of. Qed.

(** A directory that holds a manifest and a key record of [d]. *)
Definition gives (d : DeviceIdentity) (st : Storage) (E : table) : Prop :=
  (exists i nd, E !! name = Some i /\ st_inodes st !! i = Some nd /\ i_data nd = manifest (device_id_ d)) /\
  (exists i nd, E !! keys_name = Some i /\ st_inodes st !! i = Some nd /\
     i_data nd = key_record (device_id_ d) (public_key_ d) (private_key_ d)).

Lemma gives_established d d' st :
  String.length (device_id_ d') = UUID_SIZE -> length (public_key_ d') = 32%nat -> length (private_key_ d') = 64%nat ->
  gives d' st (st_entries st) -> established d st -> d' = d.
Proof.
  intros Hu' Hp' Hs' [(i & nd & Hi & Hnd & Hd) (j & nd' & Hj & Hnd' & Hd')] [Hu Hp Hs H].
  destruct (H (st_entries st) ltac:(left)) as [(i0 & nd0 & Hi0 & Hnd0 & _ & Hd0) Hset].
  destruct (Hset j Hj) as (nd1 & Hnd1 & _ & Hd1).
  assert (device_id_ d' = device_id_ d) as Heq by (apply manifest_inj; congruence).
  destruct (key_record_parts _ _ _ Hu' Hp' Hs') as (_ & _ & _ & E1 & E2).
  destruct (key_record_parts _ _ _ Hu Hp Hs) as (_ & _ & _ & E3 & E4).
  rewrite <-Hd' in E1, E2. rewrite <-Hd1 in E3, E4. assert (nd1 = nd') as -> by congruence.
  destruct d, d'. cbn in *. congruence.
Qed.

Lemma established_gives d st :
  String.length (device_id_ d) = UUID_SIZE -> length (public_key_ d) = 32%nat -> length (private_key_ d) = 64%nat ->
  stable_names st -> (forall E, E ∈ tables st -> gives d st E) -> established d st.
Proof.
  intros Hu Hp Hs Hst H. split; [done..|]. intros E HE. destruct (Hst E HE) as [Hn Hk].
  destruct (H E HE) as [(i & nd & Hi & Hnd & Hd) (j & nd' & Hj & Hnd' & Hd')]. split.
  - destruct (Hn i Hi) as (nd0 & Hnd0 & ? & _). exists i, nd. split_and!; [done..| |done]. congruence.
  - intros j' Hj'. destruct (Hk j' Hj') as (nd0 & Hnd0 & ? & _). exists nd0. split_and!; [done..|]. congruence.
Qed.

Lemma loaded_inv env st s r s' keys returned :
  prepared env (String.append name ".lock") true st (sys_storage s) ->
  identity_inv (sys_storage s) keys returned -> sys_keys s = keys ->
  (exists uuid i nd, identity_is_valid_uuid uuid = true /\
    st_entries (sys_storage s) !! name = Some i /\ st_inodes (sys_storage s) !! i = Some nd /\ i_data nd = manifest uuid /\
    exists sl, sys_storage sl = sys_storage s /\ sys_keys sl = keys /\ load_keys env keys_name uuid sl = (r, s')) ->
  identity_inv (sys_storage s') (sys_keys s') (match r with Ok d => d :: returned | Throw _ => returned end).
Proof.
  intros Hprep Hinv Hks (uuid & i & nd & Hv & Hi & Hnd & Hm & sl & Hsl & Hkl & Hl).
  destruct (read_state _ _ _ _ (load_keys_reads env keys_name uuid) Hl) as [-> ->]. rewrite Hsl, Hkl.
  destruct r as [d|]; [|done]. apply load_keys_ok in Hl as (public & private & j & nd' & Hd & Hlp & Hls & Hj & Hnd' & _ & Hr & _).
  rewrite Hsl in Hj, Hnd'. apply valid_uuid_length in Hv.
  assert (Hg : gives d (sys_storage s) (st_entries (sys_storage s))) by (subst d; split; [by exists i, nd|by exists j, nd']).
  destruct Hinv as (Hok & Hst & Hcase). split_and!; [done..|]. right.
  destruct Hcase as [[-> ->]|(d0 & He & Hlen & Hseed & Hret)].
  - exists d. split_and!; [|cbn; lia|by intros ? ?%not_elem_of_nil|by intros d' ?%list_elem_of_singleton].
    apply established_gives; [by rewrite Hd..|done|]. intros E HE.
    destruct (prepared_tables _ _ _ _ _ Hprep E eq_refl HE) as [Heq _]. destruct Hg as [Hg1 Hg2].
    split; rewrite Heq; [done| |done|]; [apply not_eq_sym, suffix_ne_name|apply suffix_ne]; done.
  - exists d0. split_and!; [done..|]. intros d' [->|?]%elem_of_cons; [|by apply Hret].
    eapply gives_established; [by rewrite Hd..|done|done].
Qed.

Lemma call_inv env st outcomes keys returned r s' :
  length (ie_seed env) = 32%nat -> length (ie_uuid_bytes env) = 16%nat ->
  identity_inv st keys returned -> load_or_create env name (mkSys st outcomes keys) = (r, s') ->
  identity_inv (sys_storage s') (sys_keys s') (match r with Ok d => d :: returned | Throw _ => returned end).
Proof.
  intros Hseed Hrand Hinv H. apply load_or_create_run in H as (s1 & ok & Hk1 & Hp & H); [|apply Hinv].
  cbn [sys_storage sys_keys] in Hk1, Hp. pose proof (prepared_inv _ _ _ _ _ _ Hp Hinv) as Hinv1.
  destruct H as [(Hr & -> & ->)|(-> & Htmp & Hktmp & H)]; [destruct r; [done|by rewrite Hk1]|].
  destruct H as [Hr -> ->|uuid i nd Hv Hi Hnd Hpr Hm Hke (sl & Hsl & Hkl & Hl)|u Hn Hv Hnk (sl & Hsl & Hkl & Hc)].
  - destruct r; [done|by rewrite Hk1].
  - eapply loaded_inv; eauto. exists uuid, i, nd. split_and!; [done..|]. exists sl. split_and!; [done|congruence|done].
  - apply create_keys_run in Hc. rewrite <-Hk1 in Hinv1. rewrite <-Hsl, <-Hkl in Hinv1. rewrite <-Hsl in Hnk.
    assert (fresh_case : identity_inv (sys_storage sl) (sys_keys sl) returned -> sys_keys sl = [] /\ returned = []).
    { intros (_ & _ & [?|(d & [Hu _ _ He] & _)]); [done|].
      destruct (He (st_entries (sys_storage sl)) ltac:(left)) as [(i & nd & Hi & Hnd & _ & Hd) _].
      rewrite Hsl in Hi, Hnd. by destruct (Hn i nd Hi Hnd (device_id_ d)). }
    eapply created_inv; eauto.
    + destruct u as [u|]; [by apply valid_uuid_length, Hv|]. by apply valid_uuid_length, generated_uuid_valid.
    + by destruct (fresh_case Hinv1).
    + by destruct (fresh_case Hinv1).
Qed.

(** ** Interrupted directories *)

(** What an interrupted or damaged initialization leaves: a temporary file, keys
    without the manifest that announces them, or a manifest without its keys. *)
Definition interrupted (st : Storage) : bool :=
  let present x := bool_decide (is_Some (st_entries st !! x)) in
  let announced := match lookup_entry name st with Some nd => (read_manifest (i_data nd)).1 | None => false end in
  present (String.append name ".tmp") || present (String.append keys_name ".tmp") ||
  negb (Bool.eqb (present keys_name) announced).

Lemma continues_intact env s r s' :
  storage_ok (sys_storage s) ->
  st_entries (sys_storage s) !! String.append name ".tmp" = None ->
  st_entries (sys_storage s) !! String.append keys_name ".tmp" = None ->
  continues env name s r s' ->
  is_ok r = false /\ sys_storage s' = sys_storage s /\ sys_keys s' = sys_keys s \/ interrupted (sys_storage s) = false.
Proof.
  intros Hok Ht Hkt Hc. unfold interrupted, lookup_entry. rewrite Ht, Hkt.
  destruct Hc as [?|uuid i nd Hv Hi Hnd _ Hm Hk _|u Hn Hv Hnk _]; [by left|right..].
  - rewrite Hi. cbn [mbind option_bind]. rewrite Hnd, Hm, read_manifest_of by (by apply valid_uuid_length).
    by rewrite (bool_decide_eq_true_2 _ Hk).
  - rewrite Hnk. cbn. destruct (st_entries (sys_storage s) !! name) as [i|] eqn:Hi; [|done].
    destruct (Hok (st_entries (sys_storage s)) ltac:(left) _ _ Hi) as [nd Hnd]. cbn. rewrite Hnd.
    destruct (read_manifest (i_data nd)) as [[|] text] eqn:Hm; [|done]. exfalso.
    apply (Hn i nd eq_refl Hnd (text_of_bytes text)); [|by apply read_manifest_required].
    unfold read_manifest in Hm. destruct (Nat.eqb_spec (length (i_data nd)) (UUID_SIZE + length IDENTITY_MARKER)); [|done].
    cbn [andb] in Hm. case_bool_decide; [|done]. injection Hm as <-. rewrite length_text, length_take. lia.
Qed.

(** An interrupted or damaged directory is never repaired by rekeying: a call on
    it throws, generates no key and leaves every file but its lock as it was,
    whatever outcomes its system calls meet. *)
Theorem interrupted_never_rekeyed env s r s' :
  storage_ok (sys_storage s) -> interrupted (sys_storage s) = true ->
  load_or_create env name s = (r, s') ->
  is_ok r = false /\ sys_keys s' = sys_keys s /\
  forall x, x <> String.append name ".lock" -> lookup_entry x (sys_storage s') = lookup_entry x (sys_storage s).
Proof.
  intros Hok Hint H. apply load_or_create_run in H as (s1 & ok & Hk1 & Hp & H); [|done].
  assert (Hsame : forall x, x <> String.append name ".lock" -> lookup_entry x (sys_storage s1) = lookup_entry x (sys_storage s)).
  { intros x Hx. unfold lookup_entry. rewrite (prepared_entries _ _ _ _ _ Hp x Hx).
    destruct (st_entries (sys_storage s) !! x) as [i|] eqn:Hi; [|done]. cbn.
    destruct (Hok (st_entries (sys_storage s)) ltac:(left) _ _ Hi) as [nd Hnd].
    by rewrite Hnd, (keeps_inodes _ _ _ (prepared_keeps _ _ _ _ _ Hp) _ _ Hnd). }
  rewrite <-Hk1. destruct H as [(-> & -> & ->)|(-> & Ht & Hkt & Hc)]; [done|].
  apply continues_intact in Hc as [(-> & -> & ->)|Hno]; [done| |by eapply prepared_ok|done|done].
  exfalso. revert Hint. apply not_true_iff_false. rewrite <-Hno.
  pose proof (prepared_entries _ _ _ _ _ Hp) as He. unfold interrupted.
  rewrite Hsame, !He; [done|..]; first [by apply suffix_ne|by apply not_eq_sym, suffix_ne_name|idtac].
  intros Heq%(f_equal String.length). rewrite !append_length in Heq. cbn in Heq. lia.
Qed.

(** ** A single identity *)

Lemma history_inv st keys returned : history st keys returned -> identity_inv st keys returned.
Proof.
  induction 1 as [st Hok Ho Hst|env st outcomes keys returned r s' _ IH Hseed Hrand Hc|st st' keys returned _ IH Hl].
  - split_and!; [done| |by left]. intros E HE. split; intros i Hi; destruct (Hok E HE _ _ Hi) as [nd Hnd]; exists nd; eauto.
  - by eapply call_inv.
  - by eapply loss_inv.
Qed.

(** C5. An identity never changes: over every history of calls, failures, kills and power losses, by any
    users, from any directory at rest, at most one key pair is generated and every
    successful call returns the same identity, with that key pair when there is one. *)
Theorem identity_never_changes st keys returned :
  history st keys returned ->
  (length keys <= 1)%nat /\
  (forall d d', d ∈ returned -> d' ∈ returned -> d = d') /\
  (forall d seed, d ∈ returned -> seed ∈ keys -> (public_key_ d, private_key_ d) = sign_seed_keypair seed).
Proof.
  intros (_ & _ & [[-> ->]|(d & _ & Hl & Hs & Hr)])%history_inv.
  - split_and!; [cbn; lia|by intros ? ? ?%not_elem_of_nil..].
  - split_and!; [done|by intros d1 d2 ->%Hr ->%Hr|]. intros d' seed ->%Hr Hin. by rewrite Hs.
Qed.

(** ** Loading again *)

Definition private_file (env : IdentityEnv) (st : Storage) (E : table) (x : string) (data : list byte) : Prop :=
  exists i nd, E !! x = Some i /\ st_inodes st !! i = Some nd /\ i_stable nd = true /\ is_private env nd = true /\
    i_data nd = data.

(** What the directory needs for the identity [d] to be loaded by the user. *)
Record loadable (env : IdentityEnv) (d : DeviceIdentity) (st : Storage) (E : table) : Prop := {
  loadable_manifest : private_file env st E name (manifest (device_id_ d));
  loadable_keys : private_file env st E keys_name (key_record (device_id_ d) (public_key_ d) (private_key_ d));
  loadable_tmp : E !! String.append name ".tmp" = None;
  loadable_keys_tmp : E !! String.append keys_name ".tmp" = None;
  loadable_lock i : E !! String.append name ".lock" = Some i ->
    exists nd, st_inodes st !! i = Some nd /\ is_private env nd = true;
  loadable_uuid : identity_is_valid_uuid (device_id_ d) = true;
  loadable_public : length (public_key_ d) = 32%nat;
  loadable_private : length (private_key_ d) = 64%nat;
  loadable_pair : sign_seed_keypair (sign_sk_to_seed (private_key_ d)) = (public_key_ d, private_key_ d)
}.

Lemma lock_ne : name <> String.append name ".lock" /\ keys_name <> String.append name ".lock" /\
  String.append name ".tmp" <> String.append name ".lock" /\
  String.append keys_name ".tmp" <> String.append name ".lock".
Proof.
  split_and!; try (by apply suffix_ne); [by apply not_eq_sym, suffix_ne_name|].
  intros Heq%(f_equal String.length); rewrite !append_length in Heq; cbn in Heq; lia.
Qed.

(** After a call that loaded the identity, whichever table is found. *)
Lemma loading_loadable env st s d s' E :
  prepared env (String.append name ".lock") true st (sys_storage s) -> stable_names (sys_storage s) ->
  st_entries (sys_storage s) !! String.append name ".tmp" = None ->
  st_entries (sys_storage s) !! String.append keys_name ".tmp" = None ->
  (exists uuid i nd, identity_is_valid_uuid uuid = true /\
    st_entries (sys_storage s) !! name = Some i /\ st_inodes (sys_storage s) !! i = Some nd /\
    is_private env nd = true /\ i_data nd = manifest uuid /\
    exists sl, sys_storage sl = sys_storage s /\ load_keys env keys_name uuid sl = (Ok d, s')) ->
  E ∈ tables (sys_storage s') -> loadable env d (sys_storage s') E.
Proof.
  intros Hp Hst Ht Hkt (uuid & i & nd & Hv & Hi & Hnd & Hpr & Hm & sl & Hsl & Hl) HE.
  destruct (read_state _ _ _ _ (load_keys_reads env keys_name uuid) Hl) as [Hs' _]. rewrite Hs', Hsl in *.
  apply load_keys_ok in Hl as (public & private & j & nd' & -> & Hlp & Hls & Hj & Hnd' & Hpr' & Hr & Hkp).
  rewrite Hsl in Hj, Hnd'. destruct (prepared_tables _ _ _ _ _ Hp E eq_refl HE) as [Heq Hlock].
  destruct (Hst E HE) as [Hsn Hsk]. destruct lock_ne as (? & ? & ? & ?).
  assert (forall x k n, settled_at (sys_storage s) E x (fun _ => True) -> E !! x = Some k ->
            st_inodes (sys_storage s) !! k = Some n -> i_stable n = true) as Hstab.
  { intros x k n Hset Hx Hn. destruct (Hset k Hx) as (n' & ? & ? & _). congruence. }
  split; cbn [device_id_ public_key_ private_key_]; try done; try (by rewrite Heq).
  - exists i, nd. rewrite <-Heq in Hi by done. split_and!; eauto.
  - exists j, nd'. rewrite <-Heq in Hj by done. split_and!; eauto.
Qed.

(** After a call that created it. *)
Lemma creating_loadable env st s uuid d s' E :
  prepared env (String.append name ".lock") true st (sys_storage s) -> length (ie_seed env) = 32%nat ->
  identity_is_valid_uuid uuid = true -> creates env uuid s (Ok d) s' ->
  E ∈ tables (sys_storage s') -> loadable env d (sys_storage s') E.
Proof.
  intros Hp Hseed Hv [|st1 d' complete Hd Hw1 Hw2 Hr _] HE; [done|]. destruct complete; [|done]. injection Hr as <-.
  destruct (written_complete _ _ _ _ _ _ Hw2 HE) as (-> & Hk & Hx & Hkt).
  destruct (written_complete _ _ _ _ _ _ Hw1 ltac:(left)) as (_ & (i & nd & Hi & Hnd & Hs & Hm & Hpr) & Hx1 & Ht).
  destruct lock_ne as (? & ? & ? & ?). destruct name_ne_tmp as (? & ? & ? & ? & ? & ?).
  destruct (seed_keypair_sizes _ Hseed) as [Hl1 Hl2]. rewrite Hd in *.
  split; cbn [device_id_ public_key_ private_key_] in *; try done.
  - exists i, nd. rewrite Hx by done. split_and!; try done. by eapply written_inodes.
  - destruct Hk as (j & nd' & ? & ? & ? & ? & ?). by exists j, nd'.
  - by rewrite Hx.
  - intros j. rewrite Hx, Hx1 by done. intros Hj.
    destruct (prepared_tables _ _ _ _ _ Hp _ eq_refl ltac:(left)) as [_ Hlock].
    destruct (Hlock j Hj) as (n & Hn & Hpn). exists n. split; [|done]. by do 2 (eapply written_inodes; [eassumption|]).
  - rewrite sk_to_seed_keypair by done. by destruct (sign_seed_keypair _).
Qed.

Lemma returned_loadable env st outcomes keys returned d s' E :
  length (ie_seed env) = 32%nat -> length (ie_uuid_bytes env) = 16%nat -> identity_inv st keys returned ->
  load_or_create env name (mkSys st outcomes keys) = (Ok d, s') ->
  E ∈ tables (sys_storage s') -> loadable env d (sys_storage s') E /\ st_dir_uid (sys_storage s') = ie_euid env.
Proof.
  intros Hseed Hrand Hinv H HE. 
  apply load_or_create_run in H as (s1 & ok & Hk1 & Hp & H); [|apply Hinv].
  pose proof (prepared_inv _ _ _ _ _ _ Hp Hinv) as (_ & Hst & _).
  destruct H as [([=] & _)|(-> & Htmp & Hktmp & H)]. cbn [sys_storage] in *.
  destruct H as [[=]|uuid i nd Hv Hi Hnd Hpr Hm Hke (sl & Hsl & Hkl & Hl)|u Hn Hv Hnk (sl & Hsl & Hkl & Hc)].
  - split.
    + eapply loading_loadable; eauto. exists uuid, i, nd. eauto 10.
    + destruct (read_state _ _ _ _ (load_keys_reads env keys_name uuid) Hl) as [-> _].
      rewrite Hsl, (prepared_dir _ _ _ _ _ Hp). by eapply prepared_owner.
  - apply create_keys_run in Hc. split.
    + eapply (creating_loadable env st sl); eauto; [by rewrite Hsl|].
      destruct u as [u|]; [by apply Hv|]. by apply generated_uuid_valid.
    + rewrite <-(prepared_owner _ _ _ _ _ Hp eq_refl), <-(prepared_dir _ _ _ _ _ Hp), <-Hsl.
      destruct Hc as [|st1 d' complete _ Hw1 Hw2 _ _]; [done|]. by rewrite (written_dir _ _ _ _ _ _ Hw2), (written_dir _ _ _ _ _ _ Hw1).
Qed.

(** The user can load it from what is found after a restart. *)
Lemma loadable_survives env env' d st st' E :
  ie_euid env' = ie_euid env ->
  (forall i nd, st_inodes st !! i = Some nd -> exists nd', st_inodes st' !! i = Some nd' /\ 
     i_kind nd' = i_kind nd /\ i_uid nd' = i_uid nd /\ i_nlink nd' = i_nlink nd /\ i_mode nd' = i_mode nd /\
     (i_stable nd = true -> i_data nd' = i_data nd /\ i_stable nd' = true)) ->
  loadable env d st E -> loadable env' d st' E.
Proof.
  intros Hu Hs [(i & nd & Hi & Hnd & Hst & Hp & Hd) (j & nd' & Hj & Hnd' & Hst' & Hp' & Hd') ? ? Hl ? ? ? ?].
  assert (Hpriv : forall n n', i_kind n' = i_kind n -> i_uid n' = i_uid n -> i_nlink n' = i_nlink n -> i_mode n' = i_mode n ->
            is_private env n = true -> is_private env' n' = true).
  { intros n n' H1 H2 H3 H4. unfold is_private. by rewrite H1, H2, H3, H4, Hu. }
  destruct (Hs i nd Hnd) as (ni & Hni & ? & ? & ? & ? & Hdi). destruct (Hs j nd' Hnd') as (nj & Hnj & ? & ? & ? & ? & Hdj).
  destruct (Hdi Hst) as [? ?], (Hdj Hst') as [? ?]. split; try done.
  - exists i, ni. split_and!; [done..| |congruence]. by eapply (Hpriv nd).
  - exists j, nj. split_and!; [done..| |congruence]. by eapply (Hpriv nd').
  - intros k Hk. destruct (Hl k Hk) as (n & Hn & Hpn). destruct (Hs k n Hn) as (n' & Hn' & ? & ? & ? & ? & _).
    exists n'. split; [done|]. by eapply (Hpriv n).
Qed.

(** Runs in which every call succeeds. *)
Abbreviation healthy st keys := (mkSys st [] keys).

Lemma sync_ancestors_healthy depth st keys : sync_ancestors depth (healthy st keys) = (Ok tt, healthy st keys).
Proof. induction depth as [|depth IH]; [done|]. exact IH. Qed.

Lemma open_directory_healthy env st keys :
  st_dir_uid st = ie_euid env ->
  open_identity_directory env (healthy st keys) = (Ok tt, healthy (forget_older (set_dir_mode 448 st)) keys).
Proof.
  intros Hu. unfold open_identity_directory, bind at 1 2 3 4. cbn. rewrite (proj2 (Z.eqb_eq _ _) Hu). cbn.
  apply sync_ancestors_healthy.
Qed.

Lemma check_private_healthy env x i nd st keys :
  st_inodes st !! i = Some nd -> is_private env nd = true -> check_private env x i (healthy st keys) = (Ok i, healthy st keys).
Proof. intros Hi Hp. unfold check_private, stat_file, bind, gets, ret, call. cbn. by rewrite Hi, Hp. Qed.

Lemma open_private_healthy env x i nd creat st keys :
  st_entries st !! x = Some i -> st_inodes st !! i = Some nd -> is_private env nd = true ->
  open_private_file env x creat false (healthy st keys) = (Ok i, healthy st keys).
Proof.
  intros He Hi Hp. unfold open_private_file, open_entry, bind at 1 2, call. cbn [sys_outcomes negb].
  rewrite bind_gets. cbn [sys_storage]. rewrite He, Hi, andb_false_r. cbn [orb].
  rewrite bool_decide_eq_false_2; [by apply (check_private_healthy env x i nd)|].
  unfold is_private in Hp. intros Hk. rewrite Hk in Hp. done.
Qed.

Lemma acquire_lock_healthy env x st keys :
  (forall i, st_entries st !! x = Some i -> exists nd, st_inodes st !! i = Some nd /\ is_private env nd = true) ->
  Z.land 384 (Z.lnot (ie_umask env)) = 384 ->
  exists i st', acquire_lock env x (healthy st keys) = (Ok i, healthy st' keys).
Proof.
  intros Hl Hm. unfold acquire_lock. destruct (st_entries st !! x) as [i|] eqn:He.
  - destruct (Hl i eq_refl) as (nd & Hnd & Hp). exists i, st. unfold bind at 1.
    by rewrite (open_private_healthy env x i nd true st keys He Hnd Hp).
  - set (st' := with_file x (fresh (dom (st_inodes st))) (new_file (ie_euid env) (ie_umask env)) st).
    exists (fresh (dom (st_inodes st))), st'. unfold bind at 1, open_private_file, open_entry, bind at 1 2, call. cbn [sys_outcomes negb].
    rewrite bind_gets. cbn [sys_storage]. rewrite He. unfold bind at 1, modify. unfold ret at 1.
    change (set_storage _ _) with (healthy st' keys).
    rewrite (check_private_healthy env x _ (new_file (ie_euid env) (ie_umask env))); [done| |].
    + apply (lookup_insert_eq (st_inodes st)).
    + unfold is_private, new_file. cbn [i_kind i_uid i_nlink i_mode]. by rewrite Hm, Z.eqb_refl.
Qed.

Lemma entry_absent_healthy x st keys :
  st_entries st !! x = None -> entry_exists x (healthy st keys) = (Ok false, healthy st keys).
Proof.
  intros He. unfold entry_exists, bind, gets, ret, call. cbn [sys_outcomes sys_storage].
  rewrite bool_decide_eq_false_2; [done|]. unfold lookup_entry. rewrite He. by intros [? ?].
Qed.
Lemma entry_present_healthy x i nd st keys :
  st_entries st !! x = Some i -> st_inodes st !! i = Some nd ->
  entry_exists x (healthy st keys) = (Ok true, healthy st keys).
Proof.
  intros He Hi. unfold entry_exists, bind, gets, ret, call. cbn [sys_outcomes sys_storage].
  rewrite bool_decide_eq_true_2; [done|]. unfold lookup_entry. rewrite He. cbn. rewrite Hi. by eexists.
Qed.

Lemma read_file_healthy env x i nd capacity st keys :
  st_entries st !! x = Some i -> st_inodes st !! i = Some nd -> is_private env nd = true ->
  (length (i_data nd) <= capacity)%nat ->
  read_file env x capacity (healthy st keys) = (Ok (i_data nd), healthy st keys).
Proof.
  intros He Hi Hp Hc. unfold read_file, bind at 1. rewrite (open_private_healthy env x i nd false st keys He Hi Hp).
  rewrite bind_gets. cbn [sys_storage]. rewrite Hi. unfold bind at 1. cbn [fmap option_fmap option_map default from_option id sys_outcomes].
  assert (read_loop [] (i_data nd) capacity [] = (Ok (Some (i_data nd)), [])) as ->.
  { destruct capacity; [by destruct (i_data nd); [|cbn in Hc; lia]|]. cbn [read_loop app]. by rewrite take_ge. }
  destruct (length (i_data nd) <? capacity)%nat; [done|]. unfold bind, retry. cbn.
  by rewrite (proj2 (Nat.leb_le _ _) Hc).
Qed.

Lemma load_manifest_healthy env d st keys :
  loadable env d st (st_entries st) ->
  load_manifest env name (healthy st keys) = (Ok (true, Some (device_id_ d)), healthy st keys).
Proof.
  intros [(i & nd & Hi & Hnd & _ & Hp & Hd) _ _ _ _ Hv _ _ _]. unfold load_manifest, bind at 1.
  rewrite (entry_present_healthy name i nd) by done. unfold bind at 1. pose proof (valid_uuid_length _ Hv) as Hlen.
  rewrite (read_file_healthy env name i nd 64 st keys Hi Hnd Hp), Hd, read_manifest_of by
    (rewrite ?Hd; unfold manifest; rewrite ?length_app, ?length_bytes_of, ?Hlen; done || (cbn; lia)).
  by rewrite text_of_bytes_of, Hv.
Qed.

Lemma load_keys_healthy env d st keys :
  loadable env d st (st_entries st) ->
  load_keys env keys_name (device_id_ d) (healthy st keys) = (Ok d, healthy st keys).
Proof.
  intros [_ (i & nd & Hi & Hnd & _ & Hp & Hd) _ _ _ Hv Hl1 Hl2 Hkp]. unfold load_keys, check_keys, bind at 1.
  destruct (key_record_parts _ _ _ (valid_uuid_length _ Hv) Hl1 Hl2) as (H1 & H2 & H3 & H4 & H5). rewrite <-Hd in *.
  rewrite (read_file_healthy env keys_name i nd _ st keys Hi Hnd Hp) by lia.
  rewrite H1, H2, H3, H4, H5, Nat.eqb_refl, !bool_decide_eq_true_2 by done. cbn [negb orb].
  unfold bind, call. cbn [sys_outcomes]. rewrite Hkp, !bool_decide_eq_true_2 by done. cbn [negb orb]. by destruct d.
Qed.

Lemma load_locked_healthy env d st keys :
  loadable env d st (st_entries st) ->
  load_or_create_locked env name (healthy st keys) = (Ok d, healthy st keys).
Proof.
  intros Hl. unfold load_or_create_locked, bind at 1.
  rewrite (entry_absent_healthy _ _ _ (loadable_tmp _ _ _ _ Hl)). unfold bind at 1.
  rewrite (entry_absent_healthy _ _ _ (loadable_keys_tmp _ _ _ _ Hl)).
  cbn [orb]. unfold bind at 1. rewrite (load_manifest_healthy env d) by done. unfold bind at 1.
  destruct (loadable_keys _ _ _ _ Hl) as (i & nd & Hi & Hnd & _).
  rewrite (entry_present_healthy _ i nd) by done. by apply load_keys_healthy.
Qed.

Lemma load_or_create_healthy env d st keys :
  name <> EmptyString -> name <> "." -> name <> ".." ->
  loadable env d st (st_entries st) -> st_dir_uid st = ie_euid env -> Z.land 384 (Z.lnot (ie_umask env)) = 384 ->
  exists st', load_or_create env name (healthy st keys) = (Ok d, healthy st' keys).
Proof.
  intros Hn1 Hn2 Hn3 Hl Hu Hm. unfold load_or_create, bind at 1, call. cbn [sys_outcomes negb].
  rewrite !bool_decide_eq_false_2 by done. cbn [orb]. rewrite bind_assoc.
  destruct (acquire_lock_healthy env (String.append name ".lock") (forget_older (set_dir_mode 448 st)) keys)
    as (i & st' & Hlock); [apply (loadable_lock _ _ _ _ Hl)|done|].
  assert (Hrun : (open_identity_directory env;;; acquire_lock env (String.append name ".lock")) (healthy st keys) =
            (Ok i, healthy st' keys)) by (unfold bind; by rewrite open_directory_healthy).
  exists st'. unfold bind at 1. rewrite Hrun. apply prepare_spec in Hrun as [_ Hp]. cbn [sys_storage is_ok] in Hp.
  apply load_locked_healthy. destruct Hl as [(a & n & Ha & Hna & ? & ? & ?) (b & n' & Hb & Hnb & ? & ? & ?) ? ? ? ? ? ? ?].
  destruct lock_ne as (? & ? & ? & ?). pose proof (prepared_entries _ _ _ _ _ Hp) as He.
  pose proof (keeps_inodes _ _ _ (prepared_keeps _ _ _ _ _ Hp)) as Hi.
  split; try done; try (by rewrite He).
  - exists a, n. rewrite He by done. eauto 10.
  - exists b, n'. rewrite He by done. eauto 10.
  - by apply (prepared_tables _ _ _ _ _ Hp _ eq_refl ltac:(left)).
Qed.

(** An identity that was returned can be loaded again: by the same user, with a umask that
    leaves 0600, when no system call fails, and also when the power was lost
    meanwhile. *)
Theorem identity_reloads env env' st outcomes keys returned d s' st' keys' :
  name <> EmptyString -> name <> "." -> name <> ".." -> history st keys returned ->
  length (ie_seed env) = 32%nat -> length (ie_uuid_bytes env) = 16%nat ->
  load_or_create env name (mkSys st outcomes keys) = (Ok d, s') ->
  st' = sys_storage s' \/ power_loss (sys_storage s') st' ->
  ie_euid env' = ie_euid env -> Z.land 384 (Z.lnot (ie_umask env')) = 384 ->
  exists st'', load_or_create env' name (mkSys st' [] keys') = (Ok d, mkSys st'' [] keys').
Proof.
  intros Hn1 Hn2 Hn3 Hh Hseed Hrand Hrun Hloss Hu Hm. pose proof (history_inv _ _ _ Hh) as Hinv.
  assert (exists E, E ∈ tables (sys_storage s') /\ st_entries st' = E /\ st_dir_uid st' = st_dir_uid (sys_storage s') /\
    forall i nd, st_inodes (sys_storage s') !! i = Some nd -> exists nd', st_inodes st' !! i = Some nd' /\
     i_kind nd' = i_kind nd /\ i_uid nd' = i_uid nd /\ i_nlink nd' = i_nlink nd /\ i_mode nd' = i_mode nd /\
     (i_stable nd = true -> i_data nd' = i_data nd /\ i_stable nd' = true)) as (E & HE & He & Hdir & Hino).
  { destruct Hloss as [->|[inodes entries mode HE Hs]].
    - exists (st_entries (sys_storage s')). split_and!; [left|done..|]. intros i nd Hnd. eauto 10.
    - exists entries. split_and!; [done..|]. intros i nd Hnd. specialize (Hs i). rewrite Hnd in Hs.
      inversion Hs as [? nd' (? & ? & ? & ? & ? & ?) Heq|]; subst. exists nd'. split; [done|]. auto 10. }
  destruct (returned_loadable env st outcomes keys returned d s' E) as [Hl Hd]; [done..|].
  apply (load_or_create_healthy env' d); [done..| | |done].
  - rewrite He. by eapply loadable_survives.
  - by rewrite Hdir, Hd, Hu.
Qed.
End history.

(** ** Concrete runs *)

Module IdentityScenario.

(** A stand-in for libsodium with the sizes of Ed25519. *)
#[local] Instance toy_sodium : Sodium := {
  sign_seed_keypair seed := (seed, seed ++ seed);
  sign_sk_to_seed secret := take 32 secret
}.
#[local] Instance toy_laws : SodiumLaws.
Proof.
  split; intros seed Hl; cbn.
  - rewrite length_app, Hl. done.
  - rewrite <-Hl at 1. apply take_app_length.
Qed.

Definition user : IdentityEnv := mkIdentityEnv 1000 18 3 example_uuid (repeat x07 32).
Definition empty : Storage := mkStorage ∅ ∅ [] 1000 493.
Definition run st outcomes keys := load_or_create user "device_id" (mkSys st outcomes keys).
(** Killed after the keys were published, before the directory is flushed; then loaded. *)
Definition killed := run empty (repeat SysDone 43 ++ [SysKill]) [].
Definition loaded := run (sys_storage killed.2) [SysDone] (sys_keys killed.2).
(** Killed while the keys are written. *)
Definition half_written := run empty (repeat SysDone 38 ++ [SysKill]) [].
Definition created := run empty [] [].

Lemma empty_history : history "device_id" empty [] [].
Proof.
  apply history_start; [|done|by intros i nd; cbn; rewrite lookup_empty].
  intros E HE x i Hx. apply list_elem_of_singleton in HE as ->. cbn in Hx. by rewrite lookup_empty in Hx.
Qed.
Lemma run_history st outcomes keys returned r :
  history "device_id" st keys returned -> (run st outcomes keys).1 = r ->
  history "device_id" (sys_storage (run st outcomes keys).2) (sys_keys (run st outcomes keys).2)
    (match r with Ok d => d :: returned | Throw _ => returned end).
Proof. intros H Hr. apply (history_call "device_id" user st outcomes keys); [exact H|done|done|by apply run_eta]. Qed.

Definition the_identity : DeviceIdentity :=
  mkDeviceIdentity "550e8400-e29b-41d4-a716-446655440000" (repeat x07 32) (repeat x07 64).

Lemma identity_never_changes_witness :
  is_ok killed.1 = false /\ loaded.1 = Ok the_identity /\ (length (sys_keys loaded.2) <= 1)%nat.
Proof.
  split; [vm_compute; reflexivity|]. split; [vm_compute; reflexivity|].
  refine (proj1 (identity_never_changes "device_id" (sys_storage loaded.2) (sys_keys loaded.2) [the_identity] _)).
  apply (run_history _ _ _ [] (Ok the_identity)); [|vm_compute; reflexivity].
  apply (run_history _ _ _ [] (Throw ProcessKilled)); [apply empty_history|vm_compute; reflexivity].
Defined.

Lemma half_written_ok : storage_ok (sys_storage half_written.2).
Proof.
  assert (history "device_id" (sys_storage half_written.2) (sys_keys half_written.2) []) as H.
  { apply (run_history _ _ _ [] (Throw ProcessKilled)); [apply empty_history|vm_compute; reflexivity]. }
  apply history_inv in H. destruct H as [Hok _]. exact Hok.
Qed.
Lemma interrupted_never_rekeyed_witness :
  interrupted "device_id" (sys_storage half_written.2) = true /\
  is_ok (load_or_create user "device_id" half_written.2).1 = false.
Proof.
  split; [vm_compute; reflexivity|].
  refine (proj1 (interrupted_never_rekeyed "device_id" user half_written.2 _
    (snd (load_or_create user "device_id" half_written.2)) half_written_ok _ _)).
  - vm_compute. reflexivity.
  - by apply run_eta.
Defined.

Lemma identity_reloads_witness :
  created.1 = Ok the_identity /\
  exists st, run (sys_storage created.2) [] [] = (Ok the_identity, mkSys st [] []).
Proof.
  split; [vm_compute; reflexivity|].
  unfold run. eapply (identity_reloads "device_id" user user empty [] [] [] the_identity created.2 (sys_storage created.2) []);
    [discriminate|discriminate|discriminate|exact empty_history|reflexivity|reflexivity| |left; reflexivity|reflexivity|reflexivity].
  apply run_eta. vm_compute. reflexivity.
Defined.
End IdentityScenario.
