(* ===== verification/Ownership.v ===== *)
(** * Owned resources

    Objects that own a resource of the system and release it in their destructor: the
    class [FileDescriptor] of the identity, [Fd], the SQLite handle, statements and
    transactions of the trust store.  A program runs on the resources of the process
    besides its own state; scopes are left by a return or by an exception, which runs
    destructors, or by the end of the process, which does not.

    The rules say when a program leaves the resources as they were, uses an object it was
    given, makes an object or moves one out, and that the instrumented program does to
    its own state what the plain one does.  [Descriptors.v] and [StoreResources.v] are the
    clients.  Resources are numbered together: a number stands for a descriptor or for
    a pointer, -1 for none. *)

From S2P Require Import Prelude.

(** Whether an exception stands for the end of the process. *)
Class Kills (E : Type) : Type := kills : E -> bool.

(** ** Resources and their owners *)

(** The resources of the process, the objects that exist with what they own, and the
    releases of a resource that was not there. *)
Record Fds : Type := mkFds {
  fd_open : gset Z;
  fd_objects : gmap nat Z;
  fd_bad : list Z
}.
Definition set_fd_objects x f := mkFds (fd_open f) x (fd_bad f).

Definition result_map {E A B} (g : A -> B) (r : result E A) : result E B :=
  match r with Ok a => Ok (g a) | Throw e => Throw e end.

Section ownership.
Context {St Er : Type} {KE : Kills Er}.
Abbreviation sysop := (stx St Er).
Abbreviation fdop := (stx (Fds * St) Er).

(** A step of the program on its own state. *)
Definition on_sys {A} (m : sysop A) : fdop A :=
  fun st => let '(r, s') := m (snd st) in (r, (fst st, s')).
Definition on_fds {A} (g : Fds -> A * Fds) : fdop A :=
  fun st => let '(a, f') := g (fst st) in (Ok a, (f', snd st)).

(** A number that is not in use. *)
Definition unused (used : gset Z) : Z := Z.of_nat (fresh (set_map Z.to_nat used : gset nat)).

(** A call that may give a resource: a new number, or -1. *)
Definition open_fd {X} (m : sysop (option X)) : fdop (Z * option X) :=
  let! x := on_sys m in
  match x with
  | Some _ => let! fd := on_fds (fun f => let fd := unused (fd_open f) in
                                  (fd, mkFds ({[fd]} ∪ fd_open f) (fd_objects f) (fd_bad f))) in
              ret (fd, x)
  | None => ret (-1, None)
  end.

(** [::close], [sqlite3_close_v2], [sqlite3_finalize], the end of a transaction. *)
Definition close_fd (fd : Z) (f : Fds) : Fds :=
  if bool_decide (fd ∈ fd_open f) then mkFds (fd_open f ∖ {[fd]}) (fd_objects f) (fd_bad f)
  else mkFds (fd_open f) (fd_objects f) (fd :: fd_bad f).
Definition close_if_open (fd : Z) (f : Fds) : Fds := if 0 <=? fd then close_fd fd f else f.

(** ** The class *)

(** [FileDescriptor(int fd)]. *)
Definition construct (fd : Z) : fdop nat :=
  on_fds (fun f => let o := fresh (dom (fd_objects f)) in (o, set_fd_objects (<[o := fd]> (fd_objects f)) f)).
(** [get]. *)
Definition fd_of (o : nat) (f : Fds) : Z := default (-1) (fd_objects f !! o).
(** [~FileDescriptor]. *)
Definition destroy (o : nat) : fdop unit :=
  on_fds (fun f => (tt, set_fd_objects (delete o (fd_objects f)) (close_if_open (fd_of o f) f))).
(** [FileDescriptor(FileDescriptor&& other)]. *)
Definition move_construct (other : nat) : fdop nat :=
  on_fds (fun f => let o := fresh (dom (fd_objects f)) in
                   (o, set_fd_objects (<[o := fd_of other f]> (<[other := -1]> (fd_objects f))) f)).
(** [operator=(FileDescriptor&& other)]. *)
Definition move_assign (this other : nat) : fdop unit :=
  on_fds (fun f =>
    (tt, if bool_decide (this = other) then f
         else set_fd_objects (<[this := fd_of other f]> (<[other := -1]> (fd_objects f))) (close_if_open (fd_of this f) f))).
(** A constructor that throws when the call gave nothing. *)
Definition make_checked {X} (e : Er) (opens : sysop (option X)) : fdop (nat * X) :=
  let! opened := open_fd opens in
  match opened.2 with
  | None => throw e
  | Some x => let! o := construct opened.1 in ret (o, x)
  end.
(** [unique_ptr::reset]. *)
Definition reset (this : nat) (fd : Z) : fdop unit :=
  on_fds (fun f => (tt, set_fd_objects (<[this := fd]> (fd_objects f)) (close_if_open (fd_of this f) f))).

(** Leaving the scope of an object, by a return or an exception; when the process is
    killed nothing runs any more. *)
Definition is_killed {A} (r : result Er A) : bool :=
  match r with Throw e => kills e | Ok _ => false end.
Definition leave {A} (o : nat) (m : fdop A) : fdop A :=
  fun st => let '(r, st') := m st in
            if is_killed r then (r, st') else (r, snd (destroy o st')).
(** [FileDescriptor o(...)], or [auto o = f(...)], and the rest of the block. *)
Definition scope {A} (make : fdop nat) (body : nat -> fdop A) : fdop A :=
  let! o := make in leave o (body o).

(** ** Forgetting the descriptors *)

(** The program does to the storage what the other does. *)
Class Erases {A B} (g : A -> B) (m : fdop A) (m0 : sysop B) : Prop :=
  erases f s : m0 s = (result_map g (fst (m (f, s))), snd (snd (m (f, s)))).

Section erasure.
Lemma on_sys_erases {A} (m : sysop A) : Erases id (on_sys m) m.
Proof. intros f s. unfold on_sys. cbn. by destruct (m s) as [[a|e] s']. Qed.
Lemma ret_erases {A B} (g : A -> B) a : Erases g (ret a) (ret (g a)).
Proof. by intros f s. Qed.
Lemma throw_erases {A B} (g : A -> B) e : Erases g (throw e) (throw e).
Proof. by intros f s. Qed.
Lemma bind_erases {A A' B B'} (g : A -> A') (h : B -> B') m m0 (k : A -> fdop B) k0 :
  Erases g m m0 -> (forall a, Erases h (k a) (k0 (g a))) -> Erases h (bind m k) (bind m0 k0).
Proof.
  intros Hm Hk f s. unfold bind. rewrite (Hm f s). destruct (m (f, s)) as [[a|e] [f' s']]; cbn; [|done].
  apply (Hk a f' s').
Qed.
Lemma on_fds_erases {A B B'} (h : B -> B') g (k : A -> fdop B) m0 :
  (forall a, Erases h (k a) m0) -> Erases h (bind (on_fds g) k) m0.
Proof. intros Hk f s. unfold bind, on_fds. cbn. destruct (g f) as [a f']. apply (Hk a f' s). Qed.
Lemma on_fds_last {A B} (h : A -> B) g b : (forall f, h (fst (g f)) = b) -> Erases h (on_fds g) (ret b).
Proof. intros Hb f s. unfold on_fds. cbn. specialize (Hb f). destruct (g f) as [a f']. cbn in *. by subst b. Qed.
Lemma leave_erases {A B} (g : A -> B) o m m0 : Erases g m m0 -> Erases g (leave o m) m0.
Proof.
  intros Hm f s. unfold leave. rewrite (Hm f s). destruct (m (f, s)) as [r [f' s']]. cbn.
  by destruct (is_killed r).
Qed.
Lemma if_erases {A B} (g : A -> B) (b : bool) m m' m0 m0' :
  Erases g m m0 -> Erases g m' m0' -> Erases g (if b then m else m') (if b then m0 else m0').
Proof. by destruct b. Qed.
Lemma scope_erases {A B} (g : A -> B) fd body m0 :
  (forall o, Erases g (body o) m0) -> Erases g (scope (construct fd) body) m0.
Proof. intros Hb. apply on_fds_erases. intros o. apply leave_erases, Hb. Qed.
(** An opened file is found again in what is returned. *)
Lemma open_fd_erases {X A B} (g : A -> B) (m : sysop (option X)) (k : Z * option X -> fdop A) k0 :
  (forall fd x, Erases g (k (fd, x)) (k0 x)) -> Erases g (bind (open_fd m) k) (bind m k0).
Proof.
  intros Hk f s. unfold open_fd, bind, on_sys. cbn. destruct (m s) as [[[x|]|e] s']; cbn; [apply (Hk _ _ _ s')..|done].
Qed.
Lemma erases_ext {A B} (g : A -> B) m (m0 m0' : sysop B) : (forall s, m0 s = m0' s) -> Erases g m m0 -> Erases g m m0'.
Proof. intros Heq Hm f s. rewrite <-Heq. apply Hm. Qed.
Lemma bind_ret_tt (m : sysop unit) s : (m;;; ret tt) s = m s.
Proof. unfold bind. by destruct (m s) as [[[]|e] s']. Qed.
Lemma erases_ext_l {A B} (g : A -> B) m m' m0 : (forall st, m st = m' st) -> Erases g m' m0 -> Erases g m m0.
Proof. intros Heq Hm f s. rewrite Heq. apply Hm. Qed.
(** A step on the program's own state in both. *)
Lemma sys_step_erases {A B B'} (h : B -> B') (m : sysop A) (k : A -> fdop B) k0 :
  (forall a, Erases h (k a) (k0 a)) -> Erases h (bind (on_sys m) k) (bind m k0).
Proof. apply (bind_erases id), on_sys_erases. Qed.
Lemma make_checked_erases {A B} (g : A -> B) e (opens : sysop (option unit)) (k : nat * unit -> fdop A) k0 :
  (forall o, Erases g (k (o, tt)) k0) ->
  Erases g (bind (make_checked e opens) k) (bind opens (fun x => match x with Some _ => k0 | None => throw e end)).
Proof.
  intros Hk f s. unfold make_checked, open_fd, construct, bind, on_sys, on_fds. cbn.
  destruct (opens s) as [[[[]|]|e'] s']; cbn; [apply Hk|done..].
Qed.
(** An object that lives until the end of the block. *)
Lemma made_scope_erases {A B} (g : A -> B) e (opens : sysop (option unit)) (k : nat * unit -> fdop A) k0 :
  (forall o, Erases g (k (o, tt)) k0) ->
  Erases g (let! o := make_checked e opens in leave o.1 (k o)) (bind opens (fun x => match x with Some _ => k0 | None => throw e end)).
Proof. intros Hk. apply make_checked_erases. intros o. apply leave_erases, Hk. Qed.
End erasure.

(** ** Every descriptor is closed once *)

(** The program leaves the descriptors as they were. *)
Class Balanced {A} (m : fdop A) : Prop :=
  balanced f s : is_killed (fst (m (f, s))) = true \/ fst (snd (m (f, s))) = f.

(** [f] is [f0] with one more object, empty or with a descriptor of its own. *)
Definition holds (o : nat) (f0 f : Fds) : Prop :=
  fd_objects f0 !! o = None /\
  (f = set_fd_objects (<[o := -1]> (fd_objects f0)) f0 \/
   exists fd, 0 <= fd /\ fd ∉ fd_open f0 /\ f = mkFds ({[fd]} ∪ fd_open f0) (<[o := fd]> (fd_objects f0)) (fd_bad f0)).

(** The object has a descriptor. *)
Definition holds_open (o : nat) (f0 f : Fds) : Prop :=
  fd_objects f0 !! o = None /\
  exists fd, 0 <= fd /\ fd ∉ fd_open f0 /\ f = mkFds ({[fd]} ∪ fd_open f0) (<[o := fd]> (fd_objects f0)) (fd_bad f0).

(** The program uses the object, and nothing else changes. *)
Definition keeps_object {A} (o : nat) (m : fdop A) : Prop :=
  forall f0 f s, holds o f0 f -> is_killed (fst (m (f, s))) = true \/ holds o f0 (fst (snd (m (f, s)))).
Definition uses_open {A} (o : nat) (m : fdop A) : Prop :=
  forall f0 f s, holds_open o f0 f -> is_killed (fst (m (f, s))) = true \/ holds o f0 (fst (snd (m (f, s)))).
(** The program makes an object with a descriptor, unless it throws. *)
Definition makes {A} (own : A -> nat) (m : fdop A) : Prop :=
  forall f s, match m (f, s) with
              | (Ok a, (f', _)) => holds_open (own a) f f'
              | (Throw e, (f', _)) => kills e = true \/ f' = f
              end.
(** The program makes an object out of [o], which it leaves empty. *)
Definition moves_out {A} (own : A -> nat) (o : nat) (m : fdop A) : Prop :=
  forall f0 f s, holds_open o f0 f ->
    match m (f, s) with
    | (Ok a, (f', _)) => exists f1, holds_open (own a) f0 f1 /\ fd_objects f1 !! o = None /\
                           f' = set_fd_objects (<[o := -1]> (fd_objects f1)) f1
    | (Throw e, (f', _)) => kills e = true \/ holds o f0 f'
    end.

Lemma holds_open_holds o f0 f : holds_open o f0 f -> holds o f0 f.
Proof. intros [Ho Hf]. split; [done|]. by right. Qed.
Lemma holds_none o f : fd_objects f !! o = None -> holds o f (set_fd_objects (<[o := -1]> (fd_objects f)) f).
Proof. intros Ho. split; [done|]. by left. Qed.

Lemma close_own fd f objects :
  fd ∉ fd_open f -> close_fd fd (mkFds ({[fd]} ∪ fd_open f) objects (fd_bad f)) = mkFds (fd_open f) objects (fd_bad f).
Proof.
  intros Hfd. unfold close_fd. cbn. rewrite bool_decide_true by set_solver. f_equal. apply leibniz_equiv. set_solver.
Qed.

(** The destructor undoes the constructor, whatever happened to the object. *)
Lemma destroy_holds o f0 f s : holds o f0 f -> snd (destroy o (f, s)) = (f0, s).
Proof.
  destruct f0 as [open objects bad]. intros [Ho [->|(fd & Hpos & Hfd & ->)]]; unfold destroy, on_fds, fd_of; cbn in *.
  - rewrite lookup_insert_eq. cbn. by rewrite delete_insert_eq, delete_id.
  - rewrite lookup_insert_eq. cbn. unfold close_if_open. destruct (Z.leb_spec 0 fd); [|lia].
    rewrite (close_own fd (mkFds open objects bad)) by done. unfold set_fd_objects. cbn.
    by rewrite delete_insert_eq, delete_id.
Qed.

Lemma unused_spec used : 0 <= unused used /\ unused used ∉ used.
Proof.
  unfold unused. split; [lia|]. intros Hin.
  apply (is_fresh (set_map Z.to_nat used : gset nat)). apply elem_of_map. exists (unused used).
  split; [unfold unused; by rewrite Nat2Z.id|done].
Qed.

Section rules.
#[export] Instance ret_balanced {A} (a : A) : Balanced (ret a).
Proof. intros f s. by right. Qed.
#[export] Instance throw_balanced {A} e : Balanced (throw (A := A) e).
Proof. intros f s. by right. Qed.
#[export] Instance on_sys_balanced {A} (m : sysop A) : Balanced (on_sys m).
Proof. intros f s. right. unfold on_sys. cbn. by destruct (m s). Qed.
#[export] Instance bind_balanced {A B} (m : fdop A) (k : A -> fdop B) :
  Balanced m -> (forall a, Balanced (k a)) -> Balanced (bind m k).
Proof.
  intros Hm Hk f s. unfold bind. specialize (Hm f s). destruct (m (f, s)) as [[a|e] [f' s']]; cbn in *; [|done].
  destruct Hm as [[=]| ->]. apply Hk.
Qed.
#[export] Instance if_balanced {A} (b : bool) (m m' : fdop A) : Balanced m -> Balanced m' -> Balanced (if b then m else m').
Proof. by destruct b. Qed.

Lemma balanced_keeps {A} o (m : fdop A) : Balanced m -> keeps_object o m.
Proof. intros Hm f0 f s Hf. destruct (Hm f s) as [?| ->]; auto. Qed.
Lemma bind_keeps {A B} o (m : fdop A) (k : A -> fdop B) :
  keeps_object o m -> (forall a, keeps_object o (k a)) -> keeps_object o (bind m k).
Proof.
  intros Hm Hk f0 f s Hf. unfold bind. specialize (Hm f0 f s Hf). destruct (m (f, s)) as [[a|e] [f' s']]; cbn in *; [|done].
  destruct Hm as [[=]|Hf']. by apply Hk.
Qed.
Lemma bind_moves {A B} (own : B -> nat) o (m : fdop A) (k : A -> fdop B) :
  Balanced m -> (forall a, moves_out own o (k a)) -> moves_out own o (bind m k).
Proof.
  intros Hm Hk f0 f s Hf. unfold bind. specialize (Hm f s). destruct (m (f, s)) as [[a|e] [f' s']]; cbn in *.
  - destruct Hm as [[=]| ->]. by apply Hk.
  - destruct Hm as [Hkill| ->]; [by left|]. right. by apply holds_open_holds.
Qed.
Lemma bind_uses {A B} o (m : fdop A) (k : A -> fdop B) :
  Balanced m -> (forall a, uses_open o (k a)) -> uses_open o (bind m k).
Proof.
  intros Hm Hk f0 f s Hf. unfold bind. specialize (Hm f s). destruct (m (f, s)) as [[a|e] [f' s']]; cbn in *.
  - destruct Hm as [[=]| ->]. by apply Hk.
  - destruct Hm as [Hkill| ->]; [by left|]. right. by apply holds_open_holds.
Qed.
Lemma uses_then_keeps {A B} o (m : fdop A) (k : A -> fdop B) :
  uses_open o m -> (forall a, keeps_object o (k a)) -> uses_open o (bind m k).
Proof.
  intros Hm Hk f0 f s Hf. unfold bind. specialize (Hm f0 f s Hf). destruct (m (f, s)) as [[a|e] [f' s']]; cbn in *; [|done].
  destruct Hm as [[=]|Hf']. by apply Hk.
Qed.
Lemma balanced_uses {A} o (m : fdop A) : Balanced m -> uses_open o m.
Proof. intros Hm f0 f s Hf. destruct (Hm f s) as [?| ->]; [by left|]. right. by apply holds_open_holds. Qed.
Lemma throw_moves {A} (own : A -> nat) o e : moves_out own o (throw e).
Proof. intros f0 f s Hf. right. by apply holds_open_holds. Qed.

Lemma leave_balanced {A} o (m : fdop A) f0 f s :
  keeps_object o m -> holds o f0 f ->
  is_killed (fst (leave o m (f, s))) = true \/ fst (snd (leave o m (f, s))) = f0.
Proof.
  intros Hm Hf. unfold leave. specialize (Hm f0 f s Hf). destruct (m (f, s)) as [r [f' s']]. cbn [fst snd] in Hm.
  destruct (is_killed r) eqn:Hk; [by left|]. destruct Hm as [?|Hf']; [done|]. right.
  cbn [fst snd]. by rewrite (destroy_holds o f0).
Qed.
Lemma leave_used {A} o (m : fdop A) f0 f s :
  uses_open o m -> holds_open o f0 f ->
  is_killed (fst (leave o m (f, s))) = true \/ fst (snd (leave o m (f, s))) = f0.
Proof.
  intros Hm Hf. unfold leave. specialize (Hm f0 f s Hf). destruct (m (f, s)) as [r [f' s']]. cbn [fst snd] in Hm.
  destruct (is_killed r) eqn:Hk; [by left|]. destruct Hm as [?|Hf']; [done|]. right.
  cbn [fst snd]. by rewrite (destroy_holds o f0).
Qed.
Lemma leave_makes {A} (own : A -> nat) o (m : fdop A) f0 f s :
  moves_out own o m -> holds_open o f0 f ->
  match leave o m (f, s) with
  | (Ok a, (f', _)) => holds_open (own a) f0 f'
  | (Throw e, (f', _)) => kills e = true \/ f' = f0
  end.
Proof.
  intros Hm Hf. unfold leave. specialize (Hm f0 f s Hf). destruct (m (f, s)) as [[a|e] [f' s']]; cbn [is_killed].
  - destruct Hm as (f1 & H1 & Hnone & ->). by rewrite (destroy_holds o f1) by (by apply holds_none).
  - destruct (kills e) eqn:Hk; [by left|]. destruct Hm as [?|Hf']; [congruence|].
    rewrite (destroy_holds o f0) by done. by right.
Qed.

(** A call that opens a file, and the object that owns the descriptor. *)
Lemma open_constructs {X} (m : sysop (option X)) f s :
  match open_fd m (f, s) with
  | (Ok opened, (f1, s1)) =>
      exists o f2, construct opened.1 (f1, s1) = (Ok o, (f2, s1)) /\ holds o f f2 /\
        (opened.2 <> None -> holds_open o f f2)
  | (Throw e, (f1, _)) => f1 = f
  end.
Proof.
  unfold open_fd, bind, on_sys. cbn. destruct (m s) as [[[x|]|e] s1]; cbn; [| |done].
  - destruct (unused_spec (fd_open f)) as [Hpos Hun]. eexists _, _. split; [reflexivity|].
    cut (holds_open (fresh (dom (fd_objects f))) f (set_fd_objects (<[fresh (dom (fd_objects f)) := unused (fd_open f)]> (fd_objects f))
           (mkFds ({[unused (fd_open f)]} ∪ fd_open f) (fd_objects f) (fd_bad f)))); [by auto using holds_open_holds|].
    split; [apply not_elem_of_dom, is_fresh|]. by exists (unused (fd_open f)).
  - eexists _, _. split; [reflexivity|]. split; [|done]. apply holds_none, not_elem_of_dom, is_fresh.
Qed.

Lemma open_balanced {X A} (m : sysop (option X)) (body : Z * option X -> nat -> fdop A) :
  (forall opened o, keeps_object o (body opened o)) ->
  Balanced (let! opened := open_fd m in scope (construct opened.1) (body opened)).
Proof.
  intros Hb f s. unfold bind. pose proof (open_constructs m f s) as Ho.
  destruct (open_fd m (f, s)) as [[opened|e] [f1 s1]]; [|right; exact Ho].
  destruct Ho as (o & f2 & Hc & Hf & _). unfold scope, bind. rewrite Hc. by apply leave_balanced.
Qed.
Lemma open_makes {X A} (own : A -> nat) (m : sysop (option X)) (body : Z * option X -> nat -> fdop A) :
  (forall fd x o, moves_out own o (body (fd, Some x) o)) ->
  (forall fd o, keeps_object o (body (fd, None) o)) ->
  (forall fd o st, is_ok (fst (body (fd, None) o st)) = false) ->
  makes own (let! opened := open_fd m in scope (construct opened.1) (body opened)).
Proof.
  intros Hb Hn Hno f s. unfold bind at 1. pose proof (open_constructs m f s) as Ho.
  destruct (open_fd m (f, s)) as [[[fd x]|e] [f1 s1]]; [|right; exact Ho].
  destruct Ho as (o & f2 & Hc & Hf & Hopen). unfold scope, bind. rewrite Hc. destruct x as [x|].
  - apply leave_makes; [done|]. by apply Hopen.
  - pose proof (leave_balanced o (body (fd, None) o) f f2 s1 (Hn fd o) Hf) as Hl. specialize (Hno fd o (f2, s1)).
    unfold leave in *. destruct (body (fd, None) o (f2, s1)) as [[a|e] [f3 s3]]; [done|].
    cbn [is_killed fst snd] in *. destruct (kills e) eqn:Hk; [by left|]. cbn [is_killed fst snd] in *.
    destruct Hl as [Hl|Hl]; [congruence|].
    destruct (destroy o (f3, s3)) as [? [f4 s4]]. right. exact Hl.
Qed.

Lemma make_checked_makes {X} e (opens : sysop (option X)) : makes fst (make_checked e opens).
Proof.
  intros f s. unfold make_checked, bind at 1. pose proof (open_constructs opens f s) as Ho.
  assert (forall fd f1 s1, open_fd opens (f, s) = (Ok (fd, None), (f1, s1)) -> f1 = f) as Hnone.
  { intros fd f1 s1. unfold open_fd, bind, on_sys. cbn. by destruct (opens s) as [[[x|]|e'] s']; intros [=]. }
  destruct (open_fd opens (f, s)) as [[[fd x]|e'] [f1 s1]]; [|right; exact Ho].
  destruct Ho as (o & f2 & Hc & Hf & Hopen). cbn [fst snd] in *. destruct x as [x|].
  - unfold bind. rewrite Hc. cbn. by apply Hopen.
  - right. by eapply Hnone.
Qed.

(** An object made by another function. *)
Lemma made_balanced {A B} (own : A -> nat) (m : fdop A) (k : A -> fdop B) :
  makes own m -> (forall a, uses_open (own a) (k a)) -> Balanced (let! a := m in leave (own a) (k a)).
Proof.
  intros Hm Hk f s. unfold bind. specialize (Hm f s). destruct (m (f, s)) as [[a|e] [f' s']].
  - by apply leave_used.
  - done.
Qed.
Lemma made_makes {A B} (own : A -> nat) (own' : B -> nat) (m : fdop A) (k : A -> fdop B) :
  makes own m -> (forall a, moves_out own' (own a) (k a)) -> makes own' (let! a := m in leave (own a) (k a)).
Proof.
  intros Hm Hk f s. unfold bind. specialize (Hm f s). destruct (m (f, s)) as [[a|e] [f' s']]; [by apply leave_makes|done].
Qed.
Lemma balanced_then_makes {A B} (own : B -> nat) (m : fdop A) (k : A -> fdop B) :
  Balanced m -> (forall a, makes own (k a)) -> makes own (bind m k).
Proof.
  intros Hm Hk f s. unfold bind. specialize (Hm f s). destruct (m (f, s)) as [[a|e] [f' s']]; cbn in *.
  - destruct Hm as [[=]| ->]. apply Hk.
  - done.
Qed.
Lemma throw_makes {A} (own : A -> nat) e : makes own (throw e).
Proof. intros f s. by right. Qed.
End rules.

(** ** The operations of the class *)

Lemma move_construct_moves o : moves_out id o (move_construct o).
Proof.
  intros f0 f s [Ho (fd & Hpos & Hfd & ->)]. unfold move_construct, on_fds. cbn [fst snd fd_objects].
  set (o' := fresh (dom (<[o := fd]> (fd_objects f0)))).
  assert (<[o := fd]> (fd_objects f0) !! o' = None) as Ho' by apply not_elem_of_dom, is_fresh.
  apply lookup_insert_None in Ho' as [Hf0 Hne]. unfold fd_of, set_fd_objects. cbn [fd_objects fd_open fd_bad].
  rewrite lookup_insert_eq. cbn [default]. rewrite insert_insert_eq.
  exists (mkFds ({[fd]} ∪ fd_open f0) (<[o' := fd]> (fd_objects f0)) (fd_bad f0)). split; [|split].
  - split; [done|]. by exists fd.
  - cbn. by rewrite lookup_insert_ne.
  - unfold set_fd_objects. cbn. by rewrite insert_insert_ne.
Qed.

(** An object and its descriptor, added to what there was. *)
Definition with_object (o : nat) (fd : Z) (f : Fds) : Fds :=
  mkFds (if 0 <=? fd then {[fd]} ∪ fd_open f else fd_open f) (<[o := fd]> (fd_objects f)) (fd_bad f).
Definition own_fd (fd : Z) (f : Fds) : Prop := fd = -1 \/ 0 <= fd /\ fd ∉ fd_open f.

Lemma holds_iff o f0 f :
  holds o f0 f <-> fd_objects f0 !! o = None /\ exists fd, own_fd fd f0 /\ f = with_object o fd f0.
Proof.
  unfold holds, own_fd, with_object, set_fd_objects. split; (intros [Ho Hf]; split; [done|]).
  - destruct Hf as [->|(fd & Hpos & Hfd & ->)]; [exists (-1); auto|].
    exists fd. split; [auto|]. by destruct (Z.leb_spec 0 fd); [|lia].
  - destruct Hf as (fd & [->|[Hpos Hfd]] & ->); [by left|]. right. exists fd.
    split_and!; [done|done|]. by destruct (Z.leb_spec 0 fd); [|lia].
Qed.

(** [current = std::move(parent)]: the old descriptor is closed, the new one has
    changed hands, and [parent] is empty. *)
Lemma move_assign_objects current parent c p f0 :
  fd_objects f0 !! current = None -> current <> parent -> own_fd c f0 -> own_fd p (with_object current c f0) ->
  let f2 := with_object parent p (with_object current c f0) in
  set_fd_objects (<[current := p]> (<[parent := -1]> (fd_objects f2))) (close_if_open c f2) =
  with_object parent (-1) (with_object current p f0).
Proof.
  intros Hcur Hne Hc Hp f2. subst f2. unfold with_object, set_fd_objects, close_if_open, close_fd in *.
  cbn [fd_objects fd_open fd_bad] in *. unfold own_fd in *. cbn [fd_open] in Hp.
  assert (<[current := p]> (<[parent := -1]> (<[parent := p]> (<[current := c]> (fd_objects f0)))) =
          <[parent := -1]> (<[current := p]> (fd_objects f0))) as Hobj.
  { rewrite insert_insert_eq, (insert_insert_ne _ current parent), insert_insert_eq by done. done. }
  rewrite Hobj. change (0 <=? -1) with false. cbn iota. clear Hobj.
  destruct (Z.leb_spec 0 c) as [Hc0|Hc0]; destruct (Z.leb_spec 0 p) as [Hp0|Hp0]; cbn [fd_open fd_bad];
    rewrite ?bool_decide_true by set_solver; cbn [fd_open fd_bad]; f_equal; apply leibniz_equiv;
    destruct Hc as [?|[_ Hc]], Hp as [?|[_ Hp]]; (lia || set_solver).
Qed.

Lemma move_assign_spec current parent f0 f1 f2 s :
  holds current f0 f1 -> holds parent f1 f2 ->
  exists f4, holds current f0 f4 /\ holds parent f4 (fst (snd (move_assign current parent (f2, s)))).
Proof.
  intros (Hc0 & c & Hc & ->)%holds_iff (Hp0 & p & Hp & ->)%holds_iff. cbn in Hp0.
  apply lookup_insert_None in Hp0 as [Hp0 Hne]. exists (with_object current p f0).
  assert (fd_of parent (with_object parent p (with_object current c f0)) = p) as Ep.
  { unfold fd_of. cbn. by rewrite lookup_insert_eq. }
  assert (fd_of current (with_object parent p (with_object current c f0)) = c) as Ec.
  { unfold fd_of. cbn. by rewrite lookup_insert_ne, lookup_insert_eq. }
  split.
  - apply holds_iff. split; [done|]. exists p. split; [|done].
    destruct Hp as [?|[? Hp]]; [by left|right]. split; [done|]. cbn in Hp. destruct (0 <=? c); set_solver.
  - unfold move_assign, on_fds. cbn [fst snd]. rewrite bool_decide_false, Ep, Ec by done. cbn [fst snd].
    rewrite move_assign_objects by done. apply holds_iff. split; [cbn; by rewrite lookup_insert_ne|].
    exists (-1). split; [by left|done].
Qed.

(** A round of the loop that moves on to the parent. *)
Lemma move_round_keeps {X} current (m : sysop (option X)) (checks : Z * option X -> fdop unit) :
  (forall opened, Balanced (checks opened)) ->
  keeps_object current (let! opened := open_fd m in
    scope (construct opened.1) (fun parent => checks opened;;; move_assign current parent)).
Proof.
  intros Hchecks f0 f s Hf. unfold bind. pose proof (open_constructs m f s) as Ho.
  destruct (open_fd m (f, s)) as [[opened|e] [f1 s1]]; [|right; cbn; by rewrite Ho].
  destruct Ho as (parent & f2 & Hc & Hf2 & _). unfold scope, leave, bind. rewrite !Hc.
  pose proof (Hchecks opened f2 s1) as Hb. destruct (checks opened (f2, s1)) as [[u|e] [f3 s3]]; cbn [fst snd is_killed] in *.
  - destruct Hb as [[=]| ->]. destruct (move_assign_spec current parent f0 f f2 s3 Hf Hf2) as (f4 & H4 & H5).
    right. unfold move_assign, on_fds in *. cbn [fst snd is_killed] in *.
    rewrite (destroy_holds parent f4 _ s3) by exact H5. done.
  - destruct (kills e) eqn:Hk; [by left|]. destruct Hb as [?| ->]; [congruence|]. right.
    cbn [fst snd]. rewrite (destroy_holds parent f _ s3) by done. done.
Qed.
Lemma moved_out {B} (own : B -> nat) o (k : nat -> B) :
  (forall o', own (k o') = o') -> moves_out own o (let! o' := move_construct o in ret (k o')).
Proof.
  intros Hk f0 f s Hf. pose proof (move_construct_moves o f0 f s Hf) as Hmove.
  unfold bind. destruct (move_construct o (f, s)) as [[o'|e] [f' s']]; cbn; [|done]. by rewrite Hk.
Qed.

(** ** Triples *)

(** For programs that change objects below the top of the stack: what holds of the
    resources after a return, and after an exception. *)
Definition triple {A} (P : Fds -> Prop) (m : fdop A) (Q : A -> Fds -> Prop) (X : Fds -> Prop) : Prop :=
  forall f s, P f -> match m (f, s) with
                     | (Ok a, (f', _)) => Q a f'
                     | (Throw e, (f', _)) => kills e = true \/ X f'
                     end.

Lemma triple_bind {A B} P (m : fdop A) R (k : A -> fdop B) Q X :
  triple P m R X -> (forall a, triple (R a) (k a) Q X) -> triple P (bind m k) Q X.
Proof.
  intros Hm Hk f s Hf. unfold bind. specialize (Hm f s Hf). destruct (m (f, s)) as [[a|e] [f' s']]; [by apply Hk|done].
Qed.
Lemma triple_weaken {A} (P P' : Fds -> Prop) (m : fdop A) (Q Q' : A -> Fds -> Prop) (X X' : Fds -> Prop) :
  triple P' m Q' X' -> (forall f, P f -> P' f) -> (forall a f, Q' a f -> Q a f) -> (forall f, X' f -> X f) -> triple P m Q X.
Proof.
  intros Hm HP HQ HX f s Hf. specialize (Hm f s (HP f Hf)). destruct (m (f, s)) as [[a|e] [f' s']]; [by apply HQ|].
  destruct Hm as [?|Hx]; [by left|right; by apply HX].
Qed.
Lemma triple_balanced {A} (P : Fds -> Prop) (m : fdop A) : Balanced m -> triple P m (fun _ => P) P.
Proof.
  intros Hm f s Hf. specialize (Hm f s). destruct (m (f, s)) as [[a|e] [f' s']]; cbn in Hm.
  - destruct Hm as [[=]| ->]. done.
  - destruct Hm as [?| ->]; auto.
Qed.
(** A balanced step, and the rest. *)
Lemma triple_step {A B} (P X : Fds -> Prop) (m : fdop A) (k : A -> fdop B) Q :
  Balanced m -> (forall f, P f -> X f) -> (forall a, triple P (k a) Q X) -> triple P (bind m k) Q X.
Proof.
  intros Hm HX Hk. apply (triple_bind P m (fun _ => P)); [|exact Hk].
  apply (triple_weaken P P m (fun _ => P) (fun _ => P) X P); [by apply triple_balanced|done..].
Qed.
Lemma triple_ret {A} (a : A) (P X : Fds -> Prop) (Q : A -> Fds -> Prop) : (forall f, P f -> Q a f) -> triple P (ret a) Q X.
Proof. intros HQ f s Hf. by apply HQ. Qed.
Lemma triple_throw {A} e (P X : Fds -> Prop) (Q : A -> Fds -> Prop) : (forall f, P f -> X f) -> triple P (throw e) Q X.
Proof. intros HX f s Hf. right. by apply HX. Qed.

(** The scope of an object another function made. *)
Lemma triple_made {A B} (own : A -> nat) (P X : Fds -> Prop) (m : fdop A) (k : A -> fdop B) Q :
  makes own m -> (forall f, P f -> X f) ->
  (forall a, triple (fun f1 => exists f, P f /\ holds_open (own a) f f1) (k a)
               (fun b f1 => exists f, Q b f /\ holds (own a) f f1) (fun f1 => exists f, X f /\ holds (own a) f f1)) ->
  triple P (let! a := m in leave (own a) (k a)) Q X.
Proof.
  intros Hm HX Hk f s Hf. unfold bind. specialize (Hm f s). destruct (m (f, s)) as [[a|e] [f1 s1]].
  2: { destruct Hm as [?| ->]; auto. }
  unfold leave. specialize (Hk a f1 s1 (ex_intro _ f (conj Hf Hm))). destruct (k a (f1, s1)) as [[b|e] [f2 s2]]; cbn [is_killed].
  - destruct Hk as (f3 & Hq & Hh). by rewrite (destroy_holds (own a) f3).
  - destruct (kills e) eqn:He; [by left|]. destruct Hk as [?|(f3 & Hx & Hh)]; [congruence|].
    rewrite (destroy_holds (own a) f3) by done. by right.
Qed.

(** The scope of a member: the destructor runs only when the constructor of the object
    it belongs to throws. *)
Definition member {A} (o : nat) (m : fdop A) : fdop A :=
  fun st => match m st with
            | (Ok a, st') => (Ok a, st')
            | (Throw e, st') => (Throw e, if kills e then st' else snd (destroy o st'))
            end.
Lemma member_erases {A B} (g : A -> B) o m m0 : Erases g m m0 -> Erases g (member o m) m0.
Proof.
  intros Hm f s. unfold member. rewrite (Hm f s). destruct (m (f, s)) as [[a|e] [f' s']]; cbn; [done|]. by destruct (kills e).
Qed.

Lemma keeps_uses {A} o (m : fdop A) : keeps_object o m -> uses_open o m.
Proof. intros Hm f0 f s Hf. apply Hm. by apply holds_open_holds. Qed.
(** A round of a loop that moves on to an object another function made. *)
Lemma made_round_keeps {A} (own : A -> nat) current (m : fdop A) (checks : fdop unit) :
  makes own m -> Balanced checks ->
  keeps_object current (let! a := m in leave (own a) (checks;;; move_assign current (own a))).
Proof.
  intros Hm Hchecks f0 f s Hf. unfold bind. specialize (Hm f s). destruct (m (f, s)) as [[a|e] [f1 s1]].
  2: { cbn. destruct Hm as [?| ->]; [by left|by right]. }
  apply holds_open_holds in Hm. unfold leave.
  specialize (Hchecks f1 s1). destruct (checks (f1, s1)) as [[u|e] [f3 s3]]; cbn [fst snd is_killed] in *.
  - destruct Hchecks as [[=]| ->]. destruct (move_assign_spec current (own a) f0 f f1 s3 Hf Hm) as (f4 & H4 & H5).
    right. unfold move_assign, on_fds in *. cbn [fst snd is_killed] in *. by rewrite (destroy_holds (own a) f4 _ s3).
  - destruct (kills e) eqn:He; [by left|]. destruct Hchecks as [?| ->]; [congruence|]. right.
    cbn [fst snd]. by rewrite (destroy_holds (own a) f _ s3).
Qed.

(** *** Objects on top of others *)

(** One more object, with a resource, or with or without one, or empty. *)
Definition on (o : nat) (P : Fds -> Prop) (f1 : Fds) : Prop := exists f, P f /\ holds_open o f f1.
Definition over (o : nat) (P : Fds -> Prop) (f1 : Fds) : Prop := exists f, P f /\ holds o f f1.
Definition empty_on (o : nat) (P : Fds -> Prop) (f1 : Fds) : Prop :=
  exists f, P f /\ fd_objects f !! o = None /\ f1 = set_fd_objects (<[o := -1]> (fd_objects f)) f.

Lemma on_over o (P Q : Fds -> Prop) f : (forall f, P f -> Q f) -> on o P f -> over o Q f.
Proof. intros HPQ (f0 & HP & Hh). exists f0. split; [by apply HPQ|by apply holds_open_holds]. Qed.
Lemma over_over o (P Q : Fds -> Prop) f : (forall f, P f -> Q f) -> over o P f -> over o Q f.
Proof. intros HPQ (f0 & HP & Hh). exists f0. split; [by apply HPQ|done]. Qed.
Lemma empty_over o (P Q : Fds -> Prop) f : (forall f, P f -> Q f) -> empty_on o P f -> over o Q f.
Proof. intros HPQ (f0 & HP & Ho & ->). exists f0. split; [by apply HPQ|by apply holds_none]. Qed.

(** What [reset] does, and what a call does that gives a resource. *)
Definition reset_fds (this : nat) (fd : Z) (f : Fds) : Fds :=
  set_fd_objects (<[this := fd]> (fd_objects f)) (close_if_open (fd_of this f) f).
Definition give (fd : Z) (f : Fds) : Fds := mkFds ({[fd]} ∪ fd_open f) (fd_objects f) (fd_bad f).

(** The object exists, and what it owns is there. *)
Definition sound (o : nat) (f : Fds) : Prop :=
  exists r, fd_objects f !! o = Some r /\ (r = -1 \/ 0 <= r /\ r ∈ fd_open f).

Lemma sound_on o o' f f1 : sound o f -> holds_open o' f f1 -> sound o f1 /\ o <> o'.
Proof.
  intros (r & Ho & Hr) (Hnone & fd & _ & _ & ->). assert (o <> o') as Hne by congruence. split; [|done].
  exists r. cbn. rewrite lookup_insert_ne by done. split; [done|]. destruct Hr as [?|[? ?]]; [by left|right; set_solver].
Qed.

(** An object below another is changed without touching the other. *)
Lemma reset_below o o' fd f f1 :
  sound o f -> holds_open o' f f1 -> holds_open o' (reset_fds o fd f) (reset_fds o fd f1).
Proof.
  intros Hs Hh. destruct (sound_on o o' f f1 Hs Hh) as [_ Hne]. destruct Hs as (r & Ho & Hr), Hh as (Hnone & fd' & Hpos & Hfd' & ->).
  unfold reset_fds, fd_of, close_if_open, close_fd, set_fd_objects. cbn [fd_objects fd_open fd_bad].
  rewrite lookup_insert_ne, Ho by done. cbn [default from_option id]. rewrite insert_insert_ne by done.
  destruct Hr as [->|[Hr0 Hr]].
  - change (0 <=? -1) with false. cbn [fd_objects fd_open fd_bad].
    split; [cbn; by rewrite lookup_insert_ne|]. by exists fd'.
  - destruct (Z.leb_spec 0 r); [|lia]. rewrite !bool_decide_true by set_solver. cbn [fd_objects fd_open fd_bad].
    split; [cbn; by rewrite lookup_insert_ne|]. exists fd'. cbn [fd_open fd_objects fd_bad].
    assert (r <> fd') as Hrf by (by intros ->). split; [done|]. split; [by intros [Hin _]%elem_of_difference|].
    f_equal. clear -Hrf. set_solver.
Qed.
Lemma give_below o' fd f f1 : fd ∉ fd_open f1 -> holds_open o' f f1 -> holds_open o' (give fd f) (give fd f1).
Proof.
  intros Hfd (Hnone & fd' & Hpos & Hfd' & ->). cbn in Hfd. split; [done|]. exists fd'. cbn. split; [done|]. split; [set_solver|].
  unfold give. cbn. f_equal. apply leibniz_equiv. set_solver.
Qed.

Lemma holds_open_sound o f0 f : holds_open o f0 f -> sound o f.
Proof. intros (Ho & fd & Hpos & Hfd & ->). exists fd. cbn. rewrite lookup_insert_eq. split; [done|]. right. set_solver. Qed.
(** A reset to nothing releases. *)
Lemma holds_open_released o f0 f : holds_open o f0 f -> holds o f0 (reset_fds o (-1) f).
Proof.
  intros (Ho & fd & Hpos & Hfd & ->). unfold reset_fds, fd_of, close_if_open. cbn [fd_objects]. rewrite lookup_insert_eq.
  cbn [default from_option id]. destruct (Z.leb_spec 0 fd); [|lia]. rewrite (close_own fd f0) by done. unfold set_fd_objects.
  cbn [fd_objects fd_open fd_bad]. rewrite insert_insert_eq. by apply holds_none.
Qed.
(** An empty object gets what a call gave. *)
Lemma empty_given o (P : Fds -> Prop) fd f :
  empty_on o P f -> 0 <= fd -> fd ∉ fd_open f -> on o P (reset_fds o fd (give fd f)).
Proof.
  intros (f0 & HP & Ho & ->) Hpos Hfd. exists f0. split; [done|]. split; [done|]. exists fd. split; [done|]. split; [done|].
  unfold reset_fds, give, fd_of, close_if_open, set_fd_objects. cbn. rewrite lookup_insert_eq. cbn. by rewrite insert_insert_eq.
Qed.
Lemma empty_reset o (P : Fds -> Prop) f : empty_on o P f -> reset_fds o (-1) f = f.
Proof.
  intros (f0 & HP & Ho & ->). unfold reset_fds, fd_of, close_if_open, set_fd_objects. cbn. rewrite lookup_insert_eq. cbn.
  by rewrite insert_insert_eq.
Qed.
Lemma empty_sound o (P : Fds -> Prop) f : empty_on o P f -> sound o f.
Proof. intros (f0 & HP & Ho & ->). exists (-1). cbn. rewrite lookup_insert_eq. split; [done|by left]. Qed.

Lemma triple_uses {A} o (m : fdop A) :
  (forall f0, triple (holds_open o f0) m (fun _ => holds o f0) (holds o f0)) -> uses_open o m.
Proof.
  intros Hm f0 f s Hf. specialize (Hm f0 f s Hf). destruct (m (f, s)) as [[a|e] [f' s']]; cbn; [by right|done].
Qed.
End ownership.
