(* ===== verification/Descriptors.v ===== *)
(** * File descriptors ([core/identity/device_identity.cpp], class [FileDescriptor])

    [Identity.v] follows what the identity code does to the storage; here the same code
    runs with its file descriptors: the objects of the class [FileDescriptor], their
    constructors, moves, [close_checked] and the destructors that run when a scope is
    left, by a return or by an exception.  The programs are those of [Identity.v] with
    their scopes; they do the same to the storage ([erases] lemmas), and whatever
    fails, they close every descriptor they opened exactly once. *)

From S2P Require Import Prelude Uuid Storage Identity Ownership.

(** ** The class *)

#[export] Instance storage_kills : Kills StorageError := fun e => match e with ProcessKilled => true | _ => false end.
Abbreviation fdop := (stx (Fds * Sys) StorageError).

(** A call that gives a descriptor. *)
Definition call_opens : sysop (option unit) := let! ok := call in ret (if ok then Some tt else None).

(** The constructors, the moves and the destructor are those of [Ownership.v]. *)
(** [close_checked]. *)
Definition close_checked (o : nat) : fdop unit :=
  on_fds (fun f => (tt, set_fd_objects (<[o := -1]> (fd_objects f)) (close_fd (fd_of o f) f)));;;
  let! closed := on_sys call in
  if negb closed then throw (StorageFailure "failed to close persisted identity file") else ret tt.

(** ** The identity code with its descriptors *)

Section identity.
Context {SO : Sodium} (env : IdentityEnv).

Definition fd_sync_ancestors_step (current : nat) (sync : sysop unit) (m : nat -> fdop unit) : fdop unit :=
  on_sys sync;;;
  let! opened := open_fd call_opens in
  scope (construct opened.1) (fun parent =>
    (if bool_decide (opened.2 = None)
     then throw (StorageFailure "unable to inspect identity directory's ancestor")
     else
       let! info := on_sys call in
       if negb info then throw (StorageFailure "unable to inspect identity directory's ancestor")
       else
         let! parent_info := on_sys call in
         if negb parent_info then throw (StorageFailure "unable to inspect identity directory's ancestor") else ret tt);;;
    m parent).
(** The rounds of the loop: the last finds the root, the others move on. *)
Fixpoint fd_sync_loop (current : nat) (depth : nat) (sync : sysop unit) : fdop unit :=
  match depth with
  | O => fd_sync_ancestors_step current sync (fun _ => ret tt)
  | S depth =>
      fd_sync_ancestors_step current sync (fun parent => move_assign current parent);;;
      fd_sync_loop current depth sync_ancestor
  end.
Definition fd_sync_directory_tree : fdop unit :=
  let! duplicated := open_fd call_opens in
  scope (construct duplicated.1) (fun current =>
    if bool_decide (duplicated.2 = None) then throw (StorageFailure "unable to duplicate identity directory handle")
    else fd_sync_loop current (ie_depth env) sync_directory).

(** The object returned is moved out of the function. *)
Definition fd_open_identity_directory : fdop nat :=
  let! created := on_sys call in
  if negb created then throw (StorageFailure "failed to create identity directory")
  else
    let! opened := open_fd call_opens in
    scope (construct opened.1) (fun directory =>
      let! inspected := (if bool_decide (opened.2 = None) then ret false else on_sys call) in
      let! st := on_sys (gets sys_storage) in
      if negb inspected || negb (st_dir_uid st =? ie_euid env)
      then throw (StorageFailure "identity directory is inaccessible, symlinked, or not owned by this user")
      else
        let! secured := on_sys call in
        if negb secured then throw (StorageFailure "failed to secure identity directory permissions")
        else
          on_sys (modify (fun s => set_storage (set_dir_mode 448 (sys_storage s)) s));;;
          fd_sync_directory_tree;;;
          move_construct directory).

Definition fd_open_private_file (name : string) (creat excl : bool) : fdop (nat * nat) :=
  let! opened := open_fd (open_entry (ie_euid env) (ie_umask env) name creat excl) in
  scope (construct opened.1) (fun file =>
    match opened.2 with
    | None => throw (StorageFailure (String.append "unable to access " name))
    | Some i => let! inode := on_sys (check_private env name i) in
                let! o := move_construct file in ret (o, inode)
    end).

Definition fd_acquire_lock (name : string) : fdop nat :=
  let! lock := fd_open_private_file name true false in
  leave lock.1
    (on_sys (fun s => let '(r, rest) := lock_loop (sys_outcomes s) in (r, set_outcomes rest s));;;
     move_construct lock.1).

Definition fd_read_file (name : string) (capacity : nat) : fdop (list byte) :=
  let! file := fd_open_private_file name false false in
  leave file.1
    (let! st := on_sys (gets sys_storage) in
     let contents := default [] (i_data <$> st_inodes st !! file.2) in
     let! r := on_sys (fun s => let '(r, rest) := read_loop (sys_outcomes s) contents capacity [] in (r, set_outcomes rest s)) in
     match r with
     | None => throw (StorageFailure (String.append "failed to read " name))
     | Some data =>
         if (length data <? capacity)%nat then ret data
         else
           let! ok := on_sys retry in
           if ok && (length contents <=? capacity)%nat then ret data
           else throw (StorageFailure (String.append "invalid size or read failure in " name))
     end).

Definition fd_publish (name : string) (file : nat * nat) : fdop unit :=
  on_sys (sync_file file.2);;;
  close_checked file.1;;;
  let! renamed := on_sys call in
  if negb renamed then throw (StorageFailure (String.append "failed to publish " name))
  else
    on_sys (modify (fun s => set_storage (change_entries (<[name := file.2]> (delete (String.append name ".tmp")
                                            (st_entries (sys_storage s)))) (sys_storage s)) s));;;
    on_sys sync_directory.
Definition fd_atomic_write (name : string) (data : list byte) : fdop unit :=
  let temporary := String.append name ".tmp" in
  let! file := fd_open_private_file temporary true true in
  leave file.1
    (let! ok := on_sys (fun s =>
       let '(written, r, rest) := write_loop (sys_outcomes s) data in
       (r, set_outcomes rest (set_storage
             (update_inode file.2 (fun nd => set_stable false (set_data (i_data nd ++ written) nd)) (sys_storage s)) s))) in
     if negb ok then throw (StorageFailure (String.append "failed to write " temporary)) else fd_publish name file).

Definition fd_load_manifest (name : string) : fdop (bool * option string) :=
  let! exists_ := on_sys (entry_exists name) in
  if exists_ then
    let! contents := fd_read_file name 64 in
    let '(keys_required, text) := read_manifest contents in
    if identity_is_valid_uuid (text_of_bytes text) then ret (keys_required, Some (text_of_bytes text))
    else throw (StorageFailure "invalid UUID or identity format")
  else ret (false, None).

Definition fd_load_keys (keys_name : string) (uuid : string) : fdop DeviceIdentity :=
  let! record := fd_read_file keys_name KEY_FILE_SIZE in
  on_sys (check_keys uuid record).

Definition fd_create_keys (name keys_name : string) (uuid : option string) : fdop DeviceIdentity :=
  let uuid := match uuid with Some uuid => uuid | None => generate_uuid (ie_uuid_bytes env) end in
  fd_atomic_write name (manifest uuid);;;
  let! generated := on_sys call in
  if negb generated then throw (StorageFailure "Ed25519 key generation failed")
  else
    on_sys (modify (add_key (ie_seed env)));;;
    let '(public, private) := sign_seed_keypair (ie_seed env) in
    fd_atomic_write keys_name (key_record uuid public private);;;
    ret (mkDeviceIdentity uuid public private).

Definition fd_load_or_create_locked (name : string) : fdop DeviceIdentity :=
  let keys_name := String.append name ".keys" in
  let! manifest_tmp := on_sys (entry_exists (String.append name ".tmp")) in
  let! keys_tmp := (if manifest_tmp then ret true else on_sys (entry_exists (String.append keys_name ".tmp"))) in
  if manifest_tmp || keys_tmp
  then throw (StorageFailure "interrupted identity initialization; restore the complete identity before retrying")
  else
    let! '(keys_required, uuid) := fd_load_manifest name in
    let! keys_exist := on_sys (entry_exists keys_name) in
    if negb (Bool.eqb keys_exist keys_required)
    then throw (StorageFailure (if keys_required then "established key material is missing; identity will not be regenerated"
                                else "key material has no matching versioned UUID identity"))
    else
      match keys_required, uuid with
      | true, Some uuid => fd_load_keys keys_name uuid
      | _, uuid => fd_create_keys name keys_name uuid
      end.

(** [directory] and [lock] live to the end of the function. *)
Definition fd_load_or_create (name : string) : fdop DeviceIdentity :=
  let! initialized := on_sys call in
  if negb initialized then throw (StorageFailure "libsodium initialization failed")
  else if bool_decide (name = EmptyString) || bool_decide (name = ".") || bool_decide (name = "..")
  then throw (StorageFailure "invalid identity filename")
  else
    scope fd_open_identity_directory (fun _ =>
      scope (fd_acquire_lock (String.append name ".lock")) (fun _ =>
        fd_load_or_create_locked name)).
End identity.

Lemma close_checked_uses o : uses_open o (close_checked o).
Proof.
  intros f0 f s [Ho (fd & Hpos & Hfd & ->)].
  unfold close_checked, bind, on_fds, on_sys, fd_of. cbn [fst snd fd_objects]. rewrite lookup_insert_eq.
  cbn [default]. rewrite (close_own fd f0) by done. unfold set_fd_objects. cbn [fd_open fd_objects fd_bad].
  rewrite insert_insert_eq. destruct (call s) as [[[|]|[|]] s']; cbn; try (by left); right; by apply holds_none.
Qed.

Section programs.
Context {SO : Sodium} (env : IdentityEnv).

Lemma fd_sync_loop_keeps current depth sync : keeps_object current (fd_sync_loop current depth sync).
Proof.
  revert sync. induction depth as [|depth IH]; intros sync; cbn [fd_sync_loop]; unfold fd_sync_ancestors_step.
  - apply balanced_keeps. apply bind_balanced; [apply _|]. intros _. apply open_balanced. intros opened o.
    apply balanced_keeps. apply _.
  - apply bind_keeps; [|intros _; apply IH]. apply bind_keeps; [apply balanced_keeps, _|]. intros _.
    apply move_round_keeps. intros opened. apply _.
Qed.

#[local] Instance fd_sync_directory_tree_balanced : Balanced (fd_sync_directory_tree env).
Proof.
  apply open_balanced. intros opened o. destruct (bool_decide _); [apply balanced_keeps, _|apply fd_sync_loop_keeps].
Qed.


Lemma fd_open_identity_directory_makes : makes id (fd_open_identity_directory env).
Proof.
  unfold fd_open_identity_directory. apply balanced_then_makes; [apply _|]. intros created.
  destruct (negb created); [apply throw_makes|].
  apply (open_makes id call_opens (fun opened directory => _)); [|intros fd o f0 f s Hf; by right|by intros fd o [f s]].
  intros fd x o. rewrite bool_decide_false by done. apply bind_moves; [apply _|]. intros inspected.
  apply bind_moves; [apply _|]. intros st. destruct (_ || _); [apply throw_moves|].
  apply bind_moves; [apply _|]. intros secured. destruct (negb secured); [apply throw_moves|].
  apply bind_moves; [apply _|]. intros _. apply bind_moves; [apply _|]. intros _. apply move_construct_moves.
Qed.

Lemma fd_open_private_file_makes name creat excl : makes fst (fd_open_private_file env name creat excl).
Proof.
  apply (open_makes fst _ (fun opened file => _)); [|intros fd o; apply balanced_keeps, _|by intros fd o [f s]].
  intros fd i o. cbn [snd]. apply bind_moves; [apply _|]. intros inode. by apply moved_out.
Qed.

Lemma fd_acquire_lock_makes name : makes id (fd_acquire_lock env name).
Proof.
  apply (made_makes fst); [apply fd_open_private_file_makes|]. intros lock.
  apply bind_moves; [apply _|]. intros _. apply move_construct_moves.
Qed.

#[local] Instance fd_read_file_balanced name capacity : Balanced (fd_read_file env name capacity).
Proof.
  apply (made_balanced fst); [apply fd_open_private_file_makes|]. intros file. apply balanced_uses.
  apply bind_balanced; [apply _|]. intros st. apply bind_balanced; [apply _|]. intros [data|]; apply _.
Qed.

#[local] Instance fd_atomic_write_balanced name data : Balanced (fd_atomic_write env name data).
Proof.
  apply (made_balanced fst); [apply fd_open_private_file_makes|]. intros file. apply bind_uses; [apply _|]. intros ok.
  destruct (negb ok); [apply balanced_uses, _|]. unfold fd_publish. apply bind_uses; [apply _|]. intros _.
  apply uses_then_keeps; [apply close_checked_uses|]. intros _. apply balanced_keeps, _.
Qed.

#[local] Instance fd_load_manifest_balanced name : Balanced (fd_load_manifest env name).
Proof.
  apply bind_balanced; [apply _|]. intros [|]; [|apply _]. apply bind_balanced; [apply _|]. intros contents.
  destruct (read_manifest contents). apply _.
Qed.
#[local] Instance fd_create_keys_balanced name keys_name uuid : Balanced (fd_create_keys env name keys_name uuid).
Proof.
  unfold fd_create_keys. apply bind_balanced; [apply _|]. intros _. apply bind_balanced; [apply _|]. intros generated.
  apply if_balanced; [apply _|]. apply bind_balanced; [apply _|]. intros _. destruct (sign_seed_keypair _). apply _.
Qed.
#[local] Instance fd_load_or_create_locked_balanced name : Balanced (fd_load_or_create_locked env name).
Proof.
  unfold fd_load_or_create_locked, fd_load_keys. do 2 (apply bind_balanced; [apply _|]; intros ?).
  apply if_balanced; [apply _|]. apply bind_balanced; [apply _|]. intros [required uuid].
  apply bind_balanced; [apply _|]. intros exist. apply if_balanced; [apply _|].
  destruct required, uuid; apply _.
Qed.

Lemma fd_load_or_create_balanced name : Balanced (fd_load_or_create env name).
Proof.
  unfold fd_load_or_create. apply bind_balanced; [apply _|]. intros initialized.
  do 2 (apply if_balanced; [apply _|]).
  apply (made_balanced id); [apply fd_open_identity_directory_makes|]. intros directory. apply balanced_uses.
  apply (made_balanced id); [apply fd_acquire_lock_makes|]. intros lock. apply balanced_uses, _.
Qed.
End programs.

(** ** The storage, with and without descriptors *)

Section forgetting.
Context {SO : Sodium} (env : IdentityEnv).

(** [call_opens], where the other program has a call. *)
Lemma call_opens_erases {A B} (g : A -> B) (k : Z * option unit -> fdop A) k0 :
  (forall fd (ok : bool), Erases g (k (fd, if ok then Some tt else None)) (k0 ok)) ->
  Erases g (bind (open_fd call_opens) k) (bind call k0).
Proof.
  intros Hk. apply (erases_ext g _ (bind call_opens (fun x => k0 match x with Some _ => true | None => false end))).
  { intros s. unfold call_opens. rewrite <-bind_assoc. unfold bind. by destruct (call s) as [[[|]|e] s']. }
  apply open_fd_erases. intros fd [[]|]; [apply (Hk fd true)|apply (Hk fd false)].
Qed.
(** The test of the descriptor that was opened. *)
Lemma opened_erases {A B} (g : A -> B) (ok : bool) (m m' : fdop A) (m0 m0' : sysop B) :
  Erases g m m0 -> Erases g m' m0' ->
  Erases g (if bool_decide ((if ok then Some tt else None) = None) then m else m') (if negb ok then m0 else m0').
Proof. intros Hm Hm'. by destruct ok; [rewrite bool_decide_false|rewrite bool_decide_true]. Qed.

(** One round, and what the block does after the checks. *)
Lemma fd_round_erases current sync m :
  (forall parent, Erases (fun _ => tt) (m parent) (ret tt)) ->
  Erases (fun _ => tt) (fd_sync_ancestors_step current sync m) (sync;;; inspect_parent).
Proof.
  intros Hm. apply (bind_erases id); [apply on_sys_erases|]. intros _. apply call_opens_erases. intros fd ok.
  apply scope_erases. intros parent.
  eapply erases_ext; [|eapply (bind_erases id _ _ _ _ (fun _ => ret tt)); [|intros []; apply Hm]].
  2: { apply opened_erases; [apply throw_erases|]. repeat (apply (bind_erases id); [apply on_sys_erases|]; intros ?; cbn [id];
       apply if_erases; [apply throw_erases|]). apply (ret_erases id). }
  intros s. apply bind_ret_tt.
Qed.

Lemma fd_sync_loop_erases current depth sync :
  Erases (fun _ => tt) (fd_sync_loop current depth sync) (sync;;; inspect_parent;;; sync_ancestors depth).
Proof.
  revert sync. induction depth as [|depth IH]; intros sync; cbn [fd_sync_loop sync_ancestors].
  - eapply erases_ext; [|apply fd_round_erases; intros parent; apply (ret_erases (fun _ => tt))].
    intros s. rewrite bind_assoc. symmetry. apply bind_ret_tt.
  - eapply erases_ext; [|apply (bind_erases (fun _ => tt) _ _ (sync;;; inspect_parent) _ (fun _ => sync_ancestor;;; inspect_parent;;; sync_ancestors depth))].
    + intros s. symmetry. apply bind_assoc.
    + apply fd_round_erases. intros parent. by apply on_fds_last.
    + intros _. apply IH.
Qed.

Lemma fd_sync_directory_tree_erases : Erases (fun _ => tt) (fd_sync_directory_tree env) (sync_directory_tree env).
Proof.
  apply call_opens_erases. intros fd ok. apply scope_erases. intros current.
  apply opened_erases; [apply throw_erases|apply fd_sync_loop_erases].
Qed.


Lemma fd_open_identity_directory_erases :
  Erases (fun _ => tt) (fd_open_identity_directory env) (open_identity_directory env).
Proof.
  apply sys_step_erases. intros created. apply if_erases; [apply throw_erases|].
  apply call_opens_erases. intros fd ok. apply scope_erases. intros directory.
  apply (bind_erases id); [destruct ok; [apply on_sys_erases|apply (ret_erases id)]|]. intros inspected. apply sys_step_erases. intros st.
  apply if_erases; [apply throw_erases|]. apply sys_step_erases. intros secured.
  apply if_erases; [apply throw_erases|]. apply sys_step_erases. intros _.
  eapply erases_ext; [apply bind_ret_tt|].
  apply (bind_erases (fun _ => tt)); [apply fd_sync_directory_tree_erases|]. intros _. by apply on_fds_last.
Qed.

Lemma fd_open_private_file_erases name creat excl :
  Erases snd (fd_open_private_file env name creat excl) (open_private_file env name creat excl).
Proof.
  apply open_fd_erases. intros fd x. apply scope_erases. intros file. destruct x as [i|]; [|apply throw_erases].
  intros f s. cbn [snd]. unfold bind, on_sys, on_fds, move_construct. cbn.
  by destruct (check_private env name i s) as [[inode|e] s'].
Qed.

(** A file opened for the block. *)
Lemma private_file_erases {A B} (g : A -> B) name creat excl (k : nat * nat -> fdop A) k0 :
  (forall o i, Erases g (k (o, i)) (k0 i)) ->
  Erases g (let! file := fd_open_private_file env name creat excl in leave file.1 (k file))
    (let! i := open_private_file env name creat excl in k0 i).
Proof.
  intros Hk. apply (bind_erases snd); [apply fd_open_private_file_erases|]. intros [o i]. apply leave_erases, Hk.
Qed.

Lemma fd_acquire_lock_erases name :
  Erases (fun _ => tt) (fd_acquire_lock env name) (acquire_lock env name;;; ret tt).
Proof.
  unfold acquire_lock. eapply erases_ext; [intros s; apply bind_assoc|].
  apply (private_file_erases _ name true false (fun lock => _)). intros o i.
  eapply erases_ext; [intros s; apply bind_assoc|].
  apply sys_step_erases. intros _. by apply on_fds_last.
Qed.

Lemma fd_read_file_erases name capacity : Erases id (fd_read_file env name capacity) (read_file env name capacity).
Proof.
  apply (private_file_erases _ name false false (fun file => _)). intros o i. apply sys_step_erases. intros st.
  apply sys_step_erases. intros [data|]; [|apply throw_erases]. apply if_erases; [apply (ret_erases id)|].
  apply sys_step_erases. intros ok. apply if_erases; [apply (ret_erases id)|apply throw_erases].
Qed.

Lemma fd_publish_erases name o i : Erases id (fd_publish name (o, i)) (publish name i).
Proof.
  apply sys_step_erases. intros _. unfold close_checked.
  intros f s. unfold bind, on_fds, on_sys. cbn. destruct (call s) as [[[|]|e] s1]; cbn; [|done..].
  destruct (call s1) as [[[|]|e] s2]; cbn; [|done..]. by destruct (sync_directory _) as [[[]|e] s3].
Qed.
Lemma fd_atomic_write_erases name data : Erases id (fd_atomic_write env name data) (atomic_write env name data).
Proof.
  apply (private_file_erases _ _ true true (fun file => _)). intros o i. apply sys_step_erases. intros ok.
  apply if_erases; [apply throw_erases|apply fd_publish_erases].
Qed.

Lemma fd_load_manifest_erases name : Erases id (fd_load_manifest env name) (load_manifest env name).
Proof.
  apply sys_step_erases. intros [|]; [|apply (ret_erases id)]. apply (bind_erases id); [apply fd_read_file_erases|].
  intros contents. cbn [id]. destruct (read_manifest contents) as [required text].
  apply if_erases; [apply (ret_erases id)|apply throw_erases].
Qed.
Lemma fd_load_keys_erases keys_name uuid : Erases id (fd_load_keys env keys_name uuid) (load_keys env keys_name uuid).
Proof. apply (bind_erases id); [apply fd_read_file_erases|]. intros record. apply on_sys_erases. Qed.
Lemma fd_create_keys_erases name keys_name uuid :
  Erases id (fd_create_keys env name keys_name uuid) (create_keys env name keys_name uuid).
Proof.
  apply (bind_erases id); [apply fd_atomic_write_erases|]. intros _. apply sys_step_erases. intros generated.
  apply if_erases; [apply throw_erases|]. apply sys_step_erases. intros _.
  destruct (sign_seed_keypair (ie_seed env)) as [public private].
  apply (bind_erases id); [apply fd_atomic_write_erases|]. intros _. apply (ret_erases id).
Qed.

Lemma fd_load_or_create_locked_erases name :
  Erases id (fd_load_or_create_locked env name) (load_or_create_locked env name).
Proof.
  apply sys_step_erases. intros manifest_tmp.
  apply (bind_erases id); [destruct manifest_tmp; [apply (ret_erases id)|apply on_sys_erases]|]. intros keys_tmp.
  apply if_erases; [apply throw_erases|]. apply (bind_erases id); [apply fd_load_manifest_erases|]. intros [required uuid].
  apply sys_step_erases. intros exist. apply if_erases; [apply throw_erases|].
  destruct required, uuid; (apply fd_load_keys_erases || apply fd_create_keys_erases).
Qed.

Lemma fd_load_or_create_erases name : Erases id (fd_load_or_create env name) (load_or_create env name).
Proof.
  apply sys_step_erases. intros initialized. do 2 (apply if_erases; [apply throw_erases|]).
  apply (bind_erases (fun _ => tt)); [apply fd_open_identity_directory_erases|]. intros directory. apply leave_erases.
  eapply erases_ext; [|apply (bind_erases (fun _ => tt) _ _ (acquire_lock env (String.append name ".lock");;; ret tt) _ (fun _ => load_or_create_locked env name));
    [apply fd_acquire_lock_erases|intros lock; apply leave_erases, fd_load_or_create_locked_erases]].
  intros s. by rewrite <-bind_assoc.
Qed.
End forgetting.

(** C30. Whatever the system calls answer, [load_or_create] with its [FileDescriptor]
    objects does to the storage, and returns or throws, what the code without them does;
    and unless the process is killed, it leaves the descriptors and the objects of the
    process exactly as they were: every descriptor it opened is closed, none twice, and
    none of another owner. *)
Theorem descriptors_closed_once {SO : Sodium} env name f s :
  let '(r, (f', s')) := fd_load_or_create env name (f, s) in
  load_or_create env name s = (r, s') /\ (r = Throw ProcessKilled \/ f' = f).
Proof.
  pose proof (fd_load_or_create_erases env name f s) as He.
  pose proof (fd_load_or_create_balanced env name f s) as Hb.
  destruct (fd_load_or_create env name (f, s)) as [r [f' s']]. cbn in *. split; [by destruct r|].
  destruct Hb as [Hk|Hf]; [left|by right]. by destruct r as [|[]].
Qed.
