(* ===== verification/TrustTables.v ===== *)
(** * The trust database: schema and statements

    [core/trust/trust_schema.hpp] declares four tables and their constraints;
    [core/trust/trust_store.cpp] runs a fixed set of SQL statements on them.  This
    file holds the data types of [core/trust/trust_store.hpp], the tables as
    finite maps and sets, the CHECK constraints as executable tests, and one
    definition per SQL statement text.  The engine's own failures (I/O, busy,
    out of memory) are not here: [TrustStore.v] adds them. *)

From S2P Require Import Prelude Uuid.

(** ** Data ([trust_store.hpp]) *)

Inductive TrustStatus : Type := Active | Revoked.
Inductive TrustState : Type := StateUnknown | StatePairingPending | StateActive | StateRevoked.
Inductive PairingAttemptStatus : Type := Pending | Confirmed | Cancelled | Expired.

Record TrustedDevice : Type := mkTrustedDevice {
  d_uuid : TrustUuid;
  d_public_key : TrustPublicKey;
  d_status : TrustStatus;
  d_revision : Z;
  d_local_alias : string;
  d_peer_name : string;
  d_peer_platform : string;
  d_pairing_method : string;
  d_paired_at : Z;
  d_revoked_at : option Z;
  d_last_authenticated_at : option Z;
  d_permissions : list string
}.

Record PairingAttempt : Type := mkPairingAttempt {
  a_attempt_id : TrustUuid;
  a_peer_uuid : TrustUuid;
  a_peer_public_key : TrustPublicKey;
  a_status : PairingAttemptStatus;
  a_revision : Z;
  a_local_confirmed : bool;
  a_peer_confirmed : bool;
  a_created_at : Z;
  a_updated_at : Z;
  a_expires_at : Z;
  a_proposed_permissions : list string
}.

Record ActivePeerAuthorization : Type := mkActivePeerAuthorization {
  auth_revision : Z;
  auth_permissions : list string
}.

Record PairingFinalization : Type := mkPairingFinalization {
  f_peer_uuid : TrustUuid;
  f_peer_public_key : TrustPublicKey;
  f_local_alias : string;
  f_peer_name : string;
  f_peer_platform : string;
  f_pairing_method : string
}.

#[export] Instance TrustStatus_eq_dec : EqDecision TrustStatus.
Proof. solve_decision. Defined.
#[export] Instance PairingAttemptStatus_eq_dec : EqDecision PairingAttemptStatus.
Proof. solve_decision. Defined.
#[export] Instance TrustUuid_eq_dec : EqDecision TrustUuid.
Proof. unfold TrustUuid. apply _. Defined.
#[export] Instance TrustUuid_countable : Countable TrustUuid.
Proof. unfold TrustUuid. apply _. Defined.
#[export] Instance TrustPublicKey_eq_dec : EqDecision TrustPublicKey.
Proof. unfold TrustPublicKey. apply _. Defined.

(** The texts stored in the status columns. *)
Definition trust_status_text (status : TrustStatus) : string :=
  match status with Active => "ACTIVE" | Revoked => "REVOKED" end.
Definition attempt_status_text (status : PairingAttemptStatus) : string :=
  match status with
  | Pending => "PENDING" | Confirmed => "CONFIRMED"
  | Cancelled => "CANCELLED" | Expired => "EXPIRED"
  end.

(** ** Tables ([trust_schema.hpp]) *)

Record DeviceRow : Type := mkDeviceRow {
  r_public_key : TrustPublicKey;
  r_status : string;
  r_revision : Z;
  r_local_alias : string;
  r_peer_name : string;
  r_peer_platform : string;
  r_pairing_method : string;
  r_paired_at : Z;
  r_revoked_at : option Z;
  r_last_authenticated_at : option Z
}.

Record AttemptRow : Type := mkAttemptRow {
  t_peer_uuid : TrustUuid;
  t_peer_public_key : TrustPublicKey;
  t_status : string;
  t_revision : Z;
  t_local_confirmed : Z;
  t_peer_confirmed : Z;
  t_created_at : Z;
  t_updated_at : Z;
  t_expires_at : Z
}.

(** Rows are keyed by the primary key; the permission tables hold their
    two-column primary keys. *)
Record Tables : Type := mkTables {
  trusted_devices : gmap TrustUuid DeviceRow;
  device_permissions : gset (TrustUuid * string);
  pairing_attempts : gmap TrustUuid AttemptRow;
  pairing_attempt_permissions : gset (TrustUuid * string)
}.

Definition empty_tables : Tables := mkTables ∅ ∅ ∅ ∅.

Definition set_devices ds t :=
  mkTables ds (device_permissions t) (pairing_attempts t) (pairing_attempt_permissions t).
Definition set_device_permissions ps t :=
  mkTables (trusted_devices t) ps (pairing_attempts t) (pairing_attempt_permissions t).
Definition set_attempts xs t :=
  mkTables (trusted_devices t) (device_permissions t) xs (pairing_attempt_permissions t).
Definition set_attempt_permissions ps t :=
  mkTables (trusted_devices t) (device_permissions t) (pairing_attempts t) ps.

(** SQLite's [length()] of a text value, in characters. *)
Class SqlText : Type := { sql_length : string -> Z }.

Section constraints.
Context {txt : SqlText}.

Definition opt_ge (o : option Z) (z : Z) : bool :=
  match o with None => true | Some t => z <=? t end.

(** CHECK constraints of [trusted_devices]. *)
Definition device_row_ok (uuid : TrustUuid) (r : DeviceRow) : bool :=
  (length uuid =? 16)%nat && (length (r_public_key r) =? 32)%nat &&
  (bool_decide (r_status r = "ACTIVE") || bool_decide (r_status r = "REVOKED")) &&
  (1 <=? r_revision r) &&
  (sql_length (r_local_alias r) <=? 256) && (sql_length (r_peer_name r) <=? 256) &&
  (sql_length (r_peer_platform r) <=? 64) &&
  (1 <=? sql_length (r_pairing_method r)) && (sql_length (r_pairing_method r) <=? 64) &&
  (0 <=? r_paired_at r) &&
  (bool_decide (r_status r = "ACTIVE" /\ r_revoked_at r = None) ||
   (bool_decide (r_status r = "REVOKED") && negb (bool_decide (r_revoked_at r = None)) &&
    opt_ge (r_revoked_at r) (r_paired_at r))) &&
  opt_ge (r_last_authenticated_at r) (r_paired_at r).

(** CHECK constraints of [pairing_attempts]. *)
Definition attempt_row_ok (attempt_id : TrustUuid) (a : AttemptRow) : bool :=
  (length attempt_id =? 16)%nat && (length (t_peer_uuid a) =? 16)%nat &&
  (length (t_peer_public_key a) =? 32)%nat &&
  bool_decide (t_status a ∈ ["PENDING"; "CONFIRMED"; "CANCELLED"; "EXPIRED"]) &&
  (1 <=? t_revision a) &&
  bool_decide (t_local_confirmed a ∈ [0; 1]) && bool_decide (t_peer_confirmed a ∈ [0; 1]) &&
  (0 <=? t_created_at a) && (t_created_at a <=? t_updated_at a) &&
  (t_updated_at a <=? t_expires_at a) &&
  (negb (bool_decide (t_status a = "CONFIRMED")) ||
   ((t_local_confirmed a =? 1) && (t_peer_confirmed a =? 1))).

(** CHECK constraints of the two permission tables. *)
Definition permission_ok (id : TrustUuid) (permission : string) : bool :=
  (length id =? 16)%nat && (1 <=? sql_length permission) && (sql_length permission <=? 64).

(** ** Statements

    A statement that writes returns the new tables and the number of changed
    rows, or [None] when a constraint rejects it. *)

Definition sql_write : Type := option (Tables * Z).

(** [INSERT INTO trusted_devices VALUES(...)] *)
Definition insert_device (uuid : TrustUuid) (r : DeviceRow) (t : Tables) : sql_write :=
  if device_row_ok uuid r && bool_decide (trusted_devices t !! uuid = None) &&
     bool_decide (map_Forall (fun _ r' => r_public_key r' <> r_public_key r) (trusted_devices t))
  then Some (set_devices (<[uuid := r]> (trusted_devices t)) t, 1)
  else None.

(** [UPDATE trusted_devices SET ... WHERE uuid=? AND <matches>] with the row [r]
    the SET clause writes; [matches] is the rest of the WHERE clause. *)
Definition update_device_row (uuid : TrustUuid) (matches : DeviceRow -> bool)
    (r : DeviceRow -> DeviceRow) (t : Tables) : sql_write :=
  match trusted_devices t !! uuid with
  | Some old =>
      if matches old then
        if device_row_ok uuid (r old)
        then Some (set_devices (<[uuid := r old]> (trusted_devices t)) t, 1)
        else None
      else Some (t, 0)
  | None => Some (t, 0)
  end.

(** [SELECT ... FROM trusted_devices WHERE public_key=?] *)
Definition select_by_public_key (key : TrustPublicKey) (t : Tables) : option (TrustUuid * DeviceRow) :=
  head (filter (fun ur => r_public_key ur.2 = key) (map_to_list (trusted_devices t))).

(** [SELECT revision FROM trusted_devices WHERE uuid=? AND public_key=? AND status='ACTIVE'] *)
Definition select_active_revision (uuid : TrustUuid) (key : TrustPublicKey) (t : Tables) : option Z :=
  match trusted_devices t !! uuid with
  | Some r => if bool_decide (r_public_key r = key) && bool_decide (r_status r = "ACTIVE")
              then Some (r_revision r) else None
  | None => None
  end.

(** The rows of a permission table that belong to [id], and the other rows. *)
Definition permissions_of (id : TrustUuid) (ps : gset (TrustUuid * string)) : gset (TrustUuid * string) :=
  filter (fun up => up.1 = id) ps.
Definition permissions_not_of (id : TrustUuid) (ps : gset (TrustUuid * string)) : gset (TrustUuid * string) :=
  filter (fun up => up.1 <> id) ps.

(** [DELETE FROM device_permissions WHERE device_uuid=?] *)
Definition clear_device_permissions (uuid : TrustUuid) (t : Tables) : Tables * Z :=
  (set_device_permissions (permissions_not_of uuid (device_permissions t)) t,
   Z.of_nat (size (permissions_of uuid (device_permissions t)))).

(** [INSERT INTO device_permissions VALUES(?,?)] *)
Definition insert_device_permission (uuid : TrustUuid) (permission : string) (t : Tables) : sql_write :=
  if permission_ok uuid permission && bool_decide ((uuid, permission) ∉ device_permissions t) &&
     bool_decide (is_Some (trusted_devices t !! uuid))
  then Some (set_device_permissions ({[(uuid, permission)]} ∪ device_permissions t) t, 1)
  else None.

(** [INSERT INTO pairing_attempt_permissions VALUES(?,?)] *)
Definition insert_attempt_permission (id : TrustUuid) (permission : string) (t : Tables) : sql_write :=
  if permission_ok id permission && bool_decide ((id, permission) ∉ pairing_attempt_permissions t) &&
     bool_decide (is_Some (pairing_attempts t !! id))
  then Some (set_attempt_permissions ({[(id, permission)]} ∪ pairing_attempt_permissions t) t, 1)
  else None.

(** [ORDER BY permission]: byte order. *)
Definition sorted_permissions (id : TrustUuid) (ps : gset (TrustUuid * string)) : list string :=
  merge_sort String.le (snd <$> elements (permissions_of id ps)).

(** [SELECT p.permission FROM device_permissions p JOIN trusted_devices d ON
     d.uuid=p.device_uuid WHERE d.uuid=? AND d.status='ACTIVE' ORDER BY p.permission] *)
Definition select_device_permissions (uuid : TrustUuid) (t : Tables) : list string :=
  match trusted_devices t !! uuid with
  | Some r => if bool_decide (r_status r = "ACTIVE")
              then sorted_permissions uuid (device_permissions t) else []
  | None => []
  end.

(** [SELECT permission FROM pairing_attempt_permissions WHERE attempt_id=? ORDER BY permission] *)
Definition select_attempt_permissions (id : TrustUuid) (t : Tables) : list string :=
  sorted_permissions id (pairing_attempt_permissions t).

(** [INSERT INTO pairing_attempts VALUES(...)] *)
Definition insert_attempt (id : TrustUuid) (a : AttemptRow) (t : Tables) : sql_write :=
  if attempt_row_ok id a && bool_decide (pairing_attempts t !! id = None)
  then Some (set_attempts (<[id := a]> (pairing_attempts t)) t, 1)
  else None.

(** [UPDATE pairing_attempts SET status=?4,revision=?5,local_confirmed=?6,
     peer_confirmed=?7,updated_at=?9,expires_at=?10 WHERE attempt_id=?1 AND
     peer_uuid=?2 AND peer_public_key=?3 AND created_at=?8 AND revision=?11];
    [a] holds the bound values. *)
Definition update_attempt_row (id : TrustUuid) (a : AttemptRow) (expected_revision : Z) (t : Tables)
  : sql_write :=
  match pairing_attempts t !! id with
  | Some old =>
      if bool_decide (t_peer_uuid old = t_peer_uuid a) &&
         bool_decide (t_peer_public_key old = t_peer_public_key a) &&
         (t_created_at old =? t_created_at a) && (t_revision old =? expected_revision)
      then
        let new := mkAttemptRow (t_peer_uuid old) (t_peer_public_key old) (t_status a) (t_revision a)
                     (t_local_confirmed a) (t_peer_confirmed a) (t_created_at old)
                     (t_updated_at a) (t_expires_at a) in
        if attempt_row_ok id new
        then Some (set_attempts (<[id := new]> (pairing_attempts t)) t, 1)
        else None
      else Some (t, 0)
  | None => Some (t, 0)
  end.

(** [DELETE FROM pairing_attempt_permissions WHERE attempt_id=?] *)
Definition clear_attempt_permissions (id : TrustUuid) (t : Tables) : Tables * Z :=
  (set_attempt_permissions (permissions_not_of id (pairing_attempt_permissions t)) t,
   Z.of_nat (size (permissions_of id (pairing_attempt_permissions t)))).

(** [DELETE FROM pairing_attempts WHERE attempt_id=? AND <matches>], cascading to
    the attempt's proposed permissions. *)
Definition delete_attempt_row (id : TrustUuid) (matches : AttemptRow -> bool) (t : Tables) : Tables * Z :=
  match pairing_attempts t !! id with
  | Some a => if matches a
              then (fst (clear_attempt_permissions id (set_attempts (delete id (pairing_attempts t)) t)), 1)
              else (t, 0)
  | None => (t, 0)
  end.

(** [revision=? AND status='CONFIRMED' AND local_confirmed=1 AND peer_confirmed=1
     AND expires_at>=?] *)
Definition confirmed_attempt (expected_revision now : Z) (a : AttemptRow) : bool :=
  (t_revision a =? expected_revision) && bool_decide (t_status a = "CONFIRMED") &&
  (t_local_confirmed a =? 1) && (t_peer_confirmed a =? 1) && (now <=? t_expires_at a).

(** [SELECT COALESCE((SELECT status FROM trusted_devices WHERE uuid=?1),
     (SELECT 'PENDING' FROM pairing_attempts WHERE peer_uuid=?1 AND status IN
     ('PENDING','CONFIRMED') LIMIT 1),'UNKNOWN')] *)
Definition select_state (uuid : TrustUuid) (t : Tables) : string :=
  match trusted_devices t !! uuid with
  | Some r => r_status r
  | None =>
      if bool_decide (map_Exists (fun _ a => t_peer_uuid a = uuid /\
                                   (t_status a = "PENDING" \/ t_status a = "CONFIRMED"))
                                 (pairing_attempts t))
      then "PENDING" else "UNKNOWN"
  end.

End constraints.
