(* ===== verification/TrustStore.v ===== *)
(** * The trust store ([core/trust/trust_store.cpp])

    Every operation of [TrustStore] as a program over the connection's state,
    with the failures its environment can inject: each call into SQLite
    (prepare, bind, step, BEGIN, COMMIT) may fail with any result code, the
    database files may be missing or have wrong ownership or mode, and the
    system clock gives arbitrary readings.  [Transaction] rolls back on every
    exception, as its destructor does. *)

From S2P Require Import Prelude Uuid TrustTables.

Create HintDb trust.

(** ** Environment *)

(** What [fstatat] reports. *)
Record FileStat : Type := mkFileStat { st_mode : Z; st_uid : Z; st_nlink : Z; st_size : Z }.
Inductive StatResult : Type := StatOk (st : FileStat) | StatNoent | StatFailed.

(** [S_ISREG], owner, link count and mode 0600. *)
Definition private_stat (euid : Z) (info : FileStat) : bool :=
  (Z.land (st_mode info) 61440 =? 32768) && (st_uid info =? euid) &&
  (st_nlink info =? 1) && (Z.land (st_mode info) 4095 =? 384).

Record Env : Type := mkEnv {
  env_stat : string -> StatResult;   (** the storage directory *)
  env_name : string;                 (** the database file name *)
  env_euid : Z;
  env_fault : nat -> option Z;       (** the result code, when the n-th SQLite call fails *)
  env_now : Z;                       (** [system_clock] at the first reading, in seconds *)
  env_completion_time : Z            (** [system_clock] at the second reading *)
}.

(** ** State of the store *)

Record Impl : Type := mkImpl {
  im_tables : Tables;
  im_local_generation : Z;
  im_data_version : Z;     (** PRAGMA data_version of this connection *)
  im_changes : Z;          (** sqlite3_changes *)
  im_calls : nat           (** SQLite calls made so far *)
}.

Definition set_tables t im :=
  mkImpl t (im_local_generation im) (im_data_version im) (im_changes im) (im_calls im).
Definition bump_generation im :=
  mkImpl (im_tables im) (u64_succ (im_local_generation im)) (im_data_version im) (im_changes im) (im_calls im).
Definition set_changes n im :=
  mkImpl (im_tables im) (im_local_generation im) (im_data_version im) n (im_calls im).
Definition next_call im :=
  mkImpl (im_tables im) (im_local_generation im) (im_data_version im) (im_changes im) (S (im_calls im)).

(** An operation on the store. *)
Abbreviation op := (stx Impl TrustStoreError).

(** SQLITE_CONSTRAINT (the primary code of the extended result code). *)
Definition SQLITE_CONSTRAINT : Z := 19.

Definition require_msg (message : string) (b : bool) : op unit := require (Required message) b.

Section operations.
Context {txt : SqlText} (env : Env).

(** ** Files *)

Definition inspect_file (name : string) : op bool :=
  match env_stat env name with
  | StatNoent => ret false
  | StatFailed => throw (Required "cannot inspect database files")
  | StatOk info =>
      require_msg "database files must be single-link, user-owned regular 0600 files"
        (private_stat (env_euid env) info);;;
      ret true
  end.

Definition check_files : op unit :=
  let! present := inspect_file (env_name env) in
  require_msg "established database is missing" present;;;
  inspect_file (env_name env +:+ "-wal");;;
  inspect_file (env_name env +:+ "-shm");;;
  inspect_file (env_name env +:+ "-journal");;;
  ret tt.

(** ** Calls into SQLite *)

(** A SQLite call whose result is passed to [check_sql]. *)
Definition sql_call : op unit :=
  fun im => match env_fault env (im_calls im) with
            | Some code => (Throw (SqliteError code), next_call im)
            | None => (Ok tt, next_call im)
            end.

Fixpoint has_nul (s : string) : bool :=
  match s with
  | EmptyString => false
  | String c rest => bool_decide (c = Ascii.zero) || has_nul rest
  end.

(** [Statement::bind] of text; the other overloads only call SQLite. *)
Definition bind_text (value : string) : op unit :=
  require_msg "invalid text field"
    ((String.length value <=? 4096)%nat && negb (has_nul value));;;
  sql_call.
Definition bind_value : op unit := sql_call.

(** [run()] of a writing statement: one [sqlite3_step]. *)
Definition run_write (stmt : Tables -> sql_write) : op unit :=
  sql_call;;;
  let! t := gets im_tables in
  match stmt t with
  | Some (t', n) => modify (fun im => set_changes n (set_tables t' im))
  | None => throw (SqliteError SQLITE_CONSTRAINT)
  end.

(** Stepping a reading statement to the row (or rows) of [query]. *)
Definition run_read {A} (query : Tables -> A) : op A :=
  sql_call;;; gets (fun im => query (im_tables im)).

(** [Transaction]: BEGIN, the body, COMMIT; the destructor rolls back unless the
    commit succeeded. *)
Definition transaction {A} (body : op A) : op A :=
  fun im =>
    match sql_call im with
    | (Throw e, im1) => (Throw e, im1)
    | (Ok _, im1) =>
        match bind body (fun a => sql_call;;; ret a) im1 with
        | (Ok a, im2) => (Ok a, im2)
        | (Throw e, im2) => (Throw e, set_tables (im_tables im) im2)
        end
    end.

Definition changed_one : op unit :=
  let! n := gets im_changes in
  require_msg "record missing, immutable identity changed, or stale revision" (n =? 1).

Definition next_revision (revision expected : Z) : op unit :=
  require_msg "replacement revision must advance by one"
    ((expected >? 0) && (expected <? int64_max) && (revision =? expected + 1)).

(** ** Permissions *)

Fixpoint write_permissions_loop (id : TrustUuid) (permissions : list string) (attempt : bool) : op unit :=
  match permissions with
  | [] => ret tt
  | permission :: rest =>
      sql_call;;; bind_value;;; bind_text permission;;;
      run_write (if attempt then insert_attempt_permission id permission
                 else insert_device_permission id permission);;;
      write_permissions_loop id rest attempt
  end.

Definition write_permissions (id : TrustUuid) (permissions : list string) (attempt : bool) : op unit :=
  require_msg "too many permissions" (length permissions <=? 128)%nat;;;
  write_permissions_loop id permissions attempt.

(** [while (query.row()) result.push_back(query.text(0))]: one step per row and
    one that reports the end. *)
Fixpoint fetch_rows (rows : list string) : op (list string) :=
  match rows with
  | [] => sql_call;;; ret []
  | row :: rest => sql_call;;; let! result := fetch_rows rest in ret (row :: result)
  end.

Definition read_permissions (id : TrustUuid) (attempt : bool) : op (list string) :=
  sql_call;;; bind_value;;;
  let! rows := gets (fun im => (if attempt then select_attempt_permissions id
                                else select_device_permissions id) (im_tables im)) in
  fetch_rows rows.

(** ** Rows *)

Definition device_row (d : TrustedDevice) : DeviceRow :=
  mkDeviceRow (d_public_key d) (trust_status_text (d_status d)) (d_revision d) (d_local_alias d)
    (d_peer_name d) (d_peer_platform d) (d_pairing_method d) (d_paired_at d) (d_revoked_at d)
    (d_last_authenticated_at d).

Definition attempt_row (a : PairingAttempt) : AttemptRow :=
  mkAttemptRow (a_peer_uuid a) (a_peer_public_key a) (attempt_status_text (a_status a)) (a_revision a)
    (if a_local_confirmed a then 1 else 0) (if a_peer_confirmed a then 1 else 0)
    (a_created_at a) (a_updated_at a) (a_expires_at a).

Definition bind_device (d : TrustedDevice) : op unit :=
  require_msg "revoked devices cannot be granted permissions"
    (negb (bool_decide (d_status d = Revoked)) || bool_decide (d_permissions d = []));;;
  bind_value;;; bind_value;;; bind_text (trust_status_text (d_status d));;; bind_value;;;
  bind_text (d_local_alias d);;; bind_text (d_peer_name d);;; bind_text (d_peer_platform d);;;
  bind_text (d_pairing_method d);;; bind_value;;; bind_value;;; bind_value.

Definition bind_attempt (a : PairingAttempt) : op unit :=
  bind_value;;; bind_value;;; bind_value;;; bind_text (attempt_status_text (a_status a));;;
  bind_value;;; bind_value;;; bind_value;;; bind_value;;; bind_value;;; bind_value.

(** [Statement::blob<N>]. *)
Definition blob (n : nat) (value : list byte) : op unit :=
  require_msg "invalid stored UUID/public-key length or type" (length value =? n)%nat.

(** [read_device]: the row of a device query, then its permissions. *)
Definition read_device (query : Tables -> option (TrustUuid * DeviceRow)) : op (option TrustedDevice) :=
  let! row := run_read query in
  match row with
  | None => ret None
  | Some (uuid, r) =>
      blob 16 uuid;;; blob 32 (r_public_key r);;;
      require_msg "invalid stored trust status"
        (bool_decide (r_status r = "ACTIVE") || bool_decide (r_status r = "REVOKED"));;;
      let! permissions := read_permissions uuid false in
      ret (Some (mkTrustedDevice uuid (r_public_key r)
                   (if bool_decide (r_status r = "ACTIVE") then Active else Revoked)
                   (r_revision r) (r_local_alias r) (r_peer_name r) (r_peer_platform r)
                   (r_pairing_method r) (r_paired_at r) (r_revoked_at r)
                   (r_last_authenticated_at r) permissions))
  end.

(** ** Device operations *)

Definition import_device_for_admin (device : TrustedDevice) : op unit :=
  require_msg "initial trust revision must be one" (d_revision device =? 1);;;
  check_files;;;
  transaction (
    sql_call;;; bind_device device;;;
    run_write (insert_device (d_uuid device) (device_row device));;;
    write_permissions (d_uuid device) (d_permissions device) false);;;
  modify bump_generation.

Definition find_device (uuid : TrustUuid) : op (option TrustedDevice) :=
  check_files;;;
  transaction (sql_call;;; bind_value;;;
               read_device (fun t => (fun r => (uuid, r)) <$> trusted_devices t !! uuid)).

Definition find_by_public_key (key : TrustPublicKey) : op (option TrustedDevice) :=
  check_files;;;
  transaction (sql_call;;; bind_value;;; read_device (select_by_public_key key)).

Definition find_active_authorization (uuid : TrustUuid) (public_key : TrustPublicKey)
  : op (option ActivePeerAuthorization) :=
  check_files;;;
  transaction (
    sql_call;;; bind_value;;; bind_value;;;
    let! row := run_read (select_active_revision uuid public_key) in
    match row with
    | None => ret None
    | Some revision =>
        let! permissions := read_permissions uuid false in
        ret (Some (mkActivePeerAuthorization revision permissions))
    end).

Definition change_token : op (Z * Z) :=
  check_files;;;
  sql_call;;; sql_call;;;
  gets (fun im => (im_local_generation im, to_int (im_data_version im))).

Definition update_device (device : TrustedDevice) (expected_revision : Z) : op unit :=
  next_revision (d_revision device) expected_revision;;;
  check_files;;;
  transaction (
    sql_call;;; bind_device device;;; bind_value;;;
    run_write (update_device_row (d_uuid device)
      (fun old => bool_decide (r_public_key old = d_public_key device) &&
                  bool_decide (r_status old = trust_status_text (d_status device)) &&
                  (r_revision old =? expected_revision))
      (fun _ => device_row device));;;
    changed_one;;;
    sql_call;;; bind_value;;;
    run_write (fun t => Some (clear_device_permissions (d_uuid device) t));;;
    write_permissions (d_uuid device) (d_permissions device) false);;;
  modify bump_generation.

(** [SET status='REVOKED',revision=revision+1,revoked_at=?]. *)
Definition revoked_row (revoked_at : Z) (old : DeviceRow) : DeviceRow :=
  mkDeviceRow (r_public_key old) "REVOKED" (r_revision old + 1) (r_local_alias old) (r_peer_name old)
    (r_peer_platform old) (r_pairing_method old) (r_paired_at old) (Some revoked_at)
    (r_last_authenticated_at old).

Definition revoke_device (uuid : TrustUuid) (expected_revision revoked_at : Z) : op unit :=
  require_msg "invalid trust revision" ((expected_revision >? 0) && (expected_revision <? int64_max));;;
  check_files;;;
  transaction (
    sql_call;;; bind_value;;; bind_value;;; bind_value;;;
    run_write (update_device_row uuid (fun old => r_revision old =? expected_revision)
                 (revoked_row revoked_at));;;
    changed_one;;;
    sql_call;;; bind_value;;;
    run_write (fun t => Some (clear_device_permissions uuid t)));;;
  modify bump_generation.

Definition state (uuid : TrustUuid) : op TrustState :=
  check_files;;;
  sql_call;;; bind_value;;;
  let! value := run_read (select_state uuid) in
  if bool_decide (value = "ACTIVE") then ret StateActive
  else if bool_decide (value = "REVOKED") then ret StateRevoked
  else if bool_decide (value = "PENDING") then ret StatePairingPending
  else require_msg "invalid stored trust state" (bool_decide (value = "UNKNOWN"));;; ret StateUnknown.

Definition permissions (uuid : TrustUuid) : op (list string) :=
  check_files;;; read_permissions uuid false.

(** ** Pairing attempts *)

Definition create_attempt (attempt : PairingAttempt) : op unit :=
  require_msg "initial attempt revision must be one" (a_revision attempt =? 1);;;
  check_files;;;
  transaction (
    sql_call;;; bind_attempt attempt;;;
    run_write (insert_attempt (a_attempt_id attempt) (attempt_row attempt));;;
    write_permissions (a_attempt_id attempt) (a_proposed_permissions attempt) true).

Definition attempt_status_of_text (status : string) : option PairingAttemptStatus :=
  if bool_decide (status = "PENDING") then Some Pending
  else if bool_decide (status = "CONFIRMED") then Some Confirmed
  else if bool_decide (status = "CANCELLED") then Some Cancelled
  else if bool_decide (status = "EXPIRED") then Some Expired
  else None.

Definition find_attempt (id : TrustUuid) : op (option PairingAttempt) :=
  check_files;;;
  transaction (
    sql_call;;; bind_value;;;
    let! row := run_read (fun t => pairing_attempts t !! id) in
    match row with
    | None => ret None
    | Some a =>
        blob 16 id;;; blob 16 (t_peer_uuid a);;; blob 32 (t_peer_public_key a);;;
        match attempt_status_of_text (t_status a) with
        | None => throw (Required "invalid stored attempt status")
        | Some status =>
            let! permissions := read_permissions id true in
            ret (Some (mkPairingAttempt id (t_peer_uuid a) (t_peer_public_key a) status (t_revision a)
                         (negb (t_local_confirmed a =? 0)) (negb (t_peer_confirmed a =? 0))
                         (t_created_at a) (t_updated_at a) (t_expires_at a) permissions))
        end
    end).

Definition update_attempt (attempt : PairingAttempt) (expected_revision : Z) : op unit :=
  next_revision (a_revision attempt) expected_revision;;;
  check_files;;;
  transaction (
    sql_call;;; bind_attempt attempt;;; bind_value;;;
    run_write (update_attempt_row (a_attempt_id attempt) (attempt_row attempt) expected_revision);;;
    changed_one;;;
    sql_call;;; bind_value;;;
    run_write (fun t => Some (clear_attempt_permissions (a_attempt_id attempt) t));;;
    write_permissions (a_attempt_id attempt) (a_proposed_permissions attempt) true).

Definition delete_attempt (id : TrustUuid) (expected_revision : Z) : op unit :=
  check_files;;;
  transaction (
    sql_call;;; bind_value;;; bind_value;;;
    run_write (fun t => Some (delete_attempt_row id (fun a => t_revision a =? expected_revision) t));;;
    changed_one).

(** The device record [finalize_pairing] writes. *)
Definition finalized_device (f : PairingFinalization) (trust_revision now : Z) : TrustedDevice :=
  mkTrustedDevice (f_peer_uuid f) (f_peer_public_key f) Active trust_revision (f_local_alias f)
    (f_peer_name f) (f_peer_platform f) (f_pairing_method f) now None None [].

(** [attempt.blob<16>(0) == peer_uuid && attempt.blob<32>(1) == peer_public_key],
    required. *)
Definition finalize_identity (a : AttemptRow) (f : PairingFinalization) : op unit :=
  blob 16 (t_peer_uuid a);;;
  (if bool_decide (t_peer_uuid a = f_peer_uuid f) then blob 32 (t_peer_public_key a) else ret tt);;;
  require_msg "pairing finalization identity does not match attempt"
    (bool_decide (t_peer_uuid a = f_peer_uuid f) &&
     bool_decide (t_peer_public_key a = f_peer_public_key f)).

(** The attempt query of [finalize_pairing] and the checks on its row. *)
Definition finalize_attempt (attempt_id : TrustUuid) (expected_revision : Z) (f : PairingFinalization)
  : op unit :=
  sql_call;;; bind_value;;; bind_value;;; bind_value;;;
  let! attempt := run_read (fun t =>
    match pairing_attempts t !! attempt_id with
    | Some a => if confirmed_attempt expected_revision (env_now env) a then Some a else None
    | None => None
    end) in
  match attempt with
  | Some a => finalize_identity a f
  | None => throw (Required "pairing attempt missing, stale, unconfirmed, consumed, or expired")
  end.

(** The lookup of an existing record: the revision to write and whether it is a
    reactivation. *)
Definition finalize_existing (f : PairingFinalization) : op (Z * bool) :=
  sql_call;;; bind_value;;;
  let! existing := run_read (fun t => trusted_devices t !! f_peer_uuid f) in
  match existing with
  | None => ret (1, false)
  | Some r =>
      blob 32 (r_public_key r);;;
      require_msg "revoked trust identity does not match pairing attempt"
        (bool_decide (r_public_key r = f_peer_public_key f));;;
      require_msg "active trust record already exists" (bool_decide (r_status r = "REVOKED"));;;
      require_msg "invalid trust revision for reactivation"
        ((r_revision r >? 0) && (r_revision r <? int64_max));;;
      ret (r_revision r + 1, true)
  end.

Definition finalize_write (device : TrustedDevice) (trust_revision : Z) (reactivating : bool) : op unit :=
  if reactivating then
    sql_call;;; bind_device device;;; bind_value;;;
    run_write (update_device_row (d_uuid device)
      (fun old => bool_decide (r_public_key old = d_public_key device) &&
                  bool_decide (r_status old = "REVOKED") && (r_revision old =? trust_revision - 1))
      (fun _ => device_row device));;;
    changed_one
  else
    sql_call;;; bind_device device;;;
    run_write (insert_device (d_uuid device) (device_row device)).

Definition finalize_pairing (attempt_id : TrustUuid) (expected_revision : Z)
    (finalization : PairingFinalization) : op unit :=
  require_msg "invalid attempt revision" (expected_revision >? 0);;;
  check_files;;;
  transaction (
    require_msg "system clock precedes Unix epoch" (0 <=? env_now env);;;
    finalize_attempt attempt_id expected_revision finalization;;;
    let! permissions := read_permissions attempt_id true in
    let! '(trust_revision, reactivating) := finalize_existing finalization in
    let device := finalized_device finalization trust_revision (env_now env) in
    finalize_write device trust_revision reactivating;;;
    sql_call;;; bind_value;;;
    run_write (fun t => Some (clear_device_permissions (d_uuid device) t));;;
    write_permissions (d_uuid device) permissions false;;;
    require_msg "system clock precedes Unix epoch" (0 <=? env_completion_time env);;;
    sql_call;;; bind_value;;; bind_value;;; bind_value;;;
    run_write (fun t => Some (delete_attempt_row attempt_id
                 (confirmed_attempt expected_revision (env_completion_time env)) t));;;
    changed_one);;;
  modify bump_generation.

End operations.

(** ** Effects of the building blocks *)

(** The state a caller can observe: everything but the call counter and
    [sqlite3_changes]. *)
Record frame (im im' : Impl) : Prop := {
  frame_tables : im_tables im' = im_tables im;
  frame_generation : im_local_generation im' = im_local_generation im;
  frame_data_version : im_data_version im' = im_data_version im
}.
Record same_meta (im im' : Impl) : Prop := {
  meta_generation : im_local_generation im' = im_local_generation im;
  meta_data_version : im_data_version im' = im_data_version im
}.

#[export] Instance frame_preorder : PreOrder frame.
Proof. split; [by split|]. intros ??? [] []; split; congruence. Qed.
#[export] Instance same_meta_preorder : PreOrder same_meta.
Proof. split; [by split|]. intros ??? [] []; split; congruence. Qed.
Lemma frame_meta im im' : frame im im' -> same_meta im im'.
Proof. intros []. by split. Qed.
#[export] Hint Resolve frame_meta : trust.

(** Programs that change nothing observable; programs that may write tables
    only; programs that change nothing observable when they throw. *)
Class ReadOnly {A} (m : op A) : Prop := read_only im : frame im (snd (m im)).
Class TablesOnly {A} (m : op A) : Prop := tables_only im : same_meta im (snd (m im)).
Class Atomic {A} (m : op A) : Prop :=
  atomic im e im' : m im = (Throw e, im') -> frame im im'.

#[export] Instance read_only_tables_only {A} (m : op A) : ReadOnly m -> TablesOnly m.
Proof. intros H im. apply frame_meta, H. Qed.
#[export] Instance read_only_atomic {A} (m : op A) : ReadOnly m -> Atomic m.
Proof. intros H im e im' Hm. specialize (H im). by rewrite Hm in H. Qed.

#[export] Instance ret_read_only {A} (a : A) : ReadOnly (ret a).
Proof. done. Qed.
#[export] Instance throw_read_only {A} e : ReadOnly (throw (A:=A) e).
Proof. done. Qed.
#[export] Instance gets_read_only {A} (f : Impl -> A) : ReadOnly (gets f).
Proof. done. Qed.
#[export] Instance require_read_only msg b : ReadOnly (require_msg msg b).
Proof. intros im. unfold require_msg, require. by destruct b. Qed.
#[export] Instance bind_read_only {A B} (m : op A) (k : A -> op B) :
  ReadOnly m -> (forall a, ReadOnly (k a)) -> ReadOnly (bind m k).
Proof.
  intros Hm Hk im. specialize (Hm im). unfold bind. destruct (m im) as [[a|e] im1]; [|done].
  etrans; [exact Hm|apply Hk].
Qed.
#[export] Instance bind_tables_only {A B} (m : op A) (k : A -> op B) :
  TablesOnly m -> (forall a, TablesOnly (k a)) -> TablesOnly (bind m k).
Proof.
  intros Hm Hk im. specialize (Hm im). unfold bind. destruct (m im) as [[a|e] im1]; [|done].
  etrans; [exact Hm|apply Hk].
Qed.
#[export] Instance bind_atomic {A B} (m : op A) (k : A -> op B) :
  ReadOnly m -> (forall a, Atomic (k a)) -> Atomic (bind m k).
Proof.
  intros Hm Hk im e im'. specialize (Hm im). unfold bind. destruct (m im) as [[a|e1] im1].
  - intros H%Hk. by etrans.
  - by intros [= <- <-].
Qed.
Lemma bind_atomic_modify {A} (m : op A) f : Atomic m -> Atomic (m;;; modify f).
Proof.
  intros Hm im e im'. unfold bind, modify. destruct (m im) as [[a|e1] im1] eqn:E; [done|].
  intros [= <- <-]. by eapply Hm.
Qed.
#[export] Hint Extern 2 (Atomic (_;;; modify _)) => apply bind_atomic_modify : typeclass_instances.

Section effects.
Context {txt : SqlText} (env : Env).

#[export] Instance sql_call_read_only : ReadOnly (sql_call env).
Proof. intros im. unfold sql_call. by destruct (env_fault _ _). Qed.
#[export] Instance bind_value_read_only : ReadOnly (bind_value env).
Proof. apply sql_call_read_only. Qed.
#[export] Instance bind_text_read_only v : ReadOnly (bind_text env v).
Proof. unfold bind_text. apply _. Qed.
#[export] Instance run_read_read_only {A} (q : Tables -> A) : ReadOnly (run_read env q).
Proof. unfold run_read. apply _. Qed.
#[export] Instance inspect_file_read_only name : ReadOnly (inspect_file env name).
Proof. unfold inspect_file. destruct (env_stat _ _); apply _. Qed.
#[export] Instance check_files_read_only : ReadOnly (check_files env).
Proof. unfold check_files. apply _. Qed.
#[export] Instance changed_one_read_only : ReadOnly changed_one.
Proof. unfold changed_one. apply _. Qed.
#[export] Instance next_revision_read_only r e : ReadOnly (next_revision r e).
Proof. unfold next_revision. apply _. Qed.
#[export] Instance blob_read_only n v : ReadOnly (blob n v).
Proof. unfold blob. apply _. Qed.
#[export] Instance bind_device_read_only d : ReadOnly (bind_device env d).
Proof. unfold bind_device. apply _. Qed.
#[export] Instance bind_attempt_read_only a : ReadOnly (bind_attempt env a).
Proof. unfold bind_attempt. apply _. Qed.
#[export] Instance fetch_rows_read_only rows : ReadOnly (fetch_rows env rows).
Proof. induction rows as [|row rows IH]; cbn [fetch_rows]; apply _. Qed.
#[export] Instance read_permissions_read_only id b : ReadOnly (read_permissions env id b).
Proof. unfold read_permissions. apply _. Qed.
#[export] Instance read_device_read_only q : ReadOnly (read_device env q).
Proof. unfold read_device. apply bind_read_only; [apply _|]. intros [[u r]|]; apply _. Qed.
#[export] Instance finalize_identity_read_only a f : ReadOnly (finalize_identity a f).
Proof. unfold finalize_identity. destruct (bool_decide _); apply _. Qed.
#[export] Instance finalize_attempt_read_only id r f : ReadOnly (finalize_attempt env id r f).
Proof.
  unfold finalize_attempt. do 4 (apply bind_read_only; [apply _|intros _]).
  apply bind_read_only; [apply _|]. intros [a|]; apply _.
Qed.
#[export] Instance finalize_existing_read_only f : ReadOnly (finalize_existing env f).
Proof.
  unfold finalize_existing. do 2 (apply bind_read_only; [apply _|intros _]).
  apply bind_read_only; [apply _|]. intros [r|]; apply _.
Qed.

#[export] Instance run_write_tables_only stmt : TablesOnly (run_write env stmt).
Proof.
  unfold run_write. apply bind_tables_only; [apply _|]. intros _. apply bind_tables_only; [apply _|].
  intros t. destruct (stmt t) as [[t' n]|]; [|apply _]. intros im. by split.
Qed.
#[export] Instance write_permissions_loop_tables_only id ps b : TablesOnly (write_permissions_loop env id ps b).
Proof. induction ps as [|p ps IH]; cbn [write_permissions_loop]; apply _. Qed.
#[export] Instance write_permissions_tables_only id ps b : TablesOnly (write_permissions env id ps b).
Proof. unfold write_permissions. apply _. Qed.
#[export] Instance finalize_write_tables_only d r b : TablesOnly (finalize_write env d r b).
Proof. unfold finalize_write. destruct b; apply _. Qed.

(** A transaction rolls back: whatever its body did, an exception leaves the
    store as it was. *)
#[export] Instance transaction_atomic {A} (body : op A) : TablesOnly body -> Atomic (transaction env body).
Proof.
  intros Hb im e im'. unfold transaction.
  pose proof (sql_call_read_only im) as H1. destruct (sql_call env im) as [[[]|e1] im1]; cbn in H1.
  2: by intros [= <- <-].
  assert (H2 : TablesOnly (bind body (fun a => sql_call env;;; ret a))) by apply _.
  specialize (H2 im1). destruct (bind body _ im1) as [[a|e2] im2]; [done|].
  intros [= <- <-]. cbn in H2. destruct H1, H2. split; cbn; congruence.
Qed.

(** A transaction whose body only reads changes nothing. *)
#[export] Instance transaction_read_only {A} (body : op A) : ReadOnly body -> ReadOnly (transaction env body).
Proof.
  intros Hb im. unfold transaction.
  pose proof (sql_call_read_only im) as H1. destruct (sql_call env im) as [[[]|e1] im1]; [|done]. cbn in H1.
  assert (H2 : ReadOnly (bind body (fun a => sql_call env;;; ret a))) by apply _.
  specialize (H2 im1). destruct (bind body _ im1) as [[a|e2] im2]; cbn in *; [by etrans|].
  destruct H1, H2. split; cbn; congruence.
Qed.
End effects.

(** ** Successful runs *)

Lemma read_only_ok {A} (m : op A) `{!ReadOnly m} im a im' : m im = (Ok a, im') -> frame im im'.
Proof. intros H. pose proof (read_only im (m:=m)) as Hf. by rewrite H in Hf. Qed.

Lemma require_msg_ok msg b im u im' : require_msg msg b im = (Ok u, im') -> b = true /\ im' = im.
Proof. apply require_ok. Qed.

Section runs.
Context {txt : SqlText} (env : Env).

Lemma run_read_ok {A} (q : Tables -> A) im a im' :
  run_read env q im = (Ok a, im') -> a = q (im_tables im) /\ frame im im'.
Proof.
  unfold run_read. intros (? & im1 & H1 & [= <- <-])%bind_ok.
  apply (read_only_ok _) in H1. by rewrite (frame_tables _ _ H1).
Qed.

Lemma run_write_ok stmt im u im' :
  run_write env stmt im = (Ok u, im') ->
  stmt (im_tables im) = Some (im_tables im', im_changes im') /\ same_meta im im'.
Proof.
  unfold run_write. intros (? & im1 & H1 & (t & im2 & [= <- <-] & H2)%bind_ok)%bind_ok.
  apply (read_only_ok _) in H1. rewrite <-(frame_tables _ _ H1).
  destruct (stmt _) as [[t' n]|]; [|done]. injection H2 as <- <-. split; [done|].
  destruct H1. by split.
Qed.

Lemma changed_one_ok im u im' : changed_one im = (Ok u, im') -> im_changes im = 1 /\ im' = im.
Proof.
  unfold changed_one. intros (n & im1 & [= <- <-] & [Hn ->]%require_msg_ok)%bind_ok.
  split; [lia|done].
Qed.

Lemma transaction_ok {A} (body : op A) im a im' :
  transaction env body im = (Ok a, im') ->
  exists im1 im2, frame im im1 /\ body im1 = (Ok a, im2) /\ frame im2 im'.
Proof.
  unfold transaction. destruct (sql_call env im) as [[[]|e] im1] eqn:H1; [|done].
  apply (read_only_ok _) in H1.
  destruct (bind body _ im1) as [[b|e] im2] eqn:H2; [|done]. intros [= <- <-].
  apply bind_ok in H2 as (a & im3 & Hb & (? & im4 & H4 & [= <- <-])%bind_ok).
  apply (read_only_ok _) in H4. eauto.
Qed.

Lemma fetch_rows_ok rows im ps im' : fetch_rows env rows im = (Ok ps, im') -> ps = rows.
Proof.
  revert im ps im'. induction rows as [|row rows IH]; intros im ps im'; cbn [fetch_rows].
  - intros (? & im1 & _ & H)%bind_ok. by injection H.
  - intros (? & im1 & _ & (rest & im2 & ->%IH & H)%bind_ok)%bind_ok. by injection H.
Qed.

Lemma read_permissions_ok id b im ps im' :
  read_permissions env id b im = (Ok ps, im') ->
  ps = (if b then select_attempt_permissions id (im_tables im)
        else select_device_permissions id (im_tables im)) /\ frame im im'.
Proof.
  intros H. split; [|exact (read_only_ok _ _ _ _ H)]. revert H. unfold read_permissions.
  intros (? & im1 & H1 & (? & im2 & H2 & (rows & im3 & [= <- <-] & ->%fetch_rows_ok)%bind_ok)%bind_ok)%bind_ok.
  apply (read_only_ok _) in H1, H2.
  rewrite (frame_tables _ _ H2), (frame_tables _ _ H1). by destruct b.
Qed.
End runs.

(** Decompose a successful run into its statements; the read-only calls in
    between become equations on the tables. *)
Ltac use_frame H :=
  let Ht := fresh "Ht" in let Hg := fresh "Hg" in let Hd := fresh "Hd" in
  destruct H as [Ht Hg Hd].
Ltac op_inv_step :=
  match goal with
  | H : bind _ _ _ = (Ok _, _) |- _ => run_inv_step
  | H : ret _ _ = (Ok _, _) |- _ => run_inv_step
  | H : throw _ _ = (Ok _, _) |- _ => discriminate H
  | H : modify _ _ = (Ok _, _) |- _ => run_inv_step
  | H : (Ok _, _) = (Ok _, _) |- _ => run_inv_step
  | H : require_msg _ _ _ = (Ok _, _) |- _ =>
      let Hb := fresh "Hreq" in apply require_msg_ok in H as [Hb ->]
  | H : next_revision _ _ _ = (Ok _, _) |- _ => unfold next_revision in H
  | H : changed_one _ = (Ok _, _) |- _ =>
      let Hn := fresh "Hone" in apply changed_one_ok in H as [Hn ->]
  | H : run_write _ _ _ = (Ok _, _) |- _ =>
      let Hw := fresh "Hw" in let Hm := fresh "Hm" in
      let Hg := fresh "Hg" in let Hd := fresh "Hd" in
      apply run_write_ok in H as [Hw [Hg Hd]]
  | H : run_read _ _ _ = (Ok _, _) |- _ =>
      let Ha := fresh "Hread" in let Hf := fresh "Hf" in
      apply run_read_ok in H as [Ha Hf]; use_frame Hf
  | H : read_permissions _ _ _ _ = (Ok _, _) |- _ =>
      let Ha := fresh "Hread" in let Hf := fresh "Hf" in
      apply read_permissions_ok in H as [Ha Hf]; use_frame Hf
  | H : transaction _ _ _ = (Ok _, _) |- _ =>
      let im1 := fresh "im" in let im2 := fresh "im" in
      let Hf1 := fresh "Hf" in let Hb := fresh "Hrun" in let Hf2 := fresh "Hf" in
      apply transaction_ok in H as (im1 & im2 & Hf1 & Hb & Hf2); use_frame Hf1; use_frame Hf2
  | H : ?m ?im = (Ok ?a, ?im') |- _ => apply (read_only_ok m) in H; use_frame H
  end.
Ltac simpl_tables :=
  repeat match goal with H : im_tables ?x = _ |- _ => rewrite H in *; clear H end.
Ltac op_inv := repeat op_inv_step.

Section writes.
Context {txt : SqlText} (env : Env).

(** What [write_permissions] adds to the permission table it names. *)
Definition add_permissions (attempt : bool) (id : TrustUuid) (ps : list string) (t : Tables) : Tables :=
  let new : gset (TrustUuid * string) := list_to_set ((fun p => (id, p)) <$> ps) in
  if attempt then set_attempt_permissions (new ∪ pairing_attempt_permissions t) t
  else set_device_permissions (new ∪ device_permissions t) t.

Definition permission_table (attempt : bool) (t : Tables) : gset (TrustUuid * string) :=
  if attempt then pairing_attempt_permissions t else device_permissions t.

Lemma apply_if {A B} (b : bool) (f g : A -> B) x : (if b then f else g) x = if b then f x else g x.
Proof. by destruct b. Qed.

Lemma insert_permission_some (attempt : bool) id p t t' n :
  (if attempt then insert_attempt_permission id p t else insert_device_permission id p t) = Some (t', n) ->
  t' = add_permissions attempt id [p] t /\ permission_ok id p = true /\
  (id, p) ∉ permission_table attempt t /\
  (if attempt then is_Some (pairing_attempts t !! id) else is_Some (trusted_devices t !! id)).
Proof.
  unfold insert_attempt_permission, insert_device_permission, add_permissions, permission_table.
  destruct attempt; case_match eqn:Hb; intros [= <- <-];
    apply andb_prop in Hb as [[Hp Hn%bool_decide_eq_true]%andb_prop Hs%bool_decide_eq_true];
    split_and!; try done; f_equal; cbn; set_solver.
Qed.

Lemma add_permissions_cons attempt id p ps t :
  add_permissions attempt id ps (add_permissions attempt id [p] t) = add_permissions attempt id (p :: ps) t.
Proof.
  unfold add_permissions. destruct attempt; destruct t; cbn; unfold set_attempt_permissions,
    set_device_permissions; cbn; f_equal; set_solver.
Qed.

Lemma add_permissions_nil attempt id t : add_permissions attempt id [] t = t.
Proof.
  unfold add_permissions. destruct attempt; destruct t; cbn; unfold set_attempt_permissions,
    set_device_permissions; cbn; f_equal; set_solver.
Qed.

Lemma write_permissions_loop_ok attempt id ps im u im' :
  write_permissions_loop env id ps attempt im = (Ok u, im') ->
  im_tables im' = add_permissions attempt id ps (im_tables im) /\ same_meta im im' /\
  NoDup ps /\ Forall (fun p => permission_ok id p = true /\ (id, p) ∉ permission_table attempt (im_tables im)) ps.
Proof.
  revert im. induction ps as [|p ps IH]; intros im; cbn [write_permissions_loop].
  { intros H. op_inv. rewrite add_permissions_nil. split_and!; [done|done|constructor|constructor]. }
  intros H. op_inv.
  match goal with H : write_permissions_loop _ _ _ _ _ = _ |- _ => rename H into Hloop end.
  apply IH in Hloop as (Ht' & [Hg' Hd'] & Hnd & Hall).
  match goal with H : _ = Some (im_tables ?s, im_changes ?s) |- _ =>
    rename H into Hi; rename s into im2 end.
  repeat match goal with H : im_tables _ = im_tables _ |- _ => rewrite H in Hi; clear H end.
  rewrite (apply_if attempt) in Hi.
  apply insert_permission_some in Hi as (Hs2 & Hp & Hnin & _).
  rewrite Hs2 in Ht', Hall. rewrite add_permissions_cons in Ht'. split_and!; [done|split; congruence|..].
  - apply NoDup_cons. split; [|done]. intros Hin.
    rewrite Forall_forall in Hall. destruct (Hall p Hin) as [_ Hc]. apply Hc.
    unfold permission_table, add_permissions. destruct attempt; cbn; set_solver.
  - constructor; [done|]. eapply Forall_impl; [exact Hall|]. intros q [Hq Hc]. split; [done|].
    intros Hin. apply Hc. unfold permission_table, add_permissions in *. destruct attempt; cbn; set_solver.
Qed.

Lemma write_permissions_ok attempt id ps im u im' :
  write_permissions env id ps attempt im = (Ok u, im') ->
  im_tables im' = add_permissions attempt id ps (im_tables im) /\ same_meta im im' /\
  NoDup ps /\
  Forall (fun p => permission_ok id p = true /\ (id, p) ∉ permission_table attempt (im_tables im)) ps /\
  (length ps <= 128)%nat.
Proof.
  unfold write_permissions. intros H. op_inv.
  match goal with H : write_permissions_loop _ _ _ _ _ = _ |- _ =>
    apply write_permissions_loop_ok in H as (? & ? & ? & ?) end.
  apply Nat.leb_le in Hreq. auto.
Qed.
End writes.

(** ** What a successful operation did to the tables *)

Lemma bind_device_ok {txt : SqlText} env d im u im' :
  bind_device env d im = (Ok u, im') -> (d_status d = Revoked -> d_permissions d = []) /\ frame im im'.
Proof.
  intros H. pose proof (read_only_ok _ _ _ _ H) as Hf. unfold bind_device in H.
  apply bind_ok in H as (? & ? & [Hb _]%require_msg_ok & _). split; [|done].
  intros Hs. rewrite bool_decide_true in Hb by done. by apply bool_decide_eq_true in Hb.
Qed.

Ltac op_inv_step2 :=
  match goal with
  | H : bind_device _ _ _ = (Ok _, _) |- _ =>
      let Hr := fresh "Hrev" in let Hf := fresh "Hf" in
      apply bind_device_ok in H as [Hr Hf]; use_frame Hf
  | H : write_permissions _ _ _ _ _ = (Ok _, _) |- _ =>
      let Ht := fresh "Ht" in let Hg := fresh "Hg" in let Hd := fresh "Hd" in
      let Hnd := fresh "Hnd" in let Hall := fresh "Hall" in let Hlen := fresh "Hlen" in
      apply write_permissions_ok in H as (Ht & [Hg Hd] & Hnd & Hall & Hlen)
  | _ => op_inv_step
  end.
(** Rewrite intermediate states away: tables, generation and data version. *)
Ltac fold_states :=
  repeat match goal with
         | H : im_tables _ = _ |- _ => rewrite H in *; clear H
         | H : im_local_generation ?x = im_local_generation ?y |- _ => rewrite H in *; clear H
         | H : im_data_version ?x = im_data_version ?y |- _ => rewrite H in *; clear H
         | H : im_changes _ = 1 |- _ => rewrite H in *; clear H
         end.
Ltac op_run := repeat op_inv_step2; cbn [im_tables im_local_generation im_data_version bump_generation] in *; fold_states.

Ltac effect_done :=
  first [done | lia | split; cbn; congruence
        | eapply Forall_impl; [eassumption|by intros ? [? _]]].

Section operations_ok.
Context {txt : SqlText} (env : Env).

(** The generation counter after a committed trust write. *)
Definition advanced (im im' : Impl) : Prop :=
  im_local_generation im' = u64_succ (im_local_generation im) /\
  im_data_version im' = im_data_version im.

Lemma import_device_ok d im u im' :
  import_device_for_admin env d im = (Ok u, im') ->
  exists t n, insert_device (d_uuid d) (device_row d) (im_tables im) = Some (t, n) /\
    im_tables im' = add_permissions false (d_uuid d) (d_permissions d) t /\
    d_revision d = 1 /\ (d_status d = Revoked -> d_permissions d = []) /\
    Forall (fun p => permission_ok (d_uuid d) p = true) (d_permissions d) /\ advanced im im'.
Proof.
  unfold import_device_for_admin. intros H. op_run. do 2 eexists. split_and!; effect_done.
Qed.

Definition device_matches (d : TrustedDevice) (expected_revision : Z) (old : DeviceRow) : Prop :=
  r_public_key old = d_public_key d /\ r_status old = trust_status_text (d_status d) /\
  r_revision old = expected_revision.

Lemma update_row_some uuid matches r t t' :
  update_device_row uuid matches r t = Some (t', 1) ->
  exists old, trusted_devices t !! uuid = Some old /\ matches old = true /\
    device_row_ok uuid (r old) = true /\
    t' = set_devices (<[uuid := r old]> (trusted_devices t)) t.
Proof.
  unfold update_device_row. destruct (trusted_devices t !! uuid) as [old|]; [|done].
  destruct (matches old) eqn:Hm; [|done]. case_match eqn:Hok; [|done]. intros [= <-]. eauto.
Qed.

Lemma update_device_ok d expected im u im' :
  update_device env d expected im = (Ok u, im') ->
  exists old, trusted_devices (im_tables im) !! d_uuid d = Some old /\
    device_matches d expected old /\ device_row_ok (d_uuid d) (device_row d) = true /\
    im_tables im' = add_permissions false (d_uuid d) (d_permissions d)
      (fst (clear_device_permissions (d_uuid d)
         (set_devices (<[d_uuid d := device_row d]> (trusted_devices (im_tables im))) (im_tables im)))) /\
    0 < expected < int64_max /\ d_revision d = expected + 1 /\
    (d_status d = Revoked -> d_permissions d = []) /\
    Forall (fun p => permission_ok (d_uuid d) p = true) (d_permissions d) /\ advanced im im'.
Proof.
  unfold update_device. intros H. op_run.
  match goal with H : update_device_row _ _ _ _ = _ |- _ =>
    apply update_row_some in H as (old & Hold & Hmatch & Hok & Ht) end.
  match goal with H : Some (clear_device_permissions _ _) = _ |- _ => injection H as Ht2 Hn2 end.
  rewrite <-Ht2, Ht in *. exists old. split_and!; try effect_done.
  unfold device_matches. apply andb_prop in Hmatch as [[Hk Hs]%andb_prop Hr].
  apply bool_decide_eq_true in Hk, Hs. split_and!; [done|done|lia].
Qed.

Lemma revoke_device_ok uuid expected revoked_at im u im' :
  revoke_device env uuid expected revoked_at im = (Ok u, im') ->
  exists old, trusted_devices (im_tables im) !! uuid = Some old /\ r_revision old = expected /\
    device_row_ok uuid (revoked_row revoked_at old) = true /\
    im_tables im' = fst (clear_device_permissions uuid
      (set_devices (<[uuid := revoked_row revoked_at old]> (trusted_devices (im_tables im))) (im_tables im))) /\
    0 < expected < int64_max /\ advanced im im'.
Proof.
  unfold revoke_device. intros H. op_run.
  match goal with H : update_device_row _ _ _ _ = _ |- _ =>
    apply update_row_some in H as (old & Hold & Hmatch & Hok & Ht) end.
  match goal with H : Some (clear_device_permissions _ _) = _ |- _ => injection H as Ht2 Hn2 end.
  rewrite <-Ht2, Ht in *. exists old. split_and!; effect_done.
Qed.

Lemma create_attempt_ok a im u im' :
  create_attempt env a im = (Ok u, im') ->
  exists t n, insert_attempt (a_attempt_id a) (attempt_row a) (im_tables im) = Some (t, n) /\
    im_tables im' = add_permissions true (a_attempt_id a) (a_proposed_permissions a) t /\
    a_revision a = 1 /\
    Forall (fun p => permission_ok (a_attempt_id a) p = true) (a_proposed_permissions a) /\
    same_meta im im'.
Proof.
  unfold create_attempt. intros H. op_run. do 2 eexists. split_and!; effect_done.
Qed.

Lemma update_attempt_ok a expected im u im' :
  update_attempt env a expected im = (Ok u, im') ->
  exists t, update_attempt_row (a_attempt_id a) (attempt_row a) expected (im_tables im) = Some (t, 1) /\
    im_tables im' = add_permissions true (a_attempt_id a) (a_proposed_permissions a)
                      (fst (clear_attempt_permissions (a_attempt_id a) t)) /\
    0 < expected < int64_max /\ a_revision a = expected + 1 /\
    Forall (fun p => permission_ok (a_attempt_id a) p = true) (a_proposed_permissions a) /\
    same_meta im im'.
Proof.
  unfold update_attempt. intros H. op_run.
  match goal with H : Some (clear_attempt_permissions _ _) = _ |- _ => injection H as Ht2 Hn2 end.
  rewrite <-Ht2 in *. eexists. split_and!; effect_done.
Qed.

Lemma delete_row_one id matches t t' :
  delete_attempt_row id matches t = (t', 1) ->
  exists a, pairing_attempts t !! id = Some a /\ matches a = true /\
    t' = fst (clear_attempt_permissions id (set_attempts (delete id (pairing_attempts t)) t)).
Proof.
  unfold delete_attempt_row. destruct (pairing_attempts t !! id) as [a|]; [|done].
  destruct (matches a) eqn:Hm; [|done]. intros [= <-]. eauto.
Qed.

Lemma delete_attempt_ok id expected im u im' :
  delete_attempt env id expected im = (Ok u, im') ->
  exists a, pairing_attempts (im_tables im) !! id = Some a /\ t_revision a = expected /\
    im_tables im' = fst (clear_attempt_permissions id
       (set_attempts (delete id (pairing_attempts (im_tables im))) (im_tables im))) /\
    same_meta im im'.
Proof.
  unfold delete_attempt. intros H. op_run. injection Hw as Hw.
  apply delete_row_one in Hw as (att & Hatt & Hm & ->). exists att. split_and!; effect_done.
Qed.

(** The pairing transaction: the attempt it consumes and the record it writes. *)
Lemma finalize_existing_ok f im r im' :
  finalize_existing env f im = (Ok r, im') ->
  frame im im' /\
  match trusted_devices (im_tables im) !! f_peer_uuid f with
  | None => r = (1, false)
  | Some old => r_public_key old = f_peer_public_key f /\ r_status old = "REVOKED" /\
                0 < r_revision old < int64_max /\ r = (r_revision old + 1, true)
  end.
Proof.
  intros H. split; [exact (read_only_ok _ _ _ _ H)|]. unfold finalize_existing in H. op_run.
  subst. destruct (trusted_devices (im_tables im) !! f_peer_uuid f) as [old|] eqn:E; op_run; [|done].
  bool_inv. split_and!; try done; lia.
Qed.

Lemma finalize_write_ok d rev re im u im' :
  finalize_write env d rev re im = (Ok u, im') ->
  device_row_ok (d_uuid d) (device_row d) = true /\
  im_tables im' = set_devices (<[d_uuid d := device_row d]> (trusted_devices (im_tables im))) (im_tables im) /\
  same_meta im im' /\
  (if re then exists old, trusted_devices (im_tables im) !! d_uuid d = Some old /\
                r_public_key old = d_public_key d /\ r_status old = "REVOKED" /\ r_revision old = rev - 1
   else trusted_devices (im_tables im) !! d_uuid d = None /\
        map_Forall (fun _ r' => r_public_key r' <> d_public_key d) (trusted_devices (im_tables im))).
Proof.
  unfold finalize_write. destruct re; intros H; op_run.
  - match goal with H : update_device_row _ _ _ _ = _ |- _ =>
      apply update_row_some in H as (old & Hold & Hmatch & Hok & Ht) end.
    apply andb_prop in Hmatch as [[Hk Hs]%andb_prop Hr]. apply bool_decide_eq_true in Hk, Hs.
    split_and!; [done|done|split; congruence|]. exists old. split_and!; try done. lia.
  - revert Hw. unfold insert_device. case_match eqn:Hb; [|done]. intros [= Ht Hn].
    apply andb_prop in Hb as [[Hok Hnone%bool_decide_eq_true]%andb_prop Huniq%bool_decide_eq_true].
    split_and!; effect_done.
Qed.

Lemma finalize_identity_ok a f im u im' :
  finalize_identity a f im = (Ok u, im') ->
  t_peer_uuid a = f_peer_uuid f /\ t_peer_public_key a = f_peer_public_key f /\ im' = im.
Proof.
  unfold finalize_identity, blob. case_bool_decide; intros Hrun; op_run; bool_inv; done.
Qed.

Lemma finalize_attempt_ok id expected f im u im' :
  finalize_attempt env id expected f im = (Ok u, im') ->
  frame im im' /\
  exists a, pairing_attempts (im_tables im) !! id = Some a /\
    confirmed_attempt expected (env_now env) a = true /\
    t_peer_uuid a = f_peer_uuid f /\ t_peer_public_key a = f_peer_public_key f.
Proof.
  intros H. split; [exact (read_only_ok _ _ _ _ H)|]. unfold finalize_attempt in H. op_run. subst.
  destruct (pairing_attempts _ !! id) as [att|]; [|done].
  destruct (confirmed_attempt _ _ att) eqn:Hc; [|done].
  match goal with H : finalize_identity _ _ _ = _ |- _ => apply finalize_identity_ok in H end.
  exists att. tauto.
Qed.

Ltac op_inv_step3 :=
  match goal with
  | H : finalize_attempt _ _ _ _ _ = (Ok _, _) |- _ =>
      let Hf := fresh "Hf" in let Hatt := fresh "Hatt" in
      apply finalize_attempt_ok in H as [Hf Hatt]; use_frame Hf
  | H : finalize_existing _ _ _ = (Ok _, _) |- _ =>
      let Hf := fresh "Hf" in let Hex := fresh "Hex" in
      apply finalize_existing_ok in H as [Hf Hex]; use_frame Hf
  | H : finalize_write _ _ _ _ _ = (Ok _, _) |- _ =>
      let Ht := fresh "Ht" in let Hg := fresh "Hg" in let Hd := fresh "Hd" in
      let Hrow := fresh "Hrow" in let Hwr := fresh "Hwr" in
      apply finalize_write_ok in H as (Hrow & Ht & [Hg Hd] & Hwr)
  | H : (let '(_, _) := ?x in _) _ = (Ok _, _) |- _ => destruct x
  | _ => op_inv_step2
  end.

Lemma finalize_pairing_ok id expected f im u im' :
  finalize_pairing env id expected f im = (Ok u, im') ->
  exists a rev re,
    let t := im_tables im in
    let d := finalized_device f rev (env_now env) in
    let t1 := set_devices (<[f_peer_uuid f := device_row d]> (trusted_devices t)) t in
    let t2 := add_permissions false (f_peer_uuid f) (select_attempt_permissions id t)
                (fst (clear_device_permissions (f_peer_uuid f) t1)) in
    pairing_attempts t !! id = Some a /\
    confirmed_attempt expected (env_now env) a = true /\
    confirmed_attempt expected (env_completion_time env) a = true /\
    t_peer_uuid a = f_peer_uuid f /\ t_peer_public_key a = f_peer_public_key f /\
    match trusted_devices t !! f_peer_uuid f with
    | None => (rev, re) = (1, false) /\
              map_Forall (fun _ r' => r_public_key r' <> f_peer_public_key f) (trusted_devices t)
    | Some old => r_public_key old = f_peer_public_key f /\ r_status old = "REVOKED" /\
                  0 < r_revision old < int64_max /\ (rev, re) = (r_revision old + 1, true)
    end /\
    device_row_ok (f_peer_uuid f) (device_row d) = true /\
    Forall (fun p => permission_ok (f_peer_uuid f) p = true) (select_attempt_permissions id t) /\
    im_tables im' = fst (clear_attempt_permissions id (set_attempts (delete id (pairing_attempts t)) t2)) /\
    advanced im im'.
Proof.
  unfold finalize_pairing. intros H. repeat op_inv_step3.
  cbn [im_tables im_local_generation im_data_version bump_generation] in *; fold_states.
  match goal with H : exists a, _ |- _ => destruct H as (att & Hatt & Hc & Hu & Hk) end.
  match goal with H : Some (clear_device_permissions _ _) = _ |- _ => injection H as Ht2 _ end.
  match goal with H : Some (delete_attempt_row _ _ _) = _ |- _ => injection H as Hdel end.
  match goal with H : (?z, ?b) = _ |- _ => idtac | z : Z, b : bool |- _ => exists att, z, b end.
  rewrite <-Ht2 in *. subst. apply delete_row_one in Hdel as (att' & Hatt' & Hc2 & Ht).
  cbn -[clear_attempt_permissions] in Hatt'. rewrite Hatt in Hatt'. injection Hatt' as <-.
  cbn [d_uuid d_public_key finalized_device] in *. cbv zeta. split_and!; try done.
  - match goal with |- match ?x with _ => _ end => destruct x as [old|] end; [done|].
    match goal with H : (_, ?b) = (1, false) |- _ => injection H as -> -> end.
    split; [done|]. tauto.
  - eapply Forall_impl; [eassumption|]. by intros ? [? _].
  - split; cbn; congruence.
Qed.
End operations_ok.
