(* ===== verification/TrustLedger.v ===== *)
(** * What the trust store promises

    The contract of [TrustStore] towards the rest of the program, proved of the
    operations of [TrustStore.v].  The specification is a ledger: for every peer
    UUID its pinned public key, its status, its revision and its granted
    permissions.  Every request, whatever the environment injects, is a step of
    the ledger; requests that throw change nothing.  *)

From S2P Require Import Prelude Uuid TrustTables TrustStore.

(** ** The ledger *)

Record Entry : Type := mkEntry {
  e_key : TrustPublicKey;
  e_status : TrustStatus;
  e_revision : Z;
  e_permissions : gset string
}.
Abbreviation ledger := (gmap TrustUuid Entry).

Definition granted (u : TrustUuid) (t : Tables) : gset string :=
  set_map (D:=gset string) snd (permissions_of u (device_permissions t)).
Definition entry_of (u : TrustUuid) (r : DeviceRow) (ps : gset string) : Entry :=
  mkEntry (r_public_key r) (if bool_decide (r_status r = "ACTIVE") then Active else Revoked) (r_revision r) ps.
Definition ledger_of (t : Tables) : ledger :=
  map_imap (fun u r => Some (entry_of u r (granted u t))) (trusted_devices t).

(** What a ledger step may do to the entry of one peer. *)
Inductive action : Type :=
| AddDevice       (** administrative import of an unknown peer, or its first pairing *)
| EditDevice      (** new metadata and permissions *)
| RevokeDevice
| ReactivateDevice (** pairing again with the pinned key *).

Inductive ledger_step (u : TrustUuid) : action -> ledger -> ledger -> Prop :=
| step_add l key st ps :
    l !! u = None -> map_Forall (fun _ e => e_key e <> key) l ->
    (st = Revoked -> ps = ∅) ->
    ledger_step u AddDevice l (<[u := mkEntry key st 1 ps]> l)
| step_edit l e ps :
    l !! u = Some e -> (e_status e = Revoked -> ps = ∅) -> e_revision e < int64_max ->
    ledger_step u EditDevice l (<[u := mkEntry (e_key e) (e_status e) (e_revision e + 1) ps]> l)
| step_revoke l e :
    l !! u = Some e -> e_revision e < int64_max ->
    ledger_step u RevokeDevice l (<[u := mkEntry (e_key e) Revoked (e_revision e + 1) ∅]> l)
| step_reactivate l e ps :
    l !! u = Some e -> e_status e = Revoked -> e_revision e < int64_max ->
    ledger_step u ReactivateDevice l (<[u := mkEntry (e_key e) Active (e_revision e + 1) ps]> l).

(** ** Requests *)

Inductive request : Type :=
| ReqImport (d : TrustedDevice)
| ReqFindDevice (u : TrustUuid)
| ReqFindByPublicKey (k : TrustPublicKey)
| ReqFindActiveAuthorization (u : TrustUuid) (k : TrustPublicKey)
| ReqChangeToken
| ReqUpdate (d : TrustedDevice) (expected_revision : Z)
| ReqRevoke (u : TrustUuid) (expected_revision revoked_at : Z)
| ReqState (u : TrustUuid)
| ReqPermissions (u : TrustUuid)
| ReqCreateAttempt (a : PairingAttempt)
| ReqFindAttempt (id : TrustUuid)
| ReqUpdateAttempt (a : PairingAttempt) (expected_revision : Z)
| ReqDeleteAttempt (id : TrustUuid) (expected_revision : Z)
| ReqFinalize (id : TrustUuid) (expected_revision : Z) (f : PairingFinalization).

(** The peer and the ledger actions a request may perform on it. *)
Definition performs (req : request) (u : TrustUuid) (a : action) : Prop :=
  match req with
  | ReqImport d => d_uuid d = u /\ a = AddDevice
  | ReqUpdate d _ => d_uuid d = u /\ a = EditDevice
  | ReqRevoke v _ _ => v = u /\ a = RevokeDevice
  | ReqFinalize _ _ f => f_peer_uuid f = u /\ (a = AddDevice \/ a = ReactivateDevice)
  | _ => False
  end.

Section contract.
Context {txt : SqlText}.

Definition execute (env : Env) (req : request) : op unit :=
  match req with
  | ReqImport d => import_device_for_admin env d
  | ReqFindDevice u => find_device env u;;; ret tt
  | ReqFindByPublicKey k => find_by_public_key env k;;; ret tt
  | ReqFindActiveAuthorization u k => find_active_authorization env u k;;; ret tt
  | ReqChangeToken => change_token env;;; ret tt
  | ReqUpdate d r => update_device env d r
  | ReqRevoke u r at_ => revoke_device env u r at_
  | ReqState u => state env u;;; ret tt
  | ReqPermissions u => permissions env u;;; ret tt
  | ReqCreateAttempt a => create_attempt env a
  | ReqFindAttempt id => find_attempt env id;;; ret tt
  | ReqUpdateAttempt a r => update_attempt env a r
  | ReqDeleteAttempt id r => delete_attempt env id r
  | ReqFinalize id r f => finalize_pairing env id r f
  end.

(** A history: requests run one after the other, each in its own environment;
    the callers handle the exceptions. *)
Definition history := list (Env * request).
Fixpoint replay (h : history) (im : Impl) : Impl :=
  match h with
  | [] => im
  | (env, req) :: rest => replay rest (snd (execute env req im))
  end.

(** ** Well-formed tables *)

Record tables_ok (t : Tables) : Prop := {
  ok_devices : map_Forall (fun u r => device_row_ok u r = true /\ r_revision r <= int64_max) (trusted_devices t);
  ok_unique : forall u1 u2 r1 r2, trusted_devices t !! u1 = Some r1 -> trusted_devices t !! u2 = Some r2 ->
                r_public_key r1 = r_public_key r2 -> u1 = u2;
  ok_granted : forall u p, (u, p) ∈ device_permissions t ->
                permission_ok u p = true /\
                exists r, trusted_devices t !! u = Some r /\ r_status r = "ACTIVE";
  ok_attempts : map_Forall (fun i a => attempt_row_ok i a = true /\ t_revision a <= int64_max) (pairing_attempts t);
  ok_proposed : forall i p, (i, p) ∈ pairing_attempt_permissions t ->
                permission_ok i p = true /\ is_Some (pairing_attempts t !! i)
}.

Lemma empty_tables_ok : tables_ok empty_tables.
Proof. by split; cbn; [apply map_Forall_empty|..|apply map_Forall_empty|]; intros ?? ?%not_elem_of_empty || done. Qed.

(** The one shape of a trust write: the row of [u] is replaced by [r] and its
    permissions by [ps]. *)
Definition put_device (u : TrustUuid) (r : DeviceRow) (ps : list string) (t : Tables) : Tables :=
  add_permissions false u ps (fst (clear_device_permissions u (set_devices (<[u := r]> (trusted_devices t)) t))).

Lemma elem_of_granted u p t : p ∈ granted u t <-> (u, p) ∈ device_permissions t.
Proof.
  unfold granted, permissions_of. rewrite elem_of_map. split.
  - intros ([v q] & -> & [Hv Hin]%elem_of_filter). cbn in *. by subst.
  - intros Hin. exists (u, p). by rewrite elem_of_filter.
Qed.

Lemma elem_of_put u r ps t v p :
  (v, p) ∈ device_permissions (put_device u r ps t) <->
  (v = u /\ p ∈ ps) \/ (v <> u /\ (v, p) ∈ device_permissions t).
Proof.
  unfold put_device, add_permissions, clear_device_permissions, permissions_not_of.
  cbn [device_permissions set_device_permissions set_devices fst].
  rewrite elem_of_union, elem_of_list_to_set, list_elem_of_fmap, elem_of_filter; cbn. naive_solver.
Qed.

Lemma granted_put u r ps t v :
  granted v (put_device u r ps t) = if decide (v = u) then list_to_set ps else granted v t.
Proof.
  apply set_eq. intros p. rewrite elem_of_granted, elem_of_put.
  case_decide; [rewrite elem_of_list_to_set|rewrite elem_of_granted]; tauto.
Qed.

Lemma put_lookup u r ps t v :
  trusted_devices (put_device u r ps t) !! v = if decide (u = v) then Some r else trusted_devices t !! v.
Proof.
  cbn. case_decide; [subst; apply lookup_insert_eq|by apply lookup_insert_ne].
Qed.

Lemma ledger_lookup t u :
  ledger_of t !! u = (fun r => entry_of u r (granted u t)) <$> trusted_devices t !! u.
Proof. unfold ledger_of. rewrite map_lookup_imap. by destruct (_ !! u). Qed.

Lemma ledger_put u r ps t :
  ledger_of (put_device u r ps t) = <[u := entry_of u r (list_to_set ps)]> (ledger_of t).
Proof.
  apply map_eq. intros v. rewrite lookup_insert, !ledger_lookup, put_lookup, granted_put.
  repeat case_decide; by subst.
Qed.

Lemma ledger_of_congr t t' :
  trusted_devices t' = trusted_devices t -> device_permissions t' = device_permissions t ->
  ledger_of t' = ledger_of t.
Proof. intros H1 H2. unfold ledger_of, granted. by rewrite H1, H2. Qed.

(** On well-formed tables an unknown peer has no permissions, so adding the
    permissions of a new device needs no clearing. *)
Lemma import_is_put u r ps t :
  tables_ok t -> trusted_devices t !! u = None ->
  add_permissions false u ps (set_devices (<[u := r]> (trusted_devices t)) t) = put_device u r ps t.
Proof.
  intros Hok Hnone.
  assert (Hn : permissions_not_of u (device_permissions t) = device_permissions t).
  { unfold permissions_not_of. apply set_eq. intros [v p]. rewrite elem_of_filter; cbn.
    split; [tauto|]. intros Hin. split; [|done].
    intros ->. destruct (ok_granted _ Hok _ _ Hin) as (_ & r' & Hr & _). congruence. }
  unfold put_device, clear_device_permissions. cbn [fst device_permissions set_devices]. by rewrite Hn.
Qed.

(** ** Preservation, table by table *)

Lemma put_device_ok u r ps t :
  tables_ok t -> device_row_ok u r = true -> r_revision r <= int64_max ->
  (forall v r', trusted_devices t !! v = Some r' -> r_public_key r' = r_public_key r -> v = u) ->
  (r_status r <> "ACTIVE" -> ps = []) -> Forall (fun p => permission_ok u p = true) ps ->
  tables_ok (put_device u r ps t).
Proof.
  intros [Hd Hu Hg Ha Hp] Hr Hrev Hkey Hst Hps. split; [..|exact Ha|exact Hp].
  - cbn. by apply map_Forall_insert_2.
  - intros u1 u2 r1 r2. rewrite !put_lookup.
    repeat case_decide; subst; intros; simplify_eq; eauto; symmetry; eauto.
  - intros v p. rewrite elem_of_put, put_lookup. intros [[-> Hq]|[Hne Hin]].
    + rewrite decide_True by done. rewrite Forall_forall in Hps. split; [by apply Hps|].
      exists r. split; [done|]. destruct (decide (r_status r = "ACTIVE")) as [|Hn]; [done|].
      apply Hst in Hn. subst. by apply not_elem_of_nil in Hq.
    + rewrite decide_False by congruence. by apply Hg.
Qed.

Lemma set_attempts_ok i a t :
  tables_ok t -> attempt_row_ok i a = true -> t_revision a <= int64_max ->
  tables_ok (set_attempts (<[i := a]> (pairing_attempts t)) t).
Proof.
  intros [Hd Hu Hg Ha Hp] Hrow Hrev. split; try assumption; cbn.
  - by apply map_Forall_insert_2.
  - intros j p Hin. destruct (Hp j p Hin) as [? ?]. split; [done|].
    destruct (decide (j = i)) as [->|]; [by rewrite lookup_insert_eq|by rewrite lookup_insert_ne].
Qed.

Lemma elem_of_not_of (i j : TrustUuid) (p : string) (ps : gset (TrustUuid * string)) :
  (j, p) ∈ permissions_not_of i ps <-> j <> i /\ (j, p) ∈ ps.
Proof. unfold permissions_not_of. by rewrite elem_of_filter. Qed.

Lemma clear_attempt_ok i t : tables_ok t -> tables_ok (fst (clear_attempt_permissions i t)).
Proof.
  intros [Hd Hu Hg Ha Hp]. split; try assumption; cbn.
  intros j p [_ Hin]%elem_of_not_of. eauto.
Qed.

Lemma add_attempt_permissions_ok i ps t :
  tables_ok t -> is_Some (pairing_attempts t !! i) -> Forall (fun p => permission_ok i p = true) ps ->
  tables_ok (add_permissions true i ps t).
Proof.
  intros [Hd Hu Hg Ha Hp] Hi Hps. split; try assumption; cbn.
  intros j p. rewrite elem_of_union, elem_of_list_to_set, list_elem_of_fmap.
  intros [(q & [= -> ->] & Hq)|Hin]; [|eauto]. rewrite Forall_forall in Hps. auto.
Qed.

Lemma remove_attempt_ok i t :
  tables_ok t ->
  tables_ok (fst (clear_attempt_permissions i (set_attempts (delete i (pairing_attempts t)) t))).
Proof.
  intros [Hd Hu Hg Ha Hp]. split; try assumption; cbn.
  - by apply map_Forall_delete.
  - intros j p [Hne Hin]%elem_of_not_of. rewrite lookup_delete_ne by done. eauto.
Qed.

(** ** The effect of each request *)

#[export] Instance find_device_read_only env u : ReadOnly (find_device env u).
Proof. unfold find_device. apply _. Qed.
#[export] Instance find_by_public_key_read_only env k : ReadOnly (find_by_public_key env k).
Proof. unfold find_by_public_key. apply _. Qed.
#[export] Instance find_active_authorization_read_only env u k : ReadOnly (find_active_authorization env u k).
Proof.
  unfold find_active_authorization. apply bind_read_only; [apply _|intros _].
  apply transaction_read_only. do 3 (apply bind_read_only; [apply _|intros _]).
  apply bind_read_only; [apply _|]. intros [r|]; apply _.
Qed.
#[export] Instance change_token_read_only env : ReadOnly (change_token env).
Proof. unfold change_token. apply _. Qed.
#[export] Instance state_read_only env u : ReadOnly (state env u).
Proof. unfold state. repeat (apply bind_read_only; [apply _|intros ?]). repeat case_bool_decide; apply _. Qed.
#[export] Instance permissions_read_only env u : ReadOnly (permissions env u).
Proof. unfold permissions. apply _. Qed.
#[export] Instance find_attempt_read_only env u : ReadOnly (find_attempt env u).
Proof.
  unfold find_attempt. apply bind_read_only; [apply _|intros _].
  apply transaction_read_only. do 2 (apply bind_read_only; [apply _|intros _]).
  apply bind_read_only; [apply _|]. intros [r|]; [|apply _].
  do 3 (apply bind_read_only; [apply _|intros _]). destruct (attempt_status_of_text _); apply _.
Qed.

Definition read_request (req : request) : bool :=
  match req with
  | ReqFindDevice _ | ReqFindByPublicKey _ | ReqFindActiveAuthorization _ _ | ReqChangeToken
  | ReqState _ | ReqPermissions _ | ReqFindAttempt _ => true
  | _ => false
  end.

Lemma execute_read_only env req : read_request req = true -> ReadOnly (execute env req).
Proof. destruct req; try done; intros _; cbn [execute]; apply _. Qed.

#[export] Instance execute_atomic env req : Atomic (execute env req).
Proof.
  destruct req; cbn [execute]; try apply _;
    unfold import_device_for_admin, update_device, revoke_device, create_attempt, update_attempt,
      delete_attempt, finalize_pairing; repeat (apply bind_atomic; [apply _|intros ?]); try apply _.
  apply bind_atomic_modify, transaction_atomic. do 3 (apply bind_tables_only; [apply _|intros ?]).
  apply bind_tables_only; [apply _|]. intros [? ?]. apply _.
Qed.

(** A request either leaves the ledger alone, or performs one step on it and
    advances the generation. *)
Definition store_effect (req : request) (im im' : Impl) : Prop :=
  tables_ok (im_tables im') /\
  ((ledger_of (im_tables im') = ledger_of (im_tables im) /\ same_meta im im') \/
   (exists v a, performs req v a /\
      ledger_step v a (ledger_of (im_tables im)) (ledger_of (im_tables im')) /\ advanced im im')).

Lemma store_effect_frame req im im' :
  tables_ok (im_tables im) -> frame im im' -> store_effect req im im'.
Proof.
  intros Hok [Ht Hg Hd]. unfold store_effect. rewrite Ht. split; [done|]. left. by split.
Qed.

Lemma device_row_status u r :
  device_row_ok u r = true -> r_status r = "ACTIVE" \/ r_status r = "REVOKED".
Proof.
  unfold device_row_ok. intros. bool_inv.
  match goal with H : bool_decide (_ = "ACTIVE") || bool_decide (_ = "REVOKED") = true |- _ =>
    apply orb_prop in H as [|] end; bool_inv; auto.
Qed.

Lemma status_text_active st : trust_status_text st = "ACTIVE" <-> st = Active.
Proof. by destruct st. Qed.

Lemma entry_device_row d ps :
  entry_of (d_uuid d) (device_row d) ps = mkEntry (d_public_key d) (d_status d) (d_revision d) ps.
Proof. unfold entry_of; cbn. by destruct (d_status d). Qed.

(** Writing [r] for [u] keeps keys unique when [u] keeps its key or the key is
    new. *)
Lemma unique_same u old t key :
  tables_ok t -> trusted_devices t !! u = Some old -> r_public_key old = key ->
  forall v r', trusted_devices t !! v = Some r' -> r_public_key r' = key -> v = u.
Proof. intros Hok Hold <- v r' Hv Hk. by eapply (ok_unique _ Hok). Qed.
Lemma unique_new u t (key : TrustPublicKey) :
  map_Forall (fun _ r' => r_public_key r' <> key) (trusted_devices t) ->
  forall v r', trusted_devices t !! v = Some r' -> r_public_key r' = key -> v = u.
Proof. intros Hall v r' Hv Hk. by destruct (Hall v r' Hv). Qed.
Lemma ledger_unique_new t (key : TrustPublicKey) :
  map_Forall (fun _ r' => r_public_key r' <> key) (trusted_devices t) ->
  map_Forall (fun _ e => e_key e <> key) (ledger_of t).
Proof.
  intros Hall v e. rewrite ledger_lookup. destruct (trusted_devices t !! v) eqn:Hv; [|done].
  intros [= <-]. cbn. by eapply Hall.
Qed.
Lemma ledger_some t u r :
  trusted_devices t !! u = Some r -> ledger_of t !! u = Some (entry_of u r (granted u t)).
Proof. intros H. by rewrite ledger_lookup, H. Qed.
Lemma ledger_none t u : trusted_devices t !! u = None -> ledger_of t !! u = None.
Proof. intros H. by rewrite ledger_lookup, H. Qed.

(** The generic step: the tables are those of [put_device], up to attempts. *)
Lemma store_effect_put req im im' u a r ps :
  tables_ok (im_tables im') ->
  trusted_devices (im_tables im') = trusted_devices (put_device u r ps (im_tables im)) ->
  device_permissions (im_tables im') = device_permissions (put_device u r ps (im_tables im)) ->
  performs req u a -> advanced im im' ->
  ledger_step u a (ledger_of (im_tables im)) (<[u := entry_of u r (list_to_set ps)]> (ledger_of (im_tables im))) ->
  store_effect req im im'.
Proof.
  intros Hok H1 H2 Hp Hadv Hstep. split; [done|]. right. exists u, a. split_and!; [done| |done].
  by rewrite (ledger_of_congr _ _ H1 H2), ledger_put.
Qed.

Lemma import_effect env d im u im' :
  tables_ok (im_tables im) -> import_device_for_admin env d im = (Ok u, im') ->
  store_effect (ReqImport d) im im'.
Proof.
  intros Hok (t & n & Hins & Ht & Hrev & Hperm & Hps & Hadv)%import_device_ok.
  revert Hins. unfold insert_device. case_match eqn:Hb; [|done]. intros [= <- <-].
  apply andb_prop in Hb as [[Hrow Hnone%bool_decide_eq_true]%andb_prop Huniq%bool_decide_eq_true].
  rewrite import_is_put in Ht by done. cbn in Huniq.
  apply (store_effect_put _ _ _ (d_uuid d) AddDevice (device_row d) (d_permissions d)); rewrite ?Ht; try done.
  - apply put_device_ok; try done.
    + cbn. rewrite Hrev. done.
    + by apply unique_new.
    + cbn. rewrite status_text_active. destruct (d_status d); naive_solver.
  - rewrite entry_device_row, Hrev. apply step_add.
    + by apply ledger_none.
    + by apply ledger_unique_new.
    + intros Hs. by rewrite Hperm.
Qed.

Lemma update_effect env d expected im u im' :
  tables_ok (im_tables im) -> update_device env d expected im = (Ok u, im') ->
  store_effect (ReqUpdate d expected) im im'.
Proof.
  intros Hok (old & Hold & (Hk & Hs & Hr) & Hrow & Ht & Hexp & Hrev & Hperm & Hps & Hadv)%update_device_ok.
  apply (store_effect_put _ _ _ (d_uuid d) EditDevice (device_row d) (d_permissions d)); rewrite ?Ht; try done.
  - apply put_device_ok; try done.
    + cbn. lia.
    + by eapply unique_same.
    + cbn. rewrite status_text_active. destruct (d_status d); naive_solver.
  - pose proof (ledger_some _ _ _ Hold) as Hl.
    assert (He : entry_of (d_uuid d) old (granted (d_uuid d) (im_tables im)) =
                 mkEntry (d_public_key d) (d_status d) expected (granted (d_uuid d) (im_tables im))).
    { unfold entry_of. rewrite Hk, Hs, Hr. by destruct (d_status d). }
    rewrite He in Hl. rewrite entry_device_row, Hrev. eapply (step_edit _ _ _ _ Hl); cbn; [|lia].
    intros Hst. by rewrite Hperm.
Qed.

Lemma revoke_effect env v expected revoked_at im u im' :
  tables_ok (im_tables im) -> revoke_device env v expected revoked_at im = (Ok u, im') ->
  store_effect (ReqRevoke v expected revoked_at) im im'.
Proof.
  intros Hok (old & Hold & Hr & Hrow & Ht & Hexp & Hadv)%revoke_device_ok.
  assert (Ht' : im_tables im' = put_device v (revoked_row revoked_at old) [] (im_tables im)).
  { unfold put_device. by rewrite add_permissions_nil. }
  apply (store_effect_put _ _ _ v RevokeDevice (revoked_row revoked_at old) []); rewrite ?Ht'; try done.
  - apply put_device_ok; try done; [cbn; lia|by eapply unique_same].
  - by apply (step_revoke _ _ _ (ledger_some _ _ _ Hold)); cbn; lia.
Qed.

Lemma finalize_effect env id expected f im u im' :
  tables_ok (im_tables im) -> finalize_pairing env id expected f im = (Ok u, im') ->
  store_effect (ReqFinalize id expected f) im im'.
Proof.
  intros Hok (att & rev & re & Hatt & _ & _ & _ & _ & Hex & Hrow & Hps & Ht & Hadv)%finalize_pairing_ok.
  set (d := finalized_device f rev (env_now env)) in *.
  set (ps := select_attempt_permissions id (im_tables im)) in *.
  assert (Hput : tables_ok (put_device (f_peer_uuid f) (device_row d) ps (im_tables im))).
  { apply put_device_ok; try done.
    - destruct (trusted_devices (im_tables im) !! f_peer_uuid f) as [old|].
      + destruct Hex as (_ & _ & Hb & [= -> _]). cbn. lia.
      + by destruct Hex as [[= -> _] _].
    - destruct (trusted_devices (im_tables im) !! f_peer_uuid f) as [old|] eqn:Hold.
      + destruct Hex as (Hk & _). by eapply unique_same.
      + destruct Hex as [_ Hk]. by apply unique_new. }
  apply (store_effect_put _ _ _ (f_peer_uuid f) (if re then ReactivateDevice else AddDevice) (device_row d) ps);
    try done; rewrite ?Ht; try done.
  - apply (remove_attempt_ok id _ Hput).
  - split; [done|]. destruct re; auto.
  - change (f_peer_uuid f) with (d_uuid d). rewrite entry_device_row.
    destruct (trusted_devices (im_tables im) !! f_peer_uuid f) as [old|] eqn:Hold.
    + destruct Hex as (Hk & Hs & Hb & [= Hrev Hre]). subst rev re.
      assert (He : entry_of (f_peer_uuid f) old (granted (f_peer_uuid f) (im_tables im)) =
                 mkEntry (f_peer_public_key f) Revoked (r_revision old) (granted (f_peer_uuid f) (im_tables im))).
      { unfold entry_of. by rewrite Hk, Hs. }
      pose proof (ledger_some _ _ _ Hold) as Hl. rewrite He in Hl.
      eapply (step_reactivate _ _ _ _ Hl); cbn; [done|lia].
    + destruct Hex as [[= Hrev Hre] Hk]. subst rev re. apply step_add; [by apply ledger_none| |done].
      by apply ledger_unique_new.
Qed.

(** Pairing attempts never touch the ledger. *)
Lemma store_effect_attempts req im im' :
  tables_ok (im_tables im') ->
  trusted_devices (im_tables im') = trusted_devices (im_tables im) ->
  device_permissions (im_tables im') = device_permissions (im_tables im) ->
  same_meta im im' -> store_effect req im im'.
Proof. intros Hok H1 H2 Hm. split; [done|]. left. split; [by apply ledger_of_congr|done]. Qed.

Lemma create_attempt_effect env a im u im' :
  tables_ok (im_tables im) -> create_attempt env a im = (Ok u, im') ->
  store_effect (ReqCreateAttempt a) im im'.
Proof.
  intros Hok (t & n & Hins & Ht & Hrev & Hps & Hm)%create_attempt_ok.
  revert Hins. unfold insert_attempt. case_match eqn:Hb; [|done]. intros [= <- <-].
  apply andb_prop in Hb as [Hrow _].
  apply store_effect_attempts; rewrite ?Ht; try done.
  apply add_attempt_permissions_ok; [apply set_attempts_ok; try done; cbn; by rewrite Hrev| |done].
  cbn. rewrite lookup_insert_eq. eauto.
Qed.

Lemma update_attempt_effect env a expected im u im' :
  tables_ok (im_tables im) -> update_attempt env a expected im = (Ok u, im') ->
  store_effect (ReqUpdateAttempt a expected) im im'.
Proof.
  intros Hok (t & Hupd & Ht & Hexp & Hrev & Hps & Hm)%update_attempt_ok.
  revert Hupd. unfold update_attempt_row. destruct (pairing_attempts (im_tables im) !! _) as [old|]; [|done].
  case_match; [|done]. cbv zeta. case_match eqn:Hrow; [|done]. intros [= <-].
  apply store_effect_attempts; rewrite ?Ht; try done.
  apply add_attempt_permissions_ok; [apply clear_attempt_ok, set_attempts_ok; try done; cbn; lia| |done].
  cbn. rewrite lookup_insert_eq. eauto.
Qed.

Lemma delete_attempt_effect env id expected im u im' :
  tables_ok (im_tables im) -> delete_attempt env id expected im = (Ok u, im') ->
  store_effect (ReqDeleteAttempt id expected) im im'.
Proof.
  intros Hok (a & Ha & Hr & Ht & Hm)%delete_attempt_ok.
  apply store_effect_attempts; rewrite ?Ht; try done. by apply remove_attempt_ok.
Qed.

Lemma execute_effect env req im :
  tables_ok (im_tables im) -> store_effect req im (snd (execute env req im)).
Proof.
  intros Hok. destruct (execute env req im) as [[[]|e] im'] eqn:H; cbn.
  2: { apply store_effect_frame; [done|]. by eapply execute_atomic. }
  destruct (read_request req) eqn:Hread.
  { apply store_effect_frame; [done|]. pose proof (execute_read_only env req Hread im) as Hf.
    by rewrite H in Hf. }
  destruct req; try done; cbn [execute] in H.
  - by eapply import_effect.
  - by eapply update_effect.
  - by eapply revoke_effect.
  - by eapply create_attempt_effect.
  - by eapply update_attempt_effect.
  - by eapply delete_attempt_effect.
  - by eapply finalize_effect.
Qed.

(** ** Histories *)

Definition im_ledger (im : Impl) : ledger := ledger_of (im_tables im).

(** Chains of ledger steps, each performed by the request at its place. *)
Inductive ledger_run : history -> ledger -> ledger -> Prop :=
| run_nil l : ledger_run [] l l
| run_stutter env req h l l' : ledger_run h l l' -> ledger_run ((env, req) :: h) l l'
| run_step env req h u a l l1 l' :
    performs req u a -> ledger_step u a l l1 -> ledger_run h l1 l' -> ledger_run ((env, req) :: h) l l'.

Lemma replay_effect h im :
  tables_ok (im_tables im) ->
  tables_ok (im_tables (replay h im)) /\ ledger_run h (im_ledger im) (im_ledger (replay h im)).
Proof.
  revert im. induction h as [|[env req] h IH]; intros im Hok; cbn [replay]; [split; [done|constructor]|].
  destruct (execute_effect env req im Hok) as [Hok' Heff].
  destruct (IH _ Hok') as [H1 H2]. split; [done|].
  destruct Heff as [[Hl _]|(v & a & Hp & Hs & _)].
  - apply run_stutter. unfold im_ledger in *. by rewrite Hl in H2.
  - by eapply run_step.
Qed.

(** How an entry may evolve. *)
Definition entry_le (e e' : Entry) : Prop := e_key e' = e_key e /\ e_revision e <= e_revision e'.

Lemma step_entry v a l l' u e :
  ledger_step v a l l' -> l !! u = Some e ->
  exists e', l' !! u = Some e' /\ e_key e' = e_key e /\
    ((u <> v /\ e' = e) \/
     (u = v /\ e_revision e' = e_revision e + 1 /\
      (e_status e = Revoked -> e_status e' = Active -> a = ReactivateDevice))).
Proof.
  intros Hs Hu. destruct (decide (u = v)) as [->|Hne].
  - destruct Hs; simplify_eq; rewrite lookup_insert_eq; eexists; (split; [reflexivity|]); cbn; split; try done;
      right; split_and!; try done; congruence.
  - exists e. split; [|auto]. destruct Hs; by rewrite lookup_insert_ne.
Qed.

Lemma run_entry h l l' u e :
  ledger_run h l l' -> l !! u = Some e -> exists e', l' !! u = Some e' /\ entry_le e e'.
Proof.
  intros Hr. revert e. induction Hr as [| |env req h v a l l1 l' Hp Hs Hr IH]; intros e Hu.
  - exists e. split; [done|]. split; [done|lia].
  - eauto.
  - destruct (step_entry _ _ _ _ _ _ Hs Hu) as (e1 & H1 & Hk & Hc).
    destruct (IH e1 H1) as (e' & H' & Hk' & Hrev). exists e'. split; [done|]. split; [congruence|].
    destruct Hc as [[_ ->]|(_ & ? & _)]; lia.
Qed.

(** Requests that may reactivate [u]. *)
Definition may_pair (u : TrustUuid) (er : Env * request) : Prop :=
  match er.2 with ReqFinalize _ _ f => f_peer_uuid f = u | _ => False end.

Lemma run_revoked h l l' u e :
  ledger_run h l l' -> Forall (fun er => ~ may_pair u er) h ->
  l !! u = Some e -> e_status e = Revoked ->
  exists e', l' !! u = Some e' /\ e_status e' = Revoked.
Proof.
  intros Hr. revert e. induction Hr as [| |env req h v a l l1 l' Hp Hs Hr IH]; intros e Hno Hu He.
  - eauto.
  - inversion Hno; eauto.
  - inversion Hno as [|? ? Hn Hno']; subst.
    destruct (step_entry _ _ _ _ _ _ Hs Hu) as (e1 & H1 & Hk & Hc).
    apply (IH e1); try done. destruct Hc as [[_ ->]|(-> & _ & Hst)]; [done|].
    destruct (e_status e1) eqn:E; [|done]. specialize (Hst He eq_refl). subst a.
    destruct req; cbn in Hp; try naive_solver.
Qed.
End contract.
