(* ===== verification/TrustContract.v ===== *)
(** * Theorems on the trust store

    Atomicity, the table invariant, refinement of the ledger, exactness of the
    authorization query, finality of revocation, permanence of the key binding,
    optimistic concurrency, the single use of a pairing attempt and soundness of
    the change token; each holds in every environment unless it says otherwise. *)

From S2P Require Import Prelude Uuid TrustTables TrustStore TrustLedger.

(** ** Sorted permission lists *)

Section permission_lists.
Context {txt : SqlText}.

(** [ps] lists the set [s] in byte order, each element once. *)
Definition lists_set (ps : list string) (s : gset string) : Prop :=
  Sorted String.le ps /\ NoDup ps /\ list_to_set ps = s.

Lemma sorted_permissions_spec id ps :
  lists_set (sorted_permissions id ps) (set_map snd (permissions_of id ps)).
Proof.
  unfold lists_set, sorted_permissions. split_and!.
  - apply Sorted_merge_sort. apply _.
  - rewrite merge_sort_Permutation. apply NoDup_fmap_2_strong; [|apply NoDup_elements].
    intros [u p] [v q]. unfold permissions_of.
    rewrite !elem_of_elements, !elem_of_filter. cbn. naive_solver.
  - apply set_eq. intros p. rewrite elem_of_list_to_set, merge_sort_Permutation, elem_of_map, list_elem_of_fmap.
    setoid_rewrite elem_of_elements. naive_solver.
Qed.

Lemma select_device_permissions_spec u r t :
  trusted_devices t !! u = Some r -> r_status r = "ACTIVE" ->
  lists_set (select_device_permissions u t) (granted u t).
Proof.
  intros Hr Hs. unfold select_device_permissions. rewrite Hr, bool_decide_true by done.
  apply sorted_permissions_spec.
Qed.

Lemma granted_revoked u r t :
  tables_ok t -> trusted_devices t !! u = Some r -> r_status r <> "ACTIVE" -> granted u t = ∅.
Proof.
  intros Hok Hr Hs. apply set_eq. intros p. rewrite elem_of_granted. split; [|by intros ?%not_elem_of_empty].
  intros (_ & r' & Hr' & Ha)%(ok_granted _ Hok). congruence.
Qed.

Lemma select_attempt_permissions_set id t :
  list_to_set (select_attempt_permissions id t) =
  (set_map snd (permissions_of id (pairing_attempt_permissions t)) : gset string).
Proof. apply sorted_permissions_spec. Qed.
End permission_lists.

(** ** Environments without failures *)

Definition private_file (env : Env) (info : FileStat) : Prop :=
  Z.land (st_mode info) 61440 = 32768 /\ st_uid info = env_euid env /\ st_nlink info = 1 /\
  Z.land (st_mode info) 4095 = 384.
Definition absent_or_private (env : Env) (name : string) : Prop :=
  match env_stat env name with
  | StatOk info => private_file env info | StatNoent => True | StatFailed => False
  end.
Record healthy (env : Env) : Prop := {
  healthy_calls : forall n, env_fault env n = None;
  healthy_file : exists info, env_stat env (env_name env) = StatOk info /\ private_file env info;
  healthy_wal : absent_or_private env (env_name env +:+ "-wal");
  healthy_shm : absent_or_private env (env_name env +:+ "-shm");
  healthy_journal : absent_or_private env (env_name env +:+ "-journal")
}.

(** Programs that always return. *)
Class Returns {A} (m : op A) : Prop := returns im : exists a im', m im = (Ok a, im').
#[export] Instance ret_returns {A} (a : A) : Returns (ret a).
Proof. intros im. by eexists _, _. Qed.
#[export] Instance gets_returns {A} (f : Impl -> A) : Returns (gets f).
Proof. intros im. by eexists _, _. Qed.
#[export] Instance bind_returns {A B} (m : op A) (k : A -> op B) :
  Returns m -> (forall a, Returns (k a)) -> Returns (bind m k).
Proof.
  intros Hm Hk im. destruct (Hm im) as (a & im1 & H1). destruct (Hk a im1) as (b & im2 & H2).
  exists b, im2. apply bind_ok. eauto.
Qed.

(** A program returns a value that satisfies [Q], from the state [im]. *)
Definition wp {A} (m : op A) (Q : A -> Impl -> Prop) (im : Impl) : Prop :=
  exists a im', m im = (Ok a, im') /\ Q a im'.
Lemma wp_bind {A B} (m : op A) (k : A -> op B) Q im :
  wp m (fun a => wp (k a) Q) im -> wp (bind m k) Q im.
Proof. intros (a & im1 & H1 & (b & im2 & H2 & HQ)). exists b, im2. rewrite bind_ok. eauto. Qed.
Lemma wp_require msg b (Q : unit -> Impl -> Prop) im : b = true -> Q tt im -> wp (require_msg msg b) Q im.
Proof. intros -> HQ. by exists tt, im. Qed.
Lemma wp_read {A} (m : op A) `{!ReadOnly m, !Returns m} (Q : A -> Impl -> Prop) im :
  (forall a im', frame im im' -> Q a im') -> wp m Q im.
Proof.
  intros HQ. destruct (returns im (m:=m)) as (a & im' & H). exists a, im'. split; [done|].
  apply HQ. exact (read_only_ok _ _ _ _ H).
Qed.

Section healthy_runs.
Context {txt : SqlText} (env : Env) (Henv : healthy env).

#[local] Instance sql_call_returns : Returns (sql_call env).
Proof. intros im. unfold sql_call. rewrite (healthy_calls _ Henv). by eexists _, _. Qed.
#[local] Instance bind_value_returns : Returns (bind_value env).
Proof. apply sql_call_returns. Qed.
#[local] Instance run_read_returns {A} (q : Tables -> A) : Returns (run_read env q).
Proof. unfold run_read. apply _. Qed.
#[local] Instance fetch_rows_returns rows : Returns (fetch_rows env rows).
Proof. induction rows as [|row rows IH]; cbn [fetch_rows]; apply _. Qed.
#[local] Instance read_permissions_returns id b : Returns (read_permissions env id b).
Proof. unfold read_permissions. apply _. Qed.

Lemma inspect_private name info im :
  env_stat env name = StatOk info -> private_file env info -> inspect_file env name im = (Ok true, im).
Proof.
  intros Hs (H1 & H2 & H3 & H4). unfold inspect_file. unfold private_stat. rewrite Hs, H1, H2, H3, H4, !Z.eqb_refl. done.
Qed.
Lemma inspect_returns name : absent_or_private env name -> Returns (inspect_file env name).
Proof.
  unfold absent_or_private. intros Hp im. destruct (env_stat env name) as [info| |] eqn:Hs; try done.
  - eexists _, _. by eapply inspect_private.
  - unfold inspect_file. rewrite Hs. by eexists _, _.
Qed.
#[local] Instance check_files_returns : Returns (check_files env).
Proof.
  destruct (healthy_file _ Henv) as (info & Hs & Hp). unfold check_files. intros im.
  unfold bind at 1. rewrite (inspect_private _ _ _ Hs Hp).
  revert im. change (Returns (require_msg "established database is missing" true;;;
    inspect_file env (env_name env +:+ "-wal");;; inspect_file env (env_name env +:+ "-shm");;;
    inspect_file env (env_name env +:+ "-journal");;; ret tt)).
  apply bind_returns; [apply ret_returns|intros _].
  repeat (apply bind_returns; [apply inspect_returns, Henv|intros _]). apply ret_returns.
Qed.
#[local] Instance transaction_returns {A} (body : op A) : Returns body -> Returns (transaction env body).
Proof.
  intros Hb im. unfold transaction. destruct (sql_call_returns im) as ([] & im1 & ->).
  assert (Hb' : Returns (bind body (fun a => sql_call env;;; ret a))) by apply _.
  destruct (Hb' im1) as (a & im2 & ->). eauto.
Qed.

Lemma find_active_authorization_returns u k : Returns (find_active_authorization env u k).
Proof.
  unfold find_active_authorization. apply bind_returns; [apply _|intros _]. apply transaction_returns.
  do 3 (apply bind_returns; [apply _|intros _]). apply bind_returns; [apply _|]. intros [r|]; apply _.
Qed.

Lemma wp_run_write stmt t' n (Q : unit -> Impl -> Prop) im :
  stmt (im_tables im) = Some (t', n) ->
  (forall im', im_tables im' = t' -> im_changes im' = n -> same_meta im im' -> Q tt im') ->
  wp (run_write env stmt) Q im.
Proof.
  intros Hs HQ. unfold run_write. apply wp_bind. apply wp_read; [apply _..|]. intros _ im1 [Ht Hg Hd].
  eexists tt, _. split.
  - apply bind_ok. exists (im_tables im1), im1. split; [done|]. rewrite Ht, Hs. done.
  - apply HQ; [done..|]. by split.
Qed.

Lemma wp_transaction {A} (body : op A) (Q : A -> Impl -> Prop) im :
  (forall im1, frame im im1 -> wp body (fun a im2 => forall im', frame im2 im' -> Q a im') im1) ->
  wp (transaction env body) Q im.
Proof.
  intros Hb. unfold wp, transaction. destruct (sql_call_returns im) as ([] & im1 & H1). rewrite H1.
  apply (read_only_ok _) in H1.
  destruct (Hb im1 H1) as (a & im2 & H2 & HQ). destruct (sql_call_returns im2) as ([] & im3 & H3).
  exists a, im3. split.
  - unfold bind at 1. rewrite H2. unfold bind. by rewrite H3.
  - apply HQ. exact (read_only_ok _ _ _ _ H3).
Qed.

(** The row written by a revocation passes the table's checks. *)
Lemma revoked_row_ok u old revoked_at :
  device_row_ok u old = true -> r_paired_at old <= revoked_at ->
  device_row_ok u (revoked_row revoked_at old) = true.
Proof.
  unfold device_row_ok. intros Hb Hat. bool_inv. cbn.
  repeat match goal with H : ?x = true |- context [?x] => rewrite H end.
  repeat (apply andb_true_intro; split); try done; try (apply Z.leb_le; lia); try (apply Nat.eqb_eq; lia).
Qed.

Lemma wp_revoke u old revoked_at im :
  trusted_devices (im_tables im) !! u = Some old -> device_row_ok u old = true ->
  r_revision old < int64_max -> r_paired_at old <= revoked_at ->
  wp (revoke_device env u (r_revision old) revoked_at) (fun _ _ => True) im.
Proof.
  intros Hold Hrow Hmax Hat. pose proof (revoked_row_ok _ _ _ Hrow Hat) as Hrow'.
  unfold revoke_device. apply wp_bind, wp_require.
  { unfold device_row_ok in Hrow. bool_inv. apply andb_true_intro. split; [apply Z.gtb_lt|apply Z.ltb_lt]; lia. }
  apply wp_bind. apply wp_read; [apply _..|]. intros _ im1 H1.
  apply wp_bind, wp_transaction. intros im2 H2.
  do 4 (apply wp_bind; apply wp_read; [apply _..|]; intros _ ? ?).
  match goal with |- wp _ _ ?i => assert (Hd : trusted_devices (im_tables i) !! u = Some old) end.
  { repeat match goal with H : frame _ _ |- _ => apply frame_tables in H; rewrite ?H; revert H end.
    intros. fold_states. done. }
  apply wp_bind. eapply wp_run_write.
  { unfold update_device_row. rewrite Hd, Z.eqb_refl, Hrow'. reflexivity. }
  intros im3 _ Hn _. apply wp_bind. unfold changed_one. apply wp_bind.
  exists (im_changes im3), im3. split; [done|]. apply wp_require; [lia|].
  do 2 (apply wp_bind; apply wp_read; [apply _..|]; intros _ ? ?).
  eapply wp_run_write; [reflexivity|]. intros im4 _ _ _ im5 _. by eexists _, _.
Qed.
End healthy_runs.

(** ** The contract *)

Section theorems.
Context {txt : SqlText}.

(** C8. Every request of the trust store is atomic: when it throws -- whichever
    SQLite call failed, whatever the files or the clocks look like, at
    whatever point of the transaction -- the tables, the generation and the data
    version are those before the request. *)
Theorem store_atomic env req im e im' :
  execute env req im = (Throw e, im') ->
  im_tables im' = im_tables im /\ im_local_generation im' = im_local_generation im /\
  im_data_version im' = im_data_version im.
Proof. intros H. destruct (execute_atomic env req im e im' H). auto. Qed.

(** C32. Every history of requests keeps the database well formed: rows satisfy
    their constraints, no two devices share a public key, permissions belong
    to ACTIVE devices only, proposed permissions to existing attempts, and
    revisions fit 64-bit signed integers. *)
Theorem store_invariant h im : tables_ok (im_tables im) -> tables_ok (im_tables (replay h im)).
Proof. apply replay_effect. Qed.

(** C1. Every history of requests refines the ledger: the entries of the database
    (key, status, revision, granted permissions) evolve by the ledger's add, edit,
    revoke and reactivate steps, each performed by the request at its place. *)
Theorem store_refines_ledger h im :
  tables_ok (im_tables im) -> ledger_run h (im_ledger im) (im_ledger (replay h im)).
Proof. apply replay_effect. Qed.

(** What the authorization query computes. *)
Definition active_authorization (u : TrustUuid) (k : TrustPublicKey) (t : Tables)
  : option ActivePeerAuthorization :=
  match select_active_revision u k t with
  | Some revision => Some (mkActivePeerAuthorization revision (select_device_permissions u t))
  | None => None
  end.

Lemma find_active_authorization_ok env u k im r im' :
  find_active_authorization env u k im = (Ok r, im') ->
  r = active_authorization u k (im_tables im) /\ frame im im'.
Proof.
  intros H. split; [|exact (read_only_ok _ _ _ _ H)]. unfold find_active_authorization in H.
  repeat op_inv_step. fold_states. unfold active_authorization. subst.
  destruct (select_active_revision u k (im_tables im)); repeat op_inv_step; fold_states; [|done].
  by subst.
Qed.

Lemma status_entry u r ps :
  device_row_ok u r = true -> (e_status (entry_of u r ps) = Active <-> r_status r = "ACTIVE") /\
  (e_status (entry_of u r ps) = Revoked <-> r_status r = "REVOKED").
Proof.
  intros [H|H]%device_row_status; unfold entry_of; cbn; rewrite H; cbn; naive_solver.
Qed.

(** The authorization query is exact.  When it returns, it reports an
    authorization exactly when the ledger holds an ACTIVE entry for that UUID
    pinned to that public key, with the entry's revision and its permissions in
    byte order without duplicates; and it changes nothing.  In an environment
    without failures it always returns. *)
Theorem authorization_exact env u k im :
  tables_ok (im_tables im) ->
  (forall r im', find_active_authorization env u k im = (Ok r, im') ->
     frame im im' /\
     match r with
     | Some a => exists e, im_ledger im !! u = Some e /\ e_key e = k /\ e_status e = Active /\
                   auth_revision a = e_revision e /\ lists_set (auth_permissions a) (e_permissions e)
     | None => forall e, im_ledger im !! u = Some e -> e_key e = k -> e_status e = Revoked
     end) /\
  (healthy env -> exists r im', find_active_authorization env u k im = (Ok r, im')).
Proof.
  intros Hok. split.
  - intros r im' [-> Hf]%find_active_authorization_ok. split; [done|].
    unfold im_ledger, active_authorization, select_active_revision. rewrite ledger_lookup.
    destruct (trusted_devices (im_tables im) !! u) as [row|] eqn:Hrow; [|done]. cbn [fmap option_fmap option_map].
    destruct (ok_devices _ Hok _ _ Hrow) as [Hro _].
    destruct (bool_decide (r_public_key row = k) && bool_decide (r_status row = "ACTIVE")) eqn:Hb.
    + bool_inv. eexists. split_and!; [done|done|by apply status_entry|done|].
      by eapply select_device_permissions_spec.
    + intros e [= <-] Hk. apply status_entry; [done|]. cbn in Hk.
      rewrite bool_decide_true in Hb by done. cbn in Hb. bool_inv.
      by destruct (device_row_status _ _ Hro).
  - intros Henv. by apply find_active_authorization_returns.
Qed.

Lemma revoke_revoked env u expected revoked_at im im' :
  revoke_device env u expected revoked_at im = (Ok tt, im') ->
  exists e, im_ledger im' !! u = Some e /\ e_status e = Revoked.
Proof.
  intros (old & _ & _ & _ & Ht & _ & _)%revoke_device_ok. unfold im_ledger.
  rewrite ledger_lookup, Ht. cbn. rewrite lookup_insert_eq. cbn. eauto.
Qed.

(** A revoked entry gives no authorization. *)
Lemma revoked_unauthorized im u k e :
  tables_ok (im_tables im) -> im_ledger im !! u = Some e -> e_status e = Revoked ->
  active_authorization u k (im_tables im) = None.
Proof.
  unfold im_ledger. rewrite ledger_lookup. intros Hok He Hs. unfold active_authorization, select_active_revision.
  destruct (trusted_devices (im_tables im) !! u) as [row|] eqn:Hrow; [|done].
  injection He as <-. apply status_entry in Hs; [|by destruct (ok_devices _ Hok _ _ Hrow)].
  rewrite Hs. by rewrite andb_false_r.
Qed.

(** C20. Revocation is final.  After a successful [revoke_device], through every
    later history that does not complete a pairing with that UUID, no
    authorization is reported for it, under any public key. *)
Theorem revocation_final env u expected revoked_at im im1 h :
  tables_ok (im_tables im) ->
  revoke_device env u expected revoked_at im = (Ok tt, im1) ->
  Forall (fun er => ~ may_pair u er) h ->
  forall env' k r im', find_active_authorization env' u k (replay h im1) = (Ok r, im') -> r = None.
Proof.
  intros Hok Hrev Hh env' k r im' [-> _]%find_active_authorization_ok.
  pose proof (revoke_effect _ _ _ _ _ _ _ Hok Hrev) as [Hok1 _].
  destruct (revoke_revoked _ _ _ _ _ _ Hrev) as (e & He & Hs).
  destruct (replay_effect h im1 Hok1) as [Hok2 Hrun].
  destruct (run_revoked _ _ _ _ _ Hrun Hh He Hs) as (e' & He' & Hs'). by eapply revoked_unauthorized.
Qed.

(** C31. The binding of a UUID to its public key is permanent: through every
    history, a known peer stays known under the same key, its revision never
    decreases, and no other UUID ever carries that key. *)
Theorem key_binding_permanent h im u e :
  tables_ok (im_tables im) -> im_ledger im !! u = Some e ->
  exists e', im_ledger (replay h im) !! u = Some e' /\ e_key e' = e_key e /\
    e_revision e <= e_revision e' /\
    forall v e2, im_ledger (replay h im) !! v = Some e2 -> e_key e2 = e_key e -> v = u.
Proof.
  intros Hok Hu. destruct (replay_effect h im Hok) as [Hok' Hrun].
  destruct (run_entry _ _ _ _ _ Hrun Hu) as (e' & He' & Hk & Hr). exists e'. split_and!; try done.
  intros v e2 Hv Hk2. unfold im_ledger in He', Hv. rewrite ledger_lookup in He', Hv.
  destruct (trusted_devices _ !! u) as [r1|] eqn:H1; [|done].
  destruct (trusted_devices _ !! v) as [r2|] eqn:H2; [|done].
  injection He' as <-. injection Hv as <-. cbn in *. eapply (ok_unique _ Hok'); [done..|congruence].
Qed.

(** The revision a request is conditional on. *)
Definition revision_guard (req : request) : option (TrustUuid * Z) :=
  match req with
  | ReqUpdate d r => Some (d_uuid d, r)
  | ReqRevoke u r _ => Some (u, r)
  | _ => None
  end.

Lemma guarded_revision env req im im' u expected :
  revision_guard req = Some (u, expected) -> execute env req im = (Ok tt, im') ->
  (exists e, im_ledger im !! u = Some e /\ e_revision e = expected) /\
  (exists e, im_ledger im' !! u = Some e /\ e_revision e = expected + 1).
Proof.
  intros Hg H. unfold im_ledger. rewrite !ledger_lookup.
  destruct req as [| | | | |d r|v r at_| | | | | | |]; try discriminate; cbn in H, Hg; injection Hg as <- <-.
  - apply update_device_ok in H as (old & Hold & (_ & _ & Hr) & _ & Ht & _ & Hrev & _).
    rewrite Hold, Ht. cbn. rewrite lookup_insert_eq. split; (eexists; split; [reflexivity|done]).
  - apply revoke_device_ok in H as (old & Hold & Hr & _ & Ht & _).
    rewrite Hold, Ht. cbn. rewrite lookup_insert_eq. split; (eexists; split; [reflexivity|cbn; lia]).
Qed.

(** No lost updates: once a revision-guarded request ([update_device] or
    [revoke_device]) on a peer has succeeded, any later request guarded by the
    same revision of that peer throws and changes nothing, whatever happened in
    between. *)
Theorem stale_revision_rejected env req im im1 u expected h env' req' :
  tables_ok (im_tables im) -> revision_guard req = Some (u, expected) ->
  execute env req im = (Ok tt, im1) -> revision_guard req' = Some (u, expected) ->
  exists e im', execute env' req' (replay h im1) = (Throw e, im') /\ im_tables im' = im_tables (replay h im1).
Proof.
  intros Hok Hg Hx Hg'. pose proof (execute_effect env req im Hok) as [Hok1 _]. rewrite Hx in Hok1; cbn in Hok1.
  destruct (guarded_revision _ _ _ _ _ _ Hg Hx) as [_ (e1 & He1 & Hr1)].
  destruct (replay_effect h im1 Hok1) as [_ Hrun].
  destruct (run_entry _ _ _ _ _ Hrun He1) as (e2 & He2 & _ & Hr2).
  destruct (execute env' req' (replay h im1)) as [[[]|e] im'] eqn:Hx'.
  - destruct (guarded_revision _ _ _ _ _ _ Hg' Hx') as [(e3 & He3 & Hr3) _].
    rewrite He2 in He3. injection He3 as ->. lia.
  - exists e, im'. split; [done|]. by destruct (execute_atomic _ _ _ _ _ Hx').
Qed.

(** Revocation is always available: without environment failures, revoking a
    known peer at its current revision succeeds, provided the revision is not
    exhausted and the time of revocation is not before the pairing. *)
Theorem revoke_available env u row revoked_at im :
  healthy env -> tables_ok (im_tables im) ->
  trusted_devices (im_tables im) !! u = Some row ->
  r_revision row < int64_max -> r_paired_at row <= revoked_at ->
  exists im', revoke_device env u (r_revision row) revoked_at im = (Ok tt, im') /\
    exists e, im_ledger im' !! u = Some e /\ e_status e = Revoked /\
      e_revision e = r_revision row + 1 /\ e_permissions e = ∅.
Proof.
  intros Henv Hok Hrow Hmax Hat. destruct (ok_devices _ Hok _ _ Hrow) as [Hro _].
  destruct (wp_revoke env Henv u row revoked_at im Hrow Hro Hmax Hat) as ([] & im' & H & _).
  exists im'. split; [done|]. apply revoke_device_ok in H as (old & Hold & Hr & _ & Ht & _).
  rewrite Hrow in Hold. injection Hold as <-.
  assert (Ht' : im_tables im' = put_device u (revoked_row revoked_at row) [] (im_tables im)).
  { unfold put_device. by rewrite add_permissions_nil. }
  unfold im_ledger. rewrite Ht', ledger_put, lookup_insert_eq. eauto.
Qed.

(** The permissions proposed by an attempt. *)
Definition proposed (id : TrustUuid) (t : Tables) : gset string :=
  set_map snd (permissions_of id (pairing_attempt_permissions t)).

(** C11. A pairing commits exactly what was confirmed: when [finalize_pairing]
    succeeds, the attempt existed at the expected revision, was confirmed by both
    sides, matched the finalized identity and was unexpired at both clock
    readings; the peer was unknown or revoked under the same key; it is now
    ACTIVE with revision 1, or one above the old one, with exactly the proposed
    permissions; and the attempt is gone. *)
Theorem pairing_commits_confirmed env id expected f im im' :
  tables_ok (im_tables im) -> finalize_pairing env id expected f im = (Ok tt, im') ->
  exists a, pairing_attempts (im_tables im) !! id = Some a /\
    t_status a = "CONFIRMED" /\ t_local_confirmed a = 1 /\ t_peer_confirmed a = 1 /\
    t_revision a = expected /\ env_now env <= t_expires_at a /\ env_completion_time env <= t_expires_at a /\
    t_peer_uuid a = f_peer_uuid f /\ t_peer_public_key a = f_peer_public_key f /\
    match im_ledger im !! f_peer_uuid f with
    | None => im_ledger im' !! f_peer_uuid f =
                Some (mkEntry (f_peer_public_key f) Active 1 (proposed id (im_tables im)))
    | Some old => e_key old = f_peer_public_key f /\ e_status old = Revoked /\
                  im_ledger im' !! f_peer_uuid f =
                    Some (mkEntry (e_key old) Active (e_revision old + 1) (proposed id (im_tables im)))
    end /\
    pairing_attempts (im_tables im') !! id = None.
Proof.
  intros Hok (a & rev & re & Ha & Hc1 & Hc2 & Hu & Hk & Hex & Hrow & Hps & Ht & Hadv)%finalize_pairing_ok.
  assert (Hl : im_ledger im' = <[f_peer_uuid f := mkEntry (f_peer_public_key f) Active rev
                  (proposed id (im_tables im))]> (im_ledger im)).
  { unfold im_ledger, proposed. rewrite <-select_attempt_permissions_set, Ht.
    change (mkEntry _ _ _ _) with (entry_of (f_peer_uuid f) (device_row (finalized_device f rev (env_now env)))
      (list_to_set (select_attempt_permissions id (im_tables im)))).
    rewrite <-ledger_put. by apply ledger_of_congr. }
  exists a. unfold confirmed_attempt in *. bool_inv. split_and!; try done.
  - rewrite Hl. unfold im_ledger. rewrite ledger_lookup.
    destruct (trusted_devices (im_tables im) !! f_peer_uuid f) as [old|]; cbn; rewrite lookup_insert_eq.
    + destruct Hex as (Hk' & Hs & _ & [= -> _]). rewrite Hs, Hk'. done.
    + by destruct Hex as [[= -> _] _].
  - rewrite Ht. cbn. apply lookup_delete_eq.
Qed.

(** ** Attempts are used once *)

Definition creates_attempt (id : TrustUuid) (er : Env * request) : Prop :=
  match er.2 with ReqCreateAttempt a => a_attempt_id a = id | _ => False end.

Lemma execute_attempt_absent env req im id :
  ~ creates_attempt id (env, req) -> pairing_attempts (im_tables im) !! id = None ->
  pairing_attempts (im_tables (snd (execute env req im))) !! id = None.
Proof.
  intros Hno Hid. destruct (execute env req im) as [[[]|e] im'] eqn:H; cbn [snd].
  2: { apply execute_atomic in H as [-> _ _]. done. }
  destruct (read_request req) eqn:Hread.
  { pose proof (execute_read_only env req Hread im) as Hf. rewrite H in Hf; cbn in Hf.
    by rewrite (frame_tables _ _ Hf). }
  destruct req; try done; cbn [execute] in H.
  - apply import_device_ok in H as (t & n & Hins & -> & _). revert Hins. unfold insert_device.
    case_match; [|done]. by intros [= <- <-].
  - by apply update_device_ok in H as (? & _ & _ & _ & -> & _).
  - by apply revoke_device_ok in H as (? & _ & _ & _ & -> & _).
  - apply create_attempt_ok in H as (t & n & Hins & -> & _). revert Hins. unfold insert_attempt.
    case_match; [|done]. intros [= <- <-]. cbn. by rewrite lookup_insert_ne.
  - apply update_attempt_ok in H as (t & Hupd & -> & _). revert Hupd. unfold update_attempt_row.
    destruct (pairing_attempts (im_tables im) !! a_attempt_id a) eqn:Ha; [|done].
    repeat (case_match; [|done]). intros [= <-]. cbn. rewrite lookup_insert_ne by congruence. done.
  - apply delete_attempt_ok in H as (? & _ & _ & -> & _). cbn.
    rewrite lookup_delete_None. auto.
  - apply finalize_pairing_ok in H as (? & ? & ? & _ & _ & _ & _ & _ & _ & _ & _ & -> & _). cbn.
    rewrite lookup_delete_None. auto.
Qed.

Lemma replay_attempt_absent h im id :
  Forall (fun er => ~ creates_attempt id er) h -> pairing_attempts (im_tables im) !! id = None ->
  pairing_attempts (im_tables (replay h im)) !! id = None.
Proof.
  intros Hh. revert im. induction Hh as [|[env req] h Hno Hh IH]; intros im Hid; cbn [replay]; [done|].
  by apply IH, execute_attempt_absent.
Qed.

(** A pairing attempt is used at most once: after it was finalized, as long as
    no attempt is created under the same id, every further attempt to finalize it
    throws and leaves the tables alone. *)
Theorem attempt_single_use env id expected f im im1 h env' expected' f' :
  finalize_pairing env id expected f im = (Ok tt, im1) ->
  Forall (fun er => ~ creates_attempt id er) h ->
  exists e im', finalize_pairing env' id expected' f' (replay h im1) = (Throw e, im') /\
    im_tables im' = im_tables (replay h im1).
Proof.
  intros H Hh.
  assert (Hgone : pairing_attempts (im_tables im1) !! id = None).
  { apply finalize_pairing_ok in H as (? & ? & ? & _ & _ & _ & _ & _ & _ & _ & _ & -> & _).
    cbn. apply lookup_delete_eq. }
  pose proof (replay_attempt_absent h im1 id Hh Hgone) as Habs.
  destruct (finalize_pairing env' id expected' f' (replay h im1)) as [[[]|e] im'] eqn:H'.
  - apply finalize_pairing_ok in H' as (a & ? & ? & Ha & _). congruence.
  - exists e, im'. split; [done|]. by destruct (execute_atomic env' (ReqFinalize id expected' f') _ _ _ H').
Qed.

(** ** The change token *)

Lemma change_token_ok env im tok im' :
  change_token env im = (Ok tok, im') ->
  tok = (im_local_generation im, to_int (im_data_version im)) /\ frame im im'.
Proof.
  intros H. split; [|exact (read_only_ok _ _ _ _ H)]. unfold change_token in H.
  apply bind_ok in H as (? & s1 & H1 & (? & s2 & H2 & (? & s3 & H3 & [= <- <-])%bind_ok)%bind_ok).
  apply (read_only_ok _) in H1, H2, H3. destruct H1, H2, H3. congruence.
Qed.

Lemma replay_generation h im :
  tables_ok (im_tables im) -> 0 <= im_local_generation im < 2 ^ 64 ->
  exists n, (n <= length h)%nat /\
    im_local_generation (replay h im) = (im_local_generation im + Z.of_nat n) `mod` 2 ^ 64 /\
    (n = 0%nat -> im_ledger (replay h im) = im_ledger im).
Proof.
  revert im. induction h as [|[env req] h IH]; intros im Hok Hg; cbn [replay length].
  { exists 0%nat. split_and!; [lia| |done]. rewrite Z.add_0_r, Z.mod_small; done. }
  destruct (execute_effect env req im Hok) as [Hok' [[Hl [Hm _]]|(v & a & _ & _ & [Hm _])]].
  - destruct (IH _ Hok') as (n & Hn & Hgen & Hled); [by rewrite Hm|].
    exists n. split_and!; [lia|by rewrite Hgen, Hm|]. intros H0. rewrite (Hled H0). exact Hl.
  - destruct (IH _ Hok') as (n & Hn & Hgen & Hled).
    { rewrite Hm. unfold u64_succ. by apply Z.mod_pos_bound. }
    exists (S n). split_and!; [lia| |lia]. rewrite Hgen, Hm. unfold u64_succ.
    rewrite Z.add_mod_idemp_l by lia. f_equal. lia.
Qed.

(** Equal generations after fewer than 2^64 requests: no ledger step happened. *)
Lemma same_generation_same_ledger h im :
  tables_ok (im_tables im) -> 0 <= im_local_generation im < 2 ^ 64 -> Z.of_nat (length h) < 2 ^ 64 ->
  im_local_generation (replay h im) = im_local_generation im -> im_ledger (replay h im) = im_ledger im.
Proof.
  intros Hok Hg Hlen Hgen. destruct (replay_generation h im Hok Hg) as (n & Hn & Hgen' & Hled).
  apply Hled. rewrite Hgen' in Hgen.
  destruct (decide (n = 0%nat)) as [|Hne]; [done|exfalso].
  destruct (Z.lt_ge_cases (im_local_generation im + Z.of_nat n) (2 ^ 64)).
  - rewrite Z.mod_small in Hgen; lia.
  - rewrite <-(Z.mod_unique (im_local_generation im + Z.of_nat n) (2 ^ 64) 1
      (im_local_generation im + Z.of_nat n - 2 ^ 64)) in Hgen; lia.
Qed.

(** The change token is sound: when it reads the same before and after fewer
    than 2^64 requests, the ledger is the same, hence so is every authorization. *)
Theorem change_token_sound env im tok im1 h env' im2 :
  tables_ok (im_tables im) -> 0 <= im_local_generation im < 2 ^ 64 ->
  change_token env im = (Ok tok, im1) -> Z.of_nat (length h) < 2 ^ 64 ->
  change_token env' (replay h im1) = (Ok tok, im2) ->
  im_ledger im2 = im_ledger im.
Proof.
  intros Hok Hg [-> Hf]%change_token_ok Hlen [Htok Hf2]%change_token_ok. injection Htok as Hgen Hdv.
  unfold im_ledger. rewrite (frame_tables _ _ Hf2), <-(frame_tables _ _ Hf).
  apply same_generation_same_ledger; [by rewrite (frame_tables _ _ Hf)|by rewrite (frame_generation _ _ Hf)|done|].
  by rewrite (frame_generation _ _ Hf).
Qed.

(** Authorizations are determined by the ledger. *)
Lemma lists_set_unique ps ps' s : lists_set ps s -> lists_set ps' s -> ps = ps'.
Proof.
  intros (Hs & Hn & He) (Hs' & Hn' & He'). apply (Sorted_unique String.le); [done|done|].
  apply NoDup_Permutation; [done..|]. intros x.
  rewrite <-(elem_of_list_to_set (C:=gset string)), He, <-He'. apply elem_of_list_to_set.
Qed.

Lemma active_authorization_entry u k t t' :
  tables_ok t -> tables_ok t' -> ledger_of t' !! u = ledger_of t !! u ->
  active_authorization u k t' = active_authorization u k t.
Proof.
  intros Hok Hok' Hu.
  rewrite !ledger_lookup in Hu. unfold active_authorization, select_active_revision.
  destruct (trusted_devices t !! u) as [r|] eqn:Hr, (trusted_devices t' !! u) as [r'|] eqn:Hr'; try done.
  injection Hu as Hk Hs Hrev Hg.
  destruct (ok_devices _ Hok _ _ Hr) as [Hro _]. destruct (ok_devices _ Hok' _ _ Hr') as [Hro' _].
  assert (Hst : r_status r' = r_status r).
  { apply device_row_status in Hro as [E|E], Hro' as [E'|E']; rewrite E, E' in Hs; vm_compute in Hs; congruence. }
  rewrite Hk, Hst, Hrev.
  destruct (bool_decide (r_public_key r = k) && bool_decide (r_status r = "ACTIVE")) eqn:Hb; [|done].
  bool_inv. do 2 f_equal.
  apply (lists_set_unique _ _ (granted u t)).
  - rewrite <-Hg. apply (select_device_permissions_spec u r'); congruence.
  - by apply (select_device_permissions_spec u r).
Qed.

Lemma active_authorization_ledger u k t t' :
  tables_ok t -> tables_ok t' -> ledger_of t' = ledger_of t ->
  active_authorization u k t' = active_authorization u k t.
Proof. intros Hok Hok' Hl. apply active_authorization_entry; [done..|]. by rewrite Hl. Qed.

(** An authorization carries the revision of the entry. *)
Lemma active_authorization_revision u k t revision ps :
  active_authorization u k t = Some (mkActivePeerAuthorization revision ps) ->
  exists e, ledger_of t !! u = Some e /\ e_revision e = revision.
Proof.
  unfold active_authorization, select_active_revision. rewrite ledger_lookup.
  destruct (trusted_devices t !! u) as [row|]; [|done]. destruct (_ && _); [|done].
  intros [= <- _]. eexists. split; [reflexivity|done].
Qed.

(** ** Reading records back *)

(** The record of a row with its permissions. *)
Definition device_of (u : TrustUuid) (r : DeviceRow) (ps : list string) : TrustedDevice :=
  mkTrustedDevice u (r_public_key r) (if bool_decide (r_status r = "ACTIVE") then Active else Revoked)
    (r_revision r) (r_local_alias r) (r_peer_name r) (r_peer_platform r) (r_pairing_method r)
    (r_paired_at r) (r_revoked_at r) (r_last_authenticated_at r) ps.
Definition with_permissions (d : TrustedDevice) (ps : list string) : TrustedDevice :=
  mkTrustedDevice (d_uuid d) (d_public_key d) (d_status d) (d_revision d) (d_local_alias d) (d_peer_name d)
    (d_peer_platform d) (d_pairing_method d) (d_paired_at d) (d_revoked_at d) (d_last_authenticated_at d) ps.

Lemma read_device_ok env q im r im' :
  read_device env q im = (Ok r, im') ->
  r = (fun ur => device_of ur.1 ur.2 (select_device_permissions ur.1 (im_tables im))) <$> q (im_tables im).
Proof.
  unfold read_device. intros H. op_inv_step. op_inv_step. subst.
  destruct (q (im_tables im)) as [[u row]|]; repeat op_inv_step; [|done]. subst. fold_states. done.
Qed.

Lemma find_device_ok env u im r im' :
  find_device env u im = (Ok r, im') ->
  r = (fun row => device_of u row (select_device_permissions u (im_tables im))) <$>
        trusted_devices (im_tables im) !! u.
Proof.
  unfold find_device. intros H.
  repeat (match goal with H : read_device _ _ _ = _ |- _ => apply read_device_ok in H; subst end
          || op_inv_step). fold_states. by destruct (trusted_devices (im_tables im) !! u).
Qed.

Lemma find_by_public_key_ok env k im r im' :
  find_by_public_key env k im = (Ok r, im') ->
  r = (fun ur => device_of ur.1 ur.2 (select_device_permissions ur.1 (im_tables im))) <$>
        select_by_public_key k (im_tables im).
Proof.
  unfold find_by_public_key. intros H.
  repeat (match goal with H : read_device _ _ _ = _ |- _ => apply read_device_ok in H; subst end
          || op_inv_step). fold_states. done.
Qed.

Lemma select_by_public_key_unique t u r :
  tables_ok t -> trusted_devices t !! u = Some r -> select_by_public_key (r_public_key r) t = Some (u, r).
Proof.
  intros Hok Hu. unfold select_by_public_key.
  destruct (filter _ (map_to_list (trusted_devices t))) as [|[v r'] rest] eqn:Hf.
  - exfalso. apply (not_elem_of_nil (u, r)). rewrite <-Hf. apply list_elem_of_filter.
    split; [done|]. by apply elem_of_map_to_list.
  - assert (Hin : (v, r') ∈ filter (fun ur => r_public_key ur.2 = r_public_key r) (map_to_list (trusted_devices t))).
    { rewrite Hf. left. }
    apply list_elem_of_filter in Hin as [Hk Hv]. apply elem_of_map_to_list in Hv. cbn in *.
    assert (v = u) as -> by (by eapply (ok_unique _ Hok)). congruence.
Qed.

(** What the administrator imports is what is read back: after a successful
    import, both lookups that return give the same record, field by field, with
    its permissions as a set in byte order. *)
Theorem import_find_roundtrip env d im im1 env' r im2 r' im3 :
  tables_ok (im_tables im) -> import_device_for_admin env d im = (Ok tt, im1) ->
  find_device env' (d_uuid d) im1 = (Ok r, im2) ->
  find_by_public_key env' (d_public_key d) im1 = (Ok r', im3) ->
  exists ps, lists_set ps (list_to_set (d_permissions d)) /\
    r = Some (with_permissions d ps) /\ r' = Some (with_permissions d ps).
Proof.
  intros Hok Himp ->%find_device_ok ->%find_by_public_key_ok.
  pose proof (import_effect _ _ _ _ _ Hok Himp) as [Hok1 _].
  apply import_device_ok in Himp as (t & n & Hins & Ht & _ & Hperm & _).
  revert Hins. unfold insert_device. case_match eqn:Hb; [|done]. intros [= <- <-].
  apply andb_prop in Hb as [[Hrow Hnone%bool_decide_eq_true]%andb_prop _].
  rewrite import_is_put in Ht by done.
  assert (Hl : trusted_devices (im_tables im1) !! d_uuid d = Some (device_row d)).
  { rewrite Ht, put_lookup. by rewrite decide_True. }
  change (d_public_key d) with (r_public_key (device_row d)).
  rewrite (select_by_public_key_unique _ _ _ Hok1 Hl), Hl. cbn [fmap option_fmap option_map fst snd].
  exists (select_device_permissions (d_uuid d) (im_tables im1)).
  assert (Hd : forall ps, device_of (d_uuid d) (device_row d) ps = with_permissions d ps).
  { intros ps. unfold device_of, with_permissions; cbn. by destruct (d_status d). }
  rewrite Hd. split; [|done]. unfold select_device_permissions. rewrite Hl. cbn [r_status device_row].
  destruct (d_status d); cbn [trust_status_text].
  - pose proof (sorted_permissions_spec (d_uuid d) (device_permissions (im_tables im1))) as Hs.
    fold (granted (d_uuid d) (im_tables im1)) in Hs. rewrite Ht, granted_put, decide_True in Hs by done.
    by rewrite Ht.
  - rewrite Hperm by done. repeat split; constructor.
Qed.

(** The reported trust state: the status of a known peer takes precedence; an
    unknown peer is pending exactly when it has a PENDING or CONFIRMED attempt.  On
    well-formed tables a query that throws does so for its environment: without
    failures it always returns. *)
Theorem state_precise env u im :
  tables_ok (im_tables im) ->
  (forall s im', state env u im = (Ok s, im') ->
     match im_ledger im !! u with
     | Some e => s = match e_status e with Active => StateActive | Revoked => StateRevoked end
     | None => s = StatePairingPending <->
               (exists i a, pairing_attempts (im_tables im) !! i = Some a /\ t_peer_uuid a = u /\
                            (t_status a = "PENDING" \/ t_status a = "CONFIRMED"))
     end) /\
  (healthy env -> exists s im', state env u im = (Ok s, im')).
Proof.
  intros Hok. split.
  - intros s im' H. unfold state in H. do 8 op_inv_step. fold_states. subst.
    match goal with Hr : _ = (Ok s, im') |- _ => rename Hr into H end. unfold im_ledger. rewrite ledger_lookup.
    unfold select_state in H. destruct (trusted_devices (im_tables im) !! u) as [r|] eqn:Hr.
    + cbn. destruct (ok_devices _ Hok _ _ Hr) as [[Hs|Hs]%device_row_status _]; rewrite Hs in *; by injection H.
    + cbn. match type of H with context [bool_decide (map_Exists ?P ?m)] =>
        destruct (decide (map_Exists P m)) as [Hex|Hex];
        [rewrite (bool_decide_true _ Hex) in H|rewrite (bool_decide_false _ Hex) in H] end;
        injection H as <-.
      * split; [intros _|done]. destruct Hex as (i & row & Hi & Hp & Hst). eauto 6.
      * split; [done|]. intros (i & row & Hi & Hp & Hst). destruct Hex. exists i, row. auto.
  - intros Henv.
    pose proof (check_files_returns env Henv). pose proof (sql_call_returns env Henv).
    pose proof (bind_value_returns env Henv).
    enough (wp (state env u) (fun _ _ => True) im) as (s & im' & H' & _) by (by exists s, im').
    unfold state. apply wp_bind, wp_read; [apply _..|]. intros _ im1 Hf1. apply wp_bind, wp_read; [apply _..|]. intros _ im2 Hf2.
    apply wp_bind, wp_read; [apply _..|]. intros _ im3 Hf3. apply wp_bind.
    destruct (run_read_returns env Henv (select_state u) im3) as (v & im4 & H4). exists v, im4.
    split; [done|]. apply run_read_ok in H4 as [-> _].
    rewrite (frame_tables _ _ Hf3), (frame_tables _ _ Hf2), (frame_tables _ _ Hf1).
    unfold select_state. destruct (trusted_devices (im_tables im) !! u) as [r|] eqn:Hr.
    + destruct (ok_devices _ Hok _ _ Hr) as [[Hs|Hs]%device_row_status _]; rewrite Hs; by eexists _, _.
    + match goal with |- context [bool_decide (map_Exists ?P ?m)] =>
        destruct (bool_decide (map_Exists P m)) end; by eexists _, _.
Qed.
End theorems.

(** ** A scenario

    A concrete store: one peer imported, one confirmed pairing attempt with
    another peer, and environments with and without failures. *)

Module Scenario.

#[export] Instance bytes_text : SqlText := {| sql_length s := Z.of_nat (String.length s) |}.

Definition stat0 (name : string) : StatResult :=
  if bool_decide (name = "trust.db") then StatOk (mkFileStat 33152 1000 1 4096) else StatNoent.
Definition env0 : Env := mkEnv stat0 "trust.db" 1000 (fun _ => None) 1000 1001.
(** The twentieth SQLite call fails with SQLITE_FULL. *)
Definition env_full : Env :=
  mkEnv stat0 "trust.db" 1000 (fun n => if (n =? 19)%nat then Some 13 else None) 1000 1001.

Definition peer1 : TrustUuid := replicate 16 x01.
Definition key1 : TrustPublicKey := replicate 32 x11.
Definition peer2 : TrustUuid := replicate 16 x02.
Definition key2 : TrustPublicKey := replicate 32 x22.
Definition attempt_id : TrustUuid := replicate 16 x03.

Definition device1 : TrustedDevice :=
  mkTrustedDevice peer1 key1 Active 1 "desk" "peer" "linux" "admin" 900 None None ["ping"; "message"].
Definition device1_edited : TrustedDevice :=
  mkTrustedDevice peer1 key1 Active 2 "desk" "peer" "linux" "admin" 900 None None ["ping"].
Definition attempt2 : PairingAttempt :=
  mkPairingAttempt attempt_id peer2 key2 Confirmed 1 true true 900 950 2000 ["message"].
Definition finalization2 : PairingFinalization :=
  mkPairingFinalization peer2 key2 "phone" "peer" "android" "sas".

Definition fresh_store : Impl := mkImpl empty_tables 0 0 0 0.
Definition imported : Impl := snd (import_device_for_admin env0 device1 fresh_store).
Definition ready : Impl := snd (create_attempt env0 attempt2 imported).
Definition paired : Impl := snd (finalize_pairing env0 attempt_id 1 finalization2 ready).

Strategy expand [imported ready paired].

Lemma env0_healthy : healthy env0.
Proof. split; [done|by eexists|vm_compute; exact I..]. Qed.

Lemma imported_run : import_device_for_admin env0 device1 fresh_store = (Ok tt, imported).
Proof. unfold imported. apply run_eta. vm_compute. reflexivity. Qed.
Lemma imported_ok : tables_ok (im_tables imported).
Proof. exact (proj1 (import_effect env0 device1 fresh_store tt imported empty_tables_ok imported_run)). Qed.
Lemma ready_run : create_attempt env0 attempt2 imported = (Ok tt, ready).
Proof. unfold ready. apply run_eta. vm_compute. reflexivity. Qed.
Lemma ready_ok : tables_ok (im_tables ready).
Proof. exact (proj1 (create_attempt_effect env0 attempt2 imported tt ready imported_ok ready_run)). Qed.
Lemma paired_run : finalize_pairing env0 attempt_id 1 finalization2 ready = (Ok tt, paired).
Proof. unfold paired. apply run_eta. vm_compute. reflexivity. Qed.

Lemma store_atomic_witness :
  im_tables (snd (execute env_full (ReqImport device1) fresh_store)) = empty_tables.
Proof.
  apply (store_atomic env_full (ReqImport device1) fresh_store (SqliteError 13)).
  apply run_eta. vm_compute. reflexivity.
Defined.

Definition pairing_history : history := [(env0, ReqFinalize attempt_id 1 finalization2)].

Lemma store_invariant_witness : tables_ok (im_tables (replay pairing_history ready)).
Proof. exact (store_invariant pairing_history ready ready_ok). Defined.

Lemma store_refines_ledger_witness :
  ledger_run pairing_history (im_ledger ready) (im_ledger (replay pairing_history ready)).
Proof. exact (store_refines_ledger pairing_history ready ready_ok). Defined.

Lemma authorization_exact_witness :
  fst (find_active_authorization env0 peer1 key1 ready) =
    Ok (Some (mkActivePeerAuthorization 1 ["message"; "ping"])) /\
  exists r im', find_active_authorization env0 peer1 key1 ready = (Ok r, im').
Proof.
  split; [vm_compute; reflexivity|].
  exact (proj2 (authorization_exact env0 peer1 key1 ready ready_ok) env0_healthy).
Defined.

Definition revoked_store : Impl := snd (revoke_device env0 peer1 1 1000 ready).
Strategy expand [revoked_store].
Lemma revoked_run : revoke_device env0 peer1 1 1000 ready = (Ok tt, revoked_store).
Proof. unfold revoked_store. apply run_eta. vm_compute. reflexivity. Qed.

Lemma revocation_final_witness :
  exists r im', find_active_authorization env0 peer1 key1 (replay pairing_history revoked_store) = (Ok r, im') /\
    r = None.
Proof.
  eexists _, _. split; [apply run_eta; vm_compute; reflexivity|].
  apply (revocation_final env0 peer1 1 1000 ready revoked_store pairing_history ready_ok revoked_run)
    with (env' := env0) (k := key1)
         (im' := snd (find_active_authorization env0 peer1 key1 (replay pairing_history revoked_store))).
  - repeat constructor. cbn. discriminate.
  - apply run_eta. vm_compute. reflexivity.
Defined.

Lemma key_binding_permanent_witness :
  exists e', im_ledger (replay [(env0, ReqRevoke peer1 1 1000)] ready) !! peer1 = Some e' /\ e_key e' = key1.
Proof.
  destruct (key_binding_permanent [(env0, ReqRevoke peer1 1 1000)] ready peer1
    (mkEntry key1 Active 1 {["message"; "ping"]}) ready_ok) as (e' & H & Hk & _).
  - vm_compute. reflexivity.
  - eauto.
Defined.

Lemma stale_revision_rejected_witness :
  exists e im', execute env0 (ReqRevoke peer1 1 1000)
    (replay [] (snd (execute env0 (ReqUpdate device1_edited 1) ready))) = (Throw e, im').
Proof.
  destruct (stale_revision_rejected env0 (ReqUpdate device1_edited 1) ready
    (snd (execute env0 (ReqUpdate device1_edited 1) ready)) peer1 1 [] env0 (ReqRevoke peer1 1 1000) ready_ok)
    as (e & im' & H & _); [reflexivity|apply run_eta; vm_compute; reflexivity|reflexivity|eauto].
Defined.

Lemma revoke_available_witness :
  exists im', revoke_device env0 peer1 1 1000 ready = (Ok tt, im').
Proof.
  destruct (revoke_available env0 peer1 (device_row device1) 1000 ready env0_healthy ready_ok)
    as (im' & H & _); [vm_compute; reflexivity|vm_compute; reflexivity|discriminate|eauto].
Defined.

Lemma pairing_commits_confirmed_witness :
  exists a, pairing_attempts (im_tables ready) !! attempt_id = Some a /\ t_status a = "CONFIRMED".
Proof.
  destruct (pairing_commits_confirmed env0 attempt_id 1 finalization2 ready paired ready_ok) as (a & H & Hs & _);
    [exact paired_run|eauto].
Defined.

Lemma attempt_single_use_witness :
  exists e im', finalize_pairing env0 attempt_id 1 finalization2
    (replay [(env0, ReqRevoke peer2 1 1000)] paired) = (Throw e, im').
Proof.
  destruct (attempt_single_use env0 attempt_id 1 finalization2 ready paired [(env0, ReqRevoke peer2 1 1000)]
    env0 1 finalization2) as (e & im' & H & _);
    [exact paired_run|repeat constructor; cbn; tauto|eauto].
Defined.

Lemma change_token_sound_witness :
  im_ledger (snd (change_token env0 (replay [(env0, ReqDeleteAttempt attempt_id 1)]
                   (snd (change_token env0 ready))))) = im_ledger ready.
Proof.
  apply (change_token_sound env0 ready (1, 0) (snd (change_token env0 ready))
    [(env0, ReqDeleteAttempt attempt_id 1)] env0 _ ready_ok);
    [vm_compute; split; [discriminate|reflexivity]|apply run_eta; vm_compute; reflexivity|reflexivity
    |apply run_eta; vm_compute; reflexivity].
Defined.

Definition device1_sorted : TrustedDevice := with_permissions device1 ["message"; "ping"].

Lemma import_find_roundtrip_witness :
  exists ps, lists_set ps (list_to_set (d_permissions device1)) /\
    Some device1_sorted = Some (with_permissions device1 ps).
Proof.
  destruct (import_find_roundtrip env0 device1 fresh_store imported env0
    (Some device1_sorted) (snd (find_device env0 peer1 imported))
    (Some device1_sorted) (snd (find_by_public_key env0 key1 imported)) empty_tables_ok) as (ps & Hps & H & _);
    [exact imported_run|apply run_eta; vm_compute; reflexivity..|].
  exists ps. split; assumption.
Defined.

Lemma state_precise_witness :
  fst (state env0 peer2 ready) = Ok StatePairingPending /\ exists s im', state env0 peer1 ready = (Ok s, im').
Proof.
  split; [vm_compute; reflexivity|]. exact (proj2 (state_precise env0 peer1 ready ready_ok) env0_healthy).
Defined.

End Scenario.
