(* ===== verification/TrustOpen.v ===== *)
(** * Opening the trust store ([core/trust/trust_store.cpp], [trust_schema.hpp])

    The constructor of [TrustStore::Impl]: the state directory is secured and flushed,
    an initialization lock is taken, the database file is recognized or created,
    SQLite is configured, and the schema is created or migrated in one transaction.
    Every call may fail or be the point where the process is killed, as in
    [Storage.v].  The content of the database is its application id, its version and
    its tables; SQLite's promises are that a transaction that is not committed leaves
    no trace, and that a database file that is not empty has a header of 100 bytes. *)

From S2P Require Import Prelude Uuid Storage TrustTables TrustStore TrustLedger.

(** ** State *)

(** [trust_schema::APPLICATION_ID] and [VERSION]. *)
Definition APPLICATION_ID : Z := 1196643410.   (* 0x47535452 *)
Definition VERSION : Z := 2.

(** The tables of [V1] and those of [V2] exist or not. *)
Record Content : Type := mkContent {
  ct_application_id : Z;
  ct_user_version : Z;
  ct_devices : option (gmap TrustUuid DeviceRow * gset (TrustUuid * string));
  ct_attempts : option (gmap TrustUuid AttemptRow * gset (TrustUuid * string));
  ct_intact : bool               (** what [quick_check] finds *)
}.
Definition blank : Content := mkContent 0 0 None None true.

Record Site : Type := mkSite {
  site_files : gmap string FileStat;
  site_dir_uid : Z;
  site_dir_mode : Z;
  site_content : Content;        (** of the database file, when there is one *)
  site_outcomes : list Outcome
}.
Definition set_files x s := mkSite x (site_dir_uid s) (site_dir_mode s) (site_content s) (site_outcomes s).
Definition set_site_mode x s := mkSite (site_files s) (site_dir_uid s) x (site_content s) (site_outcomes s).
Definition set_content x s := mkSite (site_files s) (site_dir_uid s) (site_dir_mode s) x (site_outcomes s).
Definition set_site_outcomes x s := mkSite (site_files s) (site_dir_uid s) (site_dir_mode s) (site_content s) x.

(** What an attempt to open depends on. *)
Record OpenEnv : Type := mkOpenEnv {
  oe_name : string;
  oe_euid : Z;
  oe_umask : Z;
  oe_depth : nat;                (** ancestors of the directory *)
  oe_library : bool;             (** thread-safe SQLite >= 3.37.0 *)
  oe_foreign_keys : bool;
  oe_wal : bool;
  oe_full_sync : bool;
  oe_header_size : Z             (** size of the database file once it has a header *)
}.

Inductive OpenError : Type := OpenFailed (message : string) | OpenSqlite | OpenKilled.
Abbreviation opening := (stx Site OpenError).

(** ** Calls *)

Definition site_call : opening bool :=
  fun s => match site_outcomes s with
           | [] => (Ok true, s)
           | SysKill :: rest => (Throw OpenKilled, set_site_outcomes rest s)
           | SysDone :: rest | SysShort _ :: rest => (Ok true, set_site_outcomes rest s)
           | _ :: rest => (Ok false, set_site_outcomes rest s)
           end.
Definition require_call (message : string) : opening unit :=
  let! ok := site_call in if ok then ret tt else throw (OpenFailed message).
Definition require_open (message : string) (b : bool) : opening unit := require (OpenFailed message) b.
(** A call whose result is passed to [check_sql]. *)
Definition sqlite : opening unit := let! ok := site_call in if ok then ret tt else throw OpenSqlite.

(** [sync_fd]. *)
Definition sync_fd : opening unit :=
  fun s => match retry_loop (site_outcomes s) with
           | (Ok true, rest) => (Ok tt, set_site_outcomes rest s)
           | (Ok false, rest) => (Throw (OpenFailed "cannot synchronize storage directory"), set_site_outcomes rest s)
           | (Throw _, rest) => (Throw OpenKilled, set_site_outcomes rest s)
           end.

Fixpoint sync_tree_loop (ancestors : nat) : opening unit :=
  sync_fd;;;
  require_call "cannot open storage handle";;;
  require_call "cannot inspect storage ancestors";;;
  require_call "cannot inspect storage ancestors";;;
  match ancestors with O => ret tt | S ancestors => sync_tree_loop ancestors end.
Definition sync_tree (ancestors : nat) : opening unit :=
  require_call "cannot open storage handle";;; sync_tree_loop ancestors.

Fixpoint flock_loop (out : list Outcome) : result OpenError unit * list Outcome :=
  match out with
  | [] => (Ok tt, [])
  | SysDone :: rest | SysShort _ :: rest => (Ok tt, rest)
  | SysIntr :: rest | SysAgain false :: rest => flock_loop rest
  | SysAgain true :: rest | SysFail :: rest => (Throw (OpenFailed "cannot acquire database initialization lock"), rest)
  | SysKill :: rest => (Throw OpenKilled, rest)
  end.
Definition flock : opening unit :=
  fun s => let '(r, rest) := flock_loop (site_outcomes s) in (r, set_site_outcomes rest s).

(** [PRAGMA ...]: prepared, and stepped to its row. *)
Definition pragma {A} (value : Site -> A) : opening A := sqlite;;; sqlite;;; gets value.
Definition execute (f : Content -> Content) : opening unit :=
  sqlite;;; modify (fun s => set_content (f (site_content s)) s).

Section opening.
Context (env : OpenEnv).

(** ** Files *)

Definition inspect (name : string) : opening (option FileStat) :=
  let! ok := site_call in
  if negb ok then throw (OpenFailed "cannot inspect database files")
  else
    let! files := gets site_files in
    match files !! name with
    | None => ret None
    | Some info =>
        require_open "database files must be single-link, user-owned regular 0600 files" (private_stat (oe_euid env) info);;;
        ret (Some info)
    end.

Definition sidecars : list string := ["-wal"; "-shm"; "-journal"].
(** Whether one of the files exists; all are inspected. *)
Fixpoint inspect_sidecars (suffixes : list string) (found : bool) : opening bool :=
  match suffixes with
  | [] => ret found
  | suffix :: rest =>
      let! info := inspect (oe_name env +:+ suffix) in
      inspect_sidecars rest (bool_decide (is_Some info) || found)
  end.
Definition check_database_files : opening unit :=
  let! info := inspect (oe_name env) in
  require_open "established database is missing" (bool_decide (is_Some info));;;
  inspect_sidecars sidecars false;;; ret tt.

(** A new regular file with the mode the umask leaves of 0600. *)
Definition new_stat : FileStat := mkFileStat (32768 + Z.land 384 (Z.lnot (oe_umask env))) (oe_euid env) 1 0.
Definition add_file (name : string) (info : FileStat) : opening unit :=
  modify (fun s => set_files (<[name := info]> (site_files s)) s).

(** A symbolic link is not followed; 40960 is [S_IFLNK]. *)
Definition open_lock (name : string) : opening unit :=
  require_call "cannot open storage handle";;;
  let! files := gets site_files in
  match files !! name with
  | None => add_file name new_stat
  | Some info => require_open "cannot open storage handle" (negb (Z.land (st_mode info) 61440 =? 40960))
  end.

Definition secure_directory : opening unit :=
  require_call "cannot create state directory";;;
  require_call "cannot open storage handle";;;
  require_call "state directory must be user-owned";;;
  let! uid := gets site_dir_uid in
  require_open "state directory must be user-owned" (uid =? oe_euid env);;;
  require_call "cannot secure state directory";;;
  modify (set_site_mode 448);;;
  sync_tree (oe_depth env);;;
  require_call "cannot resolve the directory".

(** The database file is there, or is created empty. *)
Definition find_or_create : opening bool :=
  let! info := inspect (oe_name env) in
  let! sidecar := inspect_sidecars sidecars false in
  require_open "database is missing but SQLite recovery files remain" (bool_decide (is_Some info) || negb sidecar);;;
  match info with
  | Some info =>
      require_open "database is truncated or initialization was interrupted" (100 <=? st_size info);;; ret true
  | None =>
      require_call "cannot open storage handle";;;
      add_file (oe_name env) new_stat;;;
      modify (set_content blank);;;
      require_call "cannot secure database file";;;
      add_file (oe_name env) (mkFileStat (32768 + 384) (oe_euid env) 1 0);;;
      sync_fd;;; sync_fd;;; ret false
  end.

(** ** SQLite *)

(** The handle is opened and configured. *)
Definition configure (existing : bool) : opening Z :=
  sqlite;;; sqlite;;; sqlite;;; sqlite;;; sqlite;;;
  let! foreign_keys := pragma (fun _ => oe_foreign_keys env) in
  require_open "SQLite foreign keys unavailable" foreign_keys;;;
  let! intact := pragma (fun s => ct_intact (site_content s)) in
  require_open "database integrity check failed" intact;;;
  let! version := pragma (fun s => ct_user_version (site_content s)) in
  let! app := pragma (fun s => ct_application_id (site_content s)) in
  require_open "unrecognized database or unsupported schema version"
    (if existing then (app =? APPLICATION_ID) && (1 <=? version) && (version <=? VERSION)
     else (app =? 0) && (version =? 0));;;
  ret version.

(** WAL mode: the file gets a header, and its log and index files. *)
Definition enable_wal : opening unit :=
  sqlite;;; sqlite;;;
  require_open "SQLite WAL mode unavailable" (oe_wal env);;;
  let! files := gets site_files in
  match files !! oe_name env with
  | None => ret tt
  | Some info =>
      let grown := mkFileStat (st_mode info) (st_uid info) (st_nlink info) (Z.max (st_size info) (oe_header_size env)) in
      let side := mkFileStat (st_mode info) (st_uid info) (st_nlink info) 0 in
      modify (fun s => set_files (<[oe_name env +:+ "-wal" := side]> (<[oe_name env +:+ "-shm" := side]>
                                   (<[oe_name env := grown]> (site_files s)))) s)
  end;;;
  sqlite;;;
  let! full := pragma (fun _ => oe_full_sync env) in
  require_open "SQLite FULL synchronization unavailable" full.

(** [CREATE TABLE] fails on a table that exists. *)
Definition create_v1 : opening unit :=
  let! c := gets site_content in
  match ct_devices c with
  | Some _ => throw OpenSqlite
  | None => execute (fun c => mkContent (ct_application_id c) (ct_user_version c) (Some (∅, ∅)) (ct_attempts c) (ct_intact c))
  end.
Definition create_v2 : opening unit :=
  let! c := gets site_content in
  match ct_attempts c with
  | Some _ => throw OpenSqlite
  | None => execute (fun c => mkContent (ct_application_id c) (ct_user_version c) (ct_devices c) (Some (∅, ∅)) (ct_intact c))
  end.

(** Every permission belongs to a row. *)
Definition no_orphans {R} (t : gmap TrustUuid R * gset (TrustUuid * string)) : bool :=
  bool_decide (set_Forall (fun up : TrustUuid * string => is_Some (t.1 !! up.1)) t.2).
Definition foreign_keys_ok (c : Content) : bool :=
  match ct_devices c with Some t => no_orphans t | None => true end &&
  match ct_attempts c with Some t => no_orphans t | None => true end.

(** The tables of the content; a missing one cannot be queried. *)
Definition tables_of (c : Content) : option Tables :=
  match ct_devices c, ct_attempts c with
  | Some (devices, granted), Some (attempts, proposed) => Some (mkTables devices granted attempts proposed)
  | _, _ => None
  end.

(** The body of the migration, up to its commit.  The queries are prepared and
    stepped; a missing table fails the first that names it. *)
Definition migrate (version : Z) : opening Tables :=
  (if version <? 1 then create_v1 else ret tt);;;
  (if version <? 2 then create_v2 else ret tt);;;
  execute (fun c => mkContent APPLICATION_ID (ct_user_version c) (ct_devices c) (ct_attempts c) (ct_intact c));;;
  execute (fun c => mkContent (ct_application_id c) VERSION (ct_devices c) (ct_attempts c) (ct_intact c));;;
  let! valid := pragma (fun s => foreign_keys_ok (site_content s)) in
  require_open "database has foreign-key violations" valid;;;
  let! t := gets (fun s => tables_of (site_content s)) in
  match t with
  | None => throw OpenSqlite
  | Some t =>
      sqlite;;; sqlite;;; sqlite;;; sqlite;;;                      (* devices, attempts *)
      sqlite;;; sqlite;;; sqlite;;; sqlite;;; sqlite;;; sqlite;;;  (* read_permissions, twice *)
      check_database_files;;;
      ret t
  end.

(** [Transaction]: without the commit nothing remains of the body. *)
Definition migration (version : Z) : opening Tables :=
  fun s =>
    match sqlite s with
    | (Throw e, s1) => (Throw e, s1)
    | (Ok _, s1) =>
        match bind (migrate version) (fun t => sqlite;;; ret t) s1 with
        | (Ok t, s2) => (Ok t, s2)
        | (Throw e, s2) => (Throw e, set_content (site_content s) s2)
        end
    end.

(** Before the database is looked at. *)
Definition prepare_directory : opening unit :=
  require_open "a thread-safe SQLite >= 3.37.0 is required" (oe_library env);;;
  require_open "invalid database filename"
    (negb (bool_decide (oe_name env = EmptyString) || bool_decide (oe_name env = ".") || bool_decide (oe_name env = "..")));;;
  secure_directory;;;
  open_lock (oe_name env +:+ ".lock");;;
  inspect (oe_name env +:+ ".lock");;;
  flock.
(** Once it was found or created. *)
Definition open_database (existing : bool) : opening Tables :=
  let! version := configure existing in
  enable_wal;;;
  let! t := migration version in
  sync_fd;;;
  ret t.

(** [TrustStore::Impl::Impl]: the tables the store starts with. *)
Definition open_store : opening Tables :=
  prepare_directory;;;
  let! existing := find_or_create in
  open_database existing.
End opening.

(** [TrustStore::configuration]. *)
Definition configuration (env : OpenEnv) : opening (Z * bool * string * Z) :=
  let! version := pragma (fun s => ct_user_version (site_content s)) in
  let! foreign_keys := pragma (fun _ => oe_foreign_keys env) in
  let! journal_mode := pragma (fun _ => if oe_wal env then "wal" else "delete") in
  let! synchronous := pragma (fun _ => if oe_full_sync env then 2 else 1) in
  ret (version, foreign_keys, journal_mode, synchronous).

(** ** Where the database is kept *)

(** [getpwuid_r] with a buffer of a size: too small, another error, no entry, or the
    home directory. *)
Inductive PwResult : Type := PwRange | PwError | PwNone | PwHome (pw_dir : string).

(** The buffer is doubled while it is too small and below a mebibyte. *)
Fixpoint find_home (fuel : nat) (getpwuid_r : Z -> PwResult) (size : Z) : option (result OpenError string) :=
  match fuel with
  | O => None
  | S fuel =>
      match getpwuid_r size with
      | PwRange => if size <? 1024 * 1024 then find_home fuel getpwuid_r (size * 2)
                   else Some (Throw (OpenFailed "cannot determine home directory"))
      | PwError | PwNone => Some (Throw (OpenFailed "cannot determine home directory"))
      | PwHome dir => if bool_decide (dir = EmptyString)
                      then Some (Throw (OpenFailed "cannot determine home directory")) else Some (Ok dir)
      end
  end.
Definition default_database_path (state : option string) (getpwuid_r : Z -> PwResult) : option (result OpenError string) :=
  let in_home :=
    match find_home 7 getpwuid_r 16384 with
    | Some (Ok home) => Some (Ok (path_join (path_join (path_join (path_join home ".local") "state") "gasoline") "trust.sqlite3"))
    | r => r
    end in
  match state with
  | Some dir => if is_absolute dir then Some (Ok (path_join (path_join dir "gasoline") "trust.sqlite3")) else in_home
  | None => in_home
  end.

(** Seven calls are enough: the loop ends with a path or an error. *)
Lemma default_database_path_total state getpwuid_r : is_Some (default_database_path state getpwuid_r).
Proof.
  assert (is_Some (find_home 7 getpwuid_r 16384)) as [r Hr].
  { cbn -[Z.mul]. repeat (case_match; try by eexists). all: cbn in *; lia. }
  unfold default_database_path. rewrite Hr. destruct state as [dir|]; [destruct (is_absolute dir)|]; destruct r; by eexists.
Qed.

(** ** The specification

    A directory without a database gets an empty one.  A database of the program
    keeps its devices and permissions, and its attempts when it has the table; what
    is not recognized, damaged, incomplete or inconsistent is refused. *)

Definition fresh_content : Content := mkContent APPLICATION_ID VERSION (Some (∅, ∅)) (Some (∅, ∅)) true.
Definition upgrade (c : Content) : Content :=
  mkContent APPLICATION_ID VERSION (ct_devices c) (Some (default (∅, ∅) (ct_attempts c))) (ct_intact c).
Definition accepts (c : Content) : bool :=
  ct_intact c && (ct_application_id c =? APPLICATION_ID) &&
  (1 <=? ct_user_version c) && (ct_user_version c <=? VERSION) &&
  bool_decide (is_Some (ct_devices c)) &&
  (if ct_user_version c <? 2 then bool_decide (ct_attempts c = None) else bool_decide (is_Some (ct_attempts c))) &&
  foreign_keys_ok c.
Definition open_spec (present : bool) (c : Content) : option Content :=
  if present then if accepts c then Some (upgrade c) else None else Some fresh_content.

(** ** What the operations leave alone *)

Definition core (s : Site) : gmap string FileStat * Content * Z := (site_files s, site_content s, site_dir_uid s).

Class Quiet {A} (m : opening A) : Prop := quiet s : core (snd (m s)) = core s.

#[export] Instance ret_quiet {A} (a : A) : Quiet (ret a).
Proof. done. Qed.
#[export] Instance throw_quiet {A} e : Quiet (throw (A:=A) e).
Proof. done. Qed.
#[export] Instance gets_quiet {A} (f : Site -> A) : Quiet (gets f).
Proof. done. Qed.
#[export] Instance bind_quiet {A B} (m : opening A) (k : A -> opening B) :
  Quiet m -> (forall a, Quiet (k a)) -> Quiet (bind m k).
Proof.
  intros Hm Hk s. specialize (Hm s). unfold bind. destruct (m s) as [[a|e] s1]; [|done].
  cbn in Hm. rewrite <-Hm. apply Hk.
Qed.
#[export] Instance site_call_quiet : Quiet site_call.
Proof. intros s. unfold site_call. destruct (site_outcomes s) as [|[] ?]; done. Qed.
#[export] Instance require_open_quiet message b : Quiet (require_open message b).
Proof. by destruct b. Qed.
#[export] Instance require_call_quiet message : Quiet (require_call message).
Proof. apply bind_quiet; [apply _|]. intros [|]; apply _. Qed.
#[export] Instance sqlite_quiet : Quiet sqlite.
Proof. apply bind_quiet; [apply _|]. intros [|]; apply _. Qed.
#[export] Instance sync_fd_quiet : Quiet sync_fd.
Proof. intros s. unfold sync_fd. by destruct (retry_loop _) as [[[|]|] ?]. Qed.
#[export] Instance sync_tree_quiet n : Quiet (sync_tree n).
Proof. unfold sync_tree. apply bind_quiet; [apply _|]. intros _. induction n; cbn; apply _. Qed.
#[export] Instance flock_quiet : Quiet flock.
Proof. intros s. unfold flock. by destruct (flock_loop _). Qed.
#[export] Instance pragma_quiet {A} (value : Site -> A) : Quiet (pragma value).
Proof. unfold pragma. apply _. Qed.
#[export] Instance inspect_quiet env name : Quiet (inspect env name).
Proof.
  unfold inspect. apply bind_quiet; [apply _|]. intros [|]; cbn; [|apply _]. apply bind_quiet; [apply _|]. intros files.
  destruct (files !! name); apply _.
Qed.
#[export] Instance inspect_sidecars_quiet env suffixes found : Quiet (inspect_sidecars env suffixes found).
Proof. revert found. induction suffixes as [|x l IH]; intros found; cbn; apply _. Qed.
#[export] Instance check_database_files_quiet env : Quiet (check_database_files env).
Proof. unfold check_database_files. apply _. Qed.
#[export] Instance configure_quiet env existing : Quiet (configure env existing).
Proof. unfold configure. apply _. Qed.
#[export] Instance secure_directory_quiet env : Quiet (secure_directory env).
Proof.
  unfold secure_directory. repeat (apply bind_quiet; [try apply _|intros ?]); try apply _. done.
Qed.

(** A run of a quiet operation and what follows. *)
Lemma quiet_bind {A B} (m : opening A) (k : A -> opening B) s r s' :
  Quiet m -> bind m k s = (r, s') ->
  (exists a s1, m s = (Ok a, s1) /\ core s1 = core s /\ k a s1 = (r, s')) \/ core s' = core s /\ is_ok r = false.
Proof.
  intros Hm. specialize (Hm s). unfold bind. destruct (m s) as [[a|e] s1]; cbn in Hm.
  - intros H. left. eauto.
  - intros [= <- <-]. auto.
Qed.

Lemma quiet_ok {A B} (m : opening A) (k : A -> opening B) s b s' :
  Quiet m -> bind m k s = (Ok b, s') -> exists a s1, m s = (Ok a, s1) /\ core s1 = core s /\ k a s1 = (Ok b, s').
Proof. intros Hm [H|[_ [=]]]%quiet_bind; done. Qed.

Lemma pragma_ok {A} (value : Site -> A) s v s' :
  (forall s1, core s1 = core s -> value s1 = value s) -> pragma value s = (Ok v, s') -> v = value s /\ core s' = core s.
Proof.
  intros Hv H. unfold pragma in H. apply bind_ok in H as (u & s1 & H1 & H). apply bind_ok in H as (u' & s2 & H2 & H).
  injection H as <- <-. pose proof (sqlite_quiet s) as Q1. rewrite H1 in Q1. pose proof (sqlite_quiet s1) as Q2.
  rewrite H2 in Q2. cbn in Q1, Q2. split; [apply Hv|]; congruence.
Qed.
Lemma require_open_ok message b s u s' : require_open message b s = (Ok u, s') -> b = true /\ s' = s.
Proof. destruct b; [|done]. by intros [= _ <-]. Qed.
Lemma core_parts s s' : core s' = core s ->
  site_files s' = site_files s /\ site_content s' = site_content s /\ site_dir_uid s' = site_dir_uid s.
Proof. unfold core. by intros [= -> -> ->]. Qed.

(** [inspect] reports a file that is there, and it is private. *)
Lemma inspect_ok env name s info s' :
  inspect env name s = (Ok info, s') ->
  site_files s !! name = info /\ core s' = core s /\ forall i, info = Some i -> private_stat (oe_euid env) i = true.
Proof.
  intros H. pose proof (inspect_quiet env name s) as Q. rewrite H in Q. unfold inspect in H.
  apply bind_ok in H as (ok & s1 & H1 & H). pose proof (site_call_quiet s) as Q1. rewrite H1 in Q1.
  destruct ok; [|done]. cbn [negb] in H. rewrite bind_gets in H. apply core_parts in Q1 as [Hf _]. cbn in Hf.
  rewrite Hf in H. destruct (site_files s !! name) as [i|].
  - apply bind_ok in H as (u & s2 & Hr & H). apply require_open_ok in Hr as [Hp ->]. injection H as <- <-.
    split_and!; [done|done|]. by intros ? [= <-].
  - injection H as <- <-. done.
Qed.
Lemma inspect_sidecars_ok env suffixes found s b s' :
  inspect_sidecars env suffixes found s = (Ok b, s') ->
  core s' = core s /\
  (b = false -> found = false /\ forall x, x ∈ suffixes -> site_files s !! (oe_name env +:+ x) = None).
Proof.
  revert found s. induction suffixes as [|x suffixes IH]; intros found s; cbn [inspect_sidecars].
  - intros [= <- <-]. split; [done|]. intros ->. split; [done|]. by intros ? ?%not_elem_of_nil.
  - intros H. apply bind_ok in H as (info & s1 & Hi & H). apply inspect_ok in Hi as (Hf & Hc & _).
    apply IH in H as [Hc2 Hb]. split; [congruence|]. intros Hfalse. destruct (Hb Hfalse) as [Hor Hrest].
    apply orb_false_iff in Hor as [Hinfo ->]. split; [done|]. intros y [->|Hy]%elem_of_cons.
    + apply bool_decide_eq_false in Hinfo. rewrite <-eq_None_not_Some in Hinfo. congruence.
    + apply core_parts in Hc as [<- _]. by apply Hrest.
Qed.

(** ** The parts of the constructor *)

Section runs.
Context (env : OpenEnv).

Lemma execute_ok f s u s' :
  execute f s = (Ok u, s') -> core s' = (site_files s, f (site_content s), site_dir_uid s).
Proof.
  unfold execute. intros H. apply bind_ok in H as (v & s1 & H1 & H). pose proof (sqlite_quiet s) as Q. rewrite H1 in Q. cbn in Q.
  injection H as _ <-. apply core_parts in Q as (Hf & Hc & Hu). unfold core. cbn. by rewrite Hf, Hc, Hu.
Qed.

(** The schema steps of a version, when they succeed. *)
Definition schema_steps (version : Z) (c : Content) : Content :=
  mkContent APPLICATION_ID VERSION (if version <? 1 then Some (∅, ∅) else ct_devices c)
    (if version <? 2 then Some (∅, ∅) else ct_attempts c) (ct_intact c).

Lemma create_v1_ok s u s' :
  create_v1 s = (Ok u, s') -> ct_devices (site_content s) = None /\
  core s' = (site_files s, mkContent (ct_application_id (site_content s)) (ct_user_version (site_content s))
               (Some (∅, ∅)) (ct_attempts (site_content s)) (ct_intact (site_content s)), site_dir_uid s).
Proof.
  unfold create_v1. rewrite bind_gets. destruct (ct_devices (site_content s)); [done|]. intros H%execute_ok. done.
Qed.
Lemma create_v2_ok s u s' :
  create_v2 s = (Ok u, s') -> ct_attempts (site_content s) = None /\
  core s' = (site_files s, mkContent (ct_application_id (site_content s)) (ct_user_version (site_content s))
               (ct_devices (site_content s)) (Some (∅, ∅)) (ct_intact (site_content s)), site_dir_uid s).
Proof.
  unfold create_v2. rewrite bind_gets. destruct (ct_attempts (site_content s)); [done|]. intros H%execute_ok. done.
Qed.

Lemma create_schema_ok version s u s' :
  ((if version <? 1 then create_v1 else ret tt);;; (if version <? 2 then create_v2 else ret tt)) s = (Ok u, s') ->
  (version < 1 -> ct_devices (site_content s) = None) /\ (version < 2 -> ct_attempts (site_content s) = None) /\
  core s' = (site_files s, mkContent (ct_application_id (site_content s)) (ct_user_version (site_content s))
               (if version <? 1 then Some (∅, ∅) else ct_devices (site_content s))
               (if version <? 2 then Some (∅, ∅) else ct_attempts (site_content s)) (ct_intact (site_content s)), site_dir_uid s).
Proof.
  intros H. apply bind_ok in H as (u1 & s1 & H1 & H2).
  assert (Hc : forall c, mkContent (ct_application_id c) (ct_user_version c) (ct_devices c) (ct_attempts c) (ct_intact c) = c)
    by (by intros []).
  destruct (Z.ltb_spec version 1) as [Hv|Hv].
  - apply create_v1_ok in H1 as [Hd H1]. destruct (Z.ltb_spec version 2); [|lia].
    apply create_v2_ok in H2 as [Ha H2]. injection H1 as Hf Hct Hu. rewrite Hct in Ha, H2. cbn in Ha, H2.
    rewrite H2, Hf, Hu. done.
  - injection H1 as _ <-. destruct (Z.ltb_spec version 2).
    + apply create_v2_ok in H2 as [Ha H2]. rewrite H2. split_and!; [lia|done|done].
    + injection H2 as _ <-. rewrite Hc. split_and!; [lia|lia|done].
Qed.

Lemma migrate_ok version s t s' :
  migrate env version s = (Ok t, s') ->
  (version < 1 -> ct_devices (site_content s) = None) /\ (version < 2 -> ct_attempts (site_content s) = None) /\
  core s' = (site_files s, schema_steps version (site_content s), site_dir_uid s) /\
  foreign_keys_ok (schema_steps version (site_content s)) = true /\
  tables_of (schema_steps version (site_content s)) = Some t.
Proof.
  unfold migrate. rewrite bind_assoc. intros H. apply bind_ok in H as (u & s1 & H1 & H).
  apply create_schema_ok in H1 as (Hd & Ha & H1). split; [exact Hd|]. split; [exact Ha|].
  apply bind_ok in H as (u1 & s2 & H2 & H). apply execute_ok in H2.
  apply bind_ok in H as (u2 & s3 & H3 & H). apply execute_ok in H3.
  apply bind_ok in H as (valid & s4 & H4 & H). apply pragma_ok in H4 as [Hvalid H4].
  2: { intros s0 (_ & -> & _)%core_parts. done. }
  apply bind_ok in H as (u3 & s5 & H5 & H). apply require_open_ok in H5 as [-> ->].
  rewrite bind_gets in H. injection H1 as Hf1 Hc1 Hu1. injection H2 as Hf2 Hc2 Hu2. injection H3 as Hf3 Hc3 Hu3.
  assert (Hcore : core s4 = (site_files s, schema_steps version (site_content s), site_dir_uid s)).
  { rewrite H4. unfold core, schema_steps. rewrite Hf3, Hf2, Hf1, Hu3, Hu2, Hu1, Hc3, Hc2, Hc1. done. }
  assert (Hcont : site_content s4 = schema_steps version (site_content s)) by (by injection Hcore).
  assert (Hcont3 : site_content s3 = schema_steps version (site_content s)) by (apply core_parts in H4 as (_ & <- & _); done).
  rewrite Hcont3 in Hvalid. rewrite Hcont in H.
  destruct (tables_of (schema_steps version (site_content s))) as [t'|]; [|done].
  assert (Hq : Quiet (sqlite;;; sqlite;;; sqlite;;; sqlite;;; sqlite;;; sqlite;;; sqlite;;; sqlite;;; sqlite;;; sqlite;;;
                check_database_files env;;; ret t')) by apply _.
  pose proof (Hq s4) as Hq4. rewrite H in Hq4. cbn [snd] in Hq4.
  repeat (apply bind_ok in H as (? & ? & _ & H)). injection H as -> _. split_and!; [congruence|done|done].
Qed.

(** The transaction commits the schema steps, or leaves the content as it was. *)
Lemma migration_run version s r s' :
  migration env version s = (r, s') ->
  match r with
  | Ok t => (version < 1 -> ct_devices (site_content s) = None) /\ (version < 2 -> ct_attempts (site_content s) = None) /\
      core s' = (site_files s, schema_steps version (site_content s), site_dir_uid s) /\
      foreign_keys_ok (schema_steps version (site_content s)) = true /\
      tables_of (schema_steps version (site_content s)) = Some t
  | Throw _ => site_content s' = site_content s
  end.
Proof.
  unfold migration. pose proof (sqlite_quiet s) as Q. destruct (sqlite s) as [[u|e] s1]; cbn in Q.
  2: { intros [= <- <-]. by apply core_parts in Q as (_ & -> & _). }
  apply core_parts in Q as (Hf & Hc & Hu).
  destruct (bind (migrate env version) (fun t => sqlite;;; ret t) s1) as [[t|e] s2] eqn:H.
  - intros [= <- <-]. apply bind_ok in H as (t' & s3 & Hm & H). apply bind_ok in H as (u' & s4 & H4 & H).
    injection H as -> ->. pose proof (sqlite_quiet s3) as Q. rewrite H4 in Q. cbn in Q.
    apply migrate_ok in Hm as (Hd & Ha & Hcore & Hfk & Ht). rewrite Hc in *. rewrite Hf, Hu in Hcore. rewrite <-Q in Hcore.
    done.
  - by intros [= <- <-].
Qed.

Lemma configure_ok existing s v s' :
  configure env existing s = (Ok v, s') ->
  core s' = core s /\ v = ct_user_version (site_content s) /\ ct_intact (site_content s) = true /\
  (if existing then (ct_application_id (site_content s) =? APPLICATION_ID) && (1 <=? v) && (v <=? VERSION)
   else (ct_application_id (site_content s) =? 0) && (v =? 0)) = true.
Proof.
  intros H. pose proof (configure_quiet env existing s) as Hq. rewrite H in Hq. cbn in Hq. split; [done|]. clear Hq.
  unfold configure in H. do 5 (apply quiet_ok in H as (? & ? & _ & ? & H); [|apply _]).
  apply quiet_ok in H as (fk & s6 & _ & Hc6 & H); [|apply _].
  apply quiet_ok in H as (u7 & s7 & _ & Hc7 & H); [|apply _].
  assert (Hcore7 : core s7 = core s) by congruence. clear Hc6 Hc7.
  apply quiet_ok in H as (intact & s8 & H8 & Hc8 & H); [|apply _].
  apply pragma_ok in H8 as [-> _]; [|by intros s0 (_ & -> & _)%core_parts].
  apply bind_ok in H as (u9 & s9 & H9 & H). apply require_open_ok in H9 as [Hintact ->].
  apply quiet_ok in H as (version & s10 & H10 & Hc10 & H); [|apply _].
  apply pragma_ok in H10 as [-> _]; [|by intros s0 (_ & -> & _)%core_parts].
  apply quiet_ok in H as (app & s11 & H11 & Hc11 & H); [|apply _].
  apply pragma_ok in H11 as [-> _]; [|by intros s0 (_ & -> & _)%core_parts].
  apply bind_ok in H as (u12 & s12 & H12 & H). apply require_open_ok in H12 as [Hreq ->]. injection H as <- _.
  apply core_parts in Hcore7 as (_ & Hct & _). apply core_parts in Hc8 as (_ & Hct8 & _). apply core_parts in Hc10 as (_ & Hct10 & _).
  rewrite Hct10 in Hreq. rewrite Hct8 in *. rewrite Hct in *. done.
Qed.

Lemma enable_wal_content s r s' : enable_wal env s = (r, s') -> site_content s' = site_content s.
Proof.
  intros H. unfold enable_wal in H.
  do 3 (apply quiet_bind in H; [|apply _]; destruct H as [(? & ? & _ & ?%core_parts & H)|[?%core_parts _]];
        [|naive_solver congruence]).
  rewrite bind_gets in H. apply bind_run in H as [(u & s4 & H4 & H)|(e & H4 & ->)].
  - assert (site_content s' = site_content s4) as ->.
    { assert (Quiet (sqlite;;; (let! full := pragma (fun _ => oe_full_sync env) in
        require_open "SQLite FULL synchronization unavailable" full))) as Hq by apply _.
      pose proof (Hq s4) as Q. rewrite H in Q. cbn in Q. by apply core_parts in Q as (_ & -> & _). }
    destruct (site_files _ !! oe_name env) as [info|]; injection H4 as _ <-; naive_solver congruence.
  - destruct (site_files _ !! oe_name env) as [info|]; done.
Qed.

(** The lock file is there or is created; nothing else changes. *)
Lemma open_lock_run name s r s' :
  open_lock env name s = (r, s') ->
  site_content s' = site_content s /\ site_dir_uid s' = site_dir_uid s /\
  forall x, x <> name -> site_files s' !! x = site_files s !! x.
Proof.
  intros H. unfold open_lock in H. apply quiet_bind in H; [|apply _].
  destruct H as [(u & s1 & _ & (Hf & Hc & Hu)%core_parts & H)|[(-> & -> & ->)%core_parts _]]; [|done].
  rewrite bind_gets, Hf in H. destruct (site_files s !! name) as [info|].
  - pose proof (require_open_quiet "cannot open storage handle" (negb (Z.land (st_mode info) 61440 =? 40960)) s1) as Q.
    rewrite H in Q. cbn in Q. apply core_parts in Q as (-> & -> & ->). rewrite Hf. done.
  - injection H as <- <-. split_and!; [done..|]. intros x Hx.
    change (<[name := new_stat env]> (site_files s1) !! x = site_files s !! x). rewrite lookup_insert_ne by done. by rewrite Hf.
Qed.

(** The database is there and is recognized as one, or is created empty. *)
Inductive found (s : Site) (r : result OpenError bool) (s' : Site) : Prop :=
| found_failed :
    is_ok r = false ->
    site_content s' = site_content s \/ site_files s !! oe_name env = None /\ site_content s' = blank -> found s r s'
| found_existing info :
    r = Ok true -> site_files s !! oe_name env = Some info -> private_stat (oe_euid env) info = true ->
    100 <= st_size info -> core s' = core s -> found s r s'
| found_created :
    r = Ok false -> site_files s !! oe_name env = None -> site_content s' = blank -> found s r s'.

Lemma create_file_run s r s' :
  site_files s !! oe_name env = None ->
  (require_call "cannot open storage handle";;;
   add_file (oe_name env) (new_stat env);;;
   modify (set_content blank);;;
   require_call "cannot secure database file";;;
   add_file (oe_name env) (mkFileStat (32768 + 384) (oe_euid env) 1 0);;;
   sync_fd;;; sync_fd;;; ret false) s = (r, s') ->
  found s r s'.
Proof.
  intros Hnone H. apply quiet_bind in H; [|apply _].
  destruct H as [(u & s1 & _ & (_ & Hc & _)%core_parts & H)|[(_ & Hc & _)%core_parts Hr]]; [|apply found_failed; auto].
  unfold add_file, modify, bind at 1 2 in H. apply quiet_bind in H; [|apply _]. set (s2 := set_content blank _) in H.
  destruct H as [(u2 & s3 & _ & (_ & Hc3 & _)%core_parts & H)|[(_ & Hc3 & _)%core_parts Hr]];
    [|apply found_failed; [done|]; right; by rewrite Hc3].
  unfold bind at 1 in H. set (s4 := set_files _ s3) in H.
  assert (Hq : Quiet (sync_fd;;; sync_fd;;; ret false)) by apply _. pose proof (Hq s4) as Q. rewrite H in Q. cbn in Q.
  apply core_parts in Q as (_ & Hc4 & _). assert (Hb : site_content s' = blank) by (rewrite Hc4; exact Hc3).
  destruct r as [b|e]; [|by apply found_failed; auto].
  repeat (apply bind_ok in H as (? & ? & _ & H)). injection H as <- _. by apply found_created.
Qed.

Lemma find_or_create_run s r s' : find_or_create env s = (r, s') -> found s r s'.
Proof.
  intros H. unfold find_or_create in H. apply quiet_bind in H; [|apply _].
  destruct H as [(info & s1 & Hi & Hc1 & H)|[(_ & Hc & _)%core_parts Hr]]; [|apply found_failed; auto].
  apply inspect_ok in Hi as (Hf & _ & Hp). apply quiet_bind in H; [|apply _].
  destruct H as [(sidecar & s2 & _ & Hc2 & H)|[Hc Hr]].
  2: { rewrite Hc1 in Hc. apply core_parts in Hc as (_ & Hc & _). apply found_failed; auto. }
  apply quiet_bind in H; [|apply _]. destruct H as [(u & s3 & _ & Hc3 & H)|[Hc Hr]].
  2: { rewrite Hc2, Hc1 in Hc. apply core_parts in Hc as (_ & Hc & _). apply found_failed; auto. }
  assert (Hcore : core s3 = core s) by congruence. clear Hc1 Hc2 Hc3. destruct info as [info|].
  - apply bind_run in H as [(u' & s4 & H4 & H)|(e & H4 & ->)].
    + apply require_open_ok in H4 as [Hsize ->]. injection H as <- <-. apply (found_existing _ _ _ info); auto. lia.
    + assert (s' = s3) as -> by (unfold require_open, require in H4; destruct (100 <=? _); [done|by injection H4]).
      apply core_parts in Hcore as (_ & Hc & _). apply found_failed; auto.
  - apply core_parts in Hcore as (Hf3 & Hc3 & _). apply create_file_run in H; [|by rewrite Hf3].
    destruct H as [Hr Hcase|info Hr Hin|Hr Hin Hb].
    + apply found_failed; [done|]. destruct Hcase as [Heq|[_ Hb]]; [left; congruence|right; auto].
    + exfalso. rewrite Hf3 in Hin. congruence.
    + by apply found_created.
Qed.

Lemma schema_upgrade c :
  1 <= ct_user_version c <= VERSION -> (ct_user_version c < 2 -> ct_attempts c = None) ->
  is_Some (tables_of (schema_steps (ct_user_version c) c)) -> schema_steps (ct_user_version c) c = upgrade c.
Proof.
  intros Hv Ha [t Ht]. unfold schema_steps, upgrade, tables_of in *. destruct (Z.ltb_spec (ct_user_version c) 1); [lia|].
  cbn in Ht. destruct (Z.ltb_spec (ct_user_version c) 2) as [H2|H2]; [by rewrite (Ha H2)|].
  destruct (ct_devices c) as [[]|]; [|done]. by destruct (ct_attempts c) as [[]|].
Qed.

Lemma migrated_accepts c t :
  ct_intact c = true -> ct_application_id c = APPLICATION_ID -> 1 <= ct_user_version c <= VERSION ->
  (ct_user_version c < 2 -> ct_attempts c = None) ->
  foreign_keys_ok (schema_steps (ct_user_version c) c) = true ->
  tables_of (schema_steps (ct_user_version c) c) = Some t ->
  accepts c = true /\ tables_of (upgrade c) = Some t.
Proof.
  intros Hi Happ Hv Ha Hfk Ht. assert (Heq := schema_upgrade c Hv Ha ltac:(by eexists)). rewrite Heq in *. split; [|done].
  unfold accepts. rewrite Hi, Happ, Z.eqb_refl. destruct (Z.leb_spec 1 (ct_user_version c)); [|lia].
  destruct (Z.leb_spec (ct_user_version c) VERSION); [|lia]. cbn [andb].
  unfold upgrade, tables_of in Ht. cbn in Ht. destruct (ct_devices c) as [d|] eqn:Hd; [|done].
  rewrite bool_decide_eq_true_2 by by eexists. cbn [andb].
  unfold upgrade, foreign_keys_ok in Hfk. cbn in Hfk. rewrite Hd in Hfk. unfold foreign_keys_ok. rewrite Hd.
  destruct (Z.ltb_spec (ct_user_version c) 2) as [H2|H2].
  - rewrite (Ha H2), bool_decide_eq_true_2 by done. cbn. rewrite andb_true_r. by apply andb_true_iff in Hfk as [-> _].
  - unfold schema_steps, upgrade in Heq. destruct (Z.ltb_spec (ct_user_version c) 2); [lia|].
    injection Heq as Heq. destruct (ct_attempts c) as [a|]; [|done]. rewrite bool_decide_eq_true_2 by by eexists. done.
Qed.

Lemma prepare_directory_run s r s' :
  prepare_directory env s = (r, s') ->
  site_content s' = site_content s /\ site_files s' !! oe_name env = site_files s !! oe_name env.
Proof.
  intros H. unfold prepare_directory in H.
  do 3 (apply quiet_bind in H; [|apply _]; destruct H as [(? & ? & _ & ?%core_parts & H)|[?%core_parts _]];
        [|naive_solver congruence]).
  assert (Hne : oe_name env <> oe_name env +:+ ".lock") by (apply not_eq_sym, suffix_ne_name; done).
  match type of H with _ ?s0 = _ => assert (Hs : site_content s0 = site_content s /\ site_files s0 = site_files s);
    [naive_solver congruence|destruct Hs as [Hsc Hsf]] end.
  apply bind_run in H as [(u & s4 & H4 & H)|(e & H4 & ->)];
    apply open_lock_run in H4 as (Hc & _ & Hf); rewrite Hsc in Hc; rewrite Hsf in Hf.
  2: { split; [done|]. by apply Hf. }
  assert (Hq : Quiet (inspect env (oe_name env +:+ ".lock");;; flock)) by apply _.
  pose proof (Hq s4) as Q. rewrite H in Q. cbn in Q. apply core_parts in Q as (-> & -> & _).
  split; [done|]. by apply Hf.
Qed.

(** What an attempt leaves in the database, when it was found or created. *)
Lemma open_database_run existing s r s' :
  open_database env existing s = (r, s') ->
  (existing = false -> site_content s = blank) ->
  match r with
  | Ok t => open_spec existing (site_content s) = Some (site_content s') /\ tables_of (site_content s') = Some t
  | Throw _ => site_content s' = site_content s \/ open_spec existing (site_content s) = Some (site_content s')
  end.
Proof.
  intros H Hblank. unfold open_database in H. apply quiet_bind in H; [|apply _].
  destruct H as [(version & s1 & Hconf & Hc1 & H)|[(_ & Hc & _)%core_parts Hr]]; [|destruct r; [done|auto]].
  apply configure_ok in Hconf as (_ & -> & Hi & Hreq). apply core_parts in Hc1 as (_ & Hc1 & _).
  apply bind_run in H as [(u & s2 & Hw & H)|(e & Hw & ->)]; apply enable_wal_content in Hw; rewrite Hc1 in Hw; [|auto].
  apply bind_run in H as [(t & s3 & Hm & H)|(e & Hm & ->)]; apply migration_run in Hm; rewrite Hw in Hm; [|auto].
  destruct Hm as (Hd & Ha & Hcore & Hfk & Ht). injection Hcore as _ Hc3 _.
  assert (Hspec : open_spec existing (site_content s) = Some (site_content s3) /\ tables_of (site_content s3) = Some t).
  { rewrite Hc3. destruct existing; cbn [open_spec].
    - destruct (migrated_accepts (site_content s) t Hi) as [-> Ht']; [lia|lia|done..|].
      rewrite (schema_upgrade (site_content s)) by (lia || done || by eexists). done.
    - rewrite (Hblank eq_refl) in *. done. }
  assert (Hs' : site_content s' = site_content s3).
  { assert (Hq : Quiet (sync_fd;;; ret t)) by apply _. pose proof (Hq s3) as Q. rewrite H in Q. cbn in Q.
    by apply core_parts in Q as (_ & -> & _). }
  rewrite Hs'. destruct r as [t'|e]; [|right; apply Hspec].
  apply bind_ok in H as (? & ? & _ & H). injection H as -> _. done.
Qed.

Lemma open_store_run s r s' :
  open_store env s = (r, s') ->
  let present := bool_decide (is_Some (site_files s !! oe_name env)) in
  match r with
  | Ok t => open_spec present (site_content s) = Some (site_content s') /\ tables_of (site_content s') = Some t /\
      forall info, site_files s !! oe_name env = Some info -> private_stat (oe_euid env) info = true /\ 100 <= st_size info
  | Throw _ => site_content s' = site_content s \/ present = false /\ site_content s' = blank \/
      open_spec present (site_content s) = Some (site_content s')
  end.
Proof.
  intros H present. unfold open_store in H.
  apply bind_run in H as [(u & s1 & Hp & H)|(e & Hp & ->)]; apply prepare_directory_run in Hp as [Hc1 Hf1]; [|auto].
  apply bind_run in H as [(existing & s2 & Hf & H)|(e & Hf & ->)]; apply find_or_create_run in Hf;
    destruct Hf as [Hr Hcase|info Hr Hin Hpr Hsz Hcore|Hr Hin Hb]; try done; rewrite Hf1 in Hin || rewrite Hf1, Hc1 in Hcase.
  - injection Hr as ->. apply core_parts in Hcore as (_ & Hc2 & _). apply open_database_run in H; [|done].
    rewrite Hc2, Hc1 in H. assert (present = true) as -> by (by apply bool_decide_eq_true_2; eexists).
    destruct r as [t|e]; [|destruct H; auto]. destruct H as [? ?]. split_and!; [done..|].
    rewrite Hin. by intros ? [= <-].
  - injection Hr as ->. apply open_database_run in H; [|done].
    assert (present = false) as -> by (by apply bool_decide_eq_false_2; rewrite Hin; intros [? [=]]).
    destruct r as [t|e]; [|destruct H as [->|?]; auto]. destruct H as [? ?]. split_and!; [done..|].
    rewrite Hin. by intros ? [=].
  - destruct Hcase as [?|[Hnone ?]]; [auto|]. right. left. split; [|done].
    by apply bool_decide_eq_false_2; rewrite Hnone; intros [? [=]].
Qed.

(** C7. Opening refines its specification: whatever calls fail and wherever the process is
    killed, an attempt that succeeds found a database the specification accepts,
    in a private file with a header, or none; it returns its tables, brought to
    the current version without losing a row.  An attempt that fails leaves the
    content as it was, or brought to the current version, or, where there was no
    database, blank. *)
Theorem open_refines_spec s r s' :
  open_store env s = (r, s') ->
  let present := bool_decide (is_Some (site_files s !! oe_name env)) in
  match r with
  | Ok t => open_spec present (site_content s) = Some (site_content s') /\ tables_of (site_content s') = Some t /\
      forall info, site_files s !! oe_name env = Some info -> private_stat (oe_euid env) info = true /\ 100 <= st_size info
  | Throw _ => site_content s' = site_content s \/ present = false /\ site_content s' = blank \/
      open_spec present (site_content s) = Some (site_content s')
  end.
Proof.
  intros H. apply open_store_run in H. done.
Qed.
End runs.

(** ** Databases that are refused *)

Section refused.
Context (name : string).

(** The database file does not disappear. *)
Class KeepsFile {A} (m : opening A) : Prop :=
  keeps_file s : is_Some (site_files s !! name) -> is_Some (site_files (snd (m s)) !! name).

#[local] Instance quiet_keeps_file {A} (m : opening A) : Quiet m -> KeepsFile m | 10.
Proof. intros Hq s Hs. specialize (Hq s). apply core_parts in Hq as (-> & _). done. Qed.
#[local] Instance bind_keeps_file {A B} (m : opening A) (k : A -> opening B) :
  KeepsFile m -> (forall a, KeepsFile (k a)) -> KeepsFile (bind m k).
Proof.
  intros Hm Hk s Hs. specialize (Hm s Hs). unfold bind. destruct (m s) as [[a|e] s1]; [|done]. by apply Hk.
Qed.
Lemma insert_present x (info : FileStat) (files : gmap string FileStat) :
  is_Some (files !! name) -> is_Some (<[x := info]> files !! name).
Proof.
  intros Hs. destruct (decide (x = name)) as [->|]; [rewrite lookup_insert_eq; by eexists|by rewrite lookup_insert_ne].
Qed.
#[local] Instance add_keeps_file x info : KeepsFile (add_file x info).
Proof. intros s Hs. by apply insert_present. Qed.
#[local] Instance modify_keeps_file f : (forall s, site_files (f s) = site_files s) -> KeepsFile (modify f).
Proof. intros Hf s Hs. change (is_Some (site_files (f s) !! name)). by rewrite Hf. Qed.
#[local] Instance execute_keeps_file f : KeepsFile (execute f).
Proof. unfold execute. apply bind_keeps_file; [apply _|]. intros _. by apply modify_keeps_file. Qed.
#[local] Instance open_lock_keeps_file env x : KeepsFile (open_lock env x).
Proof.
  unfold open_lock. apply bind_keeps_file; [apply _|]. intros _. apply bind_keeps_file; [apply _|]. intros files.
  destruct (files !! x); apply _.
Qed.
#[local] Instance find_or_create_keeps_file env : KeepsFile (find_or_create env).
Proof.
  unfold find_or_create. do 3 (apply bind_keeps_file; [apply _|]; intros ?). destruct a; [apply _|].
  repeat (apply bind_keeps_file; [try apply _; by apply modify_keeps_file|]; intros ?). apply _.
Qed.
#[local] Instance enable_wal_keeps_file env : KeepsFile (enable_wal env).
Proof.
  unfold enable_wal. do 4 (apply bind_keeps_file; [apply _|]; intros ?). apply bind_keeps_file; [|intros ?; apply _].
  destruct (a2 !! oe_name env) as [info|]; [|apply _].
  intros s Hs. unfold modify. cbn [snd site_files set_files]. by do 3 apply insert_present.
Qed.
#[local] Instance migrate_keeps_file env version : KeepsFile (migrate env version).
Proof.
  unfold migrate. apply bind_keeps_file.
  { destruct (version <? 1); [|apply _]. unfold create_v1. apply bind_keeps_file; [apply _|]. intros c. destruct (ct_devices c); apply _. }
  intros _. apply bind_keeps_file.
  { destruct (version <? 2); [|apply _]. unfold create_v2. apply bind_keeps_file; [apply _|]. intros c. destruct (ct_attempts c); apply _. }
  intros _. do 5 (apply bind_keeps_file; [apply _|]; intros ?). destruct a3; apply _.
Qed.
#[local] Instance migration_keeps_file env version : KeepsFile (migration env version).
Proof.
  intros s Hs. unfold migration. pose proof (sqlite_quiet s) as Q. destruct (sqlite s) as [[u|e] s1]; cbn in Q;
    apply core_parts in Q as (Hf & _); [|by rewrite <-Hf in Hs].
  assert (Hk : KeepsFile (bind (migrate env version) (fun t => sqlite;;; ret t))) by apply _.
  specialize (Hk s1 ltac:(by rewrite Hf)). by destruct (bind _ _ s1) as [[t|e] s2].
Qed.
#[local] Instance open_keeps_file env : KeepsFile (open_store env).
Proof. unfold open_store, prepare_directory, open_database. apply _. Qed.

(** Attempts to open, one after another. *)
Fixpoint attempts (l : list (OpenEnv * list Outcome)) (s : Site) : list (result OpenError Tables) * Site :=
  match l with
  | [] => ([], s)
  | (env, outcomes) :: rest =>
      let '(r, s1) := open_store env (set_site_outcomes outcomes s) in
      let '(rs, s2) := attempts rest s1 in (r :: rs, s2)
  end.

(** C35. What is refused stays refused: a database file whose content the specification does
    not accept -- blank after an interrupted initialization, of another program or
    version, damaged, incomplete, or inconsistent -- is never opened and never
    replaced, in any sequence of attempts by any users. *)
Theorem refused_forever l s :
  is_Some (site_files s !! name) -> accepts (site_content s) = false ->
  Forall (fun eo => oe_name eo.1 = name) l ->
  Forall (fun r => is_ok r = false) (attempts l s).1 /\ site_content (attempts l s).2 = site_content s.
Proof.
  intros Hs Ha Hl. revert s Hs Ha. induction Hl as [|[env outcomes] l Hn _ IH]; intros s Hs Ha; cbn [attempts]; [done|].
  cbn in Hn. destruct (open_store env (set_site_outcomes outcomes s)) as [r s1] eqn:Hr.
  pose proof (open_keeps_file env (set_site_outcomes outcomes s) Hs) as Hs1. rewrite Hr in Hs1. cbn in Hs1.
  apply open_store_run in Hr. rewrite Hn in Hr. cbn [site_files site_content set_site_outcomes] in Hr.
  rewrite bool_decide_eq_true_2 in Hr by done. unfold open_spec in Hr. rewrite Ha in Hr.
  destruct r as [t|e]; [by destruct Hr|]. assert (Hc : site_content s1 = site_content s) by (destruct Hr as [?|[[[=] _]|[=]]]; done).
  specialize (IH s1 Hs1 ltac:(by rewrite Hc)). destruct (attempts l s1) as [rs s2]. cbn in *.
  destruct IH as [IH1 IH2]. split; [by constructor|congruence].
Qed.
End refused.

(** ** Databases that are opened *)

Section available.
Context (env : OpenEnv).

(** A state in which every call succeeds. *)
Abbreviation calm files mode c := (mkSite files (oe_euid env) mode c []).

Definition absent_or_private_stat (files : gmap string FileStat) (x : string) : Prop :=
  forall info, files !! x = Some info -> private_stat (oe_euid env) info = true.

(** The files the constructor wants to see. *)
Record openable (files : gmap string FileStat) : Prop := {
  openable_lock : absent_or_private_stat files (oe_name env +:+ ".lock");
  openable_sidecars x : x ∈ sidecars -> absent_or_private_stat files (oe_name env +:+ x);
  openable_database : match files !! oe_name env with
                      | Some info => private_stat (oe_euid env) info = true /\ 100 <= st_size info
                      | None => forall x, x ∈ sidecars -> files !! (oe_name env +:+ x) = None
                      end
}.

(** What the constructor wants of its environment. *)
Record capable : Prop := {
  capable_library : oe_library env = true;
  capable_name : oe_name env <> EmptyString /\ oe_name env <> "." /\ oe_name env <> "..";
  capable_umask : Z.land 384 (Z.lnot (oe_umask env)) = 384;
  capable_sqlite : oe_foreign_keys env = true /\ oe_wal env = true /\ oe_full_sync env = true;
  capable_header : 100 <= oe_header_size env
}.

Lemma sync_tree_calm n files mode c : sync_tree n (calm files mode c) = (Ok tt, calm files mode c).
Proof. unfold sync_tree. cbn. induction n as [|n IH]; [done|]. exact IH. Qed.

Lemma inspect_calm x files mode c :
  absent_or_private_stat files x -> inspect env x (calm files mode c) = (Ok (files !! x), calm files mode c).
Proof.
  intros Hp. unfold inspect, bind at 1. cbn [site_call site_outcomes negb]. rewrite bind_gets. cbn [site_files].
  unfold absent_or_private_stat in Hp. destruct (files !! x) as [info|]; [|done]. by rewrite (Hp info eq_refl).
Qed.
Lemma inspect_sidecars_calm l found files mode c :
  (forall x, x ∈ l -> absent_or_private_stat files (oe_name env +:+ x)) ->
  exists b, inspect_sidecars env l found (calm files mode c) = (Ok b, calm files mode c) /\
    (found = false -> (forall x, x ∈ l -> files !! (oe_name env +:+ x) = None) -> b = false).
Proof.
  revert found. induction l as [|x l IH]; intros found Hl; cbn [inspect_sidecars].
  - exists found. done.
  - unfold bind at 1. rewrite inspect_calm by (apply Hl; left).
    destruct (IH (bool_decide (is_Some (files !! (oe_name env +:+ x))) || found)) as (b & -> & Hb);
      [intros y Hy; apply Hl; by right|].
    exists b. split; [done|]. intros -> Hnone. apply Hb; [|intros y Hy; apply Hnone; by right].
    rewrite Hnone by left. done.
Qed.
Lemma check_files_calm files mode c :
  openable files -> is_Some (files !! oe_name env) ->
  check_database_files env (calm files mode c) = (Ok tt, calm files mode c).
Proof.
  intros [_ Hs Hd] Hin. unfold check_database_files, bind at 1. rewrite inspect_calm.
  2: { intros info Hi. rewrite Hi in Hd. apply Hd. }
  rewrite (bool_decide_eq_true_2 _ Hin). unfold bind at 1. cbn [require_open require ret].
  destruct (inspect_sidecars_calm sidecars false files mode c Hs) as (b & Hb & _). unfold bind. by rewrite Hb.
Qed.

Lemma secure_directory_calm files mode c : secure_directory env (calm files mode c) = (Ok tt, calm files 448 c).
Proof.
  unfold secure_directory, bind. cbn -[sync_tree Z.eqb]. rewrite Z.eqb_refl. cbn -[sync_tree].
  change (set_site_mode 448 (calm files mode c)) with (calm files 448 c). by rewrite sync_tree_calm.
Qed.

Lemma new_stat_private : Z.land 384 (Z.lnot (oe_umask env)) = 384 -> private_stat (oe_euid env) (new_stat env) = true.
Proof. intros Hm. unfold private_stat, new_stat. cbn [st_mode st_uid st_nlink]. by rewrite Hm, !Z.eqb_refl. Qed.

(** Opening the lock creates it when it is absent. *)
Definition with_lock (files : gmap string FileStat) : gmap string FileStat :=
  match files !! (oe_name env +:+ ".lock") with
  | None => <[oe_name env +:+ ".lock" := new_stat env]> files
  | Some _ => files
  end.
Lemma with_lock_other files x : x <> oe_name env +:+ ".lock" -> with_lock files !! x = files !! x.
Proof. intros Hx. unfold with_lock. destruct (files !! _); [done|]. by rewrite lookup_insert_ne. Qed.
Lemma name_ne_lock : oe_name env <> oe_name env +:+ ".lock".
Proof. apply not_eq_sym, suffix_ne_name. done. Qed.
Lemma sidecar_ne_lock x : x ∈ sidecars -> oe_name env +:+ x <> oe_name env +:+ ".lock".
Proof. intros Hx. apply suffix_ne. intros ->. revert Hx. by apply (bool_decide_unpack (".lock" ∉ sidecars)). Qed.

Lemma open_lock_calm files mode c :
  absent_or_private_stat files (oe_name env +:+ ".lock") ->
  open_lock env (oe_name env +:+ ".lock") (calm files mode c) = (Ok tt, calm (with_lock files) mode c).
Proof.
  intros Hp. unfold open_lock, bind at 1. cbn [require_call bind site_call site_outcomes ret]. rewrite bind_gets.
  cbn [site_files]. unfold with_lock, absent_or_private_stat in *. destruct (files !! _) as [info|]; [|done].
  specialize (Hp info eq_refl). unfold private_stat in Hp.
  assert (Z.land (st_mode info) 61440 =? 40960 = false) as ->; [|done]. apply Z.eqb_neq. intros Heq. rewrite Heq in Hp. done.
Qed.

Lemma with_lock_openable files :
  Z.land 384 (Z.lnot (oe_umask env)) = 384 -> openable files -> openable (with_lock files).
Proof.
  intros Hm [Hl Hs Hd]. split.
  - unfold absent_or_private_stat, with_lock in *. destruct (files !! _) as [i|] eqn:E; [by rewrite E|].
    rewrite lookup_insert_eq. intros info [= <-]. by apply new_stat_private.
  - intros x Hx. unfold absent_or_private_stat. rewrite with_lock_other by (by apply sidecar_ne_lock). by apply Hs.
  - rewrite with_lock_other by apply name_ne_lock. destruct (files !! oe_name env); [done|].
    intros x Hx. rewrite with_lock_other by (by apply sidecar_ne_lock). by apply Hd.
Qed.

Lemma prepare_directory_calm files mode c :
  capable -> openable files -> prepare_directory env (calm files mode c) = (Ok tt, calm (with_lock files) 448 c).
Proof.
  intros [Hlib (Hn1 & Hn2 & Hn3) Hum _ _] Hf. unfold prepare_directory.
  rewrite Hlib, !bool_decide_eq_false_2 by done. unfold bind at 1 2. cbn [require_open require negb orb ret].
  unfold bind at 1. rewrite secure_directory_calm. unfold bind at 1. rewrite open_lock_calm by apply Hf.
  unfold bind at 1. rewrite inspect_calm by (by apply with_lock_openable). done.
Qed.

(** The file that is created. *)
Definition created_stat : FileStat := mkFileStat (32768 + 384) (oe_euid env) 1 0.

Lemma find_or_create_calm files mode c :
  openable files ->
  find_or_create env (calm files mode c) =
    match files !! oe_name env with
    | Some _ => (Ok true, calm files mode c)
    | None => (Ok false, calm (<[oe_name env := created_stat]> (<[oe_name env := new_stat env]> files)) mode blank)
    end.
Proof.
  intros [_ Hs Hd]. unfold find_or_create, bind at 1. rewrite inspect_calm.
  2: { intros info Hi. rewrite Hi in Hd. apply Hd. }
  destruct (inspect_sidecars_calm sidecars false files mode c Hs) as (b & Hb & Hnone). unfold bind at 1. rewrite Hb.
  destruct (files !! oe_name env) as [info|].
  - unfold bind at 1. cbn [require_open]. rewrite bool_decide_eq_true_2 by by eexists. cbn [orb require ret].
    unfold bind. destruct Hd as [_ Hsize]. by rewrite (proj2 (Z.leb_le _ _) Hsize).
  - rewrite (Hnone eq_refl Hd). done.
Qed.

Lemma configure_calm (existing : bool) files mode c :
  capable -> ct_intact c = true ->
  (if existing then (ct_application_id c =? APPLICATION_ID) && (1 <=? ct_user_version c) && (ct_user_version c <=? VERSION)
   else (ct_application_id c =? 0) && (ct_user_version c =? 0)) = true ->
  configure env existing (calm files mode c) = (Ok (ct_user_version c), calm files mode c).
Proof.
  intros [_ _ _ (Hfk & _ & _) _] Hi Hreq. unfold configure, bind. cbn -[Z.eqb Z.leb andb].
  rewrite Hfk. cbn -[Z.eqb Z.leb andb]. rewrite Hi. cbn -[Z.eqb Z.leb andb]. by rewrite Hreq.
Qed.

Definition wal_files (files : gmap string FileStat) (info : FileStat) : gmap string FileStat :=
  let side := mkFileStat (st_mode info) (st_uid info) (st_nlink info) 0 in
  <[oe_name env +:+ "-wal" := side]> (<[oe_name env +:+ "-shm" := side]>
    (<[oe_name env := mkFileStat (st_mode info) (st_uid info) (st_nlink info) (Z.max (st_size info) (oe_header_size env))]> files)).

Lemma enable_wal_calm files mode c info :
  capable -> files !! oe_name env = Some info ->
  enable_wal env (calm files mode c) = (Ok tt, calm (wal_files files info) mode c).
Proof.
  intros [_ _ _ (_ & Hwal & Hfull) _] Hin. unfold enable_wal, bind. cbn -[gmap_lookup insert]. rewrite Hwal. cbn -[lookup insert].
  rewrite Hin. cbn -[lookup insert]. by rewrite Hfull.
Qed.

Lemma wal_files_openable files info :
  capable -> private_stat (oe_euid env) info = true ->
  absent_or_private_stat files (oe_name env +:+ ".lock") ->
  absent_or_private_stat files (oe_name env +:+ "-journal") ->
  openable (wal_files files info) /\ is_Some (wal_files files info !! oe_name env).
Proof.
  intros [_ _ _ _ Hh] Hp Hl Hj.
  assert (Hname : wal_files files info !! oe_name env =
    Some (mkFileStat (st_mode info) (st_uid info) (st_nlink info) (Z.max (st_size info) (oe_header_size env)))).
  { unfold wal_files. rewrite !lookup_insert_ne by (by apply suffix_ne_name). apply lookup_insert_eq. }
  split; [|by rewrite Hname; eexists]. split.
  - unfold absent_or_private_stat, wal_files.
    rewrite !lookup_insert_ne by (first [by apply suffix_ne|apply name_ne_lock]). exact Hl.
  - intros x Hx. unfold sidecars in Hx. unfold absent_or_private_stat, wal_files.
    repeat apply elem_of_cons in Hx as [->|Hx]; [| | |by apply not_elem_of_nil in Hx].
    + rewrite lookup_insert_eq. by intros ? [= <-].
    + rewrite lookup_insert_ne, lookup_insert_eq by (by apply suffix_ne). by intros ? [= <-].
    + rewrite !lookup_insert_ne by (first [by apply suffix_ne|by apply not_eq_sym, suffix_ne_name]). exact Hj.
  - rewrite Hname. split; [exact Hp|]. cbn. lia.
Qed.

Lemma sqlite_calm files mode c : sqlite (calm files mode c) = (Ok tt, calm files mode c).
Proof. reflexivity. Qed.
Lemma execute_calm f files mode c : execute f (calm files mode c) = (Ok tt, calm files mode (f c)).
Proof. reflexivity. Qed.
Lemma pragma_calm {A} (value : Site -> A) files mode c :
  pragma value (calm files mode c) = (Ok (value (calm files mode c)), calm files mode c).
Proof. reflexivity. Qed.

Lemma create_schema_calm version files mode c :
  (version < 1 -> ct_devices c = None) -> (version < 2 -> ct_attempts c = None) ->
  ((if version <? 1 then create_v1 else ret tt);;; (if version <? 2 then create_v2 else ret tt)) (calm files mode c) =
  (Ok tt, calm files mode (mkContent (ct_application_id c) (ct_user_version c)
            (if version <? 1 then Some (∅, ∅) else ct_devices c) (if version <? 2 then Some (∅, ∅) else ct_attempts c) (ct_intact c))).
Proof.
  intros Hd Ha. destruct c as [app v devices att intact]. cbn in *.
  destruct (Z.ltb_spec version 1) as [H1|H1].
  - destruct (Z.ltb_spec version 2); [|lia]. rewrite Hd, Ha by lia. done.
  - destruct (Z.ltb_spec version 2); [|done]. rewrite Ha by lia. done.
Qed.

Lemma migrate_calm version files mode c t :
  (version < 1 -> ct_devices c = None) -> (version < 2 -> ct_attempts c = None) ->
  foreign_keys_ok (schema_steps version c) = true -> tables_of (schema_steps version c) = Some t ->
  openable files -> is_Some (files !! oe_name env) ->
  migration env version (calm files mode c) = (Ok t, calm files mode (schema_steps version c)).
Proof.
  intros Hd Ha Hfk Ht Hf Hin. unfold migration. cbn [sqlite bind site_call site_outcomes ret].
  assert (migrate env version (calm files mode c) = (Ok t, calm files mode (schema_steps version c))) as Hm.
  { unfold migrate. rewrite bind_assoc. unfold bind at 1. rewrite create_schema_calm by done.
    unfold bind at 1. rewrite execute_calm. unfold bind at 1. rewrite execute_calm.
    change (mkContent _ VERSION _ _ _) with (schema_steps version c).
    unfold bind at 1. rewrite pragma_calm. cbn [site_content]. rewrite Hfk. unfold bind at 1. cbn [require_open require ret].
    rewrite bind_gets. cbn [site_content]. rewrite Ht. do 10 (unfold bind at 1; rewrite sqlite_calm). unfold bind at 1.
    by rewrite check_files_calm. }
  unfold bind at 1. by rewrite Hm.
Qed.

Lemma accepts_inv c :
  accepts c = true ->
  ct_intact c = true /\ ct_application_id c = APPLICATION_ID /\ 1 <= ct_user_version c <= VERSION /\
  is_Some (ct_devices c) /\ (ct_user_version c < 2 -> ct_attempts c = None) /\
  (2 <= ct_user_version c -> is_Some (ct_attempts c)) /\ foreign_keys_ok c = true.
Proof.
  unfold accepts. rewrite !andb_true_iff. intros ((((((Hi & Ha) & H1) & H2) & Hd) & Hatt) & Hfk).
  apply bool_decide_eq_true in Hd. split_and!; try done; try lia;
    destruct (Z.ltb_spec (ct_user_version c) 2); try lia; by apply bool_decide_eq_true in Hatt.
Qed.

Lemma accepted_steps c :
  accepts c = true ->
  schema_steps (ct_user_version c) c = upgrade c /\ foreign_keys_ok (upgrade c) = true /\
  is_Some (tables_of (upgrade c)).
Proof.
  intros (Hi & Happ & Hv & Hd & Ha1 & Ha2 & Hfk)%accepts_inv.
  assert (Hd' := Hd). destruct Hd' as [[devices granted] Hd'].
  assert (Ht : is_Some (tables_of (upgrade c))).
  { unfold tables_of, upgrade. cbn. rewrite Hd'. destruct (default (∅, ∅) (ct_attempts c)). by eexists. }
  split_and!; [|..|done].
  - unfold schema_steps, upgrade. destruct (Z.ltb_spec (ct_user_version c) 1); [lia|].
    destruct (Z.ltb_spec (ct_user_version c) 2) as [H2|H2]; [by rewrite (Ha1 H2)|]. by destruct (Ha2 H2) as [a ->].
  - unfold foreign_keys_ok, upgrade in *. cbn. apply andb_true_iff in Hfk as [-> Hfk].
    by destruct (ct_attempts c) as [a|].
Qed.

Lemma spec_idempotent present c c' : open_spec present c = Some c' -> open_spec true c' = Some c'.
Proof.
  destruct present; cbn [open_spec]; [|intros [= <-]; done].
  destruct (accepts c) eqn:Hacc; [|done]. intros [= <-]. destruct (accepted_steps c Hacc) as (_ & Hfk & _).
  apply accepts_inv in Hacc as (Hi & _ & _ & Hd & _).
  assert (accepts (upgrade c) = true) as ->; [|done].
  unfold accepts. rewrite Hfk. unfold upgrade. cbn. rewrite Hi, bool_decide_eq_true_2 by done. done.
Qed.

Lemma open_store_calm files mode c c' :
  capable -> openable files ->
  open_spec (bool_decide (is_Some (files !! oe_name env))) c = Some c' ->
  exists t files', tables_of c' = Some t /\ open_store env (calm files mode c) = (Ok t, calm files' 448 c') /\
    openable files' /\ is_Some (files' !! oe_name env).
Proof.
  intros Hcap Hf Hspec. unfold open_store, bind at 1. rewrite prepare_directory_calm by done.
  pose proof (with_lock_openable files (capable_umask Hcap) Hf) as Hf1.
  unfold bind at 1. rewrite find_or_create_calm by done. rewrite with_lock_other by apply name_ne_lock.
  destruct (files !! oe_name env) as [info|] eqn:Hin.
  - rewrite bool_decide_eq_true_2 in Hspec by by eexists. cbn [open_spec] in Hspec.
    destruct (accepts c) eqn:Hacc; [|done]. injection Hspec as <-.
    destruct (accepted_steps c Hacc) as (Hsteps & Hfk & [t Ht]). apply accepts_inv in Hacc as (Hi & Happ & Hv & Hd & Ha1 & _ & _).
    assert (Hin1 : with_lock files !! oe_name env = Some info) by (by rewrite with_lock_other by apply name_ne_lock).
    destruct (wal_files_openable (with_lock files) info Hcap) as [Hf2 Hin2].
    { destruct Hf1 as [_ _ Hdb]. rewrite Hin1 in Hdb. apply Hdb. }
    { apply Hf1. }
    { apply Hf1. by apply (bool_decide_unpack ("-journal" ∈ sidecars)). }
    exists t, (wal_files (with_lock files) info). split_and!; try done.
    unfold open_database, bind at 1. rewrite configure_calm; [|done|done|rewrite Happ, Z.eqb_refl; lia].
    unfold bind at 1. rewrite (enable_wal_calm _ _ _ info) by done. unfold bind at 1.
    rewrite (migrate_calm _ _ _ _ t) by (rewrite ?Hsteps; done || lia). rewrite Hsteps. done.
  - rewrite bool_decide_eq_false_2 in Hspec by (by intros [? [=]]). injection Hspec as <-.
    set (files1 := <[oe_name env := created_stat]> (<[oe_name env := new_stat env]> (with_lock files))).
    assert (Hother : forall x, x <> oe_name env -> files1 !! x = with_lock files !! x).
    { intros x Hx. unfold files1. by rewrite !lookup_insert_ne. }
    destruct (wal_files_openable files1 created_stat Hcap) as [Hf2 Hin2].
    { unfold private_stat. cbn [created_stat st_mode st_uid st_nlink]. rewrite (Z.eqb_refl (oe_euid env)). reflexivity. }
    { unfold absent_or_private_stat. rewrite Hother by (apply not_eq_sym, name_ne_lock). apply Hf1. }
    { unfold absent_or_private_stat. rewrite Hother by (by apply suffix_ne_name). apply Hf1.
      by apply (bool_decide_unpack ("-journal" ∈ sidecars)). }
    exists empty_tables, (wal_files files1 created_stat). split_and!; try done.
    unfold open_database, bind at 1. rewrite configure_calm by done. unfold bind at 1.
    rewrite (enable_wal_calm _ _ _ created_stat); [|done|apply lookup_insert_eq]. unfold bind at 1.
    by rewrite (migrate_calm _ _ _ _ empty_tables).
Qed.

(** A database that can be opened is opened: when every call succeeds, the files are
    private and SQLite has what the code asks of it, a directory without a database
    or with one the specification accepts is opened with the tables of the
    specification; opening it again returns the same tables and changes nothing. *)
Theorem open_available files mode c c' :
  capable -> openable files ->
  open_spec (bool_decide (is_Some (files !! oe_name env))) c = Some c' ->
  exists t files', tables_of c' = Some t /\
    open_store env (calm files mode c) = (Ok t, calm files' 448 c') /\
    exists files'', open_store env (calm files' 448 c') = (Ok t, calm files'' 448 c').
Proof.
  intros Hcap Hf Hspec. destruct (open_store_calm files mode c c' Hcap Hf Hspec) as (t & files' & Ht & Hrun & Hf' & Hin').
  exists t, files'. split_and!; [done..|].
  destruct (open_store_calm files' 448 c' c' Hcap Hf') as (t' & files'' & Ht' & Hrun' & _).
  - rewrite bool_decide_eq_true_2 by done. by eapply spec_idempotent.
  - exists files''. rewrite Hrun'. congruence.
Qed.
End available.

(** ** Concrete directories *)

Module OpenScenario.

Definition machine : OpenEnv := mkOpenEnv "trust.sqlite3" 1000 18 3 true true true true 4096.
Definition empty_site (outcomes : list Outcome) : Site := mkSite ∅ 1000 493 blank outcomes.
Definition opened : result OpenError Tables * Site := open_store machine (empty_site []).

Lemma machine_capable : capable machine.
Proof. by repeat split. Qed.
Lemma empty_openable : openable machine ∅.
Proof.
  split.
  - intros info H. by rewrite lookup_empty in H.
  - intros x _ info H. by rewrite lookup_empty in H.
  - rewrite lookup_empty. intros x _. apply lookup_empty.
Qed.

Lemma open_refines_spec_witness : tables_of (site_content opened.2) = Some empty_tables.
Proof.
  pose proof (open_refines_spec machine (empty_site []) (Ok empty_tables) opened.2) as H.
  destruct H as (_ & Ht & _); [apply run_eta; vm_compute; reflexivity|exact Ht].
Defined.

Lemma open_available_witness :
  exists t files', tables_of fresh_content = Some t /\
    open_store machine (mkSite ∅ 1000 493 blank []) = (Ok t, mkSite files' 1000 448 fresh_content []).
Proof.
  destruct (open_available machine ∅ 493 blank fresh_content machine_capable empty_openable) as (t & files' & Ht & Hrun & _).
  - reflexivity.
  - exists t, files'. split; [exact Ht|exact Hrun].
Defined.

(** Killed after the file was created, before the schema was committed. *)
Definition half_open : Site := (open_store machine (empty_site (repeat SysDone 60 ++ [SysKill]))).2.
Lemma refused_forever_witness :
  site_content half_open = blank /\
  Forall (fun r => is_ok r = false) (attempts [(machine, []); (machine, [SysIntr])] half_open).1.
Proof.
  split; [vm_compute; reflexivity|].
  refine (proj1 (refused_forever "trust.sqlite3" [(machine, []); (machine, [SysIntr])] half_open _ _ _)).
  - vm_compute. by eexists.
  - vm_compute. reflexivity.
  - by repeat constructor.
Defined.
End OpenScenario.
