(* ===== verification/StoreResources.v ===== *)
(** * The resources of the trust store ([core/trust/trust_store.cpp])

    [TrustOpen.v] follows what the constructor of [TrustStore::Impl] does to the files
    and to the database; here the same code runs with the objects that own something:
    [Fd] and [unique_ptr<Fd>], the members [directory] and [db], the lock, prepared
    statements and the transaction of the migration.  Whatever fails, the constructor
    either throws with everything released, or returns with the directory and the
    SQLite handle and nothing else, which the destructor releases. *)

From S2P Require Import Prelude Storage TrustTables TrustStore TrustLedger TrustOpen Ownership.

#[export] Instance open_kills : Kills OpenError := fun e => match e with OpenKilled => true | _ => false end.
Abbreviation rop := (stx (Fds * Site) OpenError).

(** ** The classes *)

(** Calls that give something. *)
Definition site_opens : opening (option unit) := let! ok := site_call in ret (if ok then Some tt else None).

(** [Fd(int value)], for the result of a call; the destructor closes the descriptor. *)
Definition make_Fd {X} (opens : opening (option X)) : rop (nat * X) :=
  make_checked (OpenFailed "cannot open storage handle") opens.
(** [Statement(db, sql)] and [Transaction(db)]. *)
Definition make_sqlite : rop (nat * unit) := make_checked OpenSqlite site_opens.
(** [Transaction::commit]: when it returns there is nothing to roll back. *)
Definition commit (transaction : nat) : rop unit := on_sys sqlite;;; reset transaction (-1).

(** ** The constructor *)

Section opening.
Context (env : OpenEnv).
(** Whether [sqlite3_open_v2] gives a handle when it fails; it does unless memory ran
    out. *)
Variable handle_on_failure : bool.

Definition lock_opens (name : string) : opening (option unit) :=
  let! ok := site_call in
  if negb ok then ret None
  else
    let! files := gets site_files in
    match files !! name with
    | None => add_file name (new_stat env);;; ret (Some tt)
    | Some info => ret (if negb (Z.land (st_mode info) 61440 =? 40960) then Some tt else None)
    end.
Definition create_opens : opening (option unit) :=
  let! ok := site_call in
  if negb ok then ret None
  else
    add_file (oe_name env) (new_stat env);;;
    modify (set_content blank);;;
    ret (Some tt).

(** [current] and [parent] are [unique_ptr]s. *)
Fixpoint r_sync_loop (current : nat) (ancestors : nat) : rop unit :=
  on_sys sync_fd;;;
  let! parent := make_Fd site_opens in
  let checks := on_sys (require_call "cannot inspect storage ancestors");;;
                on_sys (require_call "cannot inspect storage ancestors") in
  match ancestors with
  | O => leave parent.1 checks
  | S ancestors => leave parent.1 (checks;;; move_assign current parent.1);;; r_sync_loop current ancestors
  end.
Definition r_sync_tree (ancestors : nat) : rop unit :=
  let! current := make_Fd site_opens in
  leave current.1 (r_sync_loop current.1 ancestors).

(** [directory = std::make_unique<Fd>(::open(...))], and the checks. *)
Definition r_secure_directory (directory : nat) : rop unit :=
  on_sys (require_call "cannot create state directory");;;
  (let! opened := make_Fd site_opens in leave opened.1 (move_assign directory opened.1));;;
  on_sys (require_call "state directory must be user-owned");;;
  let! uid := on_sys (gets site_dir_uid) in
  on_sys (require_open "state directory must be user-owned" (uid =? oe_euid env));;;
  on_sys (require_call "cannot secure state directory");;;
  on_sys (modify (set_site_mode 448));;;
  r_sync_tree (oe_depth env);;;
  on_sys (require_call "cannot resolve the directory").

Definition r_find_or_create : rop bool :=
  let! info := on_sys (inspect env (oe_name env)) in
  let! sidecar := on_sys (inspect_sidecars env sidecars false) in
  on_sys (require_open "database is missing but SQLite recovery files remain" (bool_decide (is_Some info) || negb sidecar));;;
  match info with
  | Some info =>
      on_sys (require_open "database is truncated or initialization was interrupted" (100 <=? st_size info));;; ret true
  | None =>
      (let! file := make_Fd create_opens in
       leave file.1
         (on_sys (require_call "cannot secure database file");;;
          on_sys (add_file (oe_name env) (mkFileStat (32768 + 384) (oe_euid env) 1 0));;;
          on_sys sync_fd;;; on_sys sync_fd));;;
      ret false
  end.

(** [sqlite3_open_v2] and [db.reset(handle)]. *)
Definition handle_opens : opening (option bool) :=
  let! ok := site_call in ret (if ok || handle_on_failure then Some ok else None).
Definition r_open_handle (db : nat) : rop unit :=
  let! opened := open_fd handle_opens in
  reset db opened.1;;;
  match opened.2 with Some true => ret tt | _ => throw OpenSqlite end.

Definition r_pragma {A} (value : Site -> A) : rop A :=
  let! query := make_sqlite in
  leave query.1 (on_sys sqlite;;; on_sys (gets value)).

Definition r_configure (existing : bool) : rop Z :=
  on_sys sqlite;;; on_sys sqlite;;; on_sys sqlite;;; on_sys sqlite;;;
  let! foreign_keys := r_pragma (fun _ => oe_foreign_keys env) in
  on_sys (require_open "SQLite foreign keys unavailable" foreign_keys);;;
  let! intact := r_pragma (fun s => ct_intact (site_content s)) in
  on_sys (require_open "database integrity check failed" intact);;;
  let! version := r_pragma (fun s => ct_user_version (site_content s)) in
  let! app := r_pragma (fun s => ct_application_id (site_content s)) in
  on_sys (require_open "unrecognized database or unsupported schema version"
    (if existing then (app =? APPLICATION_ID) && (1 <=? version) && (version <=? VERSION)
     else (app =? 0) && (version =? 0)));;;
  ret version.

(** The files of WAL mode. *)
Definition wal_files : opening unit :=
  let! files := gets site_files in
  match files !! oe_name env with
  | None => ret tt
  | Some info =>
      let grown := mkFileStat (st_mode info) (st_uid info) (st_nlink info) (Z.max (st_size info) (oe_header_size env)) in
      let side := mkFileStat (st_mode info) (st_uid info) (st_nlink info) 0 in
      modify (fun s => set_files (<[oe_name env +:+ "-wal" := side]> (<[oe_name env +:+ "-shm" := side]>
                                   (<[oe_name env := grown]> (site_files s)))) s)
  end.
Definition r_enable_wal : rop unit :=
  let! mode := r_pragma (fun _ => oe_wal env) in
  on_sys (require_open "SQLite WAL mode unavailable" mode);;;
  on_sys wal_files;;;
  on_sys sqlite;;;
  let! full := r_pragma (fun _ => oe_full_sync env) in
  on_sys (require_open "SQLite FULL synchronization unavailable" full).

(** [read_permissions] on a table without rows: bound and stepped. *)
Definition r_read_permissions : rop unit :=
  let! query := make_sqlite in
  leave query.1 (on_sys sqlite;;; on_sys sqlite).

(** The body of the migration; the statements live until the end of the block, after
    the commit [k]. *)
Definition r_migrate {A} (version : Z) (k : Tables -> rop A) : rop A :=
  on_sys (if version <? 1 then create_v1 else ret tt);;;
  on_sys (if version <? 2 then create_v2 else ret tt);;;
  on_sys (TrustOpen.execute (fun c => mkContent APPLICATION_ID (ct_user_version c) (ct_devices c) (ct_attempts c) (ct_intact c)));;;
  on_sys (TrustOpen.execute (fun c => mkContent (ct_application_id c) VERSION (ct_devices c) (ct_attempts c) (ct_intact c)));;;
  let! foreign_keys := make_sqlite in
  leave foreign_keys.1
    (on_sys sqlite;;;
     let! valid := on_sys (gets (fun s => foreign_keys_ok (site_content s))) in
     on_sys (require_open "database has foreign-key violations" valid);;;
     let! t := on_sys (gets (fun s => tables_of (site_content s))) in
     match t with
     | None => throw OpenSqlite
     | Some t =>
         let! devices := make_sqlite in
         leave devices.1
           (on_sys sqlite;;;
            let! attempts := make_sqlite in
            leave attempts.1
              (on_sys sqlite;;;
               r_read_permissions;;; r_read_permissions;;;
               on_sys (check_database_files env);;;
               k t))
     end).

(** [~Transaction] rolls back what was not committed. *)
Definition rolled_back {A} (content : Content) (m : rop A) : rop A :=
  fun st => match m st with
            | (Ok a, st') => (Ok a, st')
            | (Throw e, (f, s)) => (Throw e, (f, set_content content s))
            end.
Definition r_migration (version : Z) : rop Tables :=
  let! content := on_sys (gets site_content) in
  let! migration := make_sqlite in
  leave migration.1 (rolled_back content (r_migrate version (fun t => commit migration.1;;; ret t))).

Definition r_open_database (db : nat) (existing : bool) : rop Tables :=
  r_open_handle db;;;
  let! version := r_configure existing in
  r_enable_wal;;;
  let! t := r_migration version in
  on_sys sync_fd;;;
  ret t.

(** The members, and the body of the constructor. *)
Definition r_open_store : rop (nat * nat * Tables) :=
  let! directory := construct (-1) in
  let! db := construct (-1) in
  member directory (member db (
    on_sys (require_open "a thread-safe SQLite >= 3.37.0 is required" (oe_library env));;;
    on_sys (require_open "invalid database filename"
      (negb (bool_decide (oe_name env = EmptyString) || bool_decide (oe_name env = ".") || bool_decide (oe_name env = ".."))));;;
    r_secure_directory directory;;;
    let! lock := make_Fd (lock_opens (oe_name env +:+ ".lock")) in
    leave lock.1
      (on_sys (inspect env (oe_name env +:+ ".lock"));;;
       on_sys flock;;;
       let! existing := r_find_or_create in
       let! t := r_open_database db existing in
       ret (directory, db, t)))).
End opening.

(** [~TrustStore]: the members in reverse order. *)
Definition r_close_store (directory db : nat) : rop unit := destroy db;;; destroy directory.

(** ** The parts leave nothing behind *)

Section parts.
Context (env : OpenEnv) (handle_on_failure : bool).

Lemma make_Fd_makes {X} (opens : opening (option X)) : makes fst (make_Fd opens).
Proof. apply make_checked_makes. Qed.
Lemma make_sqlite_makes : makes fst make_sqlite.
Proof. apply make_checked_makes. Qed.

#[local] Instance r_sync_tree_balanced n : Balanced (r_sync_tree n).
Proof.
  apply (made_balanced fst); [apply make_Fd_makes|]. intros current. apply keeps_uses.
  induction n as [|n IH]; cbn [r_sync_loop].
  - apply balanced_keeps. apply bind_balanced; [apply _|]. intros _.
    apply (made_balanced fst); [apply make_Fd_makes|]. intros parent. apply balanced_uses, _.
  - apply bind_keeps; [apply balanced_keeps, _|]. intros _.
    assert (keeps_object current.1
      ((let! parent := make_Fd site_opens in
        leave parent.1 ((on_sys (require_call "cannot inspect storage ancestors");;;
                         on_sys (require_call "cannot inspect storage ancestors"));;; move_assign current.1 parent.1));;;
       r_sync_loop current.1 n)) as Hround.
    { apply bind_keeps; [|intros _; exact IH]. apply (made_round_keeps fst); [apply make_Fd_makes|apply _]. }
    intros f0 f s Hf. specialize (Hround f0 f s Hf). rewrite <-bind_assoc in Hround. exact Hround.
Qed.

#[local] Instance r_pragma_balanced {A} (value : Site -> A) : Balanced (r_pragma value).
Proof. apply (made_balanced fst); [apply make_sqlite_makes|]. intros query. apply balanced_uses, _. Qed.
#[local] Instance r_read_permissions_balanced : Balanced r_read_permissions.
Proof. apply (made_balanced fst); [apply make_sqlite_makes|]. intros query. apply balanced_uses, _. Qed.
#[local] Instance r_find_or_create_balanced : Balanced (r_find_or_create env).
Proof.
  unfold r_find_or_create. apply bind_balanced; [apply _|]. intros info. apply bind_balanced; [apply _|]. intros sidecar.
  apply bind_balanced; [apply _|]. intros _. destruct info as [info|]; [apply _|]. apply bind_balanced; [|apply _].
  apply (made_balanced fst); [apply make_Fd_makes|]. intros file. apply balanced_uses, _.
Qed.
#[local] Instance r_configure_balanced existing : Balanced (r_configure env existing).
Proof. unfold r_configure. apply _. Qed.
#[local] Instance r_enable_wal_balanced : Balanced (r_enable_wal env).
Proof. unfold r_enable_wal. apply _. Qed.

(** The migration, for what is done under its three statements. *)
Lemma r_migrate_triple {A} version (k : Tables -> rop A) (P X : Fds -> Prop) (Q : A -> Fds -> Prop) :
  (forall f, P f -> X f) ->
  (forall t s1 s2 s3, triple (on s3 (on s2 (on s1 P))) (k t) (fun a => over s3 (over s2 (over s1 (Q a))))
                        (over s3 (over s2 (over s1 X)))) ->
  triple P (r_migrate env version k) Q X.
Proof.
  intros HX Hk. unfold r_migrate. do 4 (apply triple_step; [apply _|done|]; intros _).
  apply (triple_made fst); [apply make_sqlite_makes|done|]. intros fk.
  assert (forall f, on fk.1 P f -> over fk.1 X f) as HX1 by (intros f; by apply on_over).
  apply triple_step; [apply _|exact HX1|]. intros _. apply triple_step; [apply _|exact HX1|]. intros valid.
  apply triple_step; [apply _|exact HX1|]. intros _. apply triple_step; [apply _|exact HX1|]. intros [t|]; [|by apply triple_throw].
  apply (triple_made fst); [apply make_sqlite_makes|exact HX1|]. intros devices.
  assert (forall f, on devices.1 (on fk.1 P) f -> over devices.1 (over fk.1 X) f) as HX2 by (intros f; by apply on_over).
  apply triple_step; [apply _|exact HX2|]. intros _.
  apply (triple_made fst); [apply make_sqlite_makes|exact HX2|]. intros attempts.
  assert (forall f, on attempts.1 (on devices.1 (on fk.1 P)) f -> over attempts.1 (over devices.1 (over fk.1 X)) f) as HX3
    by (intros f; by apply on_over).
  do 4 (apply triple_step; [apply _|exact HX3|]; intros _). apply Hk.
Qed.

Lemma reset_run o fd f s : reset (St := Site) (Er := OpenError) o fd (f, s) = (Ok tt, (reset_fds o fd f, s)).
Proof. reflexivity. Qed.

(** The commit, below the statements. *)
Lemma commit_triple tx (P Q : Fds -> Prop) s1 s2 s3 :
  (forall f, P f -> sound tx f /\ Q (reset_fds tx (-1) f)) -> (forall f, P f -> Q f) ->
  triple (on s3 (on s2 (on s1 P))) (commit tx) (fun _ => over s3 (over s2 (over s1 Q))) (over s3 (over s2 (over s1 Q))).
Proof.
  intros HP HPQ. apply triple_step; [apply _| |].
  { intros f. apply on_over. intros f'. apply on_over. intros f''. by apply on_over. }
  intros _ f s (f3 & (f2 & (f1 & Hf1 & H1) & H2) & H3). rewrite reset_run.
  destruct (HP f1 Hf1) as [Hs HQ]. destruct (sound_on _ _ _ _ Hs H1) as [Hs2 _]. destruct (sound_on _ _ _ _ Hs2 H2) as [Hs3 _].
  exists (reset_fds tx (-1) f3). split; [|by apply holds_open_holds, reset_below].
  exists (reset_fds tx (-1) f2). split; [|by apply holds_open_holds, reset_below].
  exists (reset_fds tx (-1) f1). split; [done|by apply holds_open_holds, reset_below].
Qed.

Lemma rolled_back_uses {A} o content (m : rop A) : uses_open o m -> uses_open o (rolled_back content m).
Proof.
  intros Hm f0 f s Hf. specialize (Hm f0 f s Hf). unfold rolled_back. by destruct (m (f, s)) as [[a|e] [f' s']].
Qed.

#[local] Instance r_migration_balanced version : Balanced (r_migration env version).
Proof.
  apply bind_balanced; [apply _|]. intros content. apply (made_balanced fst); [apply make_sqlite_makes|]. intros tx.
  apply rolled_back_uses, triple_uses. intros f0. apply r_migrate_triple; [apply holds_open_holds|]. intros t s1 s2 s3.
  apply (triple_bind _ _ (fun _ => over s3 (over s2 (over s1 (holds tx.1 f0))))); [|intros _; by apply triple_ret].
  apply commit_triple; [|apply holds_open_holds]. intros f Hf.
  split; [by eapply holds_open_sound|by apply holds_open_released].
Qed.

(** The member [directory] gets its descriptor. *)
Lemma assign_directory directory db f0 :
  triple (empty_on db (empty_on directory (eq f0)))
    (let! opened := make_Fd site_opens in leave opened.1 (move_assign directory opened.1))
    (fun _ => empty_on db (on directory (eq f0))) (empty_on db (empty_on directory (eq f0))).
Proof.
  apply (triple_made fst); [apply make_Fd_makes|done|]. intros [o []] f s (f2 & (f1 & (? & <- & Hd & ->) & Hdb & ->) & Ho & fd & Hpos & Hfd & ->).
  cbn in Hdb, Ho, Hfd. apply lookup_insert_None in Hdb as [Hdb Hne]. apply lookup_insert_None in Ho as [Ho Hne1].
  apply lookup_insert_None in Ho as [Ho Hne2]. unfold move_assign, on_fds. cbn [fst snd]. rewrite bool_decide_false by done.
  unfold set_fd_objects, fd_of, close_if_open. cbn [fd_objects fd_open fd_bad].
  rewrite lookup_insert_eq, !lookup_insert_ne, lookup_insert_eq by done. cbn [default from_option id].
  change (0 <=? -1) with false. cbn [fd_objects fd_open fd_bad].
  exists (mkFds ({[fd]} ∪ fd_open f0) (<[db := -1]> (<[directory := fd]> (fd_objects f0))) (fd_bad f0)). split.
  - exists (mkFds ({[fd]} ∪ fd_open f0) (<[directory := fd]> (fd_objects f0)) (fd_bad f0)). split; [|split; [|done]].
    + exists f0. split; [done|]. split; [done|]. by exists fd.
    + cbn. by rewrite lookup_insert_ne.
  - assert (<[directory := fd]> (<[o := -1]> (<[o := fd]> (<[db := -1]> (<[directory := -1]> (fd_objects f0))))) =
            <[o := -1]> (<[db := -1]> (<[directory := fd]> (fd_objects f0)))) as ->.
    { rewrite insert_insert_eq, (insert_insert_ne _ directory o), (insert_insert_ne _ directory db), insert_insert_eq by done. done. }
    apply (holds_none o (mkFds _ _ _)). cbn. by rewrite !lookup_insert_ne.
Qed.

(** The member [db] gets the handle, below the lock. *)
Lemma open_handle_triple lock db (P : Fds -> Prop) :
  triple (on lock (empty_on db P)) (r_open_handle handle_on_failure db)
    (fun _ => on lock (on db P)) (over lock (over db P)).
Proof.
  intros f s (f1 & H1 & Hl). pose proof (empty_sound _ _ _ H1) as Hs. unfold r_open_handle, bind at 1, open_fd, bind at 1, on_sys at 1.
  cbn [fst snd]. destruct (handle_opens handle_on_failure s) as [[[ok|]|e] s1].
  - unfold bind, on_fds. cbn [fst snd ret]. rewrite reset_run. cbn [fst snd].
    change (mkFds ({[unused (fd_open f)]} ∪ fd_open f) (fd_objects f) (fd_bad f)) with (give (unused (fd_open f)) f).
    destruct (unused_spec (fd_open f)) as [Hpos Hun].
    assert (unused (fd_open f) ∉ fd_open f1) as Hun1.
    { destruct Hl as (_ & l & _ & _ & Hf). intros Hin. apply Hun. rewrite Hf at 2. cbn. by apply elem_of_union_r. }
    assert (on lock (on db P) (reset_fds db (unused (fd_open f)) (give (unused (fd_open f)) f))) as Hon.
    { exists (reset_fds db (unused (fd_open f)) (give (unused (fd_open f)) f1)). split; [by apply empty_given|].
      apply reset_below; [|by apply give_below]. destruct Hs as (r & Hr & Hin). exists r. cbn. split; [done|].
      destruct Hin as [?|[? ?]]; [by left|right; split; [done|by apply elem_of_union_r]]. }
    destruct ok; cbn; [done|]. right. eapply on_over; [|exact Hon]. intros f'. by apply on_over.
  - unfold bind. cbn [fst snd ret]. rewrite reset_run. cbn. right.
    exists f1. split; [by eapply empty_over|]. rewrite <-(empty_reset db P f1 H1). by apply holds_open_holds, reset_below.
  - cbn. right. exists f1. split; [by eapply empty_over|by apply holds_open_holds].
Qed.

Definition store_state (f0 : Fds) (directory db : nat) : Fds -> Prop := on db (on directory (eq f0)).
Definition store_partial (f0 : Fds) (directory db : nat) : Fds -> Prop := over db (over directory (eq f0)).

Lemma r_open_database_triple lock db existing (P X : Fds -> Prop) :
  (forall f, on db P f -> X f) -> (forall f, over db P f -> X f) ->
  triple (on lock (empty_on db P)) (r_open_database env handle_on_failure db existing)
    (fun _ => on lock (on db P)) (over lock X).
Proof.
  intros HX HX'. apply (triple_bind _ _ (fun _ => on lock (on db P))).
  { eapply triple_weaken; [apply open_handle_triple|done|done|]. intros f. by apply over_over. }
  intros _. assert (forall f, on lock (on db P) f -> over lock X f) as Hx by (intros f; by apply on_over).
  apply triple_step; [apply _|exact Hx|]. intros version. apply triple_step; [apply _|exact Hx|]. intros _.
  apply triple_step; [apply _|exact Hx|]. intros t. apply triple_step; [apply _|exact Hx|]. intros _. by apply triple_ret.
Qed.

(** The body of the constructor. *)
Lemma constructor_triple directory db f0 :
  triple (empty_on db (empty_on directory (eq f0)))
    (on_sys (require_open "a thread-safe SQLite >= 3.37.0 is required" (oe_library env));;;
     on_sys (require_open "invalid database filename"
       (negb (bool_decide (oe_name env = EmptyString) || bool_decide (oe_name env = ".") || bool_decide (oe_name env = ".."))));;;
     r_secure_directory env directory;;;
     let! lock := make_Fd (lock_opens env (oe_name env +:+ ".lock")) in
     leave lock.1
       (on_sys (inspect env (oe_name env +:+ ".lock"));;;
        on_sys flock;;;
        let! existing := r_find_or_create env in
        let! t := r_open_database env handle_on_failure db existing in
        ret (directory, db, t)))
    (fun r f => r.1 = (directory, db) /\ store_state f0 directory db f) (store_partial f0 directory db).
Proof.
  assert (forall f, empty_on db (empty_on directory (eq f0)) f -> store_partial f0 directory db f) as HE.
  { intros f. apply empty_over. intros f'. by apply empty_over. }
  assert (forall f, empty_on db (on directory (eq f0)) f -> store_partial f0 directory db f) as HO.
  { intros f. apply empty_over. intros f'. by apply on_over. }
  do 2 (apply triple_step; [apply _|exact HE|]; intros _).
  apply (triple_bind _ _ (fun _ => empty_on db (on directory (eq f0)))).
  - apply triple_step; [apply _|exact HE|]. intros _.
    apply (triple_bind _ _ (fun _ => empty_on db (on directory (eq f0)))).
    { eapply triple_weaken; [apply assign_directory|done|done|exact HE]. }
    intros _. apply triple_step; [apply _|exact HO|]. intros _. apply triple_step; [apply _|exact HO|]. intros uid.
    do 4 (apply triple_step; [apply _|exact HO|]; intros _).
    apply (triple_weaken _ _ _ _ _ _ _ (triple_balanced (empty_on db (on directory (eq f0))) _ _)); [done|done|exact HO].
  - intros _. apply (triple_made fst); [apply make_Fd_makes|exact HO|]. intros lock.
    assert (forall f, on lock.1 (empty_on db (on directory (eq f0))) f -> over lock.1 (store_partial f0 directory db) f) as HL.
    { intros f. by apply on_over. }
    do 2 (apply triple_step; [apply _|exact HL|]; intros _). apply triple_step; [apply _|exact HL|]. intros existing.
    eapply triple_bind; [apply r_open_database_triple|].
    + intros f. apply on_over. intros f'. by apply on_over.
    + intros f. apply over_over. intros f'. by apply on_over.
    + intros t. apply triple_ret. intros f. cbn [fst]. intros (f' & Hf' & Hl). exists f'. split; [done|by apply holds_open_holds].
Qed.
End parts.

(** ** The files and the database, with and without resources *)

Section forgetting.
Context (env : OpenEnv) (handle_on_failure : bool).

(** What a call that opens something is, when the object is forgotten. *)
Lemma opens_require {B} (k0 : opening B) s :
  bind site_opens (fun x => match x with Some _ => k0 | None => throw (OpenFailed "cannot open storage handle") end) s
  = bind (require_call "cannot open storage handle") (fun _ => k0) s.
Proof. unfold site_opens, require_call, bind. by destruct (site_call s) as [[[|]|e] s']. Qed.
Lemma opens_sqlite {B} (k0 : opening B) s :
  bind site_opens (fun x => match x with Some _ => k0 | None => throw OpenSqlite end) s = bind sqlite (fun _ => k0) s.
Proof. unfold site_opens, sqlite, bind. by destruct (site_call s) as [[[|]|e] s']. Qed.
Lemma opens_lock {B} name (k0 : opening B) s :
  bind (lock_opens env name) (fun x => match x with Some _ => k0 | None => throw (OpenFailed "cannot open storage handle") end) s
  = bind (open_lock env name) (fun _ => k0) s.
Proof.
  unfold lock_opens, open_lock, require_call, require_open, require, add_file, modify, gets, bind.
  destruct (site_call s) as [[[|]|e] s']; cbn; [|done..]. destruct (site_files s' !! name) as [info|]; [|done].
  by destruct (Z.land _ _ =? _).
Qed.
Lemma opens_create {B} (k0 : opening B) s :
  bind (create_opens env) (fun x => match x with Some _ => k0 | None => throw (OpenFailed "cannot open storage handle") end) s
  = (require_call "cannot open storage handle";;; add_file (oe_name env) (new_stat env);;; modify (set_content blank);;; k0) s.
Proof. unfold create_opens, require_call, add_file, modify, bind. by destruct (site_call s) as [[[|]|e] s']. Qed.

Lemma fd_scope_erases {A B} (g : A -> B) (k : nat * unit -> rop A) k0 :
  (forall o, Erases g (k (o, tt)) k0) ->
  Erases g (let! o := make_Fd site_opens in leave o.1 (k o)) (require_call "cannot open storage handle";;; k0).
Proof. intros Hk. eapply erases_ext; [apply opens_require|]. by apply made_scope_erases. Qed.
Lemma sqlite_scope_erases {A B} (g : A -> B) (k : nat * unit -> rop A) k0 :
  (forall o, Erases g (k (o, tt)) k0) -> Erases g (let! o := make_sqlite in leave o.1 (k o)) (sqlite;;; k0).
Proof. intros Hk. eapply erases_ext; [apply opens_sqlite|]. by apply made_scope_erases. Qed.

Lemma ret_tt_r {E} (m : stx Site E unit) s : bind m (fun _ => ret tt) s = m s.
Proof. unfold bind. by destruct (m s) as [[[]|e] s']. Qed.

Lemma r_sync_loop_erases current n : Erases id (r_sync_loop current n) (sync_tree_loop n).
Proof.
  induction n as [|n IH]; cbn [r_sync_loop sync_tree_loop]; apply sys_step_erases; intros _.
  - apply fd_scope_erases. intros o. apply sys_step_erases. intros _.
    eapply erases_ext; [intros s; symmetry; apply ret_tt_r|]. apply on_sys_erases.
  - eapply erases_ext; [apply opens_require|]. apply make_checked_erases. intros parent.
    intros f s. unfold leave, bind, on_sys. cbn [fst snd].
    destruct (require_call "cannot inspect storage ancestors" s) as [[[]|e] s1]; cbn [fst snd];
      [|cbn [is_killed]; by destruct (kills e)].
    destruct (require_call "cannot inspect storage ancestors" s1) as [[[]|e] s2]; cbn [fst snd];
      [|cbn [is_killed]; by destruct (kills e)].
    unfold move_assign, on_fds. cbn [fst snd is_killed]. unfold destroy, on_fds. cbn [fst snd].
    apply (IH _ s2).
Qed.
Lemma r_sync_tree_erases n : Erases id (r_sync_tree n) (sync_tree n).
Proof. apply fd_scope_erases. intros o. apply r_sync_loop_erases. Qed.

Lemma r_pragma_erases {A} (value : Site -> A) : Erases id (r_pragma value) (pragma value).
Proof. apply sqlite_scope_erases. intros o. apply sys_step_erases. intros _. apply on_sys_erases. Qed.
(** A pragma, and the rest. *)
Lemma pragma_step_erases {A B B'} (h : B -> B') (value : Site -> A) (k : A -> rop B) k0 :
  (forall a, Erases h (k a) (k0 a)) -> Erases h (bind (r_pragma value) k) (bind (pragma value) k0).
Proof. apply (bind_erases id), r_pragma_erases. Qed.


(** Two programs that make the same steps, associated differently. *)
Ltac same_steps :=
  repeat first
    [ reflexivity
    | match goal with
      |- context [match ?x with _ => _ end] =>
        lazymatch x with context [match _ with _ => _ end] => fail | _ => idtac end;
        lazymatch type of x with (result _ _ * _)%type => destruct x as [[?|?] ?] end
      end ].

Lemma r_secure_directory_erases directory : Erases id (r_secure_directory env directory) (secure_directory env).
Proof.
  apply sys_step_erases. intros _. apply (bind_erases (fun _ => tt)).
  { eapply erases_ext; [apply ret_tt_r|]. apply fd_scope_erases. intros o. by apply on_fds_last. }
  intros _. apply sys_step_erases. intros _. apply sys_step_erases. intros uid.
  do 3 (apply sys_step_erases; intros _). apply (bind_erases id); [apply r_sync_tree_erases|]. intros _. apply on_sys_erases.
Qed.

Lemma r_find_or_create_erases : Erases id (r_find_or_create env) (find_or_create env).
Proof.
  apply sys_step_erases. intros info. apply sys_step_erases. intros sidecar. apply sys_step_erases. intros _.
  destruct info as [info|]; [apply sys_step_erases; intros _; apply (ret_erases id)|].
  eapply erases_ext; [|apply (bind_erases (fun _ => tt) _ _
    (require_call "cannot open storage handle";;; add_file (oe_name env) (new_stat env);;; modify (set_content blank);;;
     require_call "cannot secure database file";;; add_file (oe_name env) (mkFileStat (32768 + 384) (oe_euid env) 1 0);;;
     sync_fd;;; sync_fd) _ (fun _ => ret false)); [|intros _; apply (ret_erases id)]].
  - intros s. unfold bind, add_file, modify. same_steps.
  - eapply erases_ext; [apply opens_create|]. apply made_scope_erases. intros o.
    do 3 (apply sys_step_erases; intros _). intros f s. unfold on_sys. cbn. by destruct (sync_fd s) as [[[]|e] s'].
Qed.

Lemma r_open_handle_erases db : Erases (fun _ => tt) (r_open_handle handle_on_failure db) sqlite.
Proof.
  intros f s. unfold r_open_handle, open_fd, handle_opens, sqlite, bind, on_sys, on_fds, reset. cbn.
  destruct (site_call s) as [[ok|e] s']; cbn; [|done]. by destruct ok, handle_on_failure.
Qed.

Lemma r_configure_erases db existing :
  Erases id (r_open_handle handle_on_failure db;;; r_configure env existing) (configure env existing).
Proof.
  apply (bind_erases (fun _ => tt)); [apply r_open_handle_erases|]. intros _. do 4 (apply sys_step_erases; intros _).
  apply pragma_step_erases. intros foreign_keys. apply sys_step_erases. intros _.
  apply pragma_step_erases. intros intact. apply sys_step_erases. intros _.
  apply pragma_step_erases. intros version. apply pragma_step_erases. intros app. apply sys_step_erases. intros _.
  apply (ret_erases id).
Qed.

Lemma r_enable_wal_erases : Erases id (r_enable_wal env) (enable_wal env).
Proof.
  apply (erases_ext id _
    (let! mode := pragma (fun _ => oe_wal env) in
     require_open "SQLite WAL mode unavailable" mode;;;
     wal_files env;;;
     sqlite;;;
     let! full := pragma (fun _ => oe_full_sync env) in
     require_open "SQLite FULL synchronization unavailable" full)).
  2: { apply pragma_step_erases. intros mode. do 3 (apply sys_step_erases; intros _). apply pragma_step_erases. intros full.
       apply on_sys_erases. }
  intros s. unfold enable_wal, pragma, wal_files, gets, bind, modify. same_steps.
  all: destruct (site_files _ !! oe_name env); same_steps.
Qed.

Lemma r_read_permissions_erases : Erases (fun _ => tt) r_read_permissions (sqlite;;; sqlite;;; sqlite).
Proof.
  apply sqlite_scope_erases. intros o. apply sys_step_erases. intros _ f s. unfold on_sys. cbn.
  by destruct (sqlite s) as [[[]|e] s'].
Qed.

Lemma r_migrate_erases {A B} (g : A -> B) version (k : Tables -> rop A) k0 :
  (forall t, Erases g (k t) (k0 t)) -> Erases g (r_migrate env version k) (bind (migrate env version) k0).
Proof.
  intros Hk. apply (erases_ext g _
    ((if version <? 1 then create_v1 else ret tt);;;
     (if version <? 2 then create_v2 else ret tt);;;
     TrustOpen.execute (fun c => mkContent APPLICATION_ID (ct_user_version c) (ct_devices c) (ct_attempts c) (ct_intact c));;;
     TrustOpen.execute (fun c => mkContent (ct_application_id c) VERSION (ct_devices c) (ct_attempts c) (ct_intact c));;;
     sqlite;;; sqlite;;;
     let! valid := gets (fun s => foreign_keys_ok (site_content s)) in
     require_open "database has foreign-key violations" valid;;;
     let! t := gets (fun s => tables_of (site_content s)) in
     match t with
     | None => throw OpenSqlite
     | Some t => sqlite;;; sqlite;;; sqlite;;; sqlite;;; (sqlite;;; sqlite;;; sqlite);;; (sqlite;;; sqlite;;; sqlite);;;
                 check_database_files env;;; k0 t
     end)).
  - intros s. unfold migrate, pragma, gets, bind. destruct (version <? 1), (version <? 2); cbn [ret]; same_steps.
    all: match goal with |- context [tables_of ?c] => destruct (tables_of c) end; same_steps.
  - do 4 (apply sys_step_erases; intros _). apply sqlite_scope_erases. intros fk. apply sys_step_erases. intros _.
    apply sys_step_erases. intros valid. apply sys_step_erases. intros _. apply sys_step_erases. intros t.
    destruct t as [t|]; [|apply throw_erases]. apply sqlite_scope_erases. intros devices. apply sys_step_erases. intros _.
    apply sqlite_scope_erases. intros attempts. apply sys_step_erases. intros _.
    do 2 (apply (bind_erases (fun _ => tt)); [apply r_read_permissions_erases|]; intros _). apply sys_step_erases. intros _. apply Hk.
Qed.

Definition restoring {A} (content : Content) (m : opening A) : opening A :=
  fun s => match m s with (Ok a, s') => (Ok a, s') | (Throw e, s') => (Throw e, set_content content s') end.
Lemma rolled_back_erases {A B} (g : A -> B) content m m0 :
  Erases g m m0 -> Erases g (rolled_back content m) (restoring content m0).
Proof.
  intros Hm f s. unfold rolled_back, restoring. rewrite (Hm f s). by destruct (m (f, s)) as [[a|e] [f' s']].
Qed.

Lemma r_migration_erases version : Erases id (r_migration env version) (migration env version).
Proof.
  apply (erases_ext id _ (let! content := gets site_content in
    sqlite;;; restoring content (bind (migrate env version) (fun t => sqlite;;; ret t)))).
  { intros s. unfold migration, restoring, bind at 1 2, gets. destruct (sqlite s) as [[[]|e] s1]; [|done].
    by destruct (bind _ _ s1) as [[t|e] s2]. }
  apply sys_step_erases. intros content. apply sqlite_scope_erases. intros tx. apply rolled_back_erases, r_migrate_erases.
  intros t f s. unfold commit, bind, on_sys, reset, on_fds. cbn. by destruct (sqlite s) as [[[]|e] s'].
Qed.

Lemma r_open_database_erases db existing :
  Erases id (r_open_database env handle_on_failure db existing) (open_database env existing).
Proof.
  eapply erases_ext_l; [intros st; apply bind_assoc|]. apply (bind_erases id); [apply r_configure_erases|]. intros version.
  apply (bind_erases id); [apply r_enable_wal_erases|]. intros _. apply (bind_erases id); [apply r_migration_erases|]. intros t.
  apply sys_step_erases. intros _. apply (ret_erases id).
Qed.

Lemma r_open_store_erases : Erases snd (r_open_store env handle_on_failure) (open_store env).
Proof.
  apply on_fds_erases. intros directory. apply on_fds_erases. intros db. apply member_erases, member_erases.
  apply (erases_ext snd _
    (require_open "a thread-safe SQLite >= 3.37.0 is required" (oe_library env);;;
     require_open "invalid database filename"
       (negb (bool_decide (oe_name env = EmptyString) || bool_decide (oe_name env = ".") || bool_decide (oe_name env = "..")));;;
     secure_directory env;;; open_lock env (oe_name env +:+ ".lock");;; inspect env (oe_name env +:+ ".lock");;; flock;;;
     let! existing := find_or_create env in open_database env existing)).
  { intros s. unfold open_store, prepare_directory, bind. same_steps. }
  do 2 (apply sys_step_erases; intros _). apply (bind_erases id); [apply r_secure_directory_erases|]. intros _.
  eapply erases_ext; [apply opens_lock|]. apply made_scope_erases. intros lock. do 2 (apply sys_step_erases; intros _).
  apply (bind_erases id); [apply r_find_or_create_erases|]. intros existing.
  eapply erases_ext; [|apply (bind_erases id _ _ (open_database env existing) _ ret); [apply r_open_database_erases|intros t; apply (ret_erases snd)]].
  intros s. cbn [id]. unfold bind, ret. by destruct (open_database env existing s) as [[t|e] s'].
Qed.
End forgetting.

(** ** The constructor and the destructor *)

Lemma members_empty f s :
  exists directory db f', construct (St := Site) (Er := OpenError) (-1) (f, s) = (Ok directory, (set_fd_objects (<[directory := -1]> (fd_objects f)) f, s)) /\
    construct (-1) (set_fd_objects (<[directory := -1]> (fd_objects f)) f, s) = (Ok (E := OpenError) db, (f', s)) /\
    empty_on db (empty_on directory (eq f)) f'.
Proof.
  set (d := fresh (dom (fd_objects f))). set (f1 := set_fd_objects (<[d := -1]> (fd_objects f)) f).
  exists d, (fresh (dom (fd_objects f1))), (set_fd_objects (<[fresh (dom (fd_objects f1)) := -1]> (fd_objects f1)) f1).
  split; [done|]. split; [done|]. exists f1. split; [|split; [|done]].
  - exists f. split; [done|]. split; [apply not_elem_of_dom, is_fresh|done].
  - apply not_elem_of_dom, is_fresh.
Qed.

Lemma partial_destroyed f0 directory db f s :
  store_partial f0 directory db f -> snd ((destroy directory : rop unit) (snd ((destroy db : rop unit) (f, s)))) = (f0, s).
Proof.
  intros (f2 & (f1 & <- & Hd) & Hdb). rewrite (destroy_holds db f2) by done. by rewrite (destroy_holds directory f0).
Qed.

Lemma r_open_store_spec env handle_on_failure f s :
  match r_open_store env handle_on_failure (f, s) with
  | (Ok (directory, db, _), (f', _)) => store_state f directory db f'
  | (Throw e, (f', _)) => e = OpenKilled \/ f' = f
  end.
Proof.
  destruct (members_empty f s) as (directory & db & f1 & Hd & Hdb & Hempty).
  unfold r_open_store, bind at 1. rewrite Hd. unfold bind at 1. rewrite Hdb. unfold member at 1 2.
  pose proof (constructor_triple env handle_on_failure directory db f f1 s Hempty) as Hbody. cbv beta in Hbody.
  match type of Hbody with match ?m ?st with _ => _ end => destruct (m st) as [[[[d b] t]|e] [f2 s2]] end.
  - destruct Hbody as [[= -> ->] Hs]. exact Hs.
  - destruct e as [message| |]; cbn in Hbody |- *; [..|by left]; (destruct Hbody as [[=]|Hp]);
      pose proof (partial_destroyed _ _ _ _ s2 Hp) as Hdes; right; exact (f_equal fst Hdes).
Qed.

(** C34. Whatever the calls answer, the constructor of the store with the objects that own
    resources does to the files and the database what the code without them does.
    Unless the process is killed, it either throws with all resources as they were,
    the lock released, the handle closed, statements finalized and the transaction
    over, none twice; or it returns with exactly one descriptor and one SQLite handle
    more, which the destructor releases. *)
Theorem store_resources_released env handle_on_failure f s :
  let '(r, (f', s')) := r_open_store env handle_on_failure (f, s) in
  open_store env s = (result_map snd r, s') /\
  match r with
  | Ok (directory, db, _) => store_state f directory db f' /\ snd (r_close_store directory db (f', s')) = (f, s')
  | Throw e => e = OpenKilled \/ f' = f
  end.
Proof.
  pose proof (r_open_store_erases env handle_on_failure f s) as He. pose proof (r_open_store_spec env handle_on_failure f s) as Hs.
  destruct (r_open_store env handle_on_failure (f, s)) as [r [f' s']]. split; [exact He|].
  destruct r as [[[directory db] t]|e]; [|done]. split; [done|].
  change (snd ((destroy directory : rop unit) (snd ((destroy db : rop unit) (f', s')))) = (f, s')). apply partial_destroyed.
  eapply on_over; [|exact Hs]. intros f2. by apply on_over.
Qed.
