(* ===== verification/SessionAuth.v ===== *)
(** * Session authentication ([core/auth/session_authentication.cpp])

    [SessionAuthentication] turns a verified identity into an authorization
    snapshot, keeps the snapshots of the live sessions, and runs the monitor
    thread that invalidates the sessions whose authorization is no longer
    current.  It sees the trust store only through [TrustQueries], which
    [TrustStore.v] implements; every access to the store or to the guarded state
    is one step, so other threads may run between any two of them. *)

From S2P Require Import Prelude Uuid TrustTables TrustStore TrustLedger TrustContract.

(** ** What the trust store promises *)

Class TrustQueries : Type := {
  trust_store : Type;
  (** The outcome of [find_active_authorization] and of [change_token]. *)
  query_authorization : trust_store -> TrustUuid -> TrustPublicKey ->
                        result TrustStoreError (option ActivePeerAuthorization);
  query_token : trust_store -> result TrustStoreError (Z * Z);
  (** The authorization the store holds. *)
  stored_authorization : trust_store -> TrustUuid -> TrustPublicKey -> option ActivePeerAuthorization;
  query_exact s u k r : query_authorization s u k = Ok r -> r = stored_authorization s u k
}.

(** The trust store, observed in an environment. *)
#[export] Program Instance trust_store_queries `{SqlText} : TrustQueries := {|
  trust_store := Env * Impl;
  query_authorization s u k := fst (find_active_authorization s.1 u k s.2);
  query_token s := fst (change_token s.1 s.2);
  stored_authorization s u k := active_authorization u k (im_tables s.2)
|}.
Next Obligation.
  intros ? [env im] u k r H. cbn in *. destruct (find_active_authorization env u k im) as [r' im'] eqn:E.
  cbn in H. subst r'. apply find_active_authorization_ok in E as [-> _]. done.
Qed.

(** ** Data *)

Record VerifiedPeerIdentity : Type := mkVerifiedPeerIdentity {
  v_uuid : TrustUuid;
  v_public_key : TrustPublicKey
}.

Record AuthorizedPeer : Type := mkAuthorizedPeer {
  ap_uuid : TrustUuid;
  ap_public_key : TrustPublicKey;
  ap_device_id : string;
  ap_revision : Z;
  ap_permissions : list string
}.

(** [invalidate] is the callback; it holds a weak reference to the connection
    whose session id is given, and is empty after it was moved from. *)
Record LiveAuthorization : Type := mkLiveAuthorization {
  la_uuid : TrustUuid;
  la_public_key : TrustPublicKey;
  la_revision : Z;
  la_permissions : list string;
  la_invalidate : option Z
}.

(** The members guarded by [live_mutex_]. *)
Record Auth : Type := mkAuth {
  au_live : gmap Z LiveAuthorization;
  au_stopping : bool;
  au_force_scan : bool
}.
Definition set_live live au := mkAuth live (au_stopping au) (au_force_scan au).
Definition set_force_scan b au := mkAuth (au_live au) (au_stopping au) b.
Definition set_auth_stopping b au := mkAuth (au_live au) b (au_force_scan au).

#[export] Instance ActivePeerAuthorization_eq_dec : EqDecision ActivePeerAuthorization.
Proof. solve_decision. Defined.
#[export] Instance LiveAuthorization_eq_dec : EqDecision LiveAuthorization.
Proof. solve_decision. Defined.

Section authentication.
Context {TQ : TrustQueries}.

(** ** Operations *)

Definition authorize_verified_peer (s : trust_store) (identity : VerifiedPeerIdentity)
  : result TrustStoreError (option AuthorizedPeer) :=
  match query_authorization s (v_uuid identity) (v_public_key identity) with
  | Throw e => Throw e
  | Ok None => Ok None
  | Ok (Some a) =>
      Ok (Some (mkAuthorizedPeer (v_uuid identity) (v_public_key identity)
                  (trust_uuid_to_string (v_uuid identity)) (auth_revision a) (auth_permissions a)))
  end.

(** [current && current->revision == revision && current->permissions == permissions],
    with every exception caught. *)
Definition matches_current (s : trust_store) (u : TrustUuid) (k : TrustPublicKey)
    (revision : Z) (permissions : list string) : bool :=
  match query_authorization s u k with
  | Ok (Some current) =>
      (auth_revision current =? revision) && bool_decide (auth_permissions current = permissions)
  | Ok None => false
  | Throw _ => false
  end.

Definition authorization_is_current (s : trust_store) (a : AuthorizedPeer) : bool :=
  matches_current s (ap_uuid a) (ap_public_key a) (ap_revision a) (ap_permissions a).

(** [register_live_session]: the validation, then the section under [live_mutex_]. *)
Definition register_live_check (s : trust_store) (a : AuthorizedPeer) (invalidate : option Z) : bool :=
  bool_decide (is_Some invalidate) && authorization_is_current s a.

Definition register_live_insert (session_id : Z) (a : AuthorizedPeer) (invalidate : option Z) (au : Auth)
  : bool * Auth :=
  if au_stopping au || bool_decide (is_Some (au_live au !! session_id)) then (false, au)
  else
    let live := <[session_id := mkLiveAuthorization (ap_uuid a) (ap_public_key a) (ap_revision a)
                                  (ap_permissions a) invalidate]> (au_live au) in
    (true, set_force_scan true (set_live live au)).

Definition register_live_session (s : trust_store) (session_id : Z) (a : AuthorizedPeer)
    (invalidate : option Z) (au : Auth) : bool * Auth :=
  if register_live_check s a invalidate then register_live_insert session_id a invalidate au
  else (false, au).

Definition unregister_live_session (session_id : Z) (au : Auth) : Auth :=
  set_live (delete session_id (au_live au)) au.

(** The destructor's first section; it then joins the monitor. *)
Definition stop_authentication (au : Auth) : Auth := set_auth_stopping true au.

(** ** The monitor thread *)

(** Where the monitor is: before the wait, in one of its two waits, at the token
    query, at the snapshot, scanning the rest of the snapshot, erasing a stale
    entry, calling its callback, or returned. *)
Inductive MonitorPc : Type :=
| MLoop
| MWait
| MWaitFor
| MToken (force_scan : bool)
| MSnapshot
| MScan (rest : list (Z * LiveAuthorization))
| MErase (entry : Z * LiveAuthorization) (rest : list (Z * LiveAuthorization))
| MInvalidate (invalidate : option Z) (rest : list (Z * LiveAuthorization))
| MReturned.

Record Monitor : Type := mkMonitor {
  m_pc : MonitorPc;
  m_last_token : option (Z * Z)
}.
Definition set_pc pc m := mkMonitor pc (m_last_token m).

(** A [std::map] is iterated in key order. *)
Definition key_le (x y : Z * LiveAuthorization) : Prop := x.1 <= y.1.
#[export] Instance key_le_dec x y : Decision (key_le x y).
Proof. unfold key_le. apply _. Defined.
Definition in_key_order (live : gmap Z LiveAuthorization) : list (Z * LiveAuthorization) :=
  merge_sort key_le (map_to_list live).

(** After a wait: [if (stopping_) return; force_scan = force_scan_; force_scan_ = false]. *)
Definition after_wait (au : Auth) (m : Monitor) : Auth * Monitor :=
  if au_stopping au then (au, set_pc MReturned m)
  else (set_force_scan false au, set_pc (MToken (au_force_scan au)) m).

(** One step of the monitor; [None] when it is blocked or has returned.  The call
    of a callback is the connection's: the step only moves past it. *)
Definition monitor_step (s : trust_store) (au : Auth) (m : Monitor) : option (Auth * Monitor) :=
  match m_pc m with
  | MLoop =>
      Some (au, set_pc (if bool_decide (au_live au = ∅) && negb (au_force_scan au) then MWait else MWaitFor) m)
  | MWait =>
      if au_stopping au || au_force_scan au || negb (bool_decide (au_live au = ∅))
      then Some (after_wait au m) else None
  | MWaitFor => Some (after_wait au m)
  | MToken force =>
      match query_token s with
      | Ok token =>
          let scan := force || negb (bool_decide (m_last_token m = Some token)) in
          Some (au, mkMonitor (if scan then MSnapshot else MLoop) (Some token))
      | Throw _ => Some (au, mkMonitor MSnapshot None)
      end
  | MSnapshot => Some (au, set_pc (MScan (in_key_order (au_live au))) m)
  | MScan [] => Some (au, set_pc MLoop m)
  | MScan ((session_id, a) :: rest) =>
      if matches_current s (la_uuid a) (la_public_key a) (la_revision a) (la_permissions a)
      then Some (au, set_pc (MScan rest) m)
      else Some (au, set_pc (MErase (session_id, a) rest) m)
  | MErase (session_id, a) rest =>
      match au_live au !! session_id with
      | Some live =>
          if bool_decide (la_revision live = la_revision a) && bool_decide (la_uuid live = la_uuid a) &&
             bool_decide (la_public_key live = la_public_key a)
          then Some (set_live (delete session_id (au_live au)) au, set_pc (MInvalidate (la_invalidate live) rest) m)
          else Some (au, set_pc (MScan rest) m)
      | None => Some (au, set_pc (MScan rest) m)
      end
  | MInvalidate _ rest => Some (au, set_pc (MScan rest) m)
  | MReturned => None
  end.

(** The callback a step is about to call. *)
Definition calls_invalidate (m : Monitor) : option Z :=
  match m_pc m with MInvalidate inv _ => inv | _ => None end.

(** The monitor run alone, on a store that does not change: the final state and
    the callbacks called on the way to the next wait. *)
Fixpoint monitor_run (fuel : nat) (s : trust_store) (au : Auth) (m : Monitor) : option (Auth * Monitor * list Z) :=
  match m_pc m with
  | MLoop => Some (au, m, [])
  | _ =>
      match fuel with
      | O => None
      | S fuel =>
          match monitor_step s au m with
          | None => None
          | Some (au', m') =>
              match monitor_run fuel s au' m' with
              | Some (au2, m2, calls) =>
                  Some (au2, m2, match calls_invalidate m with Some h => h :: calls | None => calls end)
              | None => None
              end
          end
      end
  end.

(** ** Theorems *)

(** The stored authorization is the snapshot's. *)
Definition stored_matches (s : trust_store) (u : TrustUuid) (k : TrustPublicKey)
    (revision : Z) (permissions : list string) : Prop :=
  stored_authorization s u k = Some (mkActivePeerAuthorization revision permissions).

Lemma matches_current_sound s u k revision permissions :
  matches_current s u k revision permissions = true -> stored_matches s u k revision permissions.
Proof.
  unfold matches_current, stored_matches. destruct (query_authorization s u k) as [[[rev ps]|]|] eqn:E; try done.
  cbn. intros. bool_inv. subst. by apply query_exact in E.
Qed.

Lemma matches_current_complete s u k revision permissions r :
  query_authorization s u k = Ok r -> stored_matches s u k revision permissions ->
  matches_current s u k revision permissions = true.
Proof.
  unfold matches_current, stored_matches. intros Hq Hs. rewrite Hq.
  apply query_exact in Hq. rewrite Hs in Hq. subst r. cbn.
  by rewrite Z.eqb_refl, bool_decide_true.
Qed.

(** Authorization fails closed and is exact: a verified peer is authorized
    only with the revision and permissions the store holds for its UUID and key,
    under the canonical text of its UUID; the snapshot so obtained is current as
    long as the store answers the same; and a snapshot counts as current only when
    the query returned and the store holds exactly its revision and permissions. *)
Theorem authorization_fails_closed s identity p :
  authorize_verified_peer s identity = Ok (Some p) ->
  ap_uuid p = v_uuid identity /\ ap_public_key p = v_public_key identity /\
  ap_device_id p = trust_uuid_to_string (v_uuid identity) /\
  stored_matches s (ap_uuid p) (ap_public_key p) (ap_revision p) (ap_permissions p) /\
  authorization_is_current s p = true /\
  (forall s', authorization_is_current s' p = true <->
     is_ok (query_authorization s' (ap_uuid p) (ap_public_key p)) = true /\
     stored_matches s' (ap_uuid p) (ap_public_key p) (ap_revision p) (ap_permissions p)).
Proof.
  unfold authorize_verified_peer.
  destruct (query_authorization s _ _) as [[a|]|] eqn:E; try done. intros [= <-]. cbn.
  pose proof (query_exact _ _ _ _ E) as Hst.
  assert (Hm : stored_matches s (v_uuid identity) (v_public_key identity) (auth_revision a) (auth_permissions a)).
  { unfold stored_matches. rewrite <-Hst. by destruct a. }
  split_and!; try done.
  - by eapply matches_current_complete.
  - intros s'. split.
    + intros Hc. split; [|by apply matches_current_sound]. unfold authorization_is_current, matches_current in Hc.
      cbn in Hc. by destruct (query_authorization s' _ _).
    + intros [Hok Hst']. destruct (query_authorization s' _ _) as [r|] eqn:E'; [|done].
      by eapply matches_current_complete.
Qed.

(** *** A scan *)

Definition is_current (s : trust_store) (a : LiveAuthorization) : bool :=
  matches_current s (la_uuid a) (la_public_key a) (la_revision a) (la_permissions a).

Definition callbacks (entries : list (Z * LiveAuthorization)) : list Z :=
  omap (fun e => la_invalidate e.2) entries.

(** The entries that survive a scan of [entries]. *)
Definition survivors (s : trust_store) (entries : list (Z * LiveAuthorization))
    (live : gmap Z LiveAuthorization) : gmap Z LiveAuthorization :=
  filter (fun kv => kv.1 ∉ entries.*1 \/ is_current s kv.2 = true) live.

Lemma survivors_current s sid a rest live :
  live !! sid = Some a -> is_current s a = true ->
  survivors s ((sid, a) :: rest) live = survivors s rest live.
Proof.
  intros Ha Hc. unfold survivors. apply map_filter_ext. intros i x Hi. cbn.
  rewrite not_elem_of_cons. destruct (decide (i = sid)) as [->|]; [|naive_solver].
  assert (x = a) as -> by congruence. naive_solver.
Qed.

Lemma survivors_stale s sid a rest live :
  live !! sid = Some a -> is_current s a = false -> sid ∉ rest.*1 ->
  survivors s ((sid, a) :: rest) live = survivors s rest (delete sid live).
Proof.
  intros Ha Hc Hni. unfold survivors. apply map_eq. intros i. apply option_eq. intros x.
  rewrite !map_lookup_filter_Some, lookup_delete_Some. cbn. rewrite not_elem_of_cons.
  destruct (decide (i = sid)) as [->|]; [|naive_solver].
  split; [|naive_solver]. intros [Hx [[? _]|Hcur]]; [done|]. congruence.
Qed.

Lemma monitor_run_loop fuel s au tok : monitor_run fuel s au (mkMonitor MLoop tok) = Some (au, mkMonitor MLoop tok, []).
Proof. by destruct fuel. Qed.

(** One step of a run. *)
Lemma monitor_run_step fuel s au m au' m' :
  m_pc m <> MLoop -> monitor_step s au m = Some (au', m') ->
  monitor_run (S fuel) s au m =
    (fun r => (r.1, match calls_invalidate m with Some h => h :: r.2 | None => r.2 end)) <$> monitor_run fuel s au' m'.
Proof.
  intros Hne Hs. cbn [monitor_run]. rewrite Hs.
  destruct (m_pc m); try done; by destruct (monitor_run fuel s au' m') as [[[? ?] ?]|].
Qed.

Lemma monitor_scan s entries au tok fuel :
  NoDup entries.*1 -> (forall e, e ∈ entries -> au_live au !! e.1 = Some e.2) ->
  (3 * length entries < fuel)%nat ->
  monitor_run fuel s au (mkMonitor (MScan entries) tok) =
    Some (set_live (survivors s entries (au_live au)) au, mkMonitor MLoop tok,
          callbacks (filter (fun e => is_current s e.2 = false) entries)).
Proof.
  revert au fuel. induction entries as [|[sid a] rest IH]; intros au fuel Hnd Hin Hfuel.
  - destruct fuel as [|fuel]; [cbn in Hfuel; lia|].
    rewrite (monitor_run_step _ _ au _ au (mkMonitor MLoop tok)), monitor_run_loop by done. cbn. unfold set_live, survivors.
    rewrite map_filter_id; [by destruct au|]. intros i x _. left. apply not_elem_of_nil.
  - cbn [fmap list_fmap] in Hnd. apply NoDup_cons in Hnd as [Hni Hnd].
    destruct fuel as [|[|[|fuel]]]; try (cbn in Hfuel; lia).
    assert (Ha : au_live au !! sid = Some a) by (apply (Hin (sid, a)); left).
    rewrite filter_cons; cbn [snd]. destruct (is_current s a) eqn:Hc.
    + rewrite decide_False by done. rewrite (survivors_current _ _ _ _ _ Ha Hc).
      rewrite (monitor_run_step _ _ au _ au (mkMonitor (MScan rest) tok)); [|done|].
      2: { unfold is_current in Hc. cbn. by rewrite Hc. }
      rewrite IH; [done|done| |cbn in Hfuel; lia]. intros e He. apply Hin. by right.
    + rewrite decide_True by done. rewrite (survivors_stale _ _ _ _ _ Ha Hc Hni).
      rewrite (monitor_run_step _ _ au _ au (mkMonitor (MErase (sid, a) rest) tok)); [|done|].
      2: { unfold is_current in Hc. cbn. by rewrite Hc. }
      rewrite (monitor_run_step _ _ au _ (set_live (delete sid (au_live au)) au)
                 (mkMonitor (MInvalidate (la_invalidate a) rest) tok)); [|done|].
      2: { cbn. rewrite Ha, !bool_decide_true by done. done. }
      rewrite (monitor_run_step _ _ _ _ (set_live (delete sid (au_live au)) au) (mkMonitor (MScan rest) tok));
        [|done|done].
      rewrite IH; [| done | | cbn in Hfuel; lia].
      * cbn. unfold callbacks. by destruct (la_invalidate a).
      * intros e He. cbn. rewrite lookup_delete_ne; [apply Hin; by right|].
        intros ->. apply Hni, list_elem_of_fmap. by exists e.
Qed.

Lemma in_key_order_perm live : in_key_order live ≡ₚ map_to_list live.
Proof. apply merge_sort_Permutation. Qed.

(** A scan is complete and precise: run on an unchanging store, the monitor
    returns to its wait, having kept exactly the live sessions whose
    authorization is current and called the callbacks of exactly the others, in
    session order; three steps per session are enough. *)
Theorem monitor_scan_complete s au tok fuel :
  (3 * size (au_live au) + 1 < fuel)%nat ->
  monitor_run fuel s au (mkMonitor MSnapshot tok) =
    Some (set_live (filter (fun kv => is_current s kv.2 = true) (au_live au)) au, mkMonitor MLoop tok,
          callbacks (filter (fun e => is_current s e.2 = false) (in_key_order (au_live au)))).
Proof.
  intros Hfuel. destruct fuel as [|fuel]; [lia|].
  rewrite (monitor_run_step _ _ au _ au (mkMonitor (MScan (in_key_order (au_live au))) tok)); [|done|done].
  pose proof (in_key_order_perm (au_live au)) as Hp.
  rewrite monitor_scan.
  - cbn. do 4 f_equal. unfold survivors. apply map_filter_ext. intros i x Hi. cbn.
    split; [|by right]. intros [Hni|?]; [|done]. destruct Hni. apply list_elem_of_fmap. exists (i, x).
    split; [done|]. rewrite Hp. by apply elem_of_map_to_list.
  - rewrite Hp. apply NoDup_fst_map_to_list.
  - intros [i x]. rewrite Hp. apply elem_of_map_to_list.
  - rewrite (Permutation_length Hp), length_map_to_list. lia.
Qed.

(** *** The end of the monitor *)

(** The monitor's next position; it stays where it is when it is blocked or has
    returned. *)
Definition monitor_next (s : trust_store) (au : Auth) (m : Monitor) : Monitor :=
  match monitor_step s au m with Some (_, m') => m' | None => m end.

(** [monitor_.join()] in the destructor: the monitor runs on while the other threads
    change the store and the live sessions between its steps. *)
Fixpoint join_monitor (states : list (trust_store * Auth)) (m : Monitor) : Monitor :=
  match states with
  | [] => m
  | (s, au) :: rest => join_monitor rest (monitor_next s au m)
  end.

(** The steps the monitor has left when it is told to stop, with at most [l] sessions. *)
Definition steps_left (l : nat) (pc : MonitorPc) : nat :=
  match pc with
  | MReturned => 0
  | MWait | MWaitFor => 1
  | MLoop => 2
  | MScan es => 3 * length es + 3
  | MErase _ es => 3 * length es + 5
  | MInvalidate _ es => 3 * length es + 4
  | MSnapshot => 3 * l + 4
  | MToken _ => 3 * l + 5
  end.

Lemma stopping_step s au m l :
  au_stopping au = true -> (size (au_live au) <= l)%nat ->
  (steps_left l (m_pc (monitor_next s au m)) <= steps_left l (m_pc m) - 1)%nat.
Proof.
  intros Hst Hl. destruct m as [pc tok]. unfold monitor_next, monitor_step, after_wait. cbn [m_pc].
  destruct pc as [| | |force| |[|[sid a] rest]|[sid a] rest|inv rest|]; rewrite ?Hst; cbn -[steps_left]; try (cbn; lia).
  - destruct (bool_decide _ && _); cbn; lia.
  - destruct (query_token s) as [token|e]; [|cbn; lia]. destruct (force || _); cbn; lia.
  - pose proof (Permutation_length (in_key_order_perm (au_live au))) as Hp. rewrite length_map_to_list in Hp. cbn. lia.
  - destruct (matches_current _ _ _ _ _); cbn; lia.
  - destruct (au_live au !! sid) as [live|]; [destruct (_ && _)|]; cbn; lia.
Qed.

(** Shutting down ends: once the service is stopping, the monitor thread returns
    after a bounded number of its own steps, from wherever it is and whatever the
    store and the other threads do in between, so that the destructor's join returns. *)
Theorem monitor_returns states m l :
  Forall (fun sa => au_stopping sa.2 = true /\ (size (au_live sa.2) <= l)%nat) states ->
  (steps_left l (m_pc m) <= length states)%nat -> m_pc (join_monitor states m) = MReturned.
Proof.
  revert m. induction states as [|[s au] rest IH]; intros m Hall Hlen.
  - cbn [join_monitor]. cbn [length] in Hlen. destruct (m_pc m); cbn [steps_left] in Hlen; (lia || done).
  - apply Forall_cons in Hall as [[Hst Hl] Hall]. cbn [join_monitor]. apply IH; [done|].
    pose proof (stopping_step s au m l Hst Hl). cbn in Hlen. lia.
Qed.
End authentication.

(** ** Skipped scans *)

(** Skipping a scan is sound: when the monitor goes back to its wait because
    the change token is the one it remembers, no authorization in the trust store
    has changed since that token was read, through fewer than 2^64 requests. *)
Theorem monitor_skip_sound {txt : SqlText} env im tok h env' au m m' :
  tables_ok (im_tables im) -> 0 <= im_local_generation im < 2 ^ 64 -> Z.of_nat (length h) < 2 ^ 64 ->
  query_token (env, im) = Ok tok -> m = mkMonitor (MToken false) (Some tok) ->
  monitor_step (env', replay h im) au m = Some (au, m') -> m_pc m' = MLoop ->
  forall u k, stored_authorization (env', replay h im) u k = stored_authorization (env, im) u k.
Proof.
  intros Hok Hg Hlen Htok -> Hstep Hpc u k. cbn in *.
  destruct (change_token env im) as [r im1] eqn:E1. cbn in Htok. subst r.
  apply change_token_ok in E1 as [-> _]. revert Hstep.
  destruct (change_token env' (replay h im)) as [[tok'|e] im2] eqn:E2; cbn; intros [= <-]; [|done].
  apply change_token_ok in E2 as [-> _]. cbn in Hpc.
  case_bool_decide as Heq; [|done]. injection Heq as Hgen _.
  apply active_authorization_ledger; [done|by apply replay_effect|].
  by apply same_generation_same_ledger.
Qed.

(** ** A scenario: one session of the imported peer, one of a peer that was revoked *)

Module AuthScenario.
Import Scenario.

Definition store_ready : trust_store := (env0, ready).
Definition identity1 : VerifiedPeerIdentity := mkVerifiedPeerIdentity peer1 key1.
Definition authorized1 : AuthorizedPeer :=
  mkAuthorizedPeer peer1 key1 (trust_uuid_to_string peer1) 1 ["message"; "ping"].
Definition live1 : LiveAuthorization := mkLiveAuthorization peer1 key1 1 ["message"; "ping"] (Some 1).
Definition live2 : LiveAuthorization := mkLiveAuthorization peer2 key2 1 ["message"] (Some 2).
Definition auth0 : Auth := mkAuth {[1 := live1; 2 := live2]} false false.

Lemma authorization_fails_closed_witness :
  authorize_verified_peer store_ready identity1 = Ok (Some authorized1) /\
  authorization_is_current store_ready authorized1 = true.
Proof.
  assert (H : authorize_verified_peer store_ready identity1 = Ok (Some authorized1)) by (vm_compute; reflexivity).
  split; [exact H|].
  destruct (authorization_fails_closed store_ready identity1 authorized1 H) as (_ & _ & _ & _ & Hc & _).
  exact Hc.
Defined.

Lemma monitor_scan_complete_witness :
  (monitor_run 8 store_ready auth0 (mkMonitor MSnapshot None)) =
    Some (set_live (filter (fun kv => is_current store_ready kv.2 = true) (au_live auth0)) auth0,
          mkMonitor MLoop None,
          callbacks (filter (fun e => is_current store_ready e.2 = false) (in_key_order (au_live auth0)))) /\
  callbacks (filter (fun e => is_current store_ready e.2 = false) (in_key_order (au_live auth0))) = [2].
Proof.
  split; [|vm_compute; reflexivity].
  apply (monitor_scan_complete store_ready auth0 None 8). vm_compute. lia.
Defined.

(** The service stops while the monitor is in a scan of two sessions. *)
Definition stopped : Auth := stop_authentication auth0.
Lemma monitor_returns_witness :
  m_pc (join_monitor (replicate 9 (store_ready, stopped))
          (mkMonitor (MScan (in_key_order (au_live auth0))) None)) = MReturned.
Proof.
  apply (monitor_returns _ _ 2).
  - apply Forall_replicate. split; [reflexivity|]. vm_compute. lia.
  - vm_compute. lia.
Defined.

Definition deletion : history := [(env0, ReqDeleteAttempt attempt_id 1)].

Lemma monitor_skip_sound_witness :
  stored_authorization (env0, replay deletion ready) peer1 key1 = stored_authorization (env0, ready) peer1 key1.
Proof.
  apply (monitor_skip_sound env0 ready (1, 0) deletion env0 auth0 (mkMonitor (MToken false) (Some (1, 0)))
           (mkMonitor MLoop (Some (1, 0))) ready_ok);
    [vm_compute; split; [discriminate|reflexivity]|vm_compute; reflexivity|vm_compute; reflexivity|reflexivity
    |vm_compute; reflexivity|reflexivity].
Defined.
End AuthScenario.
