(* ===== verification/EventBus.v ===== *)
(** * The event bus ([core/events/event_bus.cpp])

    Messages received from peers wait in a bounded queue until the API server
    drains them.  Both operations run under one mutex, so a history is a sequence
    of them. *)

From S2P Require Import Prelude.

Record MessageEvent : Type := mkMessageEvent { ev_device_id : string; ev_text : string }.

Definition MAX_STORED_EVENTS : nat := 256.

(** [push_back], then [erase] of the oldest entries above the bound. *)
Definition emit_message (device_id msg : string) (g_events : list MessageEvent) : list MessageEvent :=
  let pushed := g_events ++ [mkMessageEvent device_id msg] in
  if (MAX_STORED_EVENTS <? length pushed)%nat
  then drop (length pushed - MAX_STORED_EVENTS) pushed
  else pushed.

(** Returns the copy and clears the queue. *)
Definition consume_events (g_events : list MessageEvent) : list MessageEvent * list MessageEvent :=
  (g_events, []).

(** ** Histories *)

Inductive bus_op : Type := Emit (e : MessageEvent) | Consume.

(** The batches handed out by a history, and what is left in the queue. *)
Fixpoint bus_run (ops : list bus_op) (g_events : list MessageEvent) : list (list MessageEvent) * list MessageEvent :=
  match ops with
  | [] => ([], g_events)
  | Emit e :: rest => bus_run rest (emit_message (ev_device_id e) (ev_text e) g_events)
  | Consume :: rest =>
      let '(batch, rest_events) := consume_events g_events in
      let '(batches, final) := bus_run rest rest_events in (batch :: batches, final)
  end.

(** The events between consecutive calls of [consume_events]; [acc] is what was
    emitted since the last one. *)
Fixpoint segments (ops : list bus_op) (acc : list MessageEvent) : list (list MessageEvent) * list MessageEvent :=
  match ops with
  | [] => ([], acc)
  | Emit e :: rest => segments rest (acc ++ [e])
  | Consume :: rest => let '(batches, final) := segments rest [] in (acc :: batches, final)
  end.

Definition keep_last (l : list MessageEvent) : list MessageEvent := drop (length l - MAX_STORED_EVENTS) l.

Lemma emit_keep_last e l :
  emit_message (ev_device_id e) (ev_text e) (keep_last l) = keep_last (l ++ [e]).
Proof.
  unfold emit_message, keep_last. destruct e as [i t]; cbn [ev_device_id ev_text].
  rewrite !length_app, length_drop. cbn [length].
  destruct (Nat.ltb_spec MAX_STORED_EVENTS (length l - (length l - MAX_STORED_EVENTS) + 1)).
  - rewrite !drop_app, drop_drop, length_drop. f_equal; f_equal; lia.
  - rewrite !drop_app. replace (length l + 1 - MAX_STORED_EVENTS)%nat with 0%nat by lia.
    replace (length l - MAX_STORED_EVENTS)%nat with 0%nat by lia. done.
Qed.

Lemma bus_run_segments ops acc :
  bus_run ops (keep_last acc) =
    (keep_last <$> (segments ops acc).1, keep_last (segments ops acc).2).
Proof.
  revert acc. induction ops as [|[e|] ops IH]; intros acc; cbn [bus_run segments].
  - done.
  - by rewrite emit_keep_last, IH.
  - cbn [consume_events]. change (@nil MessageEvent) with (keep_last []) at 1. rewrite IH.
    by destruct (segments ops []).
Qed.

(** The event bus is a bounded queue that keeps the latest: in any history,
    every batch handed out is exactly the last 256 (or fewer) of the events
    emitted since the previous batch, in order, and what is left is the same of
    the events emitted since; so the queue never exceeds its bound and no event
    is handed out twice. *)
Theorem event_bus_keeps_latest ops :
  bus_run ops [] = (keep_last <$> (segments ops []).1, keep_last (segments ops []).2) /\
  Forall (fun b => (length b <= MAX_STORED_EVENTS)%nat) (bus_run ops []).1 /\
  (length (bus_run ops []).2 <= MAX_STORED_EVENTS)%nat.
Proof.
  rewrite (bus_run_segments ops [] : bus_run ops [] = _). split; [done|]. cbn.
  assert (Hb : forall l, (length (keep_last l) <= MAX_STORED_EVENTS)%nat).
  { intros l. unfold keep_last. rewrite length_drop. lia. }
  split; [|apply Hb]. apply Forall_fmap, Forall_true. intros l. apply Hb.
Qed.
