(* ===== verification/Registry.v ===== *)
(** * The device registry and the connection manager

    [core/device/device_registry.cpp]: the published devices, at most one per
    device id, and the arbitration of duplicate connections.
    [core/networking/connection_manager.cpp]: the sessions by id, as weak
    references.  Each operation runs under its component's mutex.  A
    [weak_ptr<Connection>] is the session id of the connection it points to;
    whether it can still be locked, and whether that connection is stopping, is
    the argument [alive]. *)

From S2P Require Import Prelude Uuid TrustTables TrustStore TrustLedger TrustContract SessionAuth.

(** ** Data ([core/device/device.hpp]) *)

Inductive DeviceState : Type := CONNECTING | HANDSHAKE_DONE | AUTHENTICATED | READY | DISCONNECTED.
#[export] Instance DeviceState_eq_dec : EqDecision DeviceState.
Proof. solve_decision. Defined.

Record Device : Type := mkDevice {
  dev_id : string;
  dev_name : string;
  dev_type : string;
  dev_socket_fd : Z;
  dev_session_id : Z;
  dev_connection : option Z;
  dev_preferred : bool;
  dev_state : DeviceState;
  dev_public_key : TrustPublicKey;
  dev_trust_revision : Z;
  dev_permissions : list string
}.

Definition set_dev_state (st : DeviceState) (d : Device) : Device :=
  mkDevice (dev_id d) (dev_name d) (dev_type d) (dev_socket_fd d) (dev_session_id d) (dev_connection d)
    (dev_preferred d) st (dev_public_key d) (dev_trust_revision d) (dev_permissions d).

Record RegistrationResult : Type := mkRegistrationResult {
  accepted : bool;
  replaced_device : option Device
}.
Definition not_accepted : RegistrationResult := mkRegistrationResult false None.

Section registry.
(** [weak_ptr::lock], and [is_stopping] of what it gives. *)
Variable alive : Z -> option bool.

Definition lock_weak (w : option Z) : option (Z * bool) :=
  match w with
  | Some session => (fun stopping => (session, stopping)) <$> alive session
  | None => None
  end.

(** [owner && !owner->is_stopping()]. *)
Definition is_live (d : Device) : bool :=
  match lock_weak (dev_connection d) with Some (_, stopping) => negb stopping | None => false end.

(** The loop over the registered devices. *)
Fixpoint publish_loop (device : Device) (devices : list Device) : RegistrationResult * list Device :=
  match devices with
  | [] => (mkRegistrationResult true None, [set_dev_state READY device])
  | existing :: rest =>
      if negb (bool_decide (dev_id existing = dev_id device)) then
        let '(result, rest') := publish_loop device rest in (result, existing :: rest')
      else if is_live existing && (dev_preferred existing || negb (dev_preferred device)) then
        (not_accepted, devices)
      else (mkRegistrationResult true (Some existing), set_dev_state READY device :: rest)
  end.

(** The final validation of the candidate. *)
Definition candidate_valid (device : Device) (authorization : AuthorizedPeer) : bool :=
  match lock_weak (dev_connection device) with
  | None => false
  | Some (session, stopping) =>
      (session =? dev_session_id device) && negb stopping &&
      bool_decide (dev_id device = ap_device_id authorization) &&
      bool_decide (dev_public_key device = ap_public_key authorization) &&
      (dev_trust_revision device =? ap_revision authorization) &&
      bool_decide (dev_permissions device = ap_permissions authorization) &&
      bool_decide (dev_state device = AUTHENTICATED)
  end.

Definition publish_authenticated_device (device : Device) (authorization : AuthorizedPeer)
    (devices : list Device) : RegistrationResult * list Device :=
  if candidate_valid device authorization then publish_loop device devices
  else (not_accepted, devices).
End registry.

Definition remove_device (session_id : Z) (devices : list Device) : list Device :=
  filter (fun d => dev_session_id d <> session_id) devices.

Fixpoint is_already_connected (device_id : string) (devices : list Device) : bool :=
  match devices with
  | [] => false
  | device :: rest =>
      if bool_decide (dev_id device = device_id) && negb (bool_decide (dev_state device = DISCONNECTED))
      then true else is_already_connected device_id rest
  end.

Definition get_devices_copy (devices : list Device) : list Device := devices.

(** ** The connection manager *)

(** Sessions by id; the weak reference of a session is its id. *)
Abbreviation connections := (gmap Z Z).

Definition register_connection (session_id : Z) (m : connections) : connections := <[session_id := session_id]> m.
Definition find_connection (alive : Z -> option bool) (session_id : Z) (m : connections)
  : option Z * connections :=
  match m !! session_id with
  | None => (None, m)
  | Some w => match alive w with
              | Some _ => (Some w, m)
              | None => (None, delete session_id m)
              end
  end.
Definition unregister_connection (session_id : Z) (m : connections) : connections := delete session_id m.

(** ** The device a connection publishes ([Connection::activate_authorized_peer]) *)

(** [(get_my_device_id() < device_id) == is_outgoing()], with the byte order of
    [std::string]. *)
Definition preferred_direction (my_id device_id : string) (outgoing : bool) : bool :=
  Bool.eqb (String.ltb my_id device_id) outgoing.

Definition candidate_device (my_id : string) (outgoing : bool) (fd session_id : Z)
    (device_name device_type : string) (authorization : AuthorizedPeer) : Device :=
  mkDevice (ap_device_id authorization) device_name device_type fd session_id (Some session_id)
    (preferred_direction my_id (ap_device_id authorization) outgoing) AUTHENTICATED
    (ap_public_key authorization) (ap_revision authorization) (ap_permissions authorization).

(** ** Lookups and the registry invariant *)

Fixpoint find_id (id : string) (devices : list Device) : option Device :=
  match devices with
  | [] => None
  | d :: rest => if bool_decide (dev_id d = id) then Some d else find_id id rest
  end.

(** One entry per device id and per session, every entry READY. *)
Record registry_ok (devices : list Device) : Prop := {
  rg_ids : NoDup (dev_id <$> devices);
  rg_ready : Forall (fun d => dev_state d = READY) devices
}.

Lemma find_id_some id devices d : find_id id devices = Some d -> d ∈ devices /\ dev_id d = id.
Proof.
  induction devices as [|e rest IH]; cbn; [done|]. case_bool_decide.
  - intros [= <-]. split; [left|done].
  - intros [? ?]%IH. split; [by right|done].
Qed.

Lemma find_id_none id devices : find_id id devices = None <-> id ∉ dev_id <$> devices.
Proof.
  induction devices as [|e rest IH]; cbn; [set_solver|]. case_bool_decide.
  - split; [done|]. rewrite not_elem_of_cons. naive_solver.
  - rewrite IH, not_elem_of_cons. naive_solver.
Qed.

Lemma find_id_elem devices d : NoDup (dev_id <$> devices) -> d ∈ devices -> find_id (dev_id d) devices = Some d.
Proof.
  induction devices as [|e rest IH]; [by intros _ ?%not_elem_of_nil|].
  cbn [fmap list_fmap find_id]. intros [Hni Hnd]%NoDup_cons [->|Hin]%elem_of_cons.
  - by rewrite bool_decide_true.
  - rewrite bool_decide_false; [by apply IH|]. intros Heq. destruct Hni. rewrite Heq.
    apply list_elem_of_fmap. by exists d.
Qed.

(** What the arbitration allows: no entry, an entry without live owner, or the
    preferred direction against the other. *)
Definition may_take (alive : Z -> option bool) (device : Device) (existing : option Device) : bool :=
  match existing with
  | None => true
  | Some e => negb (is_live alive e) || (negb (dev_preferred e) && dev_preferred device)
  end.

Section lemmas.
Context (alive : Z -> option bool).

Lemma publish_loop_spec device devices r devices' :
  publish_loop alive device devices = (r, devices') ->
  let old := find_id (dev_id device) devices in
  accepted r = may_take alive device old /\
  if accepted r then
    replaced_device r = old /\ find_id (dev_id device) devices' = Some (set_dev_state READY device) /\
    (forall id, id <> dev_id device -> find_id id devices' = find_id id devices) /\
    (forall d, d ∈ devices' -> d = set_dev_state READY device \/ d ∈ devices) /\
    dev_id <$> devices' = (dev_id <$> devices) ++ match old with None => [dev_id device] | Some _ => [] end
  else devices' = devices /\ replaced_device r = None.
Proof.
  revert r devices'. induction devices as [|e rest IH]; intros r devices'; cbn [publish_loop find_id].
  - intros [= <- <-]. cbn. rewrite bool_decide_true by done. split_and!; try done.
    + intros id Hne. by rewrite bool_decide_false.
    + intros d [->|?%not_elem_of_nil]%elem_of_cons; [by left|done].
  - case_bool_decide as He; cbn [negb].
    + destruct (is_live alive e && (dev_preferred e || negb (dev_preferred device))) eqn:Hb; intros [= <- <-];
        cbn [accepted not_accepted may_take replaced_device].
      * split; [|done]. symmetry. destruct (is_live alive e), (dev_preferred e), (dev_preferred device); done.
      * split; [destruct (is_live alive e), (dev_preferred e), (dev_preferred device); done|].
        cbn [find_id set_dev_state dev_id]. rewrite bool_decide_true by done. split_and!; try done.
        -- intros id Hne. rewrite !bool_decide_false by congruence. done.
        -- intros d [->|?]%elem_of_cons; [by left|right; by right].
        -- cbn. by rewrite He, app_nil_r.
    + destruct (publish_loop alive device rest) as [r0 rest'] eqn:Hrec. intros [= <- <-].
      specialize (IH _ _ eq_refl). cbn zeta in IH. destruct IH as [Hacc IH]. split; [done|].
      destruct (accepted r0); [|by destruct IH as [-> ->]]. destruct IH as (H1 & H2 & H3 & H4 & H5).
      cbn [find_id]. rewrite bool_decide_false by done. split_and!; try done.
      * intros id Hne. destruct (bool_decide (dev_id e = id)); [done|]. by apply H3.
      * intros d [->|Hd]%elem_of_cons; [right; by left|]. destruct (H4 d Hd); [by left|right; by right].
      * cbn. by rewrite H5.
Qed.

Lemma publish_ok device authorization devices r devices' :
  registry_ok devices -> publish_authenticated_device alive device authorization devices = (r, devices') ->
  registry_ok devices'.
Proof.
  intros [Hnd Hr]. unfold publish_authenticated_device.
  destruct (candidate_valid alive device authorization); [|by intros [= <- <-]].
  intros H%publish_loop_spec. cbn zeta in H. destruct H as [_ H]. destruct (accepted r); [|destruct H as [-> _]; by split].
  destruct H as (_ & _ & _ & Hin & Hids). split.
  - rewrite Hids. destruct (find_id (dev_id device) devices) eqn:Hf; [by rewrite app_nil_r|].
    apply NoDup_app. split_and!; [done| |apply NoDup_singleton]. intros x Hx Hx'.
    apply list_elem_of_singleton in Hx' as ->. by apply find_id_none in Hf.
  - apply Forall_forall. intros d [->|Hd]%Hin; [done|]. rewrite Forall_forall in Hr. by apply Hr.
Qed.

Lemma remove_ok session_id devices : registry_ok devices -> registry_ok (remove_device session_id devices).
Proof.
  intros [Hnd Hr]. unfold remove_device. split.
  - eapply sublist_NoDup; [exact Hnd|]. apply fmap_sublist. apply sublist_filter.
  - apply Forall_forall. intros d [_ Hd]%list_elem_of_filter. rewrite Forall_forall in Hr. by apply Hr.
Qed.
End lemmas.

(** ** Theorems *)

(** Publication arbitrates duplicates: on a registry with one entry per device
    id, a device is accepted exactly when it is a valid authenticated candidate
    and either no entry, a dead or stopping owner, or a non-preferred owner facing
    the preferred direction stands in its way; then it is the READY entry of its
    id, the replaced entry is reported, no other id changes and ids stay unique;
    otherwise nothing changes. *)
Theorem publish_arbitration alive device authorization devices :
  registry_ok devices ->
  let '(r, devices') := publish_authenticated_device alive device authorization devices in
  let old := find_id (dev_id device) devices in
  registry_ok devices' /\
  accepted r = candidate_valid alive device authorization && may_take alive device old /\
  if accepted r then
    replaced_device r = old /\ find_id (dev_id device) devices' = Some (set_dev_state READY device) /\
    forall id, id <> dev_id device -> find_id id devices' = find_id id devices
  else devices' = devices /\ replaced_device r = None.
Proof.
  intros Hok. destruct (publish_authenticated_device alive device authorization devices) as [r devices'] eqn:H.
  split; [by eapply publish_ok|]. unfold publish_authenticated_device in H.
  destruct (candidate_valid alive device authorization); [|by injection H as <- <-].
  apply publish_loop_spec in H. cbn zeta in H. destruct H as [Ha H]. split; [done|].
  destruct (accepted r); [|done]. by destruct H as (H1 & H2 & H3 & _).
Qed.

Lemma string_ltb_flip a b : a <> b -> String.ltb b a = negb (String.ltb a b).
Proof.
  intros Hne. unfold String.ltb. rewrite (String.compare_antisym a b).
  destruct (String.compare b a) eqn:E; try done. apply String.compare_eq_iff in E. congruence.
Qed.

(** Publishing several candidates, one after the other. *)
Definition publish_all (alive : Z -> option bool) (l : list (Device * AuthorizedPeer)) (devices : list Device)
  : list Device :=
  foldl (fun ds da => (publish_authenticated_device alive da.1 da.2 ds).2) devices l.

Lemma candidate_is_valid alive my_id outgoing fd session name type p :
  alive session = Some false ->
  candidate_valid alive (candidate_device my_id outgoing fd session name type p) p = true.
Proof.
  intros H. unfold candidate_valid. cbn. rewrite H. cbn. rewrite !Z.eqb_refl, !bool_decide_true by done. done.
Qed.

(** Two live candidates for the same new id, of opposite preference: the
    preferred one owns the id afterwards, in either order. *)
Lemma publish_two alive my_id p fd1 fd2 s_out s_in n1 n2 t1 t2 devices (outgoing_first : bool) :
  find_id (ap_device_id p) devices = None -> alive s_out = Some false -> alive s_in = Some false ->
  let d_out := candidate_device my_id true fd1 s_out n1 t1 p in
  let d_in := candidate_device my_id false fd2 s_in n2 t2 p in
  let l := if outgoing_first then [(d_out, p); (d_in, p)] else [(d_in, p); (d_out, p)] in
  dev_session_id <$> find_id (ap_device_id p) (publish_all alive l devices) =
    Some (if String.ltb my_id (ap_device_id p) then s_out else s_in).
Proof.
  intros Hnone Hout Hin d_out d_in l.
  assert (Hpub : forall d1 d2, dev_id d1 = ap_device_id p -> dev_id d2 = ap_device_id p ->
            candidate_valid alive d1 p = true -> candidate_valid alive d2 p = true -> is_live alive d1 = true ->
            dev_session_id <$> find_id (ap_device_id p) (publish_all alive [(d1, p); (d2, p)] devices) =
              Some (dev_session_id (if negb (dev_preferred d1) && dev_preferred d2 then d2 else d1))).
  { intros d1 d2 H1 H2 Hv1 Hv2 Hlive. unfold publish_all, publish_authenticated_device. cbn. rewrite Hv1, Hv2.
    destruct (publish_loop alive d1 devices) as [r1 ds1] eqn:E1. apply publish_loop_spec in E1.
    cbn zeta in E1. rewrite H1, Hnone in E1. cbn in E1. destruct E1 as [Ha1 E1]. rewrite Ha1 in E1.
    destruct E1 as (_ & Hf1 & _). cbn [snd].
    destruct (publish_loop alive d2 ds1) as [r2 ds2] eqn:E2. apply publish_loop_spec in E2.
    cbn zeta in E2. rewrite H2, Hf1 in E2. cbn [may_take] in E2. destruct E2 as [Ha2 E2]. cbn [snd].
    change (is_live alive (set_dev_state READY d1)) with (is_live alive d1) in Ha2. rewrite Hlive in Ha2. cbn in Ha2.
    rewrite Ha2 in E2. destruct (negb (dev_preferred d1) && dev_preferred d2).
    - destruct E2 as (_ & -> & _). done.
    - destruct E2 as [-> _]. by rewrite Hf1. }
  assert (Hlive_o : is_live alive d_out = true) by (unfold is_live; cbn; by rewrite Hout).
  assert (Hlive_i : is_live alive d_in = true) by (unfold is_live; cbn; by rewrite Hin).
  assert (Hv_o : candidate_valid alive d_out p = true) by (by apply candidate_is_valid).
  assert (Hv_i : candidate_valid alive d_in p = true) by (by apply candidate_is_valid).
  subst l. destruct outgoing_first; rewrite Hpub by done; cbn; unfold preferred_direction;
    by destruct (String.ltb my_id (ap_device_id p)).
Qed.

(** C28. Crossed duplicate connections converge: when two hosts that see each other
    under their own distinct ids dial each other at once, both ends of both
    connections being live, then whatever the order in which each host completes
    the two authentications, both keep the same connection: the one dialled by the
    host with the smaller id. *)
Theorem crossed_duplicates_converge alive_a alive_b id_a id_b pa pb xa ya xb yb fd n t devices_a devices_b
    (order_a order_b : bool) :
  id_a <> id_b -> ap_device_id pa = id_b -> ap_device_id pb = id_a ->
  find_id id_b devices_a = None -> find_id id_a devices_b = None ->
  alive_a xa = Some false -> alive_a ya = Some false -> alive_b xb = Some false -> alive_b yb = Some false ->
  (* connection X: dialled by a, accepted by b; connection Y: the other way *)
  let xa_dev := candidate_device id_a true fd xa n t pa in
  let ya_dev := candidate_device id_a false fd ya n t pa in
  let xb_dev := candidate_device id_b false fd xb n t pb in
  let yb_dev := candidate_device id_b true fd yb n t pb in
  let owner_a := find_id id_b (publish_all alive_a
                   (if order_a then [(xa_dev, pa); (ya_dev, pa)] else [(ya_dev, pa); (xa_dev, pa)]) devices_a) in
  let owner_b := find_id id_a (publish_all alive_b
                   (if order_b then [(yb_dev, pb); (xb_dev, pb)] else [(xb_dev, pb); (yb_dev, pb)]) devices_b) in
  if String.ltb id_a id_b
  then dev_session_id <$> owner_a = Some xa /\ dev_session_id <$> owner_b = Some xb
  else dev_session_id <$> owner_a = Some ya /\ dev_session_id <$> owner_b = Some yb.
Proof.
  intros Hne Ha Hb Hna Hnb Hxa Hya Hxb Hyb. cbv zeta.
  pose proof (publish_two alive_a id_a pa fd fd xa ya n n t t devices_a order_a) as HA.
  pose proof (publish_two alive_b id_b pb fd fd yb xb n n t t devices_b order_b) as HB.
  cbv zeta in HA, HB. rewrite Ha in HA. rewrite Hb in HB.
  rewrite HA, HB by done. rewrite (string_ltb_flip id_a id_b Hne).
  by destruct (String.ltb id_a id_b).
Qed.

(** ** Identities that are not in lower case *)

(** A text is not above its lower-case form. *)
Lemma lower_string_le value : String.leb value (lower_string value) = true.
Proof.
  assert (Hc : forall c, Ascii.compare c (lower c) = Eq \/ Ascii.compare c (lower c) = Lt).
  { intros [[] [] [] [] [] [] [] []]; vm_compute; auto. }
  unfold String.leb. induction value as [|c value IH]; [done|]. cbn. by destruct (Hc c) as [-> | ->].
Qed.
Lemma string_ltb_leb a b : String.ltb a b = negb (String.leb b a).
Proof. unfold String.ltb, String.leb. rewrite (String.compare_antisym a b). by destruct (String.compare b a). Qed.
Lemma string_leb_ltb a b c : String.leb a b = true -> String.ltb b c = true -> String.ltb a c = true.
Proof.
  rewrite !string_ltb_leb, !negb_true_iff. intros Hab Hcb. apply not_true_iff_false. intros Hca.
  apply not_true_iff_false in Hcb. apply Hcb, Is_true_true. apply Is_true_true in Hab, Hca.
  exact (transitivity (R := String.le) Hca Hab).
Qed.

(** C39. How far the agreement goes when the identity file spells this host's UUID
    with upper-case digits.  The loader accepts it (as every text that parses) and keeps the spelling [own], which
    the host uses for itself, while the peer sees the UUID as authorizations spell it,
    [seen], in lower case.  When the two hosts dial each other at once, then in every
    order of the authentications they still keep the same connection, unless the
    peer's id lies between the two spellings: then each host keeps the connection it
    dialled itself, and gives up the one the other keeps. *)
Theorem uppercase_identity_diverges alive_a alive_b own u id_b pa pb xa ya xb yb fd n t devices_a devices_b
    (order_a order_b : bool) :
  trust_uuid_from_string own = Ok u ->
  let seen := trust_uuid_to_string u in
  id_b <> seen -> ap_device_id pa = id_b -> ap_device_id pb = seen ->
  find_id id_b devices_a = None -> find_id seen devices_b = None ->
  alive_a xa = Some false -> alive_a ya = Some false -> alive_b xb = Some false -> alive_b yb = Some false ->
  let xa_dev := candidate_device own true fd xa n t pa in
  let ya_dev := candidate_device own false fd ya n t pa in
  let xb_dev := candidate_device id_b false fd xb n t pb in
  let yb_dev := candidate_device id_b true fd yb n t pb in
  let owner_a := find_id id_b (publish_all alive_a
                   (if order_a then [(xa_dev, pa); (ya_dev, pa)] else [(ya_dev, pa); (xa_dev, pa)]) devices_a) in
  let owner_b := find_id seen (publish_all alive_b
                   (if order_b then [(yb_dev, pb); (xb_dev, pb)] else [(xb_dev, pb); (yb_dev, pb)]) devices_b) in
  identity_is_valid_uuid own = true /\
  if String.ltb own id_b && String.ltb id_b seen
  then dev_session_id <$> owner_a = Some xa /\ dev_session_id <$> owner_b = Some yb
  else if String.ltb own id_b
  then dev_session_id <$> owner_a = Some xa /\ dev_session_id <$> owner_b = Some xb
  else dev_session_id <$> owner_a = Some ya /\ dev_session_id <$> owner_b = Some yb.
Proof.
  intros Hu. destruct (uuid_validators_agree own) as [Hv' Hv]. rewrite Hu in Hv. destruct Hv as (Hv & _ & ->).
  rewrite Hv', Hv. pose proof (lower_string_le own) as Hle. generalize dependent (lower_string own). intros seen Hle. cbv zeta.
  intros Hne Ha Hb Hna Hnb Hxa Hya Hxb Hyb.
  pose proof (publish_two alive_a own pa fd fd xa ya n n t t devices_a order_a) as HA.
  pose proof (publish_two alive_b id_b pb fd fd yb xb n n t t devices_b order_b) as HB.
  cbv zeta in HA, HB. rewrite Ha in HA. rewrite Hb in HB. rewrite HA, HB by done. split; [done|].
  pose proof (string_leb_ltb own seen id_b Hle) as Hmono. rewrite (string_ltb_flip _ _ Hne) in Hmono.
  destruct (String.ltb own id_b), (String.ltb id_b seen); cbn in *; try done. by specialize (Hmono eq_refl).
Qed.

(** ** A scenario *)

Module RegistryScenario.
Import Scenario AuthScenario.

Definition id1 : string := trust_uuid_to_string peer1.
Definition id2 : string := trust_uuid_to_string peer2.
Definition peer_of_a : AuthorizedPeer := mkAuthorizedPeer peer2 key2 id2 1 ["message"].
Definition peer_of_b : AuthorizedPeer := mkAuthorizedPeer peer1 key1 id1 1 ["message"].
Definition all_live (_ : Z) : option bool := Some false.
Definition device_in : Device := candidate_device id1 false 7 1 "phone" "android" peer_of_a.
Definition device_out : Device := candidate_device id1 true 8 2 "phone" "android" peer_of_a.
Definition one_device : list Device := [set_dev_state READY device_in].

Lemma one_device_ok : registry_ok one_device.
Proof. split; repeat constructor. cbn. intros []%not_elem_of_nil. Qed.

Lemma publish_arbitration_witness :
  publish_authenticated_device all_live device_out peer_of_a one_device =
    (mkRegistrationResult true (Some (set_dev_state READY device_in)), [set_dev_state READY device_out]) /\
  registry_ok (publish_authenticated_device all_live device_out peer_of_a one_device).2.
Proof.
  split; [vm_compute; reflexivity|].
  pose proof (publish_arbitration all_live device_out peer_of_a one_device one_device_ok) as H.
  destruct (publish_authenticated_device all_live device_out peer_of_a one_device). exact (proj1 H).
Defined.

Lemma crossed_duplicates_converge_witness :
  dev_session_id <$> find_id id2 (publish_all all_live
    [(candidate_device id1 true 0 1 "n" "t" peer_of_a, peer_of_a);
     (candidate_device id1 false 0 2 "n" "t" peer_of_a, peer_of_a)] []) = Some 1.
Proof.
  assert (Hne : id1 <> id2) by (vm_compute; discriminate).
  pose proof (crossed_duplicates_converge all_live all_live id1 id2 peer_of_a peer_of_b 1 2 1 2 0 "n" "t" [] []
    true false Hne eq_refl eq_refl eq_refl eq_refl eq_refl eq_refl eq_refl eq_refl) as H.
  vm_compute in H. destruct H as [H _]. vm_compute. exact H.
Defined.

(** An identity file in upper case, and a peer between its two spellings. *)
Definition own_upper : string := "B0000000-0000-4000-8000-000000000001".
Definition peer_between : string := "a0000000-0000-4000-8000-000000000002".
Definition own_uuid : TrustUuid := xb0 :: replicate 5 x00 ++ [x40; x00; x80; x00; x00; x00; x00; x00; x00; x01].
Definition peer_between_of_a : AuthorizedPeer := mkAuthorizedPeer peer2 key2 peer_between 1 ["message"].
Definition own_of_b : AuthorizedPeer := mkAuthorizedPeer own_uuid key1 (trust_uuid_to_string own_uuid) 1 ["message"].

Lemma uppercase_identity_diverges_witness :
  dev_session_id <$> find_id peer_between (publish_all all_live
    [(candidate_device own_upper true 0 1 "n" "t" peer_between_of_a, peer_between_of_a);
     (candidate_device own_upper false 0 2 "n" "t" peer_between_of_a, peer_between_of_a)] []) = Some 1 /\
  dev_session_id <$> find_id (trust_uuid_to_string own_uuid) (publish_all all_live
    [(candidate_device peer_between false 0 1 "n" "t" own_of_b, own_of_b);
     (candidate_device peer_between true 0 2 "n" "t" own_of_b, own_of_b)] []) = Some 2.
Proof.
  assert (Hu : trust_uuid_from_string own_upper = Ok own_uuid) by (vm_compute; reflexivity).
  assert (Hne : peer_between <> trust_uuid_to_string own_uuid) by (vm_compute; discriminate).
  exact (proj2 (uppercase_identity_diverges all_live all_live own_upper own_uuid peer_between peer_between_of_a own_of_b
    1 2 1 2 0 "n" "t" [] [] true false Hu Hne eq_refl eq_refl eq_refl eq_refl eq_refl eq_refl eq_refl eq_refl)).
Defined.
End RegistryScenario.
