(* ===== verification/Logging.v ===== *)
(** * Logging ([core/utils/logger.cpp], [core/utils/packet_monitor.cpp])

    Every function writes one line to a standard stream, by three or five insertions.
    Threads share the streams, and only an insertion is not divided, so the output of
    several threads is an interleaving of their insertions.  The lines of one thread
    can be read back when no message contains a newline, and an interleaving loses and
    invents no insertion. *)

From S2P Require Import Prelude.

Definition newline : string := String (Ascii.ascii_of_nat 10) EmptyString.

(** ** The functions *)

(** The standard streams, as the insertions made so far, oldest first. *)
Record Streams : Type := mkStreams {
  out : list string;
  err : list string
}.
Definition to_out (pieces : list string) (s : Streams) : Streams := mkStreams (out s ++ pieces) (err s).
Definition to_err (pieces : list string) (s : Streams) : Streams := mkStreams (out s) (err s ++ pieces).

Definition log (message : string) : Streams -> Streams := to_out ["[gasoline] "; message; newline].
Definition error (message : string) : Streams -> Streams := to_err ["[gasoline:error] "; message; newline].
Definition log_rx (device_id type : string) : Streams -> Streams := to_out ["[RX] "; device_id; " -> "; type; newline].
Definition log_tx (device_id type : string) : Streams -> Streams := to_out ["[TX] "; device_id; " <- "; type; newline].

(** ** Reading the output *)

Definition text (pieces : list string) : string := foldr String.append EmptyString pieces.

(** The complete lines of a text. *)
Fixpoint lines_from (line : string) (t : string) : list string :=
  match t with
  | EmptyString => []
  | String c t =>
      if bool_decide (c = Ascii.ascii_of_nat 10) then line :: lines_from EmptyString t
      else lines_from (line +:+ String c EmptyString) t
  end.
Definition lines (t : string) : list string := lines_from EmptyString t.

Fixpoint one_line (t : string) : bool :=
  match t with
  | EmptyString => true
  | String c t => negb (bool_decide (c = Ascii.ascii_of_nat 10)) && one_line t
  end.

Lemma append_nil_r t : t +:+ EmptyString = t.
Proof. induction t as [|c t IH]; [done|]. exact (f_equal (String c) IH). Qed.
Lemma append_assoc a b c : (a +:+ b) +:+ c = a +:+ (b +:+ c).
Proof. induction a as [|x a IH]; [done|]. exact (f_equal (String x) IH). Qed.
Lemma text_app a b : text (a ++ b) = text a +:+ text b.
Proof. induction a as [|p a IH]; [done|]. cbn [app text foldr]. change (foldr String.append EmptyString (a ++ b)) with (text (a ++ b)). by rewrite IH, append_assoc. Qed.

(** A line without a newline inside, up to its newline. *)
Lemma lines_line line t rest :
  one_line t = true -> lines_from line (t +:+ newline +:+ rest) = (line +:+ t) :: lines rest.
Proof.
  revert line. induction t as [|c t IH]; intros line Ht.
  - by rewrite append_nil_r.
  - change (String c t +:+ newline +:+ rest) with (String c (t +:+ newline +:+ rest)). cbn [lines_from one_line] in *.
    apply andb_prop in Ht as [Hc Ht]. apply negb_true_iff, bool_decide_eq_false in Hc.
    rewrite bool_decide_eq_false_2 by done. rewrite IH, append_assoc by done. done.
Qed.
Lemma one_line_app a b : one_line (a +:+ b) = one_line a && one_line b.
Proof.
  induction a as [|c a IH]; [done|]. change (String c a +:+ b) with (String c (a +:+ b)). cbn [one_line]. by rewrite IH, andb_assoc.
Qed.

(** The messages a thread logs are the lines of its output, in order. *)
Theorem log_roundtrip messages :
  forallb one_line messages = true ->
  lines (text (out (foldr log (mkStreams [] []) (rev messages)))) = map (String.append "[gasoline] ") messages.
Proof.
  intros Hm. assert (forall ms s, out (foldr log s (rev ms)) = out s ++ concat (map (fun m => ["[gasoline] "; m; newline]) ms)) as Hout.
  { induction ms as [|m ms IH]; intros s; cbn; [by rewrite app_nil_r|]. rewrite foldr_app. cbn. rewrite IH. cbn.
    by rewrite <-app_assoc. }
  rewrite Hout. cbn [out app]. clear Hout. induction messages as [|m ms IH]; [done|].
  cbn [forallb] in Hm. apply andb_prop in Hm as [H1 Hm]. cbn [map concat]. rewrite text_app.
  replace (text ["[gasoline] "; m; newline]) with (("[gasoline] " +:+ m) +:+ newline) by (cbn; by rewrite append_nil_r).
  rewrite append_assoc. unfold lines at 1. rewrite lines_line by (by rewrite one_line_app). f_equal. by apply IH.
Qed.

(** ** Several threads *)

(** An interleaving of the insertions of two threads. *)
Inductive interleaved : list string -> list string -> list string -> Prop :=
| interleaved_nil : interleaved [] [] []
| interleaved_left p a b c : interleaved a b c -> interleaved (p :: a) b (p :: c)
| interleaved_right p a b c : interleaved a b c -> interleaved a (p :: b) (p :: c).

(** Nothing is lost and nothing invented, and each thread keeps its order. *)
Lemma interleaved_keeps a b c : interleaved a b c -> c ≡ₚ a ++ b /\ a `sublist_of` c /\ b `sublist_of` c.
Proof.
  induction 1 as [|p a b c _ (IH & Ha & Hb)|p a b c _ (IH & Ha & Hb)]; [done|..].
  - split; [by rewrite IH|]. split; by constructor.
  - split; [rewrite IH; apply Permutation_middle|]. split; by constructor.
Qed.
