(* ===== verification/Packet.v ===== *)
(** * Packets, handlers and the router

    [core/protocol/packet.cpp], [core/protocol/handlers/*.cpp],
    [core/protocol/router/packet_router.cpp], and the packet helpers at the top of
    [core/networking/connection.cpp].  The JSON library (nlohmann/json) is not part
    of the repository: [JsonLibrary] lists what the code uses of it, [JsonLaws] the
    documented behaviour it relies on.  What a handler does to its session goes
    through [SessionEffects], which the connection implements. *)

From S2P Require Import Prelude Uuid SessionAuth.

(** ** The JSON library *)

(** Output written to a stream: a block ([ostream::write]) or a character
    ([ostream::put]). *)
Inductive write : Type := WBlock (data : list byte) | WChar (c : byte).
Definition written (w : write) : list byte := match w with WBlock data => data | WChar c => [c] end.

Class JsonLibrary : Type := {
  json : Type;
  json_null : json;
  json_string : string -> json;
  json_parse : list byte -> option json;         (** [None]: [parse_error] *)
  (** The output of the serializer, and whether it ended or threw [type_error] at a
      text that is not UTF-8. *)
  json_dump : json -> list write * bool;
  json_is_object : json -> bool;
  json_as_string : json -> option string;        (** [is_string], [get<std::string>] *)
  json_find : string -> json -> option json;     (** [find]; [end()] on values that are not objects *)
  json_set : string -> json -> json -> json      (** [j[key] = value] on null or an object *)
}.

Class JsonLaws `{JsonLibrary} : Prop := {
  json_find_object k j v : json_find k j = Some v -> json_is_object j = true;
  json_find_null k : json_find k json_null = None;
  json_set_object k v j : json_is_object j = true \/ j = json_null -> json_is_object (json_set k v j) = true;
  json_find_set k k' v j : json_is_object j = true \/ j = json_null ->
    json_find k' (json_set k v j) = if bool_decide (k' = k) then Some v else json_find k' j;
  json_as_string_string s : json_as_string (json_string s) = Some s;
  json_string_not_object s j : json_as_string j = Some s -> json_is_object j = false
}.

(** Decide comparisons of literal keys. *)
Ltac field_cases :=
  repeat match goal with
         | |- context [bool_decide (?a = ?b)] =>
             first [rewrite (bool_decide_true (a = b)) by reflexivity
                   |rewrite (bool_decide_false (a = b)) by discriminate]
         end.

(** The bytes of a sequence of writes. *)
Definition text_of (ws : list write) : list byte := concat (written <$> ws).

(** The exceptions that reach the session code. *)
Inductive Exn : Type :=
| JsonParseError
| JsonTypeError
| InvalidArgument (message : string)
| LengthError.

(** ** Packets *)

Section packets.
Context `{JL : JsonLibrary}.

Record Packet : Type := mkPacket {
  p_type : string;
  p_device_id : string;
  p_payload : json
}.

Definition string_field (key : string) (j : json) : option string :=
  match json_find key j with Some v => json_as_string v | None => None end.
Definition is_object_field (v : option json) : bool :=
  match v with Some p => json_is_object p | None => false end.

Definition parse_packet (data : list byte) : result Exn Packet :=
  match json_parse data with
  | None => Throw JsonParseError
  | Some j =>
      if negb (json_is_object j) then Throw (InvalidArgument "packet must be an object")
      else
        match string_field "type" j, string_field "device_id" j with
        | Some type, Some device_id =>
            let payload := json_find "payload" j in
            if bool_decide (type = "hello") && negb (is_object_field payload)
            then Throw (InvalidArgument "hello payload must be present and an object")
            else Ok (mkPacket type device_id (default json_null payload))
        | _, _ => Throw (InvalidArgument "packet type and device_id must be present and strings")
        end
  end.

(** The JSON value [serialize_packet] builds. *)
Definition packet_json (pkt : Packet) : json :=
  json_set "payload" (p_payload pkt)
    (json_set "device_id" (json_string (p_device_id pkt))
      (json_set "type" (json_string (p_type pkt)) json_null)).

Definition serialize_packet (pkt : Packet) : result Exn (list byte) :=
  match json_dump (packet_json pkt) with
  | (ws, true) => Ok (text_of ws)
  | (_, false) => Throw JsonTypeError
  end.

(** ** Packet helpers of [connection.cpp] *)

Definition is_control_type (type : string) : bool :=
  bool_decide (type = "hello") || bool_decide (type = "ping") || bool_decide (type = "pong").
Definition is_control_json (packet : json) : bool :=
  match string_field "type" packet with Some type => is_control_type type | None => false end.
Definition is_control_packet (packet : Packet) : bool := is_control_type (p_type packet).

(** [BoundedPacketBuffer]: the string it appends to, under its limit. *)
Definition xsputn (limit : Z) (chunk : list byte) (data : list byte) : result Exn (list byte) :=
  if size_t_sub limit (zlen data) <? zlen chunk then Throw LengthError else Ok (data ++ chunk).
Definition overflow (limit : Z) (c : byte) (data : list byte) : result Exn (list byte) := xsputn limit [c] data.
Definition stream_write (limit : Z) (w : write) (data : list byte) : result Exn (list byte) :=
  match w with WBlock chunk => xsputn limit chunk data | WChar c => overflow limit c data end.
Fixpoint stream_writes (limit : Z) (ws : list write) (data : list byte) : result Exn (list byte) :=
  match ws with
  | [] => Ok data
  | w :: rest => match stream_write limit w data with
                 | Ok data' => stream_writes limit rest data'
                 | Throw e => Throw e
                 end
  end.

(** [output << packet]: the first overflow stops the serializer. *)
Definition bounded_dump (limit : Z) (packet : json) : result Exn (list byte) :=
  let '(ws, finished) := json_dump packet in
  match stream_writes limit ws [] with
  | Throw e => Throw e
  | Ok data => if finished then Ok data else Throw JsonTypeError
  end.

(** ** Handlers *)

Inductive HelloAction : Type := HelloContinue | DisconnectCurrent | HelloDisconnectPeer.
Inductive PacketRouteAction : Type := Continue | Disconnect | DisconnectPeer.

Definition hello_handle (pkt : Packet) : HelloAction :=
  if negb (bool_decide (p_type pkt = "hello")) || negb (json_is_object (p_payload pkt)) then DisconnectCurrent
  else match string_field "device_name" (p_payload pkt), string_field "device_type" (p_payload pkt) with
       | Some _, Some _ => if bool_decide (p_device_id pkt = EmptyString) then DisconnectCurrent else HelloContinue
       | _, _ => DisconnectCurrent
       end.

(** What handlers do to the session they run in. *)
Class SessionEffects (S : Type) : Type := {
  fx_send_packet : json -> stx S Exn Z;
  fx_emit_message : string -> string -> stx S Exn unit
}.

Section handlers.
Context {S : Type} {FX : SessionEffects S} (my_device_id : string).

Definition pong_json : json :=
  json_set "device_id" (json_string my_device_id) (json_set "type" (json_string "pong") json_null).

Definition ping_handle : stx S Exn unit := fx_send_packet pong_json;;; ret tt.

Definition message_handle (pkt : Packet) (authenticated_peer : AuthorizedPeer) : stx S Exn unit :=
  match json_find "text" (p_payload pkt) with
  | None => ret tt
  | Some text =>
      match json_as_string text with
      | None => throw JsonTypeError
      | Some msg => fx_emit_message (ap_device_id authenticated_peer) msg
      end
  end.

Definition route (pkt : Packet) (authenticated_peer : option AuthorizedPeer) : stx S Exn PacketRouteAction :=
  if bool_decide (p_type pkt = "hello") then
    ret (match hello_handle pkt with
         | DisconnectCurrent => Disconnect
         | HelloDisconnectPeer => DisconnectPeer
         | HelloContinue => Continue
         end)
  else if bool_decide (p_type pkt = "ping") then ping_handle;;; ret Continue
  else if bool_decide (p_type pkt = "pong") then ret Continue
  else if bool_decide (p_type pkt = "message") then
    match authenticated_peer with
    | None => ret Disconnect
    | Some peer => message_handle pkt peer;;; ret Continue
    end
  else ret Continue.
End handlers.

(** ** Packets the daemon builds *)

(** [Connection::send_initial_hello] *)
Definition hello_json (my_device_id : string) : json :=
  json_set "payload"
    (json_set "device_type" (json_string "linux") (json_set "device_name" (json_string "Gasoline") json_null))
    (json_set "device_id" (json_string my_device_id) (json_set "type" (json_string "hello") json_null)).

(** [build_message_packet] of [services/message_service.cpp] *)
Definition message_json (my_device_id text : string) : json :=
  json_set "payload" (json_set "text" (json_string text) json_null)
    (json_set "device_id" (json_string my_device_id) (json_set "type" (json_string "message") json_null)).

(** ** Theorems *)

Lemma stream_writes_spec limit ws data :
  zlen data <= limit < 2 ^ 64 ->
  stream_writes limit ws data =
    if zlen (data ++ text_of ws) <=? limit then Ok (data ++ text_of ws) else Throw LengthError.
Proof.
  revert data. induction ws as [|w ws IH]; intros data Hb; cbn [stream_writes].
  { unfold text_of. cbn. rewrite app_nil_r. destruct (Z.leb_spec (zlen data) limit); [done|lia]. }
  assert (Hw : stream_write limit w data =
    if zlen (data ++ written w) <=? limit then Ok (data ++ written w) else Throw LengthError).
  { destruct w; cbn [stream_write written]; unfold overflow, xsputn;
      rewrite size_t_sub_small, length_app by lia;
      repeat match goal with |- context [?a <? ?b] => destruct (Z.ltb_spec a b)
                           | |- context [?a <=? ?b] => destruct (Z.leb_spec a b) end; try done; lia. }
  rewrite Hw. unfold text_of in *. cbn [fmap list_fmap concat].
  destruct (Z.leb_spec (zlen (data ++ written w)) limit) as [Hle|Hgt].
  - rewrite IH by lia. by rewrite <-app_assoc.
  - destruct (Z.leb_spec (zlen (data ++ written w ++ concat (written <$> ws))) limit); [|done].
    rewrite !length_app in *. lia.
Qed.

(** The bounded packet buffer is exact, for every way the serializer splits
    its output into writes: the packet's text is obtained, unchanged, exactly when
    it is within the limit; otherwise the dump stops with [length_error]. *)
Theorem bounded_dump_exact limit packet :
  0 <= limit < 2 ^ 64 ->
  let '(ws, finished) := json_dump packet in
  bounded_dump limit packet =
    if zlen (text_of ws) <=? limit then
      if finished then Ok (text_of ws) else Throw JsonTypeError
    else Throw LengthError.
Proof.
  intros Hl. unfold bounded_dump. destruct (json_dump packet) as [ws finished].
  rewrite (stream_writes_spec limit ws []) by (cbn; lia). rewrite app_nil_l.
  by destruct (zlen (text_of ws) <=? limit).
Qed.

Lemma parse_packet_spec data pkt :
  parse_packet data = Ok pkt <->
  exists j, json_parse data = Some j /\ json_is_object j = true /\
    string_field "type" j = Some (p_type pkt) /\ string_field "device_id" j = Some (p_device_id pkt) /\
    (p_type pkt = "hello" -> is_object_field (json_find "payload" j) = true) /\
    p_payload pkt = default json_null (json_find "payload" j).
Proof.
  unfold parse_packet. split.
  - destruct (json_parse data) as [j|]; [|done]. destruct (json_is_object j) eqn:Ho; [|done]. cbn [negb].
    destruct (string_field "type" j) as [t|] eqn:Ht; [|done].
    destruct (string_field "device_id" j) as [i|] eqn:Hi; [|done].
    destruct (bool_decide (t = "hello") && negb (is_object_field (json_find "payload" j))) eqn:Hb; [done|].
    intros [= <-]. exists j. split_and!; try done. cbn. intros ->.
    destruct (is_object_field (json_find "payload" j)); [done|]. by rewrite bool_decide_true in Hb.
  - intros (j & -> & -> & -> & -> & Hh & Hp). cbn [negb]. cbv zeta.
    replace (bool_decide (p_type pkt = "hello") && negb (is_object_field (json_find "payload" j))) with false.
    + rewrite <-Hp. by destruct pkt.
    + case_bool_decide as Ht; [|done]. by rewrite Hh.
Qed.

(** Parsing accepts exactly the well-formed packets: the text is a JSON object
    with string fields [type] and [device_id], and with an object as [payload] when
    the type is hello; the packet then carries those fields. *)
Theorem parse_packet_exact data pkt :
  parse_packet data = Ok pkt <->
  exists j, json_parse data = Some j /\ json_is_object j = true /\
    string_field "type" j = Some (p_type pkt) /\ string_field "device_id" j = Some (p_device_id pkt) /\
    (p_type pkt = "hello" -> is_object_field (json_find "payload" j) = true) /\
    p_payload pkt = default json_null (json_find "payload" j).
Proof. apply parse_packet_spec. Qed.

Context {LAWS : JsonLaws}.

Lemma packet_json_fields pkt :
  json_is_object (packet_json pkt) = true /\ string_field "type" (packet_json pkt) = Some (p_type pkt) /\
  string_field "device_id" (packet_json pkt) = Some (p_device_id pkt) /\
  json_find "payload" (packet_json pkt) = Some (p_payload pkt).
Proof.
  unfold packet_json, string_field.
  assert (H1 : json_is_object (json_set "type" (json_string (p_type pkt)) json_null) = true)
    by (apply json_set_object; auto).
  assert (H2 : json_is_object (json_set "device_id" (json_string (p_device_id pkt))
                (json_set "type" (json_string (p_type pkt)) json_null)) = true)
    by (apply json_set_object; auto).
  split; [apply json_set_object; auto|].
  rewrite !json_find_set by auto. field_cases. by rewrite !json_as_string_string.
Qed.

Lemma parse_own_packet pkt text :
  json_parse text = Some (packet_json pkt) -> (p_type pkt = "hello" -> json_is_object (p_payload pkt) = true) ->
  parse_packet text = Ok pkt.
Proof.
  intros Hp Hh. destruct (packet_json_fields pkt) as (Ho & Ht & Hi & Hpl).
  apply parse_packet_spec. exists (packet_json pkt). rewrite Hpl. split_and!; try done.
Qed.
(** The library reads back the value it wrote. *)
Definition reads_back (j : json) : Prop :=
  forall ws, json_dump j = (ws, true) -> json_parse (text_of ws) = Some j.

(** Packets survive the wire: when the JSON library reads back the value of a
    packet, parsing the serialization of the packet gives the packet. *)
Theorem packet_roundtrip pkt text :
  reads_back (packet_json pkt) -> serialize_packet pkt = Ok text ->
  (p_type pkt = "hello" -> json_is_object (p_payload pkt) = true) ->
  parse_packet text = Ok pkt.
Proof.
  unfold serialize_packet, reads_back. intros Hback Hs Hh.
  destruct (json_dump (packet_json pkt)) as [ws [|]]; [|done]. injection Hs as <-. specialize (Hback _ eq_refl).
  by apply parse_own_packet.
Qed.

(** The packets the daemon builds are serializations. *)
Definition hello_packet (my_device_id : string) : Packet :=
  mkPacket "hello" my_device_id
    (json_set "device_type" (json_string "linux") (json_set "device_name" (json_string "Gasoline") json_null)).
Definition message_packet (my_device_id text : string) : Packet :=
  mkPacket "message" my_device_id (json_set "text" (json_string text) json_null).


(** The daemon's own packets are understood by its peers: the hello it sends is
    parsed and accepted by the hello handler (for a non-empty device id), and a
    message it sends is routed, at an authenticated session, to exactly one event
    with the text as given, attributed to the authenticated device id whatever
    device id the packet claims. *)
Theorem own_packets_understood {S} {FX : SessionEffects S} my_id other_id msg hello_text message_text peer :
  my_id <> EmptyString ->
  json_parse hello_text = Some (hello_json my_id) -> json_parse message_text = Some (message_json my_id msg) ->
  parse_packet hello_text = Ok (hello_packet my_id) /\ hello_handle (hello_packet my_id) = HelloContinue /\
  parse_packet message_text = Ok (message_packet my_id msg) /\
  is_control_packet (message_packet my_id msg) = false /\
  forall s, route other_id (message_packet my_id msg) (Some peer) s =
            (fx_emit_message (ap_device_id peer) msg;;; ret Continue) s.
Proof.
  intros Hid Hh Hm.
  assert (Hn : json_is_object (json_set "device_name" (json_string "Gasoline") json_null) = true)
    by (apply json_set_object; auto).
  assert (Hp : json_is_object (p_payload (hello_packet my_id)) = true) by (apply json_set_object; auto).
  split_and!.
  - by apply parse_own_packet.
  - unfold hello_handle. rewrite Hp. cbn [p_type hello_packet negb orb bool_decide p_payload p_device_id].
    unfold string_field. rewrite !json_find_set by auto. field_cases. rewrite !json_as_string_string.
    cbn [negb orb]. by rewrite bool_decide_false.
  - by apply parse_own_packet.
  - unfold is_control_packet, is_control_type. cbn [p_type message_packet]. by field_cases.
  - intros s. unfold route, message_handle. cbn [p_type message_packet p_payload]. field_cases.
    rewrite json_find_set by auto. field_cases. by rewrite json_as_string_string.
Qed.
End packets.

(** ** A JSON library

    Null, strings without escapes and objects: enough to run the packet code. *)

Module SmallJson.

Inductive value : Type := Null | Str (s : string) | Obj (members : list (string * value)).

Fixpoint lookup_member (k : string) (l : list (string * value)) : option value :=
  match l with
  | [] => None
  | (k', v) :: rest => if bool_decide (k = k') then Some v else lookup_member k rest
  end.
Fixpoint set_member (k : string) (v : value) (l : list (string * value)) : list (string * value) :=
  match l with
  | [] => [(k, v)]
  | (k', v') :: rest => if bool_decide (k = k') then (k, v) :: rest else (k', v') :: set_member k v rest
  end.

Definition is_object (j : value) : bool := match j with Obj _ => true | _ => false end.
Definition as_string (j : value) : option string := match j with Str s => Some s | _ => None end.
Definition find (k : string) (j : value) : option value :=
  match j with Obj l => lookup_member k l | _ => None end.
Definition set (k : string) (v j : value) : value :=
  match j with Obj l => Obj (set_member k v l) | Null => Obj [(k, v)] | Str s => Str s end.

(** Braces, quotes, colons and commas are written as characters, texts as blocks. *)
Definition dump_text (s : string) : list write := [WChar x22; WBlock (String.list_byte_of_string s); WChar x22].
Fixpoint dump_value (j : value) : list write :=
  match j with
  | Null => [WBlock (String.list_byte_of_string "null")]
  | Str s => dump_text s
  | Obj l =>
      let fix members (l : list (string * value)) : list write :=
        match l with
        | [] => []
        | [(k, v)] => dump_text k ++ WChar x3a :: dump_value v
        | (k, v) :: rest => dump_text k ++ WChar x3a :: dump_value v ++ WChar x2c :: members rest
        end in
      WChar x7b :: members l ++ [WChar x7d]
  end.

(** Up to the closing quote. *)
Fixpoint parse_text (l : list byte) : option (string * list byte) :=
  match l with
  | [] => None
  | x22 :: rest => Some (EmptyString, rest)
  | c :: rest =>
      match parse_text rest with
      | Some (s, tail) => Some (String (Ascii.ascii_of_byte c) s, tail)
      | None => None
      end
  end.
Fixpoint parse_value (fuel : nat) (l : list byte) : option (value * list byte) :=
  match fuel with
  | O => None
  | S fuel =>
      match l with
      | x22 :: rest => match parse_text rest with Some (s, tail) => Some (Str s, tail) | None => None end
      | x7b :: x7d :: rest => Some (Obj [], rest)
      | x7b :: rest => parse_members fuel rest []
      | x6e :: x75 :: x6c :: x6c :: rest => Some (Null, rest)
      | _ => None
      end
  end
with parse_members (fuel : nat) (l : list byte) (acc : list (string * value)) : option (value * list byte) :=
  match fuel with
  | O => None
  | S fuel =>
      match l with
      | x22 :: rest =>
          match parse_text rest with
          | Some (k, x3a :: tail) =>
              match parse_value fuel tail with
              | Some (v, x2c :: tail') => parse_members fuel tail' (acc ++ [(k, v)])
              | Some (v, x7d :: tail') => Some (Obj (acc ++ [(k, v)]), tail')
              | _ => None
              end
          | _ => None
          end
      | _ => None
      end
  end.
Definition parse (l : list byte) : option value :=
  match parse_value (S (length l)) l with Some (j, []) => Some j | _ => None end.

#[export] Instance library : JsonLibrary := {|
  json := value; json_null := Null; json_string := Str; json_parse := parse;
  json_dump j := (dump_value j, true);
  json_is_object := is_object; json_as_string := as_string; json_find := find; json_set := set
|}.

Lemma lookup_set_member k k' v l :
  lookup_member k' (set_member k v l) = if bool_decide (k' = k) then Some v else lookup_member k' l.
Proof.
  induction l as [|[k0 v0] l IH]; cbn; [done|]. destruct (decide (k = k0)) as [->|Hne].
  - rewrite (bool_decide_true (k0 = k0)) by done. cbn. by case_bool_decide.
  - rewrite (bool_decide_false (k = k0)) by done. cbn. rewrite IH. repeat case_bool_decide; congruence.
Qed.

#[export] Instance laws : JsonLaws.
Proof.
  split; cbn; unfold find, set.
  - intros k [| |l]; done.
  - done.
  - intros k v [| |l] [|]; done.
  - intros k k' v [| |l] [|]; try done. apply lookup_set_member.
  - done.
  - intros s [| |l]; done.
Qed.

(** A session that records what is sent and emitted. *)
Definition trace : Type := list json * list (string * string).
#[export] Instance trace_effects : SessionEffects trace := {|
  fx_send_packet j := fun s => (Ok 1, (s.1 ++ [j], s.2));
  fx_emit_message i m := fun s => (Ok tt, (s.1, s.2 ++ [(i, m)]))
|}.

Definition me : string := "00000000-0000-4000-8000-000000000001".
Definition hello_text : list byte := text_of (fst (json_dump (hello_json me))).
Definition message_text : list byte := text_of (fst (json_dump (message_json me "hi"))).
Definition some_peer : AuthorizedPeer := mkAuthorizedPeer [] [] "peer" 1 [].

Lemma bounded_dump_exact_witness :
  (0 <= 4096 < 2 ^ 64) /\ bounded_dump 4096 (hello_json me) = Ok hello_text.
Proof.
  split; [lia|]. pose proof (bounded_dump_exact 4096 (hello_json me) ltac:(lia)) as H.
  unfold hello_text. exact H.
Defined.

Lemma packet_roundtrip_witness : parse_packet message_text = Ok (message_packet me "hi").
Proof.
  apply (packet_roundtrip (message_packet me "hi")).
  - intros ws [= <-]. vm_compute. reflexivity.
  - vm_compute. reflexivity.
  - cbn. discriminate.
Defined.

Lemma own_packets_understood_witness :
  hello_handle (hello_packet me) = HelloContinue /\
  route me (message_packet me "hi") (Some some_peer) ([], []) = (Ok Continue, ([], [("peer", "hi")])).
Proof.
  destruct (own_packets_understood me me "hi" hello_text message_text some_peer) as (_ & Hh & _ & _ & Hr);
    [discriminate|vm_compute; reflexivity|vm_compute; reflexivity|].
  split; [exact Hh|exact (Hr ([], []))].
Defined.
End SmallJson.
