(* ===== verification/Connection.v ===== *)
(** * Connections ([core/networking/connection.cpp])

    The world the session code runs in -- connections by session id, the
    connection manager, the device registry, the session authentication, the event
    bus, the trust store and the clock -- and the operations of [Connection] on it,
    with [send_packet.cpp], [client_handler.cpp] and [services/message_service.cpp].
    Each operation is the code run without interruption; [Network.v] interleaves
    the threads.

    Sockets are what the kernel makes of them: the outcome of every [send], [poll]
    and [recv] is an input.  Time is a number of clock ticks; a clock reading is
    constant within an operation. *)

From S2P Require Import Prelude V2Framing Uuid TrustTables TrustStore TrustContract SessionAuth EventBus Registry Packet.

Inductive Role : Type := Incoming | Outgoing.
#[export] Instance Role_eq_dec : EqDecision Role.
Proof. solve_decision. Defined.

Definition MAX_CONTROL_RECORD_SIZE : Z := 4096.
(** Ticks are milliseconds. *)
Definition HANDSHAKE_TIMEOUT : Z := 10000.

(** How far [finalize_disconnect] got in its guarded part: not entered
    ([cleaned_up_] is false), after the live authorization, the registry entry, and
    the manager entry with the socket. *)
Inductive Cleanup : Type := NotCleaned | LiveRemoved | RegistryRemoved | Closed.
#[export] Instance Cleanup_eq_dec : EqDecision Cleanup.
Proof. solve_decision. Defined.

(** How far [activate_authorized_peer] got while it holds the write and the
    lifecycle mutex. *)
Inductive Critical : Type :=
| CurrentChecked (a : AuthorizedPeer) (device : Device)
| LiveRegistered (a : AuthorizedPeer) (device : Device)
| Published (a : AuthorizedPeer) (replaced : option Device).

Record Connection : Type := mkConnection {
  c_socket_fd : Z;
  c_role : Role;
  c_handshake_deadline : Z;
  c_started : bool;
  c_stopping : bool;
  c_cleanup : Cleanup;
  c_ready : bool;
  c_peer_preface_received : bool;
  c_local_preface_sent : bool;
  c_peer_hello_received : bool;
  c_authorized_peer : option AuthorizedPeer;
  c_record_parser : RecordParser;
  c_critical : option Critical;
  c_sent : list byte           (** bytes the kernel took, in order *)
}.

Definition c_cleaned_up (c : Connection) : bool := negb (bool_decide (c_cleanup c = NotCleaned)).

(** Field assignments. *)
Definition set_started b c := mkConnection (c_socket_fd c) (c_role c) (c_handshake_deadline c) b (c_stopping c)
  (c_cleanup c) (c_ready c) (c_peer_preface_received c) (c_local_preface_sent c) (c_peer_hello_received c)
  (c_authorized_peer c) (c_record_parser c) (c_critical c) (c_sent c).
Definition set_stopping b c := mkConnection (c_socket_fd c) (c_role c) (c_handshake_deadline c) (c_started c) b
  (c_cleanup c) (c_ready c) (c_peer_preface_received c) (c_local_preface_sent c) (c_peer_hello_received c)
  (c_authorized_peer c) (c_record_parser c) (c_critical c) (c_sent c).
Definition set_cleanup x c := mkConnection (c_socket_fd c) (c_role c) (c_handshake_deadline c) (c_started c) (c_stopping c)
  x (c_ready c) (c_peer_preface_received c) (c_local_preface_sent c) (c_peer_hello_received c)
  (c_authorized_peer c) (c_record_parser c) (c_critical c) (c_sent c).
Definition set_ready a c := mkConnection (c_socket_fd c) (c_role c) (c_handshake_deadline c) (c_started c) (c_stopping c)
  (c_cleanup c) true (c_peer_preface_received c) (c_local_preface_sent c) (c_peer_hello_received c)
  (Some a) (c_record_parser c) None (c_sent c).
Definition set_peer_preface b c := mkConnection (c_socket_fd c) (c_role c) (c_handshake_deadline c) (c_started c) (c_stopping c)
  (c_cleanup c) (c_ready c) b (c_local_preface_sent c) (c_peer_hello_received c)
  (c_authorized_peer c) (c_record_parser c) (c_critical c) (c_sent c).
Definition set_local_preface b c := mkConnection (c_socket_fd c) (c_role c) (c_handshake_deadline c) (c_started c) (c_stopping c)
  (c_cleanup c) (c_ready c) (c_peer_preface_received c) b (c_peer_hello_received c)
  (c_authorized_peer c) (c_record_parser c) (c_critical c) (c_sent c).
Definition set_peer_hello b c := mkConnection (c_socket_fd c) (c_role c) (c_handshake_deadline c) (c_started c) (c_stopping c)
  (c_cleanup c) (c_ready c) (c_peer_preface_received c) (c_local_preface_sent c) b
  (c_authorized_peer c) (c_record_parser c) (c_critical c) (c_sent c).
Definition set_record_parser p c := mkConnection (c_socket_fd c) (c_role c) (c_handshake_deadline c) (c_started c) (c_stopping c)
  (c_cleanup c) (c_ready c) (c_peer_preface_received c) (c_local_preface_sent c) (c_peer_hello_received c)
  (c_authorized_peer c) p (c_critical c) (c_sent c).
Definition set_critical x c := mkConnection (c_socket_fd c) (c_role c) (c_handshake_deadline c) (c_started c) (c_stopping c)
  (c_cleanup c) (c_ready c) (c_peer_preface_received c) (c_local_preface_sent c) (c_peer_hello_received c)
  (c_authorized_peer c) (c_record_parser c) x (c_sent c).
Definition add_sent bs c := mkConnection (c_socket_fd c) (c_role c) (c_handshake_deadline c) (c_started c) (c_stopping c)
  (c_cleanup c) (c_ready c) (c_peer_preface_received c) (c_local_preface_sent c) (c_peer_hello_received c)
  (c_authorized_peer c) (c_record_parser c) (c_critical c) (c_sent c ++ bs).

Definition is_outgoing (c : Connection) : bool := bool_decide (c_role c = Outgoing).

(** What the iterations of the loop of [send_all] meet, in order: a full or
    partial send, an interrupted call, a full socket buffer with the outcome of
    the [poll], an error (or a zero), or a stop or a passed deadline at the loop
    head.  Time passes, so a call that meets nothing else meets its deadline. *)
Inductive SendEvent : Type :=
| Sent (count : positive)
| Interrupted
| WouldBlock (writable : bool)
| SendFailed
| StopOrDeadline.

Section world.
Context {TQ : TrustQueries} {JL : JsonLibrary}.

Record World : Type := mkWorld {
  w_connections : gmap Z Connection;
  w_next_session_id : Z;
  w_manager : connections;
  w_registry : list Device;
  w_auth : Auth;
  w_events : list MessageEvent;
  w_store : trust_store;
  w_clock : Z;
  w_sends : list SendEvent     (** outcomes of the coming [send] calls *)
}.

Definition set_connections x w := mkWorld x (w_next_session_id w) (w_manager w) (w_registry w) (w_auth w) (w_events w)
  (w_store w) (w_clock w) (w_sends w).
Definition set_manager x w := mkWorld (w_connections w) (w_next_session_id w) x (w_registry w) (w_auth w) (w_events w)
  (w_store w) (w_clock w) (w_sends w).
Definition set_registry x w := mkWorld (w_connections w) (w_next_session_id w) (w_manager w) x (w_auth w) (w_events w)
  (w_store w) (w_clock w) (w_sends w).
Definition set_auth x w := mkWorld (w_connections w) (w_next_session_id w) (w_manager w) (w_registry w) x (w_events w)
  (w_store w) (w_clock w) (w_sends w).
Definition set_events x w := mkWorld (w_connections w) (w_next_session_id w) (w_manager w) (w_registry w) (w_auth w) x
  (w_store w) (w_clock w) (w_sends w).
Definition set_store x w := mkWorld (w_connections w) (w_next_session_id w) (w_manager w) (w_registry w) (w_auth w)
  (w_events w) x (w_clock w) (w_sends w).
Definition set_clock x w := mkWorld (w_connections w) (w_next_session_id w) (w_manager w) (w_registry w) (w_auth w)
  (w_events w) (w_store w) x (w_sends w).
Definition set_sends x w := mkWorld (w_connections w) (w_next_session_id w) (w_manager w) (w_registry w) (w_auth w)
  (w_events w) (w_store w) (w_clock w) x.

(** An operation of the session code. *)
Abbreviation action := (stx World Exn).

Definition initial_parser : RecordParser :=
  mkRecordParser MAX_RECORD_SIZE Preface 0 [x00; x00] 0 0 [] false false.
Definition new_connection (fd : Z) (role : Role) (deadline : Z) : Connection :=
  mkConnection fd role deadline false false NotCleaned false false false false None initial_parser None [].

(** The connection of a session whose object exists; the default is never used. *)
Definition conn (sid : Z) (w : World) : Connection :=
  default (new_connection 0 Incoming 0) (w_connections w !! sid).
Definition update (sid : Z) (f : Connection -> Connection) (w : World) : World :=
  set_connections (alter f sid (w_connections w)) w.

(** [weak_ptr::lock] and [is_stopping].  The object lives at least until its socket
    is closed; one that somebody still holds afterwards is stopping, and every use
    of the reference treats it as a released one. *)
Definition alive (w : World) (sid : Z) : option bool :=
  match w_connections w !! sid with
  | Some c => if bool_decide (c_cleanup c = Closed) then None else Some (c_stopping c)
  | None => None
  end.

Section session.
Variable my_device_id : string.

(** ** Creation *)

(** [Connection::create]: the constructor takes the next session id, the manager
    records it.  The caller's null authentication is excluded by its types. *)
Definition create (fd : Z) (role : Role) (w : World) : Z * World :=
  let sid := w_next_session_id w in
  let c := new_connection fd role (w_clock w + HANDSHAKE_TIMEOUT) in
  (sid, mkWorld (<[sid := c]> (w_connections w)) (u64_succ sid) (register_connection sid (w_manager w))
          (w_registry w) (w_auth w) (w_events w) (w_store w) (w_clock w) (w_sends w)).

(** ** Stopping *)

Definition request_disconnect (sid : Z) : action unit := modify (update sid (set_stopping true)).

(** ** Sending *)

(** The loop of [send_all]: the bytes taken and whether all were, with the
    remaining outcomes. *)
Fixpoint send_loop (data : list byte) (io : list SendEvent) : list byte * bool * list SendEvent :=
  match data with
  | [] => ([], true, io)
  | _ :: _ =>
      match io with
      | [] => ([], false, [])
      | Sent count :: io' =>
          let n := Pos.to_nat count in
          let '(sent, ok, rest) := send_loop (drop n data) io' in (take n data ++ sent, ok, rest)
      | Interrupted :: io' => send_loop data io'
      | WouldBlock true :: io' => send_loop data io'
      | WouldBlock false :: io' => ([], false, io')
      | SendFailed :: io' => ([], false, io')
      | StopOrDeadline :: io' => ([], false, io')
      end
  end.

(** The first test of the loop is made on the state; later ones are outcomes. *)
Definition send_all (sid : Z) (data : list byte) : action Z :=
  fun w =>
    let c := conn sid w in
    let expired := negb (c_ready c) && (c_handshake_deadline c <=? w_clock w) in
    if (c_stopping c || expired) && negb (bool_decide (data = [])) then (Ok (-1), w)
    else
      let '(sent, ok, rest) := send_loop data (w_sends w) in
      (Ok (if ok then zlen data else -1), set_sends rest (update sid (add_sent sent) w)).

(** [packet.value(key, default)], for a text. *)
Definition json_value (key : string) (packet : json) : action unit :=
  if negb (json_is_object packet) then throw JsonTypeError
  else match json_find key packet with
       | None => ret tt
       | Some v => match json_as_string v with Some _ => ret tt | None => throw JsonTypeError end
       end.

Definition send_packet_locked (sid : Z) (packet : json) : action Z :=
  let limit := if is_control_json packet then MAX_CONTROL_RECORD_SIZE else MAX_RECORD_SIZE in
  match bounded_dump limit packet with
  | Throw LengthError => ret (-1)
  | Throw e => throw e
  | Ok data =>
      match encode_record data with
      | None => throw LengthError
      | Some wire_record =>
          json_value "type" packet;;;
          let! result := send_all sid wire_record in
          (if result <? 0 then request_disconnect sid else ret tt);;;
          ret result
      end
  end.

Definition send_packet (sid : Z) (packet : json) : action Z :=
  let! c := gets (conn sid) in
  if c_stopping c || negb (c_ready c) then ret (-1)
  else match c_authorized_peer c with
       | None => ret (-1)
       | Some a =>
           if is_control_json packet then send_packet_locked sid packet
           else
             let! s := gets w_store in
             if authorization_is_current s a then send_packet_locked sid packet
             else request_disconnect sid;;; ret (-1)
       end.

Definition send_preface (sid : Z) : action Z :=
  let! c := gets (conn sid) in
  if c_stopping c then ret (-1)
  else if c_local_preface_sent c then ret 0
  else
    let! result := send_all sid preface_bytes in
    if result <? 0 then request_disconnect sid;;; ret (-1)
    else modify (update sid (set_local_preface true));;; ret result.

Definition send_initial_hello (sid : Z) : action Z :=
  let! c := gets (conn sid) in
  if c_stopping c || negb (c_local_preface_sent c) then ret (-1)
  else send_packet_locked sid (hello_json my_device_id).

Definition accept_peer_preface (sid : Z) : action bool :=
  let! c := gets (conn sid) in
  (if c_peer_preface_received c then ret tt
   else
     modify (update sid (set_peer_preface true));;;
     let! result := send_initial_hello sid in
     if result <? 0 then request_disconnect sid else ret tt);;;
  gets (fun w => negb (c_stopping (conn sid w))).

(** ** Receiving *)

(** What handlers do to this session. *)
#[local] Instance connection_effects (sid : Z) : SessionEffects World := {|
  fx_send_packet j := send_packet sid j;
  fx_emit_message i m := modify (fun w => set_events (emit_message i m (w_events w)) w)
|}.
Definition route_packet (sid : Z) (pkt : Packet) (peer : option AuthorizedPeer) : action PacketRouteAction :=
  route (FX := connection_effects sid) my_device_id pkt peer.

Definition is_disconnect (a : PacketRouteAction) : bool := match a with Disconnect => true | _ => false end.

(** Disconnect and return false. *)
Definition reject (sid : Z) : action bool := request_disconnect sid;;; ret false.
Definition still_running (sid : Z) : action bool := gets (fun w => negb (c_stopping (conn sid w))).

(** The [try] block of [handle_record]. *)
Definition handle_packet (sid : Z) (payload : list byte) : action bool :=
  match parse_packet payload with
  | Throw e => throw e
  | Ok pkt =>
      if is_control_packet pkt && (MAX_CONTROL_RECORD_SIZE <? zlen payload) then reject sid
      else
        let! c := gets (conn sid) in
        if negb (c_ready c) then
          if negb (bool_decide (p_type pkt = "hello")) || c_peer_hello_received c then reject sid
          else
            let! action := route_packet sid pkt None in
            if is_disconnect action then reject sid
            else modify (update sid (set_peer_hello true));;; still_running sid
        else
          match c_authorized_peer c with
          | None => reject sid
          | Some a =>
              if bool_decide (p_type pkt = "hello") then reject sid
              else
                let! s := gets w_store in
                if negb (is_control_packet pkt) && negb (authorization_is_current s a) then reject sid
                else
                  let! action := route_packet sid pkt (Some a) in
                  if is_disconnect action then reject sid else still_running sid
          end
  end.

Definition try_catch {A} (m : action A) (handler : Exn -> action A) : action A :=
  fun w => match m w with (Throw e, w') => handler e w' | r => r end.

Definition handle_record (sid : Z) (payload : list byte) : action bool :=
  let! c := gets (conn sid) in
  let! now := gets w_clock in
  if c_stopping c then ret false
  else if negb (c_ready c) && (c_handshake_deadline c <=? now) then reject sid
  else if negb (c_ready c) && negb (c_peer_hello_received c) && (MAX_CONTROL_RECORD_SIZE <? zlen payload) then reject sid
  else try_catch (handle_packet sid payload) (fun _ => reject sid).

(** The callback given to the record parser. *)
Definition on_record (sid : Z) (payload : list byte) : action bool :=
  let! accepted := accept_peer_preface sid in
  if accepted then handle_record sid payload else ret false.

(** What the [poll] and the [recv] of an iteration report. *)
Inductive RecvEvent : Type :=
| PollTimeout
| PollFailed
| RecvAgain
| RecvFailed
| RecvEof
| RecvBytes (bytes : list byte).

(** [record_parser_.consume] with the callback above, whose exceptions pass
    through; [None] never happens (the parser terminates on every input). *)
Definition consume_bytes (sid : Z) (bytes : list byte) : action (result (consume_error Exn) bool) :=
  fun w =>
    match consume (on_record sid) (c_record_parser (conn sid w)) bytes w with
    | Some (r, p', w') => (Ok r, update sid (set_record_parser p') w')
    | None => (Ok (Ok true), w)
    end.

(** One iteration of [receive_loop]; [false] when the loop ends.  A timeout can
    only be reported while the session is not ready. *)
Definition receive_iteration (sid : Z) (ev : RecvEvent) : action bool :=
  let! c := gets (conn sid) in
  if c_stopping c then ret false
  else match ev with
       | PollTimeout | PollFailed | RecvFailed => request_disconnect sid;;; ret false
       | RecvAgain => ret true
       | RecvEof =>
           modify (update sid (fun c => set_record_parser (snd (finish (c_record_parser c))) c));;;
           request_disconnect sid;;; ret false
       | RecvBytes bytes =>
           let! r := consume_bytes sid bytes in
           match r with
           | Ok _ =>
               let! c' := gets (conn sid) in
               (if preface_complete (c_record_parser c') && negb (c_stopping c')
                then accept_peer_preface sid;;; ret tt else ret tt);;;
               ret true
           | Throw (Framing _) => request_disconnect sid;;; ret true
           | Throw (HandlerThrew e) => throw e
           end
       end.

(** ** Authentication *)

(** [stopping_ || ready_ || Clock::now() >= handshake_deadline_]. *)
Definition activation_refused (c : Connection) (now : Z) : bool :=
  c_stopping c || c_ready c || (c_handshake_deadline c <=? now).

Definition authorize_verified_identity (sid : Z) (identity : VerifiedPeerIdentity) (w : World)
  : result TrustStoreError (option AuthorizedPeer) :=
  if activation_refused (conn sid w) (w_clock w) then Ok None
  else match authorize_verified_peer (w_store w) identity with
       | Throw e => Throw e
       | Ok None => Ok None
       | Ok (Some a) => if bool_decide (ap_device_id a = my_device_id) then Ok None else Ok (Some a)
       end.

(** [activate_authorized_peer] in the steps other threads can see between: both
    mutexes taken and the tests repeated, with the validation of
    [register_live_session]; its insertion; the publication; the commit. *)
Definition activate_enter (sid : Z) (a : AuthorizedPeer) (device_name device_type : string) : action bool :=
  let! c := gets (conn sid) in
  let! now := gets w_clock in
  let! s := gets w_store in
  if activation_refused c now then ret false
  else
    let device := candidate_device my_device_id (is_outgoing c) (c_socket_fd c) sid device_name device_type a in
    if register_live_check s a (Some sid)
    then modify (update sid (set_critical (Some (CurrentChecked a device))));;; ret true
    else ret false.

Definition activate_register (sid : Z) (a : AuthorizedPeer) (device : Device) : action bool :=
  let! au := gets w_auth in
  let '(registered, au') := register_live_insert sid a (Some sid) au in
  if registered
  then modify (fun w => update sid (set_critical (Some (LiveRegistered a device))) (set_auth au' w));;; ret true
  else modify (update sid (set_critical None));;; ret false.

Definition activate_publish (sid : Z) (a : AuthorizedPeer) (device : Device) : action bool :=
  let! w := gets id in
  let '(registration, devices) := publish_authenticated_device (alive w) device a (w_registry w) in
  if accepted registration
  then modify (fun w => update sid (set_critical (Some (Published a (replaced_device registration))))
                          (set_registry devices w));;; ret true
  else modify (fun w => update sid (set_critical None)
                          (set_auth (unregister_live_session sid (w_auth w)) w));;; ret false.

Definition activate_commit (sid : Z) (a : AuthorizedPeer) : action unit := modify (update sid (set_ready a)).

(** After the mutexes are released: the replaced owner is told to stop. *)
Definition disconnect_replaced (replaced : option Device) : action unit :=
  match replaced with
  | None => ret tt
  | Some d =>
      let! w := gets id in
      match lock_weak (alive w) (dev_connection d) with
      | Some (owner, _) => request_disconnect owner
      | None => ret tt
      end
  end.

(** The whole function, uninterrupted. *)
Definition activate_authorized_peer (sid : Z) (a : AuthorizedPeer) (device_name device_type : string) : action bool :=
  let! entered := activate_enter sid a device_name device_type in
  if negb entered then ret false
  else
    let! c := gets (conn sid) in
    let device := candidate_device my_device_id (is_outgoing c) (c_socket_fd c) sid device_name device_type a in
    let! registered := activate_register sid a device in
    if negb registered then ret false
    else
      let! published := activate_publish sid a device in
      if negb published then ret false
      else
        let! c' := gets (conn sid) in
        activate_commit sid a;;;
        match c_critical c' with
        | Some (Published _ replaced) => disconnect_replaced replaced
        | _ => ret tt
        end;;;
        ret true.

Definition complete_authentication_after_verified_identity (sid : Z) (identity : VerifiedPeerIdentity)
    (device_name device_type : string) (w : World) : result TrustStoreError (result Exn bool) * World :=
  match authorize_verified_identity sid identity w with
  | Throw e => (Throw e, w)
  | Ok None => (Ok (Ok false), w)
  | Ok (Some a) => let '(r, w') := activate_authorized_peer sid a device_name device_type w in (Ok r, w')
  end.

(** The same with a callback between the two parts, which stands for what other threads
    do there. *)
Definition complete_authentication_for_test (sid : Z) (identity : VerifiedPeerIdentity)
    (device_name device_type : string) (after_authorization : option (World -> World)) (w : World)
  : result TrustStoreError (result Exn bool) * World :=
  match authorize_verified_identity sid identity w with
  | Throw e => (Throw e, w)
  | Ok None => (Ok (Ok false), w)
  | Ok (Some a) =>
      let w1 := match after_authorization with Some callback => callback w | None => w end in
      let '(r, w') := activate_authorized_peer sid a device_name device_type w1 in (Ok r, w')
  end.

(** ** Cleanup *)

(** The guarded part of [finalize_disconnect], section by section. *)
Definition finalize_enter (sid : Z) : action unit :=
  let! c := gets (conn sid) in
  if c_cleaned_up c then ret tt
  else modify (fun w => update sid (set_cleanup LiveRemoved) (set_auth (unregister_live_session sid (w_auth w)) w)).
Definition finalize_registry (sid : Z) : action unit :=
  modify (fun w => update sid (set_cleanup RegistryRemoved) (set_registry (remove_device sid (w_registry w)) w)).
Definition finalize_close (sid : Z) : action unit :=
  modify (fun w => update sid (set_cleanup Closed) (set_manager (unregister_connection sid (w_manager w)) w)).

Definition finalize_disconnect (sid : Z) : action unit :=
  request_disconnect sid;;;
  let! c := gets (conn sid) in
  if c_cleaned_up c then ret tt
  else finalize_enter sid;;; finalize_registry sid;;; finalize_close sid.

(** ** The session's worker *)

(** The loop of [receive_loop] on the outcomes of its polls and reads, in order;
    true when it has ended, false when it waits for the next outcome. *)
Fixpoint receive_loop (sid : Z) (events : list RecvEvent) : action bool :=
  match events with
  | [] => gets (fun w => c_stopping (conn sid w))
  | ev :: rest =>
      let! continues := receive_iteration sid ev in
      if continues then receive_loop sid rest else ret true
  end.

Inductive StartOutcome : Type := AlreadyStarted | WorkerWaits | WorkerEnded.

(** [start], with its worker; [thread_created] is false when the creation of the
    thread throws. *)
Definition start (sid : Z) (thread_created : bool) (events : list RecvEvent) : action StartOutcome :=
  let! c := gets (conn sid) in
  if c_started c then ret AlreadyStarted
  else
    modify (update sid (set_started true));;;
    if thread_created then
      let! ended := try_catch (let! result := send_preface sid in
                               if 0 <=? result then receive_loop sid events else ret true)
                              (fun _ => ret true) in
      if ended then finalize_disconnect sid;;; ret WorkerEnded else ret WorkerWaits
    else finalize_disconnect sid;;; ret WorkerEnded.

(** [ClientHandler::handle]: an accepted socket becomes a session. *)
Definition client_handle (fd : Z) (thread_created : bool) (events : list RecvEvent) : action StartOutcome :=
  fun w => let '(sid, w1) := create fd Incoming w in start sid thread_created events w1.

(** ** Sending to devices ([send_packet.cpp], [message_service.cpp]) *)

(** [send_packet(connection, packet)], with the connection of a weak reference. *)
Definition send_packet_to (connection : option Z) (packet : json) : action Z :=
  match connection with None => ret (-1) | Some sid => send_packet sid packet end.

Fixpoint send_to_first (device_id : string) (packet : json) (devices : list Device) : action unit :=
  match devices with
  | [] => ret tt
  | device :: rest =>
      if negb (bool_decide (dev_id device = device_id)) then send_to_first device_id packet rest
      else
        let! w := gets id in
        match lock_weak (alive w) (dev_connection device) with
        | None => ret tt
        | Some (sid, _) =>
            if negb (bool_decide (dev_state device = READY)) then ret tt
            else send_packet_to (Some sid) packet;;; ret tt
        end
  end.

Definition send_to_device (device_id text : string) : action unit :=
  if bool_decide (text = EmptyString) then ret tt
  else let! devices := gets w_registry in send_to_first device_id (message_json my_device_id text) devices.

Fixpoint broadcast_loop (packet : json) (devices : list Device) : action unit :=
  match devices with
  | [] => ret tt
  | device :: rest =>
      let! w := gets id in
      match lock_weak (alive w) (dev_connection device) with
      | None => broadcast_loop packet rest
      | Some (sid, _) =>
          if negb (bool_decide (dev_state device = READY)) || bool_decide (dev_id device = my_device_id)
          then broadcast_loop packet rest
          else send_packet_to (Some sid) packet;;; broadcast_loop packet rest
      end
  end.

Definition broadcast_message (text : string) : action unit :=
  if bool_decide (text = EmptyString) then ret tt
  else let! devices := gets w_registry in broadcast_loop (message_json my_device_id text) devices.
End session.
End world.

(** ** What the input and output operations leave alone *)

(** The complete units a connection may have sent. *)
Inductive sent_unit : Type := UPreface | URecord (payload : list byte).
Definition unit_bytes (u : sent_unit) : list byte :=
  match u with UPreface => preface_bytes | URecord p => default [] (encode_record p) end.
Definition unit_ok (u : sent_unit) : Prop :=
  match u with UPreface => True | URecord p => is_Some (encode_record p) end.

(** The outgoing stream is a sequence of complete units; an incomplete one can only
    be the last, on a session that is stopping. *)
Definition outbound_ok (c : Connection) : Prop :=
  exists us tail, c_sent c = concat (unit_bytes <$> us) ++ tail /\ Forall unit_ok us /\
    (tail = [] \/ c_stopping c = true /\ exists u, unit_ok u /\ tail `prefix_of` unit_bytes u).

Lemma outbound_add_unit c u :
  outbound_ok c -> c_stopping c = false -> unit_ok u -> outbound_ok (add_sent (unit_bytes u) c).
Proof.
  intros (us & tail & Hs & Hus & [->|[Hst _]]) Hns Hu; [|congruence].
  exists (us ++ [u]), []. cbn. rewrite Hs, !app_nil_r, fmap_app, concat_app. cbn. rewrite app_nil_r.
  split_and!; [done| |by left]. apply Forall_app. by repeat constructor.
Qed.

Lemma outbound_add_partial c u bs :
  outbound_ok c -> c_stopping c = false -> unit_ok u -> bs `prefix_of` unit_bytes u ->
  outbound_ok (set_stopping true (add_sent bs c)).
Proof.
  intros (us & tail & Hs & Hus & [->|[Hst _]]) Hns Hu Hp; [|congruence].
  exists us, bs. cbn. rewrite Hs, app_nil_r. split_and!; [done|done|right; eauto].
Qed.

Lemma outbound_stop c : outbound_ok c -> outbound_ok (set_stopping true c).
Proof.
  intros (us & tail & Hs & Hus & Ht). exists us, tail. cbn. split_and!; [done|done|].
  destruct Ht as [?|[_ ?]]; auto.
Qed.

(** How input and output change a connection. *)
Record io_evolve (c c' : Connection) : Prop := {
  ev_fd : c_socket_fd c' = c_socket_fd c;
  ev_role : c_role c' = c_role c;
  ev_deadline : c_handshake_deadline c' = c_handshake_deadline c;
  ev_cleanup : c_cleanup c' = c_cleanup c;
  ev_ready : c_ready c' = c_ready c;
  ev_authorized : c_authorized_peer c' = c_authorized_peer c;
  ev_critical : c_critical c' = c_critical c;
  ev_stopping : c_stopping c = true -> c_stopping c' = true;
  ev_outbound : outbound_ok c -> outbound_ok c'
}.
#[export] Instance io_evolve_preorder : PreOrder io_evolve.
Proof. split; [by split|]. intros ??? [] []; split; try congruence; auto. Qed.

Section frames.
Context {TQ : TrustQueries} {JL : JsonLibrary}.

(** Only the connection [sid] changes, and only by input and output; the events,
    and the outcomes of coming sends, are free. *)
Record io_frame (sid : Z) (w w' : World) : Prop := {
  fr_next : w_next_session_id w' = w_next_session_id w;
  fr_manager : w_manager w' = w_manager w;
  fr_registry : w_registry w' = w_registry w;
  fr_auth : w_auth w' = w_auth w;
  fr_store : w_store w' = w_store w;
  fr_clock : w_clock w' = w_clock w;
  fr_others : forall j, j <> sid -> w_connections w' !! j = w_connections w !! j;
  fr_conn : option_Forall2 io_evolve (w_connections w !! sid) (w_connections w' !! sid)
}.
#[export] Instance io_frame_preorder sid : PreOrder (io_frame sid).
Proof.
  split.
  - intros w. by split.
  - intros w1 w2 w3 [] []. split; try congruence.
    + intros j Hj. rewrite fr_others1, fr_others0; done.
    + destruct fr_conn0 as [a b H1|]; inversion fr_conn1; subst; constructor. by etrans.
Qed.

Class IoOnly (sid : Z) {A} (m : stx World Exn A) : Prop := io_only w : io_frame sid w (snd (m w)).

#[export] Instance ret_io {A} sid (a : A) : IoOnly sid (ret a).
Proof. intros w. done. Qed.
#[export] Instance throw_io {A} sid e : IoOnly sid (throw (A:=A) e).
Proof. intros w. done. Qed.
#[export] Instance gets_io {A} sid (f : World -> A) : IoOnly sid (gets f).
Proof. intros w. done. Qed.
#[export] Instance bind_io {A B} sid (m : stx World Exn A) (k : A -> stx World Exn B) :
  IoOnly sid m -> (forall a, IoOnly sid (k a)) -> IoOnly sid (bind m k).
Proof.
  intros Hm Hk w. specialize (Hm w). unfold bind. destruct (m w) as [[a|e] w1]; [|done].
  etrans; [exact Hm|apply Hk].
Qed.
#[export] Instance try_catch_io {A} sid (m : stx World Exn A) h :
  IoOnly sid m -> (forall e, IoOnly sid (h e)) -> IoOnly sid (try_catch m h).
Proof.
  intros Hm Hh w. specialize (Hm w). unfold try_catch. destruct (m w) as [[a|e] w1]; [done|].
  etrans; [exact Hm|apply Hh].
Qed.

Lemma update_io sid f w :
  (forall c, w_connections w !! sid = Some c -> io_evolve c (f c)) -> io_frame sid w (update sid f w).
Proof.
  intros Hf. split; try done; cbn.
  - intros j Hj. by rewrite lookup_alter_ne.
  - rewrite lookup_alter_eq. destruct (w_connections w !! sid); constructor. by apply Hf.
Qed.

Lemma modify_io sid f : (forall c, io_evolve c (f c)) -> IoOnly sid (modify (update sid f)).
Proof. intros Hf w. apply update_io. auto. Qed.

Lemma set_sends_io sid rest w : io_frame sid w (set_sends rest w).
Proof. by split. Qed.

#[export] Instance request_disconnect_io sid : IoOnly sid (request_disconnect sid).
Proof. apply modify_io. intros c. split; try done. apply outbound_stop. Qed.

Lemma send_loop_spec data io sent ok rest :
  send_loop data io = (sent, ok, rest) -> sent `prefix_of` data /\ (ok = true -> sent = data).
Proof.
  revert data sent ok rest. induction io as [|ev io IH]; intros data sent ok rest; destruct data as [|b data].
  - by intros [= <- <- <-].
  - intros [= <- <- <-]. split; [apply prefix_nil|done].
  - by intros [= <- <- <-].
  - destruct ev as [n| |[|]| |]; cbn [send_loop]; try (apply IH);
      try (intros [= <- <- <-]; split; [apply prefix_nil|done]).
    destruct (send_loop (drop (Pos.to_nat n) (b :: data)) io) as [[sent' ok'] rest'] eqn:E.
    destruct (IH _ _ _ _ E) as [Hp Hall]. intros [= <- <- <-]. split.
    + rewrite <-(take_drop (Pos.to_nat n) (b :: data)) at 2. by apply prefix_app.
    + intros Hok. rewrite (Hall Hok). apply take_drop.
Qed.

Lemma send_loop_prefix data io sent ok rest :
  send_loop data io = (sent, ok, rest) -> sent `prefix_of` data.
Proof. intros H. by apply send_loop_spec in H as [? _]. Qed.

(** A unit is sent whole, or the session stops. *)
Definition send_or_stop (sid : Z) (data : list byte) : stx World Exn Z :=
  let! result := send_all sid data in
  (if result <? 0 then request_disconnect sid else ret tt);;; ret result.

Lemma conn_lookup sid w c : w_connections w !! sid = Some c -> conn sid w = c.
Proof. intros H. unfold conn. by rewrite H. Qed.

Lemma update_update sid f g w : update sid f (update sid g w) = update sid (f ∘ g) w.
Proof.
  unfold update, set_connections. cbn. f_equal. apply map_eq. intros j.
  destruct (decide (j = sid)) as [->|]; [rewrite !lookup_alter_eq|by rewrite !lookup_alter_ne].
  by destruct (_ !! _).
Qed.

Lemma send_unit_io sid u : unit_ok u -> unit_bytes u <> [] -> IoOnly sid (send_or_stop sid (unit_bytes u)).
Proof.
  intros Hu Hne w. unfold send_or_stop, send_all, bind. rewrite (bool_decide_false (unit_bytes u = [])) by done.
  rewrite andb_true_r.
  destruct (c_stopping (conn sid w) || _) eqn:Hs; [apply request_disconnect_io|].
  apply orb_false_elim in Hs as [Hs _].
  destruct (send_loop (unit_bytes u) (w_sends w)) as [[sent ok] rest] eqn:E.
  destruct ok.
  - rewrite (proj2 (send_loop_spec _ _ _ _ _ E) eq_refl).
    destruct (Z.ltb_spec (zlen (unit_bytes u)) 0); [lia|]. cbn.
    etrans; [|apply set_sends_io]. apply update_io. intros c Hc. rewrite (conn_lookup _ _ _ Hc) in Hs.
    split; try done. intros Ho. by apply outbound_add_unit.
  - change (io_frame sid w (set_sends rest (update sid (set_stopping true) (update sid (add_sent sent) w)))).
    etrans; [|apply set_sends_io].
    rewrite update_update. apply update_io. intros c Hc. rewrite (conn_lookup _ _ _ Hc) in Hs.
    split; try done. intros Ho. eapply outbound_add_partial; eauto using send_loop_prefix.
Qed.

Lemma json_value_io sid k j : IoOnly sid (json_value k j).
Proof. unfold json_value. destruct (json_is_object j); cbn; [|apply _]. repeat case_match; apply _. Qed.
#[local] Existing Instance json_value_io.

#[export] Instance send_packet_locked_io sid packet : IoOnly sid (send_packet_locked sid packet).
Proof.
  unfold send_packet_locked. destruct (bounded_dump _ packet) as [data|[]]; try apply _.
  destruct (encode_record data) as [wire|] eqn:E; [|apply _]. apply bind_io; [apply _|intros _].
  change (IoOnly sid (send_or_stop sid wire)).
  replace wire with (unit_bytes (URecord data)) by (cbn; by rewrite E).
  apply send_unit_io; [by eexists|]. cbn. rewrite E. cbn. unfold encode_record in E. case_match; [done|].
  by injection E as <-.
Qed.

#[export] Instance send_packet_io sid packet : IoOnly sid (send_packet sid packet).
Proof.
  unfold send_packet. apply bind_io; [apply _|]. intros c. repeat case_match; try apply _.
  apply bind_io; [apply _|]. intros s. case_match; apply _.
Qed.

#[export] Instance send_preface_io sid : IoOnly sid (send_preface sid).
Proof.
  intros w. unfold send_preface, bind at 1, gets. destruct (c_stopping (conn sid w)); [done|].
  destruct (c_local_preface_sent (conn sid w)); [done|].
  pose proof (send_unit_io sid UPreface I ltac:(done) w) as H. unfold send_or_stop in H. cbn [unit_bytes] in H.
  unfold bind in H |- *. destruct (send_all sid preface_bytes w) as [[r|e] w1]; [|done].
  destruct (r <? 0); cbn in *; [done|]. etrans; [exact H|]. apply update_io. intros c _. by split.
Qed.

#[export] Instance send_initial_hello_io my sid : IoOnly sid (send_initial_hello my sid).
Proof. unfold send_initial_hello. apply bind_io; [apply _|]. intros c. case_match; apply _. Qed.

#[export] Instance accept_peer_preface_io my sid : IoOnly sid (accept_peer_preface my sid).
Proof.
  unfold accept_peer_preface. apply bind_io; [apply _|]. intros c. apply bind_io; [|intros _; apply _].
  case_match; [apply _|]. apply bind_io; [apply modify_io; by split|intros _].
  apply bind_io; [apply _|]. intros r. case_match; apply _.
Qed.

#[export] Instance reject_io sid : IoOnly sid (reject sid).
Proof. unfold reject. apply _. Qed.
#[export] Instance still_running_io sid : IoOnly sid (still_running sid).
Proof. unfold still_running. apply _. Qed.

Lemma emit_io sid i m :
  IoOnly sid (modify (fun w => set_events (emit_message i m (w_events w)) w)).
Proof. intros w. by split. Qed.
#[local] Existing Instance emit_io.

#[export] Instance route_packet_io my sid pkt peer : IoOnly sid (route_packet my sid pkt peer).
Proof.
  unfold route_packet, route, ping_handle, message_handle.
  repeat case_match; cbn [fx_send_packet fx_emit_message connection_effects]; apply _.
Qed.

#[export] Instance handle_packet_io my sid payload : IoOnly sid (handle_packet my sid payload).
Proof.
  unfold handle_packet. destruct (parse_packet payload) as [pkt|]; [|apply _]. case_match; [apply _|].
  apply bind_io; [apply _|]. intros c. destruct (c_ready c); cbn [negb].
  - destruct (c_authorized_peer c); [|apply _]. case_match; [apply _|]. apply bind_io; [apply _|]. intros s.
    case_match; [apply _|]. apply bind_io; [apply _|]. intros act. case_match; apply _.
  - case_match; [apply _|]. apply bind_io; [apply _|]. intros act. case_match; [apply _|].
    apply bind_io; [apply modify_io; by split|intros _; apply _].
Qed.

#[export] Instance handle_record_io my sid payload : IoOnly sid (handle_record my sid payload).
Proof.
  unfold handle_record. apply bind_io; [apply _|]. intros c. apply bind_io; [apply _|]. intros now.
  repeat case_match; apply _.
Qed.

#[export] Instance on_record_io my sid payload : IoOnly sid (on_record my sid payload).
Proof. unfold on_record. apply bind_io; [apply _|]. intros []; apply _. Qed.

(** Feeding the parser changes the callback's state only through the callback. *)
Lemma consume_state {St Ex} (R : relation St) `{!PreOrder R} (handler : list byte -> stx St Ex bool) p input s r p' s' :
  (forall payload s0, R s0 (snd (handler payload s0))) ->
  consume handler p input s = Some (r, p', s') -> R s s'.
Proof.
  intros Hh. unfold consume. case_match eqn:Hf; [by intros [= <- <- <-]|]. clear Hf.
  generalize (length input). intros fuel. revert p input s. induction fuel as [|fuel IH]; intros p input s;
    destruct input as [|b input]; cbn [consume_loop]; try done; try (by intros [= <- <- <-]).
  assert (Hcall : forall payload p0 after rest s0,
            match call_handler handler payload p0 after rest s0 with
            | Next _ _ s1 | Return _ _ s1 | Raise _ _ s1 => R s0 s1 end).
  { intros payload p0 after rest s0. unfold call_handler. specialize (Hh payload s0).
    destruct (handler payload s0) as [[[]|] ?]; done. }
  assert (Hbody : match loop_body handler p (b :: input) s with
                  | Next _ _ s1 | Return _ _ s1 | Raise _ _ s1 => R s s1 end).
  { unfold loop_body. destruct (phase_ p).
    - unfold preface_iteration. by destruct (preface_loop _ _) as [|[]].
    - unfold header_iteration. destruct (header_loop _ _ _) as [[h k] rest]. cbv zeta.
      destruct (negb _); [done|].
      unfold header_complete. destruct (_ >? _); [done|]. destruct (_ =? 0); [apply Hcall|done].
    - unfold payload_iteration. cbv zeta. destruct (_ =? _); [apply Hcall|done]. }
  destruct (loop_body handler p (b :: input) s) as [p1 rest s1| |]; [|by intros [= <- <- <-]..].
  intros H%IH. by etrans.
Qed.

#[export] Instance consume_bytes_io my sid bytes : IoOnly sid (consume_bytes my sid bytes).
Proof.
  intros w. unfold consume_bytes. destruct (consume _ _ _ _) as [[[r p'] w']|] eqn:E; [|done].
  cbn. etrans; [eapply (consume_state (io_frame sid)); [|exact E]; intros; apply on_record_io|].
  apply update_io. intros c _. by split.
Qed.

#[export] Instance receive_iteration_io my sid ev : IoOnly sid (receive_iteration my sid ev).
Proof.
  unfold receive_iteration. apply bind_io; [apply _|]. intros c. case_match; [apply _|].
  destruct ev; try apply _.
  - apply bind_io; [apply modify_io; by split|intros _; apply _].
  - apply bind_io; [apply _|]. intros [b|[code|e]]; [|apply _..].
    apply bind_io; [apply _|]. intros c'. apply bind_io; [|intros; apply _]. case_match; apply _.
Qed.
End frames.

(** ** Gates *)

Section gates.
Context {TQ : TrustQueries} {JL : JsonLibrary} (my_device_id : string).

(** Operations that emit no event. *)
Class Silent {A} (m : stx World Exn A) : Prop := silent w : w_events (snd (m w)) = w_events w.
#[export] Instance ret_silent {A} (a : A) : Silent (ret a).
Proof. done. Qed.
#[export] Instance throw_silent {A} e : Silent (throw (A:=A) e).
Proof. done. Qed.
#[export] Instance gets_silent {A} (f : World -> A) : Silent (gets f).
Proof. done. Qed.
#[export] Instance update_silent sid f : Silent (modify (update sid f)).
Proof. done. Qed.
#[export] Instance bind_silent {A B} (m : stx World Exn A) (k : A -> stx World Exn B) :
  Silent m -> (forall a, Silent (k a)) -> Silent (bind m k).
Proof.
  intros Hm Hk w. specialize (Hm w). unfold bind. destruct (m w) as [[a|e] w1]; [|done].
  etrans; [apply Hk|exact Hm].
Qed.
#[export] Instance request_disconnect_silent sid : Silent (request_disconnect sid).
Proof. unfold request_disconnect. apply _. Qed.
#[export] Instance send_all_silent sid data : Silent (send_all sid data).
Proof. intros w. unfold send_all. case_match; [done|]. by destruct (send_loop _ _) as [[? ?] ?]. Qed.
#[export] Instance json_value_silent k j : Silent (json_value k j).
Proof. unfold json_value. repeat case_match; apply _. Qed.
#[export] Instance send_packet_locked_silent sid packet : Silent (send_packet_locked sid packet).
Proof.
  unfold send_packet_locked. destruct (bounded_dump _ packet) as [data|[]]; try apply _.
  destruct (encode_record data); [|apply _]. apply bind_silent; [apply _|intros _].
  apply bind_silent; [apply _|]. intros r. apply bind_silent; [|intros; apply _]. case_match; apply _.
Qed.
#[export] Instance send_packet_silent sid packet : Silent (send_packet sid packet).
Proof.
  unfold send_packet. apply bind_silent; [apply _|]. intros c. repeat case_match; try apply _.
  apply bind_silent; [apply _|]. intros s. case_match; apply _.
Qed.
#[export] Instance reject_silent sid : Silent (reject sid).
Proof. unfold reject. apply _. Qed.
#[export] Instance still_running_silent sid : Silent (still_running sid).
Proof. unfold still_running. apply _. Qed.

(** Routing emits at most one event, and only for a message of an authenticated
    peer, under that peer's device id. *)
Lemma route_events sid pkt peer w :
  let w' := snd (route_packet my_device_id sid pkt peer w) in
  w_events w' = w_events w \/
  exists a msg, peer = Some a /\ p_type pkt = "message" /\
    w_events w' = emit_message (ap_device_id a) msg (w_events w).
Proof.
  cbv zeta. unfold route_packet, route, ping_handle.
  destruct (bool_decide (p_type pkt = "hello")); [by left|].
  destruct (bool_decide (p_type pkt = "ping")).
  { left. cbn [fx_send_packet connection_effects]. apply silent. }
  destruct (bool_decide (p_type pkt = "pong")); [by left|].
  destruct (bool_decide (p_type pkt = "message")) eqn:Hm; [|by left]. bool_inv.
  destruct peer as [a|]; [|by left]. unfold message_handle.
  destruct (json_find "text" (p_payload pkt)) as [j|]; [|by left].
  destruct (json_as_string j) as [msg|]; [|by left]. right. by exists a, msg.
Qed.

Lemma bind_silent_events {A B} (m : stx World Exn A) (k : A -> stx World Exn B) w :
  (forall a, Silent (k a)) -> w_events (snd (bind m k w)) = w_events (snd (m w)).
Proof. intros Hk. unfold bind. destruct (m w) as [[a|e] w1]; [|done]. apply Hk. Qed.

Lemma message_not_control pkt : p_type pkt = "message" -> is_control_packet pkt = false.
Proof. intros H. unfold is_control_packet, is_control_type. rewrite H. by field_cases. Qed.

Lemma handle_packet_events sid payload w :
  let w' := snd (handle_packet my_device_id sid payload w) in
  w_events w' = w_events w \/
  exists a msg, c_ready (conn sid w) = true /\ c_authorized_peer (conn sid w) = Some a /\
    authorization_is_current (w_store w) a = true /\
    w_events w' = emit_message (ap_device_id a) msg (w_events w).
Proof.
  cbv zeta. unfold handle_packet. destruct (parse_packet payload) as [pkt|]; [|by left].
  destruct (is_control_packet pkt && _); [left; apply silent|].
  rewrite !bind_gets. destruct (c_ready (conn sid w)) eqn:Hr; cbn [negb].
  - destruct (c_authorized_peer (conn sid w)) as [a|]; [|left; apply silent].
    destruct (bool_decide (p_type pkt = "hello")); [left; apply silent|].
    rewrite !bind_gets.
    destruct (negb (is_control_packet pkt) && negb (authorization_is_current (w_store w) a)) eqn:Hc;
      [left; apply silent|].
    rewrite bind_silent_events by (intros act; case_match; apply _).
    destruct (route_events sid pkt (Some a) w) as [?|(a' & msg & [= <-] & Hm & He)]; [by left|].
    right. exists a, msg. split_and!; try done. rewrite (message_not_control _ Hm) in Hc. cbn in Hc.
    by apply negb_false_iff in Hc.
  - destruct (negb _ || _); [left; apply silent|].
    rewrite bind_silent_events by (intros act; case_match; apply _).
    destruct (route_events sid pkt None w) as [?|(a' & msg & [=] & _)]. by left.
Qed.

(** C13. Received application data passes the gate: handling a record emits at most
    one event; when it does, the session was READY, not stopping, and its
    authorization was current in the trust store at that moment, and the event
    carries the authorized device id, never one claimed by the packet. *)
Theorem receive_gate sid payload w :
  let w' := snd (handle_record my_device_id sid payload w) in
  w_events w' = w_events w \/
  exists a msg, c_ready (conn sid w) = true /\ c_stopping (conn sid w) = false /\
    c_authorized_peer (conn sid w) = Some a /\ authorization_is_current (w_store w) a = true /\
    w_events w' = emit_message (ap_device_id a) msg (w_events w).
Proof.
  cbv zeta. unfold handle_record. rewrite !bind_gets.
  destruct (c_stopping (conn sid w)) eqn:Hs; [by left|].
  destruct (negb _ && _); [left; apply silent|]. destruct (negb _ && _ && _); [left; apply silent|].
  unfold try_catch. pose proof (handle_packet_events sid payload w) as H. cbv zeta in H.
  destruct (handle_packet my_device_id sid payload w) as [[b|e] w1]; cbn [snd] in *.
  - destruct H as [?|(a & msg & ? & ? & ? & ?)]; [by left|]. right. by exists a, msg.
  - rewrite (silent (m:=reject sid)).
    destruct H as [?|(a & msg & ? & ? & ? & ?)]; [by left|]. right. by exists a, msg.
Qed.

Lemma lookup_update sid f w c :
  w_connections w !! sid = Some c -> w_connections (update sid f w) !! sid = Some (f c).
Proof. intros H. cbn. by rewrite lookup_alter_eq, H. Qed.
Lemma conn_update sid f w c :
  w_connections w !! sid = Some c -> conn sid (update sid f w) = f c.
Proof. intros H. by apply conn_lookup, lookup_update. Qed.

(** What [send_or_stop] does to the stream: all of the data, or a part of it and
    the session stops. *)
Lemma send_or_stop_spec sid data w c r w' :
  w_connections w !! sid = Some c -> data <> [] ->
  send_or_stop sid data w = (r, w') ->
  (r = Ok (zlen data) /\ c_stopping c = false /\ w_connections w' !! sid = Some (add_sent data c)) \/
  (r = Ok (-1) /\ exists sent, sent `prefix_of` data /\ w_connections w' !! sid = Some (set_stopping true (add_sent sent c))).
Proof.
  intros Hc Hne. unfold send_or_stop, bind, send_all. rewrite (conn_lookup _ _ _ Hc).
  rewrite (bool_decide_false (data = [])) by done. rewrite andb_true_r.
  destruct (c_stopping c || _) eqn:Hs.
  - intros [= <- <-]. right. split; [done|]. exists []. split; [apply prefix_nil|]. cbn. rewrite lookup_alter_eq, Hc. cbn.
    unfold add_sent, set_stopping. cbn. by rewrite app_nil_r.
  - apply orb_false_elim in Hs as [Hs _].
    destruct (send_loop data (w_sends w)) as [[sent ok] rest] eqn:E. destruct ok.
    + rewrite (proj2 (send_loop_spec _ _ _ _ _ E) eq_refl). destruct (Z.ltb_spec (zlen data) 0); [lia|].
      intros [= <- <-]. left. split_and!; [done|done|]. cbn. by rewrite lookup_alter_eq, Hc.
    + intros [= <- <-]. right. split; [done|]. exists sent. split; [by eapply send_loop_prefix|].
      cbn. by rewrite !lookup_alter_eq, Hc.
Qed.

(** The record [send_packet_locked] would put on the wire. *)
Definition wire_record (packet : json) : option (list byte) :=
  match bounded_dump (if is_control_json packet then MAX_CONTROL_RECORD_SIZE else MAX_RECORD_SIZE) packet with
  | Ok data => encode_record data
  | Throw _ => None
  end.

Lemma encode_record_not_nil p wire : encode_record p = Some wire -> wire <> [].
Proof. unfold encode_record. case_match; [done|]. by intros [= <-]. Qed.

Lemma json_value_world k j w : snd (json_value k j w) = w.
Proof. unfold json_value. repeat case_match; done. Qed.

(** What an attempt to send leaves behind: exactly the packet's record when the
    result says so; otherwise an unchanged session, or one that stops, after at most a part of the
    record. *)
Definition sent_outcome (packet : json) (c : Connection) (r : result Exn Z) (c' : Connection) : Prop :=
  match r with
  | Ok n => if 0 <=? n then exists wire, wire_record packet = Some wire /\ n = zlen wire /\ c' = add_sent wire c
            else c' = c \/ c' = set_stopping true c \/
                 exists wire sent, wire_record packet = Some wire /\ sent `prefix_of` wire /\
                   c' = set_stopping true (add_sent sent c)
  | Throw _ => c' = c
  end.

Lemma send_packet_locked_outcome sid packet w c r w' :
  w_connections w !! sid = Some c -> send_packet_locked sid packet w = (r, w') ->
  exists c', w_connections w' !! sid = Some c' /\ sent_outcome packet c r c'.
Proof.
  intros Hc. unfold send_packet_locked.
  destruct (bounded_dump _ packet) as [data|[]] eqn:Hd; try (intros [= <- <-]; exists c; cbn; auto).
  destruct (encode_record data) as [wire|] eqn:E; [|intros [= <- <-]; by exists c].
  intros H. unfold bind at 1 in H. pose proof (json_value_world "type" packet w) as Hw.
  destruct (json_value "type" packet w) as [[[]|e] w1]; cbn in Hw; subst w1.
  - apply (send_or_stop_spec sid wire w c r w' Hc (encode_record_not_nil _ _ E)) in H
      as [(-> & _ & H)|(-> & sent & Hp & H)]; eexists; (split; [exact H|]); cbn.
    + destruct (Z.leb_spec 0 (zlen wire)); [|lia]. exists wire. unfold wire_record. by rewrite Hd.
    + right. right. exists wire, sent. unfold wire_record. by rewrite Hd.
  - injection H as <- <-. by exists c.
Qed.

(** C14. Sent application data passes the gate: [send_packet] puts nothing on the
    wire unless the session is READY, not stopping and authorized, and, for
    application packets, its authorization is current in the trust store at that
    moment; a stale authorization stops the session instead.  A non-negative
    result means that exactly the packet's record was sent; any other means that
    the connection is unchanged, or stopping after at most a part of the record. *)
Theorem send_gate sid packet w c r w' :
  w_connections w !! sid = Some c -> send_packet sid packet w = (r, w') ->
  exists c', w_connections w' !! sid = Some c' /\ sent_outcome packet c r c' /\
    (c_sent c' <> c_sent c ->
       c_ready c = true /\ c_stopping c = false /\
       exists a, c_authorized_peer c = Some a /\
         (is_control_json packet = true \/ authorization_is_current (w_store w) a = true)) /\
    (c_ready c = true -> c_stopping c = false ->
       forall a, c_authorized_peer c = Some a -> is_control_json packet = false ->
       authorization_is_current (w_store w) a = false -> r = Ok (-1) /\ c' = set_stopping true c).
Proof.
  intros Hc. unfold send_packet. rewrite bind_gets, (conn_lookup _ _ _ Hc).
  destruct (c_stopping c || negb (c_ready c)) eqn:Hg.
  { intros [= <- <-]. exists c. split_and!; [done|by left|done|].
    intros Hr Hs. by rewrite Hr, Hs in Hg. }
  apply orb_false_elim in Hg as [Hs Hr%negb_false_iff].
  destruct (c_authorized_peer c) as [a|] eqn:Ha.
  2: { intros [= <- <-]. exists c. split_and!; [done|by left|done|done]. }
  destruct (is_control_json packet) eqn:Hctl.
  - intros (c' & Hc' & Ho)%(send_packet_locked_outcome _ _ _ _ _ _ Hc). exists c'. split_and!; try done.
    intros _. split_and!; try done. exists a. auto.
  - rewrite bind_gets. destruct (authorization_is_current (w_store w) a) eqn:Hcur.
    + intros (c' & Hc' & Ho)%(send_packet_locked_outcome _ _ _ _ _ _ Hc). exists c'. split_and!; try done.
      * intros _. split_and!; try done. exists a. auto.
      * intros _ _ a' [= <-]. congruence.
    + intros [= <- <-]. exists (set_stopping true c). split_and!; [by apply lookup_update|by right; left|done|].
      intros. done.
Qed.

(** A record a session accepts before authentication. *)
Definition acceptable_hello (c : Connection) (now : Z) (payload : list byte) : Prop :=
  exists pkt, parse_packet payload = Ok pkt /\ hello_handle pkt = HelloContinue /\
    c_peer_hello_received c = false /\ zlen payload <= MAX_CONTROL_RECORD_SIZE /\ now < c_handshake_deadline c.

(** Before authentication a peer can do nothing but say hello once: the first
    well-formed hello of at most 4096 bytes, before the handshake deadline, is
    noted and has no other effect; every other record ends the session and has no
    other effect. *)
Theorem setup_gate sid payload w c :
  w_connections w !! sid = Some c -> c_ready c = false -> c_stopping c = false ->
  (acceptable_hello c (w_clock w) payload /\
   handle_record my_device_id sid payload w = (Ok true, update sid (set_peer_hello true) w)) \/
  (~ acceptable_hello c (w_clock w) payload /\
   handle_record my_device_id sid payload w = (Ok false, update sid (set_stopping true) w)).
Proof.
  intros Hc Hr Hs. unfold handle_record. rewrite !bind_gets, (conn_lookup _ _ _ Hc), Hr, Hs. cbn [negb andb].
  assert (Hrej : forall e, try_catch (throw e) (fun _ => reject sid) w = (Ok false, update sid (set_stopping true) w))
    by done.
  destruct (Z.leb_spec (c_handshake_deadline c) (w_clock w)) as [Hd|Hd].
  { right. split; [|done]. intros (pkt & _ & _ & _ & _ & ?). lia. }
  destruct (c_peer_hello_received c) eqn:Hh; cbn [negb andb].
  - right. split; [intros (pkt & _ & _ & ? & _); congruence|].
    unfold try_catch, handle_packet. destruct (parse_packet payload) as [pkt|]; [|done].
    destruct (is_control_packet pkt && _); [done|]. rewrite bind_gets, (conn_lookup _ _ _ Hc), Hr, Hh. cbn [negb]. by rewrite orb_true_r.
  - destruct (Z.ltb_spec MAX_CONTROL_RECORD_SIZE (zlen payload)) as [Hl|Hl].
    { right. split; [|done]. intros (pkt & _ & _ & _ & ? & _). lia. }
    unfold try_catch, handle_packet. destruct (parse_packet payload) as [pkt|] eqn:Hp.
    2: { right. split; [|done]. intros (pkt & Hp2 & _). congruence. }
    destruct (Z.ltb_spec MAX_CONTROL_RECORD_SIZE (zlen payload)); [lia|]. rewrite andb_false_r.
    rewrite bind_gets, (conn_lookup _ _ _ Hc), Hr, Hh. cbn [negb]. rewrite orb_false_r.
    case_bool_decide as Ht; cbn [negb].
    2: { right. split; [|done]. intros (pkt' & Hp2 & Hhello & _). assert (pkt' = pkt) as -> by congruence. unfold hello_handle in Hhello.
         by rewrite bool_decide_false in Hhello. }
    unfold bind at 1, route_packet, route. rewrite (bool_decide_true (p_type pkt = "hello")) by done. cbn [ret].
    destruct (hello_handle pkt) eqn:Hhello.
    + left. split; [exists pkt; split_and!; done || lia|]. cbn. unfold still_running, gets.
      rewrite (conn_update _ _ _ _ Hc). cbn. by rewrite Hs.
    + right. split; [|done]. intros (pkt' & Hp2 & ? & _). congruence.
    + exfalso. unfold hello_handle in Hhello. repeat case_match; congruence.
Qed.
End gates.

(** ** A scenario: one READY session and one still being set up *)

Module ConnectionScenario.
Import Scenario AuthScenario SmallJson.

Definition my_id : string := "00000000-0000-4000-8000-000000000001".
Definition session1 : Connection := set_ready authorized1 (new_connection 5 Outgoing 10000).
Definition session2 : Connection := new_connection 6 Incoming 10000.
Definition world1 : World :=
  mkWorld {[1 := session1; 2 := session2]} 3 {[1 := 1; 2 := 2]} [] (mkAuth {[1 := live1]} false false) []
    store_ready 0 [Sent 20; Interrupted; WouldBlock true; Sent 1000].
Definition hi : json := message_json my_id "hi".
Definition world2 : World := snd (send_packet 1 hi world1).
Definition sent_bytes : list byte := default [] (wire_record hi).
(** The store after the peer was revoked, and a packet for it. *)
Definition revoked_store : trust_store := (env0, snd (revoke_device env0 peer1 1 1500 ready)).
Definition world3 : World := set_store revoked_store world1.

Strategy expand [world2].

Lemma send_gate_witness :
  (exists c' wire, w_connections world2 !! 1 = Some c' /\ wire_record hi = Some wire /\ c' = add_sent wire session1) /\
  (exists c', w_connections (snd (send_packet 1 hi world3)) !! 1 = Some c' /\ c' = set_stopping true session1).
Proof.
  split.
  - destruct (send_gate 1 hi world1 session1 (Ok (zlen sent_bytes)) world2) as (c' & Hc' & Ho & _).
    + vm_compute. reflexivity.
    + apply run_eta. vm_compute. reflexivity.
    + exists c'. destruct Ho as (wire & Hw & _ & He). exists wire. auto.
  - destruct (send_gate 1 hi world3 session1 (Ok (-1)) (snd (send_packet 1 hi world3))) as (c' & Hc' & _ & _ & Hst).
    + vm_compute. reflexivity.
    + apply run_eta. vm_compute. reflexivity.
    + exists c'. split; [exact Hc'|]. refine (proj2 (Hst _ _ authorized1 _ _ _)); vm_compute; reflexivity.
Defined.

Lemma setup_gate_witness :
  acceptable_hello session2 0 hello_text /\
  handle_record my_id 2 hello_text world1 = (Ok true, update 2 (set_peer_hello true) world1).
Proof.
  destruct (setup_gate my_id 2 hello_text world1 session2) as [H|[H _]].
  - vm_compute. reflexivity.
  - reflexivity.
  - reflexivity.
  - exact H.
  - destruct H. exists (hello_packet me).
    split_and!; [vm_cast_no_check (eq_refl (@Ok Exn _ (hello_packet me)))|vm_compute; reflexivity|reflexivity
                |vm_compute; discriminate|reflexivity].
Defined.
End ConnectionScenario.
