(* ===== verification/Timing.v ===== *)
(** * Deadlines ([core/networking/connection.cpp])

    The loops of a session that wait, with the clock running: [wait_for_socket],
    [send_all] and the loop of [receive_loop].  Elsewhere a clock reading is constant
    within an operation and the outcome of a wait is an input; here every call takes
    time, a [poll] returns when its event comes or its timeout is over, and the
    deadlines of the code decide how long a loop can last.

    Time is the number of nanoseconds of [std::chrono::steady_clock].  An environment
    gives, for each call in order, how long it takes and what it reports.  [None] is a
    call that has not returned: a loop out of fuel, or a [poll] without a timeout on a
    socket where nothing happens. *)

From S2P Require Import Prelude Connection.

(** ** Calls and their time *)

Definition millisecond : Z := 1000000.
Definition second : Z := 1000 * millisecond.
Definition INT_MAX : Z := 2 ^ 31 - 1.
(** [Clock::time_point::max()]. *)
Definition time_point_max : Z := 2 ^ 63 - 1.
Definition WRITE_TIMEOUT : Z := 10 * second.

Inductive errno : Type := EINTR | EAGAIN | OtherError.

Inductive PollEvent : Type := PollReady | PollError (e : errno).
Inductive SendReply : Type := SendTook (count : positive) | SendZero | SendError (e : errno).
Inductive RecvReply : Type := RecvTook (bytes : list byte) | RecvEnd | RecvError (e : errno).

(** What one call meets: the time it takes besides waiting, the time after which a
    [poll] has something to report (never for [None]), and the reports. *)
Record Reply : Type := mkReply {
  r_late : N;
  r_after : option N;
  r_poll : PollEvent;
  r_send : SendReply;
  r_recv : RecvReply
}.

(** The time, the number of calls made, whether the session stopped itself, and the
    timeouts given to [poll] so far, the last one first. *)
Record Machine : Type := mkMachine {
  m_now : Z;
  m_calls : nat;
  m_stopped : bool;
  m_polls : list Z
}.

Definition timed (A : Type) : Type := Machine -> option (A * Machine).
Definition tret {A} (a : A) : timed A := fun m => Some (a, m).
Definition tbind {A B} (x : timed A) (k : A -> timed B) : timed B :=
  fun m => match x m with Some (a, m') => k a m' | None => None end.
Notation "'let?' x ':=' c 'in' k" := (tbind c (fun x => k))
  (at level 10, x name, c at level 200, k at level 200) : gasoline_scope.

Lemma tbind_some {A B} (x : timed A) (k : A -> timed B) m b m' :
  tbind x k m = Some (b, m') <-> exists a m1, x m = Some (a, m1) /\ k a m1 = Some (b, m').
Proof.
  unfold tbind. destruct (x m) as [[a m1]|]; split; [eauto| |done|].
  - by intros (? & ? & [= <- <-] & ?).
  - by intros (? & ? & [=] & _).
Qed.

(** Time passes by [d] in a call. *)
Definition elapse (d : Z) (m : Machine) : Machine :=
  mkMachine (m_now m + d) (S (m_calls m)) (m_stopped m) (m_polls m).

Section timed.
Variable env : nat -> Reply.
(** Whether another thread has stopped the session, and whether the session is READY,
    at a time. *)
Variables stopping_at ready_at : Z -> bool.

Definition reply (m : Machine) : Reply := env (m_calls m).
Definition late (m : Machine) : Z := Z.of_N (r_late (reply m)).

Definition clock_now : timed Z := fun m => let m' := elapse (late m) m in Some (m_now m', m').

(** [stopping_.load()], and [request_disconnect] by this thread. *)
Definition stopping_load : timed bool := fun m => Some (m_stopped m || stopping_at (m_now m), m).
Definition stop_session : timed unit :=
  fun m => Some (tt, mkMachine (m_now m) (m_calls m) true (m_polls m)).
Definition ready_load : timed bool := fun m => Some (ready_at (m_now m), m).

(** [poll] with a timeout in milliseconds, negative for none: what happens first, the
    event or the timeout. *)
Definition poll (timeout : Z) : timed (option PollEvent) :=
  fun m =>
    let m1 := mkMachine (m_now m) (m_calls m) (m_stopped m) (timeout :: m_polls m) in
    let limit := timeout * millisecond in
    match Z.of_N <$> r_after (reply m) with
    | Some after =>
        if (timeout <? 0) || (after <? limit) then Some (Some (r_poll (reply m)), elapse (after + late m) m1)
        else Some (None, elapse (limit + late m) m1)
    | None => if timeout <? 0 then None else Some (None, elapse (limit + late m) m1)
    end.

Definition send_call : timed SendReply := fun m => Some (r_send (reply m), elapse (late m) m).
Definition recv_call : timed RecvReply := fun m => Some (r_recv (reply m), elapse (late m) m).

(** [std::chrono::ceil<std::chrono::milliseconds>]. *)
Definition ceil_ms (d : Z) : Z :=
  let t := Z.quot d millisecond in if t * millisecond <? d then t + 1 else t.

(** ** Waiting for the socket *)

(** The timeout for [poll], or [None] when the deadline has passed. *)
Definition poll_timeout (deadline : Z) : timed (option Z) :=
  if deadline =? time_point_max then tret (Some (-1))
  else let? now := clock_now in
       let remaining := deadline - now in
       tret (if remaining <=? 0 then None else Some (Z.min (ceil_ms remaining) INT_MAX)).

Fixpoint wait_for_socket (fuel : nat) (deadline : Z) : timed Z :=
  match fuel with
  | O => fun _ => None
  | S fuel =>
      let? timeout := poll_timeout deadline in
      match timeout with
      | None => tret 0
      | Some timeout =>
          let? result := poll timeout in
          match result with
          | Some PollReady => tret 1
          | Some (PollError EINTR) => wait_for_socket fuel deadline
          | Some (PollError _) => tret (-1)
          | None => tret 0
          end
      end
  end.

(** ** Sending *)

(** What an iteration of the loop of [send_all] does next. *)
Inductive send_step : Type :=
| SendDone (ev : SendEvent)
| SendMore (count : nat) (ev : SendEvent).

(** The body of the loop: [SendDone] returns -1. *)
Definition send_iteration (fuel : nat) (deadline : Z) : timed send_step :=
  let? stopping := stopping_load in
  if stopping then tret (SendDone StopOrDeadline)
  else
    let? now := clock_now in
    if deadline <=? now then tret (SendDone StopOrDeadline)
    else
      let? sent := send_call in
      match sent with
      | SendTook count => tret (SendMore (Pos.to_nat count) (Sent count))
      | SendZero => tret (SendDone SendFailed)
      | SendError EINTR => tret (SendMore 0 Interrupted)
      | SendError EAGAIN =>
          let? writable := wait_for_socket fuel deadline in
          tret (if 0 <? writable then SendMore 0 (WouldBlock true) else SendDone (WouldBlock false))
      | SendError OtherError => tret (SendDone SendFailed)
      end.

(** The loop on the bytes not yet sent: whether all were, and what was met. *)
Fixpoint timed_send_loop (fuel wait_fuel : nat) (deadline : Z) (data : list byte)
  : timed (bool * list SendEvent) :=
  match data with
  | [] => tret (true, [])
  | _ :: _ =>
      match fuel with
      | O => fun _ => None
      | S fuel =>
          let? step := send_iteration wait_fuel deadline in
          match step with
          | SendDone ev => tret (false, [ev])
          | SendMore n ev =>
              let? rest := timed_send_loop fuel wait_fuel deadline (drop n data) in
              tret (fst rest, ev :: snd rest)
          end
      end
  end.

Definition send_deadline (handshake_deadline : Z) : timed Z :=
  let? ready := ready_load in
  let? now := clock_now in
  tret (if ready then now + WRITE_TIMEOUT else Z.min (now + WRITE_TIMEOUT) handshake_deadline).

(** [send_all], with the number of bytes sent or -1 and the outcomes met. *)
Definition timed_send_all (fuel : nat) (handshake_deadline : Z) (data : list byte)
  : timed (Z * list SendEvent) :=
  let? deadline := send_deadline handshake_deadline in
  let? r := timed_send_loop fuel fuel deadline data in
  tret (if fst r then zlen data else -1, snd r).

(** ** Receiving *)

(** Why [receive_loop] ended. *)
Inductive receive_end : Type := HandshakeTimeout | ReceivePollFailed | ReceiveError | PeerClosed | AlreadyStopping.

(** The handling of the bytes read: the parser with its callback, which may send and
    may stop the session. *)
Variable handle : list byte -> timed unit.

Fixpoint timed_receive_loop (fuel wait_fuel : nat) (handshake_deadline : Z) : timed receive_end :=
  match fuel with
  | O => fun _ => None
  | S fuel =>
      let? stopping := stopping_load in
      if stopping then tret AlreadyStopping
      else
        let? ready := ready_load in
        let? result := wait_for_socket wait_fuel (if ready then time_point_max else handshake_deadline) in
        if result <=? 0 then
          let? _ := stop_session in
          tret (if result =? 0 then HandshakeTimeout else ReceivePollFailed)
        else
          let? bytes := recv_call in
          match bytes with
          | RecvError EINTR | RecvError EAGAIN => timed_receive_loop fuel wait_fuel handshake_deadline
          | RecvError OtherError => let? _ := stop_session in tret ReceiveError
          | RecvEnd => let? _ := stop_session in tret PeerClosed
          | RecvTook bytes =>
              let? _ := handle bytes in timed_receive_loop fuel wait_fuel handshake_deadline
          end
  end.
End timed.

(** ** How long the loops last *)

Lemma ceil_ms_bounds d : 0 < d -> 0 < ceil_ms d /\ d <= ceil_ms d * millisecond < d + millisecond.
Proof.
  intros Hd. unfold ceil_ms. rewrite Z.quot_div_nonneg by (unfold millisecond; lia).
  pose proof (Z.div_mod d millisecond ltac:(done)) as Hdiv.
  pose proof (Z.mod_pos_bound d millisecond ltac:(done)) as Hmod.
  destruct (Z.ltb_spec (d / millisecond * millisecond) d); unfold millisecond in *; lia.
Qed.

(** The timeouts given to [poll] are positive and fit an [int]. *)
Definition polls_valid (m : Machine) : Prop := Forall (fun t => 0 < t <= INT_MAX) (m_polls m).

Section bounds.
Variable env : nat -> Reply.
Variables stopping_at ready_at : Z -> bool.
(** Every call takes time, and at most [delta] besides waiting. *)
Variable delta : Z.
Hypothesis late_bounds : forall k, 1 <= Z.of_N (r_late (env k)) <= delta.

Abbreviation wait := (wait_for_socket env).

Lemma late_range m : 1 <= late env m <= delta.
Proof. apply late_bounds. Qed.

(** What every piece of timed code keeps: the clock goes forward, the timeouts stay
    valid, and only [stop_session] stops the session. *)
Record forward (m m' : Machine) : Prop := {
  fwd_now : m_now m <= m_now m';
  fwd_polls : polls_valid m -> polls_valid m';
  fwd_stopped : m_stopped m' = m_stopped m
}.
#[local] Instance forward_preorder : PreOrder forward.
Proof.
  split; [by constructor|]. intros m1 m2 m3 [H1 H2 H3] [H4 H5 H6].
  constructor; [lia|by auto|congruence].
Qed.

Lemma elapse_forward d m : 0 <= d -> forward m (elapse d m).
Proof. intros Hd. constructor; [cbn; lia|done|done]. Qed.

Lemma poll_timeout_spec deadline m r m' :
  deadline <> time_point_max -> poll_timeout env deadline m = Some (r, m') ->
  m' = elapse (late env m) m /\
  match r with
  | None => deadline <= m_now m'
  | Some t => m_now m' < deadline /\ t = Z.min (ceil_ms (deadline - m_now m')) INT_MAX
  end.
Proof.
  intros Hd. unfold poll_timeout. destruct (Z.eqb_spec deadline time_point_max); [done|].
  intros (now & m1 & [= <- <-] & [= <- <-])%tbind_some. split; [done|].
  cbn [m_now elapse]. destruct (Z.leb_spec (deadline - (m_now m + late env m)) 0); [lia|]. split; [lia|done].
Qed.

Lemma poll_spec timeout m r m' :
  0 < timeout <= INT_MAX -> poll env timeout m = Some (r, m') ->
  forward m m' /\ m_now m < m_now m' <= m_now m + timeout * millisecond + delta /\
  (r = None -> m_now m + timeout * millisecond <= m_now m').
Proof.
  intros Ht. pose proof (late_range m) as Hl. unfold poll.
  assert (forall d, 0 <= d ->
    forward m (elapse d (mkMachine (m_now m) (m_calls m) (m_stopped m) (timeout :: m_polls m)))) as Hf.
  { intros d Hd. constructor; [cbn; lia|by constructor|done]. }
  destruct (Z.ltb_spec timeout 0); [lia|]. unfold millisecond in *.
  destruct (r_after (reply env m)) as [after|]; cbn [fmap option_fmap option_map orb];
    [destruct (Z.ltb_spec (Z.of_N after) (timeout * 1000000))|]; intros [= <- <-];
    (split; [apply Hf; lia|]); cbn [m_now elapse]; split; (lia || done || (intros _; lia)).
Qed.

(** The end of a wait for a deadline: at most a millisecond late, and never early
    when it reports that the time is over. *)
Record wait_end (deadline : Z) (m : Machine) (r : Z) (m' : Machine) : Prop := {
  we_forward : forward m m';
  we_takes : m_now m < m_now m';
  we_bound : m_now m' <= Z.max (m_now m + delta) (deadline + millisecond + 2 * delta);
  we_event : 0 < r -> m_now m' <= deadline + millisecond + delta;
  we_late : r = 0 -> deadline - m_now m <= INT_MAX * millisecond -> deadline <= m_now m'
}.

Lemma wait_round deadline m t m1 r m2 :
  deadline <> time_point_max ->
  poll_timeout env deadline m = Some (Some t, m1) -> poll env t m1 = Some (r, m2) ->
  forward m m2 /\ m_now m < m_now m2 <= deadline + millisecond + delta /\
  (r = None -> deadline - m_now m <= INT_MAX * millisecond -> deadline <= m_now m2).
Proof.
  intros Hd [-> [Hlt ->]]%poll_timeout_spec Hpoll; [|done]. pose proof (late_range m) as Hl.
  set (left := deadline - m_now (elapse (late env m) m)) in *.
  pose proof (ceil_ms_bounds left ltac:(lia)) as (Hpos & Hlo & Hhi).
  apply poll_spec in Hpoll as (Hf & Hb & Hn); [|unfold INT_MAX; lia].
  assert (Z.min (ceil_ms left) INT_MAX * millisecond < left + millisecond) by (unfold millisecond in *; lia).
  cbn [m_now elapse] in *. split; [|split; [lia|]].
  - etrans; [apply (elapse_forward (late env m)); lia|exact Hf].
  - intros ->. specialize (Hn eq_refl). intros Hfar.
    assert (ceil_ms left <= INT_MAX) by (unfold millisecond, left in *; cbn [m_now elapse] in *; lia).
    rewrite Z.min_l in Hn by done. subst left. cbn [m_now elapse] in *. lia.
Qed.

Lemma wait_spec fuel deadline m r m' :
  deadline <> time_point_max -> wait fuel deadline m = Some (r, m') -> wait_end deadline m r m'.
Proof.
  intros Hd. revert m. induction fuel as [|fuel IH]; intros m; [done|].
  cbn [wait_for_socket]. intros ([t|] & m1 & Ht & Hk)%tbind_some.
  - apply tbind_some in Hk as (ev & m2 & Hp & Hk).
    destruct (wait_round _ _ _ _ _ _ Hd Ht Hp) as (Hf & Hb & Hn).
    pose proof (late_range m) as Hl.
    destruct ev as [[|[]]|]; [..|by (injection Hk as <- <-; constructor; auto; lia)];
      try (injection Hk as <- <-; constructor; auto; lia).
    destruct (IH _ Hk) as [Hf' Ht' Hb' He' Hl']. constructor; [by etrans|lia|lia|done|].
    intros Hr Hfar. apply Hl'; [done|]. lia.
  - injection Hk as <- <-. apply poll_timeout_spec in Ht as [-> Ht]; [|done].
    pose proof (late_range m) as Hl. cbn [m_now elapse] in *.
    constructor; [apply elapse_forward; lia|cbn; lia|cbn; lia|lia|done].
Qed.

Lemma poll_timeout_returns deadline m :
  exists r m', poll_timeout env deadline m = Some (r, m').
Proof. unfold poll_timeout, tbind, tret. case_match; eauto. Qed.

Lemma poll_returns timeout m : 0 <= timeout -> exists r m', poll env timeout m = Some (r, m').
Proof.
  intros Ht. unfold poll. destruct (Z.ltb_spec timeout 0); [lia|].
  destruct (r_after (reply env m)) as [a|]; cbn [fmap option_fmap option_map orb]; [case_match|]; eauto.
Qed.

(** A wait that reports an event began before its deadline. *)
Lemma wait_event_before fuel deadline m r m' :
  deadline <> time_point_max -> wait fuel deadline m = Some (r, m') -> 0 < r -> m_now m < deadline.
Proof.
  intros Hd. destruct fuel as [|fuel]; [done|]. cbn [wait_for_socket].
  intros ([t|] & m1 & Ht & Hk)%tbind_some; [|by injection Hk as <- <-].
  apply poll_timeout_spec in Ht as [-> [Hlt _]]; [|done]. pose proof (late_range m). cbn in Hlt. lia.
Qed.

(** A wait for a deadline ends. *)
Lemma wait_returns fuel deadline m :
  deadline <> time_point_max -> (Z.to_nat (deadline - m_now m) < fuel)%nat ->
  exists r m', wait fuel deadline m = Some (r, m').
Proof.
  intros Hd. revert m. induction fuel as [|fuel IH]; intros m Hfuel; [lia|]. cbn [wait_for_socket].
  destruct (poll_timeout_returns deadline m) as (ot & m1 & Ht). unfold tbind at 1. rewrite Ht.
  destruct ot as [t|]; [|by eexists _, _].
  assert (0 <= t) as Hpos.
  { apply poll_timeout_spec in Ht as [-> [Hlt ->]]; [|done].
    pose proof (ceil_ms_bounds (deadline - m_now (elapse (late env m) m)) ltac:(lia)). unfold INT_MAX. lia. }
  destruct (poll_returns t m1 Hpos) as (ev & m2 & Hp). unfold tbind. rewrite Hp.
  destruct (wait_round _ _ _ _ _ _ Hd Ht Hp) as (_ & Hb & _).
  assert (m_now m < deadline) as Hlt.
  { apply poll_timeout_spec in Ht as [-> [Hlt _]]; [|done]. pose proof (late_range m). cbn in Hlt. lia. }
  destruct ev as [[|[]]|]; try by eexists _, _. apply IH. lia.
Qed.

(** *** Sending *)

(** An outcome that ends a send at once: an error or a zero. *)
Definition hard_error (r : Reply) : Prop :=
  r_send r = SendZero \/ r_send r = SendError OtherError \/
  r_poll r = PollError EAGAIN \/ r_poll r = PollError OtherError.

(** Why a send gives up. *)
Definition gives_up (deadline : Z) (m m' : Machine) : Prop :=
  m_stopped m = true \/ (exists t, m_now m <= t <= m_now m' /\ stopping_at t = true) \/
  (exists k, hard_error (env k)) \/ deadline <= m_now m'.

Lemma gives_up_earlier deadline m1 m2 m3 :
  forward m1 m2 -> gives_up deadline m2 m3 -> gives_up deadline m1 m3.
Proof.
  intros [Hn _ Hs] [H|[(t & Ht & H)|H]]; unfold gives_up.
  - left. congruence.
  - right. left. exists t. split; [lia|done].
  - auto.
Qed.

Lemma poll_reports timeout m ev m' :
  poll env timeout m = Some (ev, m') -> ev = None \/ ev = Some (r_poll (reply env m)).
Proof. unfold poll. repeat case_match; intros [=]; subst; auto. Qed.

(** A failed [poll] is a hard error. *)
Lemma wait_failed fuel deadline m r m' :
  deadline <> time_point_max -> wait fuel deadline m = Some (r, m') -> r < 0 -> exists k, hard_error (env k).
Proof.
  intros Hd. revert m. induction fuel as [|fuel IH]; intros m; [done|]. cbn [wait_for_socket].
  intros ([t|] & m1 & Ht & Hk)%tbind_some; [|by injection Hk as <- <-].
  apply tbind_some in Hk as (ev & m2 & Hp & Hk). intros Hr.
  pose proof (poll_reports _ _ _ _ Hp) as [-> | ->].
  - injection Hk as <- <-. lia.
  - destruct (r_poll (reply env m1)) as [|[]] eqn:E; cbn in Hk; try by eauto;
      (injection Hk as <- <-; try lia; exists (m_calls m1); unfold hard_error, reply in *; tauto).
Qed.

Lemma send_iteration_spec fuel deadline m st m' :
  deadline <> time_point_max -> deadline - m_now m <= INT_MAX * millisecond ->
  send_iteration env stopping_at fuel deadline m = Some (st, m') ->
  forward m m' /\
  match st with
  | SendDone ev => m_now m' <= Z.max (m_now m) (deadline + millisecond + 2 * delta) + delta /\ gives_up deadline m m'
  | SendMore _ _ => m_now m < m_now m' <= deadline + millisecond + 2 * delta
  end.
Proof.
  intros Hd Hfar. unfold send_iteration, stopping_load, clock_now, send_call.
  intros (stop & m0 & [= <- <-] & Hk)%tbind_some. pose proof (late_range m) as Hl. assert (0 < millisecond) as Hms by done.
  destruct (m_stopped m || stopping_at (m_now m)) eqn:Hstop.
  { injection Hk as <- <-. split; [done|]. split; [lia|]. apply orb_true_iff in Hstop as [?|?]; [by left|].
    right. left. exists (m_now m). split; [lia|done]. }
  apply tbind_some in Hk as (now & m1 & [= <- <-] & Hk).
  assert (forward m (elapse (late env m) m)) as Hf1 by (apply elapse_forward; lia).
  destruct (Z.leb_spec deadline (m_now m + late env m)) as [Hle|Hgt].
  { injection Hk as <- <-. split; [done|]. split; [cbn; lia|]. unfold gives_up. auto. }
  set (m1 := elapse (late env m) m) in *. apply tbind_some in Hk as (sent & m2 & [= <- <-] & Hk).
  pose proof (late_range m1) as Hl1.
  assert (forward m (elapse (late env m1) m1)) as Hf2 by (etrans; [done|apply elapse_forward; lia]).
  set (m2 := elapse (late env m1) m1) in *.
  assert (m_now m < m_now m2 <= deadline + delta) as Hm2 by (cbn in *; lia).
  destruct (r_send (reply env m1)) as [count| |[| |]] eqn:Hs;
    try (injection Hk as <- <-; split; [done|];
         (lia || (split; [lia|]; right; right; left; exists (m_calls m1); unfold hard_error, reply in *; tauto))).
  apply tbind_some in Hk as (r & m3 & Hw & [= <- <-]).
  destruct (wait_spec _ _ _ _ _ Hd Hw) as [Hf3 Ht3 Hb3 He3 Hl3]. split; [by etrans|].
  destruct (Z.ltb_spec 0 r) as [Hr|Hr]; [lia|].
  split; [lia|]. destruct (decide (r = 0)) as [->|Hne].
  - right. right. right. apply Hl3; lia.
  - right. right. left. eapply wait_failed; eauto. lia.
Qed.

Lemma send_iteration_returns fuel deadline m :
  deadline <> time_point_max -> (Z.to_nat (deadline - m_now m) < fuel)%nat ->
  exists st m', send_iteration env stopping_at fuel deadline m = Some (st, m').
Proof.
  intros Hd Hfuel. unfold send_iteration, tbind, stopping_load, clock_now, send_call.
  pose proof (late_range m) as Hl. pose proof (late_range (elapse (late env m) m)) as Hl1.
  destruct (_ || _); [by eexists _, _|]. destruct (_ <=? _); [by eexists _, _|].
  destruct (r_send _) as [| |[| |]]; try by eexists _, _.
  edestruct (wait_returns fuel deadline) as (r & m' & ->); [done| |by eexists _, _]. cbn. lia.
Qed.

Lemma send_loop_timed fuel wf deadline data m ok evs m' :
  deadline <> time_point_max -> deadline - m_now m <= INT_MAX * millisecond ->
  timed_send_loop env stopping_at fuel wf deadline data m = Some ((ok, evs), m') ->
  forward m m' /\ m_now m' <= Z.max (m_now m) (deadline + millisecond + 2 * delta) + delta /\
  (ok = false -> gives_up deadline m m').
Proof.
  intros Hd. revert data m evs. induction fuel as [|fuel IH]; intros [|b data] m evs Hfar; try done.
  1,2: pose proof (late_range m); intros [= <- <- <-]; split; [done|]; split; [lia|done].
  cbn [timed_send_loop]. intros (st & m1 & Hst & Hk)%tbind_some.
  apply send_iteration_spec in Hst as [Hf Hst]; [|done..]. destruct st as [ev|n ev].
  - injection Hk as <- <- <-. destruct Hst as [??]. split; [done|]. split; [lia|done].
  - apply tbind_some in Hk as ([ok' evs'] & m2 & Hrec & Hret).
    injection Hret as <- <- <-. apply IH in Hrec as (Hf2 & Hb & Hg); [|lia].
    split; [by etrans|]. split; [lia|]. intros Hok. eauto using gives_up_earlier.
Qed.

Lemma send_loop_returns fuel wf deadline data m :
  deadline <> time_point_max -> deadline - m_now m <= INT_MAX * millisecond ->
  (Z.to_nat (deadline - m_now m) < fuel)%nat -> (Z.to_nat (deadline - m_now m) < wf)%nat ->
  exists r m', timed_send_loop env stopping_at fuel wf deadline data m = Some (r, m').
Proof.
  intros Hd. revert data m. induction fuel as [|fuel IH]; intros [|b data] m Hfar Hfuel Hwf; try lia; [by eexists _, _|].
  cbn [timed_send_loop]. destruct (send_iteration_returns wf deadline m Hd Hwf) as (st & m1 & Hst).
  unfold tbind at 1. rewrite Hst. destruct st as [ev|n ev]; [by eexists _, _|].
  pose proof Hst as [Hf Hb]%send_iteration_spec; [|done..].
  assert (m_now m < deadline) as Hlt.
  { revert Hst. unfold send_iteration, stopping_load, clock_now. intros (? & ? & [= <- <-] & Hk)%tbind_some.
    destruct (_ || _); [done|]. apply tbind_some in Hk as (? & ? & [= <- <-] & Hk).
    pose proof (late_range m) as Hl. destruct (Z.leb_spec deadline (m_now m + late env m)); [done|]. lia. }
  unfold tbind. destruct (IH (drop n (b :: data)) m1) as (r & m2 & ->); [lia..|]. by eexists _, _.
Qed.

(** What an iteration meets is an outcome of its kind. *)
Lemma send_iteration_event fuel deadline m st m' :
  send_iteration env stopping_at fuel deadline m = Some (st, m') ->
  match st with
  | SendDone ev => ev = StopOrDeadline \/ ev = SendFailed \/ ev = WouldBlock false
  | SendMore n ev => ev = Sent (Pos.of_nat n) /\ n <> O \/ n = O /\ (ev = Interrupted \/ ev = WouldBlock true)
  end.
Proof.
  unfold send_iteration. intros (stop & m1 & _ & Hk)%tbind_some. destruct stop; [injection Hk as <- <-; auto|].
  apply tbind_some in Hk as (now & m2 & _ & Hk). destruct (deadline <=? now); [injection Hk as <- <-; auto|].
  apply tbind_some in Hk as (r & m3 & _ & Hk).
  destruct r as [c| |[| |]]; try (injection Hk as <- <-; auto 6).
  - left. rewrite Pos2Nat.id. split; [done|lia].
  - apply tbind_some in Hk as (writable & m4 & _ & [= <- <-]). destruct (0 <? writable); auto 6.
Qed.

(** What the loop meets is a run of [Connection.send_loop]. *)
Lemma send_loop_events fuel wf deadline data m ok evs m' :
  timed_send_loop env stopping_at fuel wf deadline data m = Some ((ok, evs), m') ->
  forall rest, exists sent, send_loop data (evs ++ rest) = (sent, ok, rest).
Proof.
  revert data m ok evs. induction fuel as [|fuel IH]; intros [|b data] m ok evs; try done.
  1,2: intros [= <- <- <-] rest; exists []; by destruct rest.
  cbn [timed_send_loop]. intros (st & m1 & Hst & Hk)%tbind_some rest.
  apply send_iteration_event in Hst.
  destruct st as [ev|n ev].
  - injection Hk as <- <- <-. destruct Hst as [-> |[-> | ->]]; eexists; reflexivity.
  - apply tbind_some in Hk as ([ok' evs'] & m2 & Hrec & [= <- <- <-]). cbn [fst snd app].
    destruct (IH _ _ _ _ Hrec rest) as (sent & Hsent).
    destruct Hst as [[-> Hn]|[-> [-> | ->]]]; [|eexists; exact Hsent..].
    cbn [send_loop]. rewrite Nat2Pos.id by done. rewrite Hsent. by eexists.
Qed.

(** A send, whatever the socket does: it returns within its deadline. *)
Lemma send_all_timed fuel handshake_deadline data m :
  m_now m + delta + WRITE_TIMEOUT < time_point_max -> (Z.to_nat WRITE_TIMEOUT < fuel)%nat ->
  exists (ok : bool) (evs : list SendEvent) (m' : Machine) (deadline : Z),
    timed_send_all env stopping_at ready_at fuel handshake_deadline data m =
      Some ((if ok then zlen data else -1, evs), m') /\
    deadline = (let t := m_now m + late env m + WRITE_TIMEOUT in
                if ready_at (m_now m) then t else Z.min t handshake_deadline) /\
    forward m m' /\ m_now m' <= Z.max (m_now m + delta) (deadline + millisecond + 2 * delta) + delta /\
    (ok = false -> gives_up deadline m m') /\
    forall rest, exists sent, send_loop data (evs ++ rest) = (sent, ok, rest).
Proof.
  intros Hmax Hfuel. pose proof (late_range m) as Hl.
  set (deadline := let t := m_now m + late env m + WRITE_TIMEOUT in
                   if ready_at (m_now m) then t else Z.min t handshake_deadline).
  set (m1 := elapse (late env m) m).
  assert (deadline <= m_now m + late env m + WRITE_TIMEOUT) as Hdl by (subst deadline; cbn; case_match; lia).
  assert (forward m m1) as Hf by (apply elapse_forward; lia).
  assert (WRITE_TIMEOUT <= INT_MAX * millisecond) as Hw by done.
  destruct (send_loop_returns fuel fuel deadline data m1) as ([ok evs] & m' & Hrun); [lia|cbn; lia..|].
  exists ok, evs, m', deadline. split; [|split; [done|]].
  - unfold timed_send_all, send_deadline, ready_load, clock_now, tbind, tret. fold m1.
    change (m_now m1) with (m_now m + late env m). fold deadline. by rewrite Hrun.
  - pose proof Hrun as (Hf' & Hb & Hg)%send_loop_timed; [|lia|cbn; lia].
    split; [by etrans|]. split; [cbn in Hb; lia|]. split; [eauto using gives_up_earlier|].
    eauto using send_loop_events.
Qed.

(** *** Receiving *)

Section receiving.
Variable handle : list byte -> timed unit.
Variables handshake_deadline work : Z.
(** The bytes of a read are handled within [work] of the time they arrived, or of the
    handshake deadline, which bounds the sends made while they are handled. *)
Hypothesis handle_bounded : forall bytes m, m_now m <= handshake_deadline + millisecond + 2 * delta -> exists m',
  handle bytes m = Some (tt, m') /\ m_now m <= m_now m' <= Z.max (m_now m) handshake_deadline + work.
Hypothesis work_nonneg : 0 <= work.
Hypothesis deadline_finite : handshake_deadline <> time_point_max.
Hypothesis never_ready : forall t, ready_at t = false.

Abbreviation last_start := (handshake_deadline + millisecond + 2 * delta + work).

Lemma receive_loop_timed fuel wf m :
  handshake_deadline - m_now m <= INT_MAX * millisecond ->
  (Z.to_nat (handshake_deadline - m_now m) < fuel)%nat -> (Z.to_nat (handshake_deadline - m_now m) < wf)%nat ->
  exists e m',
    timed_receive_loop env stopping_at ready_at handle fuel wf handshake_deadline m = Some (e, m') /\
    m_now m' <= Z.max (m_now m) last_start + delta /\
    (e <> AlreadyStopping -> m_stopped m' = true) /\
    (e = HandshakeTimeout -> handshake_deadline <= m_now m').
Proof.
  revert m. induction fuel as [|fuel IH]; intros m Hfar Hfuel Hwf; [lia|].
  cbn [timed_receive_loop]. unfold tbind at 1, stopping_load. pose proof (late_range m) as Hl.
  destruct (m_stopped m || stopping_at (m_now m)); [eexists _, _; split; [done|]; split; [lia|done]|].
  unfold tbind at 1, ready_load. rewrite never_ready. assert (0 < millisecond) as Hms by done.
  destruct (wait_returns wf handshake_deadline m) as (r & m1 & Hw); [done..|].
  pose proof Hw as [Hf Ht Hb He Hlate]%wait_spec; [|done].
  unfold tbind at 1. rewrite Hw. destruct (Z.leb_spec r 0) as [Hr|Hr].
  { eexists _, _. split; [done|]. split; [cbn; lia|]. split; [done|].
    destruct (Z.eqb_spec r 0) as [->|]; [|done]. intros _. by apply Hlate. }
  specialize (He Hr). pose proof (late_range m1) as Hl1. unfold tbind at 1, recv_call.
  set (m2 := elapse (late env m1) m1). assert (m_now m2 = m_now m1 + late env m1) as Hm2 by done.
  assert (m_now m < m_now m2 <= last_start) as Hnow by lia.
  assert (m_now m < handshake_deadline) as Hbefore by (eapply (wait_event_before wf); eauto).
  assert (forall m3, m_now m2 <= m_now m3 <= last_start -> exists e m',
    timed_receive_loop env stopping_at ready_at handle fuel wf handshake_deadline m3 = Some (e, m') /\
    m_now m' <= Z.max (m_now m) last_start + delta /\
    (e <> AlreadyStopping -> m_stopped m' = true) /\ (e = HandshakeTimeout -> handshake_deadline <= m_now m')) as Hnext.
  { intros m3 Hm3. destruct (IH m3) as (e & m' & Hrun & Hb' & Hs & Hh); [lia..|].
    exists e, m'. split; [done|]. split; [lia|done]. }
  destruct (r_recv (reply env m1)) as [bytes| |[| |]]; try (apply Hnext; lia);
    try (eexists _, _; split; [done|]; split; [cbn [m_now stop_session]; lia|done]).
  unfold tbind. destruct (handle_bounded bytes m2) as (m3 & -> & Hm3); [lia|]. apply Hnext. lia.
Qed.
End receiving.
End bounds.

(** ** The claims *)

Section claims.
Variable env : nat -> Reply.
Variables stopping_at ready_at : Z -> bool.
Variable delta : Z.
(** Every call takes time, and at most [delta] besides waiting. *)
Definition calls_take (delta : Z) : Prop := forall k, 1 <= Z.of_N (r_late (env k)) <= delta.

(** When a send that starts at [m] may give up for lack of time. *)
Definition write_deadline (handshake_deadline : Z) (m : Machine) : Z :=
  if ready_at (m_now m) then m_now m + WRITE_TIMEOUT else Z.min (m_now m + WRITE_TIMEOUT) handshake_deadline.

(** C17. A peer that stops reading cannot hold a writer: whatever the socket and the
    other threads do, [send_all] returns within the write timeout, a millisecond and
    four delays, and before READY also within the handshake deadline; it gives up
    only after a stop, an error or its deadline; [poll] gets positive timeouts that
    fit an [int]; and what it met is a run of the loop of [Connection.send_all]. *)
Theorem send_returns_in_time fuel handshake_deadline data m :
  calls_take delta -> m_now m + delta + WRITE_TIMEOUT < time_point_max -> (Z.to_nat WRITE_TIMEOUT < fuel)%nat ->
  exists r evs m',
    timed_send_all env stopping_at ready_at fuel handshake_deadline data m = Some ((r, evs), m') /\
    m_now m' <= m_now m + WRITE_TIMEOUT + millisecond + 4 * delta /\
    (ready_at (m_now m) = false ->
     m_now m' <= Z.max (m_now m + 2 * delta) (handshake_deadline + millisecond + 3 * delta)) /\
    (polls_valid m -> polls_valid m') /\
    (r = -1 -> gives_up env stopping_at (write_deadline handshake_deadline m) m m') /\
    (forall rest, exists sent, send_loop data (evs ++ rest) = (sent, 0 <=? r, rest)).
Proof.
  intros Hc Hmax Hfuel. pose proof (late_range env delta Hc m) as Hl. assert (0 < millisecond) as Hms by done.
  destruct (send_all_timed env stopping_at ready_at delta Hc fuel handshake_deadline data m Hmax Hfuel)
    as (ok & evs & m' & dl & Hrun & -> & Hf & Hb & Hg & Hev).
  exists (if ok then zlen data else -1), evs, m'. cbn zeta in *. assert (0 < WRITE_TIMEOUT) as Hw by done.
  split; [done|]. split; [destruct (ready_at (m_now m)); lia|].
  split; [intros Hr; rewrite Hr in Hb; lia|]. split; [apply Hf|]. split.
  - destruct ok; [lia|]. intros _. destruct (Hg eq_refl) as [?|[?|[?|Hd]]]; unfold gives_up; auto.
    right. right. right. unfold write_deadline. destruct (ready_at (m_now m)); lia.
  - intros rest. destruct (Hev rest) as (sent & Hs). exists sent. rewrite Hs.
    destruct ok; [|done]. by destruct (Z.leb_spec 0 (zlen data)); [|lia].
Qed.

(** C10. An unauthenticated peer cannot keep a session: however it times its bytes, the
    receive loop of a session that does not become READY ends within the handshake
    deadline, a millisecond, three delays and the time to handle one read; the session
    is then stopped, and the handshake timeout is not reported before the deadline. *)
Theorem unauthenticated_session_expires handle handshake_deadline work fuel wait_fuel m :
  calls_take delta ->
  (forall bytes m, m_now m <= handshake_deadline + millisecond + 2 * delta -> exists m',
     handle bytes m = Some (tt, m') /\ m_now m <= m_now m' <= Z.max (m_now m) handshake_deadline + work) ->
  0 <= work -> (forall t, ready_at t = false) ->
  handshake_deadline < time_point_max -> 0 <= handshake_deadline - m_now m <= INT_MAX * millisecond ->
  (Z.to_nat (handshake_deadline - m_now m) < fuel)%nat ->
  (Z.to_nat (handshake_deadline - m_now m) < wait_fuel)%nat ->
  exists e m',
    timed_receive_loop env stopping_at ready_at handle fuel wait_fuel handshake_deadline m = Some (e, m') /\
    m_now m' <= handshake_deadline + millisecond + 3 * delta + work /\
    (e <> AlreadyStopping -> m_stopped m' = true) /\
    (e = HandshakeTimeout -> handshake_deadline <= m_now m').
Proof.
  intros Hc Hh Hw Hr Hd Hfar Hfuel Hwf. pose proof (late_range env delta Hc m) as Hl.
  destruct (receive_loop_timed env stopping_at ready_at delta Hc handle handshake_deadline work Hh Hw
              ltac:(lia) Hr fuel wait_fuel m ltac:(lia) Hfuel Hwf) as (e & m' & Hrun & Hb & Hs & Ht).
  exists e, m'. split; [done|]. split; [|done]. assert (0 < millisecond) by done. lia.
Qed.

(** C40. A READY session can be closed by the handshake deadline: the loop chooses the
    deadline before it waits, so a session that another thread makes READY while the
    worker waits is stopped with a handshake timeout when the peer stays silent. *)
Theorem ready_session_expires handle handshake_deadline fuel wait_fuel m t1 :
  calls_take delta -> handshake_deadline < time_point_max ->
  m_now m + delta < handshake_deadline -> handshake_deadline - m_now m <= INT_MAX * millisecond ->
  m_stopped m || stopping_at (m_now m) = false ->
  ready_at (m_now m) = false -> t1 <= handshake_deadline -> (forall t, t1 <= t -> ready_at t = true) ->
  (forall k, r_after (env k) = None) ->
  exists m',
    timed_receive_loop env stopping_at ready_at handle (S fuel) (S wait_fuel) handshake_deadline m =
      Some (HandshakeTimeout, m') /\
    ready_at (m_now m') = true /\ m_stopped m' = true.
Proof.
  intros Hc Hd Hlt Hfar Hstop Hr Ht1 Hready Hsilent. pose proof (late_range env delta Hc m) as Hl.
  destruct (poll_timeout_returns env handshake_deadline m) as (ot & m1 & Ht).
  assert (exists m2, wait_for_socket env (S wait_fuel) handshake_deadline m = Some (0, m2)) as (m2 & Hw).
  { cbn [wait_for_socket]. unfold tbind at 1. rewrite Ht. destruct ot as [t|]; [|by eexists].
    apply poll_timeout_spec in Ht as [-> [_ ->]]; [|lia].
    unfold tbind, poll, reply. rewrite Hsilent. cbn [fmap option_fmap option_map].
    pose proof (ceil_ms_bounds (handshake_deadline - m_now (elapse (late env m) m)) ltac:(cbn; lia)) as [Hpos _].
    destruct (Z.ltb_spec (Z.min (ceil_ms (handshake_deadline - m_now (elapse (late env m) m))) INT_MAX) 0) as [Hn|_];
      [unfold INT_MAX in Hn; lia|by eexists]. }
  exists (mkMachine (m_now m2) (m_calls m2) true (m_polls m2)). split; [|split; [|done]].
  - cbn [timed_receive_loop]. unfold tbind at 1, stopping_load. rewrite Hstop.
    unfold tbind at 1, ready_load. rewrite Hr. unfold tbind at 1. by rewrite Hw.
  - apply wait_spec with (delta := delta) in Hw as [_ _ _ _ Hlate]; [|done|lia]. cbn. apply Hready.
    specialize (Hlate eq_refl Hfar). lia.
Qed.
End claims.

Module TimingScenario.
(** A socket whose buffer is full and stays so, with nothing to read; each call takes
    one nanosecond. *)
Definition stalled (_ : nat) : Reply := mkReply 1 None PollReady (SendError EAGAIN) (RecvError EAGAIN).
(** A peer that sends a byte whenever it is polled after [gap]. *)
Definition trickling (gap : N) (_ : nat) : Reply := mkReply 1 (Some gap) PollReady (SendTook 1) (RecvTook [x00]).
Definition never (_ : Z) : bool := false.
Definition always (_ : Z) : bool := true.
Definition start : Machine := mkMachine 0 0 false [].

(** A write to a stalled socket is given up after ten seconds. *)
Example stalled_write :
  timed_send_all stalled never always 2 0 [x00] start =
  Some ((-1, [WouldBlock false]), mkMachine 10000000005 5 false [10000]).
Proof. vm_compute. reflexivity. Qed.

(** A peer that sends a byte every fourth second is stopped after ten. *)
Example trickle_expires :
  timed_receive_loop (trickling 4000000000) never never (fun _ => tret tt) 5 5 (10 * second) start =
  Some (HandshakeTimeout, mkMachine 10000000008 8 true [2000; 6000; 10000]).
Proof. vm_compute. reflexivity. Qed.

Lemma one_nanosecond r k : r_late r = 1%N -> 1 <= Z.of_N (r_late ((fun _ : nat => r) k)) <= 1.
Proof. intros H. cbn. rewrite H. lia. Qed.

Lemma send_returns_in_time_witness :
  exists r evs m',
    timed_send_all stalled never always (S (Z.to_nat WRITE_TIMEOUT)) 0 [x00] start = Some ((r, evs), m') /\
    m_now m' <= 0 + WRITE_TIMEOUT + millisecond + 4 * 1.
Proof.
  destruct (send_returns_in_time stalled never always 1 (S (Z.to_nat WRITE_TIMEOUT)) 0 [x00] start
              (fun k => one_nanosecond (stalled 0) k eq_refl) eq_refl (Nat.lt_succ_diag_r _))
    as (r & evs & m' & Hrun & Hb & _).
  exists r, evs, m'. exact (conj Hrun Hb).
Defined.

(** The peer's bytes are answered by a hello. *)
Definition answer (_ : list byte) : timed unit :=
  let? _ := timed_send_all (trickling 4) never never (S (Z.to_nat WRITE_TIMEOUT)) (10 * second) [x01; x02] in tret tt.

Lemma answer_bounded bytes m :
  m_now m <= 10 * second + millisecond + 2 * 1 ->
  exists m', answer bytes m = Some (tt, m') /\
    m_now m <= m_now m' <= Z.max (m_now m) (10 * second) + (millisecond + 3).
Proof.
  intros Hm. pose proof (fun k => one_nanosecond (trickling 4 0) k eq_refl) as Hc.
  destruct (send_all_timed (trickling 4) never never 1 Hc (S (Z.to_nat WRITE_TIMEOUT)) (10 * second) [x01; x02] m)
    as (ok & evs & m' & dl & Hrun & -> & Hf & Hb & _).
  - unfold WRITE_TIMEOUT, second, millisecond, time_point_max in *. lia.
  - apply Nat.lt_succ_diag_r.
  - exists m'. split; [unfold answer, tbind; by rewrite Hrun|]. destruct Hf as [Hf _ _].
    cbn zeta in Hb. cbn [never] in Hb. assert (0 < millisecond) by done. lia.
Qed.

(** A fuel of one iteration per nanosecond left. *)
Definition enough : nat := S (Z.to_nat (10 * second - m_now start)).
Lemma enough_spec : (Z.to_nat (10 * second - m_now start) < enough)%nat.
Proof. exact (Nat.lt_succ_diag_r _). Qed.
Lemma near : 0 <= 10 * second - m_now start <= INT_MAX * millisecond.
Proof. split; discriminate. Qed.

Lemma unauthenticated_session_expires_witness :
  exists e m',
    timed_receive_loop (trickling 4) never never answer enough enough (10 * second) start = Some (e, m') /\
    m_now m' <= 10 * second + millisecond + 3 * 1 + (millisecond + 3).
Proof.
  destruct (unauthenticated_session_expires (trickling 4) never never 1 answer
              (10 * second) (millisecond + 3) enough enough start (fun k => one_nanosecond (trickling 4 0) k eq_refl)
              answer_bounded ltac:(discriminate) (fun _ => eq_refl) eq_refl near enough_spec enough_spec)
    as (e & m' & Hrun & Hb & _).
  exists e, m'. exact (conj Hrun Hb).
Defined.

Lemma ready_session_expires_witness :
  exists m',
    timed_receive_loop stalled never (fun t => second <=? t) (fun _ => tret tt) 1 1 (10 * second) start =
      Some (HandshakeTimeout, m') /\ (second <=? m_now m') = true /\ m_stopped m' = true.
Proof.
  apply (ready_session_expires stalled never (fun t => second <=? t) 1 (fun _ => tret tt) (10 * second) 0 0 start second
           (fun k => one_nanosecond (stalled 0) k eq_refl)); try done.
  intros t Ht. by apply Z.leb_le.
Defined.
End TimingScenario.
