(* ===== verification/Locks.v ===== *)
(** * Mutexes and references

    What the threads of the daemon do with mutexes and with references to connections:
    for each function of the code, the [lock_guard]s it takes, in order and with their
    scopes, the guarded data it touches inside them, the [shared_ptr]s it takes and
    releases, the functions it calls and the threads it starts.  Conditions on data
    that is not modelled here are free choices and an exception may leave the code
    anywhere, so the code makes fewer runs than its skeleton.  A thread is a stack of frames; destructors run where scopes end: a guard
    unlocks, and the last reference to a connection runs [~Connection] at that place,
    under whatever mutexes the thread then holds.

    The theorems: no two threads touch the same guarded data at the same time, no set of
    threads waits for each other's mutexes, and every mutex that is held can be
    released.  The order of the mutexes is the one the comment of [connection.hpp]
    gives, with the mutexes of the other components after those of a connection. *)

From S2P Require Import Prelude.

(** ** Mutexes, guarded data, code *)

Inductive mutex : Type :=
| WriteMutex (s : Z)
| LifecycleMutex (s : Z)
| SocketMutex (s : Z)
| StoreMutex
| LiveMutex
| RegistryMutex
| ManagerMutex
| EventsMutex
| DiscoveryMutex.
#[export] Instance mutex_eq_dec : EqDecision mutex.
Proof. solve_decision. Defined.
#[export] Instance mutex_countable : Countable mutex.
Proof.
  refine (inj_countable'
    (fun m => match m with
              | WriteMutex s => inl (inl s) | LifecycleMutex s => inl (inr s)
              | SocketMutex s => inr (inl s)
              | StoreMutex => inr (inr 0%nat) | LiveMutex => inr (inr 1%nat) | RegistryMutex => inr (inr 2%nat)
              | ManagerMutex => inr (inr 3%nat) | EventsMutex => inr (inr 4%nat)
              | DiscoveryMutex => inr (inr 5%nat)
              end)
    (fun x => match x with
              | inl (inl s) => WriteMutex s | inl (inr s) => LifecycleMutex s
              | inr (inl s) => SocketMutex s
              | inr (inr 0%nat) => StoreMutex | inr (inr 1%nat) => LiveMutex | inr (inr 2%nat) => RegistryMutex
              | inr (inr 3%nat) => ManagerMutex | inr (inr 4%nat) => EventsMutex
              | inr (inr _) => DiscoveryMutex
              end) _).
  by intros [].
Defined.

(** The connection a mutex is a member of. *)
Definition session_of (m : mutex) : option Z :=
  match m with
  | WriteMutex s | LifecycleMutex s | SocketMutex s => Some s
  | _ => None
  end.

(** The order of the mutexes: those of a connection as its class says, the discovery
    client's before, the others after. *)
Definition rank (m : mutex) : nat :=
  match m with
  | DiscoveryMutex => 0
  | WriteMutex _ => 1
  | LifecycleMutex _ => 2
  | SocketMutex _ => 3
  | StoreMutex | LiveMutex | RegistryMutex | ManagerMutex | EventsMutex => 4
  end.

(** Accesses to guarded data: the bytes of a socket, its shutdown and its close,
    [local_preface_sent_], the database handle, and the containers. *)
Inductive access : Type :=
| SendBytes (s : Z)
| Shutdown (s : Z)
| CloseSocket (s : Z)
| LocalPreface (s : Z)
| StoreDb
| LiveAuthorizations
| Devices
| Connections
| Events
| PendingConnections.

(** The mutexes that must be held. *)
Definition guards (a : access) : list mutex :=
  match a with
  | SendBytes s => [WriteMutex s]
  | Shutdown s => [SocketMutex s]
  | CloseSocket s => [WriteMutex s; SocketMutex s]
  | LocalPreface s => [WriteMutex s]
  | StoreDb => [StoreMutex]
  | LiveAuthorizations => [LiveMutex]
  | Devices => [RegistryMutex]
  | Connections => [ManagerMutex]
  | Events => [EventsMutex]
  | PendingConnections => [DiscoveryMutex]
  end.

(** Code, as far as mutexes and references go. *)
Inductive code : Type :=
| Skip
| Seq (a b : code)
| Choose (a b : code)                     (** a condition on data not modelled *)
| Any (f : Z -> code)                     (** some session *)
| Loop (body : code)
| Io                                      (** a call that waits for no mutex *)
| Access (a : access)
| Guard (m : mutex) (body : code)         (** the scope of a [lock_guard] *)
| Ref (body : code)                       (** the scope of a [shared_ptr], empty at first *)
| LockWeak (s : Z) (alive expired : code) (** [weak_ptr::lock] into that [shared_ptr] *)
| Create (f : Z -> code)                  (** a new connection into that [shared_ptr] *)
| Spawn (body : code)                     (** a detached thread *)
| SpawnRef (s : Z) (body : code).         (** a detached thread that holds a reference *)

Declare Scope code_scope.
Delimit Scope code_scope with code.
Bind Scope code_scope with code.
Notation "a ;; b" := (Seq a b) (at level 100, right associativity) : code_scope.
Notation "a <|> b" := (Choose a b) (at level 99, right associativity) : code_scope.
Notation "'maybe' a" := (Choose Skip a) (at level 95, a at level 95) : code_scope.
Open Scope code_scope.

(** ** The functions *)

(** *** Trust store *)

(** Every public operation of [TrustStore] runs under the mutex of the store. *)
Definition store_operation : code := Guard StoreMutex (Access StoreDb).

(** *** Session authentication *)

Definition authorization_is_current : code := store_operation.
Definition authorize_verified_peer : code := store_operation.
Definition register_live_session : code :=
  authorization_is_current ;; maybe (Guard LiveMutex (Access LiveAuthorizations)).
Definition unregister_live_session : code := Guard LiveMutex (Access LiveAuthorizations).

(** *** Registry, manager, event bus *)

Definition registry_operation : code := Guard RegistryMutex (Access Devices).
Definition remove_device : code := registry_operation.
Definition is_already_connected : code := registry_operation.
Definition get_devices_copy : code := registry_operation.
(** [candidate] and [owner] are declared before the guard and released after it. *)
Definition publish_authenticated_device (s : Z) : code :=
  Any (fun existing =>
    Ref (LockWeak s
      (Ref (Guard RegistryMutex
        (Access Devices ;; maybe (LockWeak existing (Access Devices) (Access Devices)))))
      (Guard RegistryMutex Skip))).
Definition register_connection : code := Guard ManagerMutex (Access Connections).
Definition unregister_connection : code := Guard ManagerMutex (Access Connections).
Definition emit_message : code := Guard EventsMutex (Access Events) ;; Io.
Definition consume_events : code := Guard EventsMutex (Access Events).

(** *** Connections *)

Definition request_disconnect (s : Z) : code :=
  Guard (LifecycleMutex s) (Guard (SocketMutex s) (maybe (Access (Shutdown s)))).

(** The loop of [send_all], which ends by its deadline. *)
Definition send_all (s : Z) : code := Access (SendBytes s).
Definition send_packet_locked (s : Z) : code :=
  maybe (send_all s ;; maybe (request_disconnect s)).
Definition send_packet (s : Z) : code :=
  Guard (WriteMutex s)
    (Skip <|> send_packet_locked s <|>
     (authorization_is_current ;; (request_disconnect s <|> send_packet_locked s))).
Definition send_initial_hello (s : Z) : code :=
  Guard (WriteMutex s) (Access (LocalPreface s) ;; maybe (send_packet_locked s)).
Definition send_preface (s : Z) : code :=
  Guard (WriteMutex s)
    (maybe (Access (LocalPreface s) ;;
            maybe (send_all s ;; (request_disconnect s <|> Access (LocalPreface s))))).
Definition accept_peer_preface (s : Z) : code :=
  maybe (send_initial_hello s ;; maybe (request_disconnect s)).

Definition finalize_disconnect (s : Z) : code :=
  request_disconnect s ;;
  Guard (WriteMutex s) (Guard (SocketMutex s)
    (maybe (unregister_live_session ;; remove_device ;; unregister_connection ;; Access (CloseSocket s)))).
(** [~Connection]. *)
Definition destructor (s : Z) : code := finalize_disconnect s.

Definition activate_authorized_peer (s : Z) : code :=
  maybe (Any (fun replaced =>
    Guard (WriteMutex s) (Guard (LifecycleMutex s)
      (maybe (register_live_session ;;
              maybe (publish_authenticated_device s ;; (unregister_live_session <|> Io))))) ;;
    maybe (Ref (LockWeak replaced (request_disconnect replaced) Skip)))).
Definition complete_authentication (s : Z) : code :=
  maybe (authorize_verified_peer ;; maybe (activate_authorized_peer s)).

(** [PacketRouter::route] with its handlers; its argument is a [shared_ptr]. *)
Definition route (s : Z) : code :=
  Ref (LockWeak s (Skip <|> send_packet s <|> emit_message) Skip).
Definition handle_record (s : Z) : code :=
  Skip <|> request_disconnect s <|>
  (maybe authorization_is_current ;;
   (request_disconnect s <|> (route s ;; maybe (request_disconnect s)))).
Definition receive_loop (s : Z) : code :=
  Loop (Io ;; (request_disconnect s <|>
               (Io ;; (Skip <|> request_disconnect s <|>
                       (Loop (accept_peer_preface s ;; maybe (handle_record s)) ;;
                        (accept_peer_preface s <|> request_disconnect s)))))).
Definition worker (s : Z) : code :=
  send_preface s ;; maybe (receive_loop s) ;; finalize_disconnect s.
Definition start (s : Z) : code := Skip <|> SpawnRef s (worker s) <|> finalize_disconnect s.
(** [Connection::create] followed by [start]. *)
Definition create_and_start : code := Ref (Create (fun s => register_connection ;; start s)).

(** *** The threads *)

(** The condition variable is waited for without the mutex: each round of the wait
    takes it, tests the condition and gives it back. *)
Definition monitor_wait : code :=
  Loop (Guard LiveMutex (Access LiveAuthorizations) ;; Io) ;; Guard LiveMutex (Access LiveAuthorizations).
Definition monitor_live_authorizations : code :=
  Loop (monitor_wait ;; store_operation ;;
        maybe (Guard LiveMutex (Access LiveAuthorizations) ;;
               Loop (store_operation ;;
                     maybe (Guard LiveMutex (Access LiveAuthorizations) ;;
                            maybe (Any (fun s => Ref (LockWeak s (request_disconnect s) Skip))))))).
(** [~SessionAuthentication] up to the join. *)
Definition stop_authentication : code := Guard LiveMutex (Access LiveAuthorizations).

Definition server_start : code := Io ;; maybe (Loop (Io ;; maybe create_and_start)).
Definition connect_to_device : code := Io ;; maybe create_and_start.
Definition on_device_discovered : code :=
  maybe (Guard DiscoveryMutex (is_already_connected ;; maybe (Access PendingConnections)) ;;
         maybe (Spawn (connect_to_device ;; Io ;; Guard DiscoveryMutex (Access PendingConnections)))).
Definition discovery_start : code := Loop (Io ;; on_device_discovered).

Definition send_to_listed : code :=
  Any (fun s => Ref (LockWeak s (maybe (send_packet s)) Skip)).
Definition send_to_device : code := maybe (get_devices_copy ;; maybe send_to_listed).
Definition broadcast_message : code := maybe (get_devices_copy ;; Loop send_to_listed).
Definition sender : code := Loop (get_devices_copy ;; Io) ;; broadcast_message.

Definition handle_client : code :=
  Io ;; (Skip <|> get_devices_copy <|> consume_events <|> send_to_device) ;; Io.
Definition api_server : code := Io ;; maybe (Loop (Io ;; Spawn handle_client)).

(** Authentication has no caller in the code yet, and the store's requests come from
    outside: some thread that makes them, with a reference to the session. *)
Definition authenticator : code :=
  Loop (Any (fun s => Ref (LockWeak s (complete_authentication s) Skip)) <|> store_operation).

(** The joins at the end hold no mutex. *)
Definition main : code :=
  Spawn monitor_live_authorizations ;; Spawn server_start ;; Spawn Io ;; Spawn sender ;;
  Spawn api_server ;; Spawn authenticator ;; discovery_start ;; Io.

(** ** Threads *)

(** What a thread still has to do: code, unlocking at the end of a guard's scope,
    releasing a reference at the end of its scope, and the end of a destructor. *)
Inductive frame : Type :=
| FCode (c : code)
| FUnlock (m : mutex)
| FRef (o : option Z)
| FDead (s : Z).
Abbreviation stack := (list frame).

Definition held (k : stack) : list mutex := omap (fun f => match f with FUnlock m => Some m | _ => None end) k.
Definition refs (k : stack) : list Z := omap (fun f => match f with FRef o => o | _ => None end) k.
Definition dying (k : stack) : list Z := omap (fun f => match f with FDead s => Some s | _ => None end) k.

(** The innermost [shared_ptr] variable is empty, and its scope ends with the code that
    runs now. *)
Fixpoint slot_free (k : stack) : bool :=
  match k with
  | FUnlock _ :: k => slot_free k
  | FRef None :: _ => true
  | _ => false
  end.
Fixpoint fill (s : Z) (k : stack) : stack :=
  match k with
  | FUnlock m :: k => FUnlock m :: fill s k
  | FRef _ :: k => FRef (Some s) :: k
  | _ => k
  end.

(** The threads, who holds which mutex, and the sessions created so far. *)
Record system : Type := mkSystem {
  sy_threads : list stack;
  sy_owner : gmap mutex nat;
  sy_used : gset Z
}.

(** Some [shared_ptr] refers to the connection. *)
Definition alive (ts : list stack) (s : Z) : Prop := Exists (fun k => s ∈ refs k) ts.
#[export] Instance alive_dec ts s : Decision (alive ts s).
Proof. apply Exists_dec. intros k. apply _. Defined.

(** What the top frame does to the rest of the stack, the owners, the sessions created
    and the threads. *)
Inductive frame_step (σ : system) (i : nat) : frame -> stack -> stack -> gmap mutex nat -> gset Z -> list stack -> Prop :=
| step_skip k : frame_step σ i (FCode Skip) k k (sy_owner σ) (sy_used σ) []
| step_io k : frame_step σ i (FCode Io) k k (sy_owner σ) (sy_used σ) []
| step_access a k : frame_step σ i (FCode (Access a)) k k (sy_owner σ) (sy_used σ) []
| step_seq a b k : frame_step σ i (FCode (Seq a b)) k (FCode a :: FCode b :: k) (sy_owner σ) (sy_used σ) []
| step_left a b k : frame_step σ i (FCode (Choose a b)) k (FCode a :: k) (sy_owner σ) (sy_used σ) []
| step_right a b k : frame_step σ i (FCode (Choose a b)) k (FCode b :: k) (sy_owner σ) (sy_used σ) []
| step_any f s k : frame_step σ i (FCode (Any f)) k (FCode (f s) :: k) (sy_owner σ) (sy_used σ) []
| step_exit c k : frame_step σ i (FCode (Loop c)) k k (sy_owner σ) (sy_used σ) []
| step_again c k : frame_step σ i (FCode (Loop c)) k (FCode c :: FCode (Loop c) :: k) (sy_owner σ) (sy_used σ) []
| step_lock m c k :
    sy_owner σ !! m = None ->
    frame_step σ i (FCode (Guard m c)) k (FCode c :: FUnlock m :: k) (<[m := i]> (sy_owner σ)) (sy_used σ) []
| step_unlock m k : frame_step σ i (FUnlock m) k k (delete m (sy_owner σ)) (sy_used σ) []
| step_ref c k : frame_step σ i (FCode (Ref c)) k (FCode c :: FRef None :: k) (sy_owner σ) (sy_used σ) []
| step_alive s a b k :
    slot_free k = true -> alive (sy_threads σ) s ->
    frame_step σ i (FCode (LockWeak s a b)) k (FCode a :: fill s k) (sy_owner σ) (sy_used σ) []
| step_expired s a b k :
    slot_free k = true -> ~ alive (sy_threads σ) s ->
    frame_step σ i (FCode (LockWeak s a b)) k (FCode b :: k) (sy_owner σ) (sy_used σ) []
| step_create s f k :
    slot_free k = true -> s ∉ sy_used σ ->
    frame_step σ i (FCode (Create f)) k (FCode (f s) :: fill s k) (sy_owner σ) ({[s]} ∪ sy_used σ) []
| step_spawn c k : frame_step σ i (FCode (Spawn c)) k k (sy_owner σ) (sy_used σ) [[FCode c]]
| step_spawn_ref s c k :
    frame_step σ i (FCode (SpawnRef s c)) k k (sy_owner σ) (sy_used σ) [[FCode c; FRef (Some s)]]
| step_release_none k : frame_step σ i (FRef None) k k (sy_owner σ) (sy_used σ) []
| step_release s k :
    alive (<[i := k]> (sy_threads σ)) s -> frame_step σ i (FRef (Some s)) k k (sy_owner σ) (sy_used σ) []
| step_release_last s k :
    ~ alive (<[i := k]> (sy_threads σ)) s ->
    frame_step σ i (FRef (Some s)) k (FCode (destructor s) :: FDead s :: k) (sy_owner σ) (sy_used σ) []
| step_dead s k : frame_step σ i (FDead s) k k (sy_owner σ) (sy_used σ) [].

(** A step of thread [i]. *)
Definition thread_step (i : nat) (σ σ' : system) : Prop :=
  exists f k k' o u new,
    sy_threads σ !! i = Some (f :: k) /\ frame_step σ i f k k' o u new /\
    σ' = mkSystem (<[i := k']> (sy_threads σ) ++ new) o u.
Definition system_step (σ σ' : system) : Prop := exists i, thread_step i σ σ'.

(** An exception leaves the code of thread [i] at any place; what is unwound is a number
    of such steps, and the guards and references of the scopes that are left are
    released by the steps above. *)
Definition throw_step (i : nat) (σ σ' : system) : Prop :=
  exists c k, sy_threads σ !! i = Some (FCode c :: k) /\
    σ' = mkSystem (<[i := k]> (sy_threads σ)) (sy_owner σ) (sy_used σ).

Definition boot : system := mkSystem [[FCode main]] ∅ ∅.
Definition reachable : system -> Prop :=
  rtc (fun σ σ' => exists i, thread_step i σ σ' \/ throw_step i σ σ') boot.

(** ** What the code keeps to *)

Section discipline.
(** The mutex comes after those held, in the order. *)
Definition ordered (H : list mutex) (m : mutex) : Prop := Forall (fun h => (rank h < rank m)%nat) H.
(** A mutex may be locked by a thread that holds [H], refers to [R] and destroys [E]: in
    the order, with a reference to its connection; a destructor, which is alone with
    the connection, locks its mutexes in any order. *)
Definition may_lock (H : list mutex) (R E : list Z) (m : mutex) : Prop :=
  match session_of m with
  | None => ordered H m
  | Some s => if decide (s ∈ E) then m ∉ H else s ∈ R /\ ordered H m
  end.
(** The last reference may be released: no mutex of another component is held. *)
Definition may_release (H : list mutex) : Prop := Forall (fun h => (rank h < 4)%nat) H.

(** Accesses are guarded; mutexes are taken as they may be; no loop, no creation and no
    start of a thread under a mutex; references are assigned once, at the end of their
    scope. *)
Fixpoint disciplined (last : bool) (H : list mutex) (R E : list Z) (c : code) : Prop :=
  match c with
  | Skip | Io => True
  | Access a => guards a ⊆ H
  | Seq a b => disciplined false H R E a /\ disciplined last H R E b
  | Choose a b => disciplined last H R E a /\ disciplined last H R E b
  | Any f => forall s, disciplined last H R E (f s)
  | Loop c => H = [] /\ disciplined false H R E c
  | Guard m c => may_lock H R E m /\ disciplined last (m :: H) R E c
  | Ref c => may_release H /\ disciplined true H R E c
  | LockWeak s a b => last = true /\ disciplined false H (s :: R) E a /\ disciplined false H R E b
  | Create f => last = true /\ H = [] /\ forall s, disciplined false H (s :: R) E (f s)
  | Spawn c => H = [] /\ disciplined false [] [] [] c
  | SpawnRef s c => H = [] /\ s ∈ R /\ disciplined false [] [s] [] c
  end.

Fixpoint well_formed (k : stack) : Prop :=
  match k with
  | [] => True
  | FCode c :: k => disciplined (slot_free k) (held k) (refs k) (dying k) c /\ well_formed k
  | FUnlock m :: k => may_lock (held k) (refs k) (dying k) m /\ well_formed k
  | FRef _ :: k => may_release (held k) /\ well_formed k
  | FDead _ :: k => well_formed k
  end.
End discipline.

(** Who is where: owners hold their mutexes; a connection that is being destroyed has
    no reference and one destroyer; ids are not used twice. *)
Record consistent (σ : system) : Prop := {
  con_formed i k : sy_threads σ !! i = Some k -> well_formed k;
  con_owner m i : sy_owner σ !! m = Some i <-> exists k, sy_threads σ !! i = Some k /\ m ∈ held k;
  con_dying i k s : sy_threads σ !! i = Some k -> s ∈ dying k -> ~ alive (sy_threads σ) s;
  con_destroyer i j ki kj s : sy_threads σ !! i = Some ki -> sy_threads σ !! j = Some kj ->
    s ∈ dying ki -> s ∈ dying kj -> i = j;
  con_used i k s : sy_threads σ !! i = Some k -> s ∈ refs k \/ s ∈ dying k -> s ∈ sy_used σ
}.

(** ** The code keeps the discipline *)

(** All mutexes held are below a rank. *)
Abbreviation below n H := (Forall (fun h => (rank h < n)%nat) H).

Lemma below_cons n m H : (rank m < n)%nat -> below n H -> below n (m :: H).
Proof. by constructor. Qed.
Lemma below_le n n' H : below n H -> (n <= n')%nat -> below n' H.
Proof. intros Hb Hle. eapply Forall_impl; [exact Hb|]. cbn. lia. Qed.

Lemma may_lock_session H R m s :
  session_of m = Some s -> s ∈ R -> below (rank m) H -> may_lock H R [] m.
Proof. intros Hs HR Hb. unfold may_lock. rewrite Hs. case_decide; [set_solver|done]. Qed.
Lemma may_lock_global H R E m : session_of m = None -> below (rank m) H -> may_lock H R E m.
Proof. intros Hs Hb. unfold may_lock. by rewrite Hs. Qed.
Lemma may_lock_dying H R E s m :
  session_of m = Some s -> s ∈ E -> m ∉ H -> may_lock H R E m.
Proof. intros Hs HE HH. unfold may_lock. rewrite Hs. by case_decide. Qed.

Create HintDb discipline.
#[export] Hint Extern 1 (Forall (fun h => (rank h < _)%nat) _) =>
  first [eassumption | apply Forall_nil_2 | apply below_cons; [cbn; lia|] | eapply below_le; [eassumption|cbn; lia]] : discipline.
#[export] Hint Extern 1 (may_release _) => unfold may_release : discipline.
#[export] Hint Extern 2 (may_lock _ _ _ _) => apply may_lock_global; [reflexivity|cbn [rank]] : discipline.
#[export] Hint Extern 2 (may_lock _ _ [] _) => eapply may_lock_session; [reflexivity| |cbn [rank]] : discipline.
#[export] Hint Extern 3 (_ ∈ _) => set_solver : discipline.
#[export] Hint Extern 3 (guards _ ⊆ _) => cbn [guards]; set_solver : discipline.
#[export] Hint Extern 2 (disciplined _ _ _ _ _) => progress cbn [disciplined] : discipline.
#[export] Hint Extern 1 (_ /\ _) => split : discipline.
#[export] Hint Extern 1 (_ = _) => reflexivity : discipline.
#[export] Hint Extern 1 True => exact I : discipline.
(** Check a function, using what is known of those it calls. *)
Ltac discipline f :=
  intros; unfold f, authorization_is_current, authorize_verified_peer, remove_device, is_already_connected,
            get_devices_copy, send_all, route, sender;
  repeat match goal with
         | |- _ /\ _ => split
         | |- forall _, _ => intro
         | |- disciplined _ _ _ _ _ => progress cbn [disciplined]
         end;
  eauto 12 with discipline.

Section rules.
Context (l : bool) (H : list mutex) (R : list Z).

Lemma store_operation_ok E : below 4 H -> disciplined l H R E store_operation.
Proof. discipline store_operation. Qed.
Lemma live_operation_ok E : below 4 H -> disciplined l H R E unregister_live_session.
Proof. discipline unregister_live_session. Qed.
Lemma registry_operation_ok E : below 4 H -> disciplined l H R E registry_operation.
Proof. discipline registry_operation. Qed.
Lemma manager_operation_ok E : below 4 H -> disciplined l H R E unregister_connection.
Proof. discipline unregister_connection. Qed.
Lemma events_operation_ok E : below 4 H -> disciplined l H R E consume_events.
Proof. discipline consume_events. Qed.
Lemma request_disconnect_ok s : s ∈ R -> below 2 H -> disciplined l H R [] (request_disconnect s).
Proof. discipline request_disconnect. Qed.
End rules.
#[export] Hint Resolve store_operation_ok live_operation_ok registry_operation_ok manager_operation_ok
  events_operation_ok request_disconnect_ok : discipline.

Section functions.
Context (l : bool) (H : list mutex) (R : list Z).

Lemma register_live_session_ok : below 4 H -> disciplined l H R [] register_live_session.
Proof. discipline register_live_session. Qed.
Lemma register_connection_ok : below 4 H -> disciplined l H R [] register_connection.
Proof. discipline register_connection. Qed.
Lemma emit_message_ok : below 4 H -> disciplined l H R [] emit_message.
Proof. discipline emit_message. Qed.
Lemma publish_disciplined s : below 4 H -> disciplined l H R [] (publish_authenticated_device s).
Proof. discipline publish_authenticated_device. Qed.
Lemma send_packet_locked_ok s :
  s ∈ R -> WriteMutex s ∈ H -> below 2 H -> disciplined l H R [] (send_packet_locked s).
Proof. discipline send_packet_locked. Qed.
End functions.
#[export] Hint Resolve register_live_session_ok register_connection_ok emit_message_ok publish_disciplined
  send_packet_locked_ok : discipline.

Section sessions.
Context (l : bool) (R : list Z) (s : Z).
Hypothesis Hs : s ∈ R.

Lemma send_packet_ok : disciplined l [] R [] (send_packet s).
Proof. discipline send_packet. Qed.
Lemma send_initial_hello_ok : disciplined l [] R [] (send_initial_hello s).
Proof. discipline send_initial_hello. Qed.
Lemma send_preface_ok : disciplined l [] R [] (send_preface s).
Proof. discipline send_preface. Qed.
Lemma finalize_disconnect_ok : disciplined l [] R [] (finalize_disconnect s).
Proof. discipline finalize_disconnect. Qed.
Lemma activate_ok : disciplined l [] R [] (activate_authorized_peer s).
Proof. discipline activate_authorized_peer. Qed.
End sessions.
#[export] Hint Resolve send_packet_ok send_initial_hello_ok send_preface_ok finalize_disconnect_ok activate_ok : discipline.

(** A destructor may run wherever a reference may be released. *)
Lemma destructor_ok l H R E s :
  may_release H -> s ∈ E -> (forall m, m ∈ H -> session_of m <> Some s) -> disciplined l H R E (destructor s).
Proof.
  intros Hr HE Hnot. unfold destructor, finalize_disconnect, request_disconnect, remove_device. cbn [disciplined].
  assert (forall m H', session_of m = Some s -> m ∉ H' -> may_lock (H' ++ H) R E m) as Hlock.
  { intros m H' Hm Hin. eapply may_lock_dying; [done..|]. intros [?|HH]%elem_of_app; [done|]. by eapply Hnot. }
  assert (below 4 (SocketMutex s :: WriteMutex s :: H)) as Hb by (repeat constructor; [lia..|done]).
  repeat match goal with |- _ /\ _ => split end; try done; eauto using live_operation_ok, registry_operation_ok, manager_operation_ok.
  - by apply (Hlock _ []); [|set_solver].
  - apply (Hlock _ [LifecycleMutex s]); [done|set_solver].
  - cbn [guards]. set_solver.
  - by apply (Hlock _ []); [|set_solver].
  - apply (Hlock _ [WriteMutex s]); [done|set_solver].
  - cbn [guards]. set_solver.
Qed.

Section threads.
Context (l : bool).

Lemma accept_peer_preface_ok R s : s ∈ R -> disciplined l [] R [] (accept_peer_preface s).
Proof. discipline accept_peer_preface. Qed.
Lemma handle_record_ok R s : s ∈ R -> disciplined l [] R [] (handle_record s).
Proof. discipline handle_record. Qed.
Lemma send_to_listed_ok R : disciplined l [] R [] send_to_listed.
Proof. discipline send_to_listed. Qed.
End threads.
#[export] Hint Resolve accept_peer_preface_ok handle_record_ok send_to_listed_ok : discipline.

Lemma worker_ok l R s : s ∈ R -> disciplined l [] R [] (worker s).
Proof. unfold worker, receive_loop. discipline worker. Qed.
#[export] Hint Resolve worker_ok : discipline.
Lemma create_and_start_ok l R : disciplined l [] R [] create_and_start.
Proof. unfold create_and_start, start. discipline create_and_start. Qed.
Lemma monitor_disciplined l R : disciplined l [] R [] monitor_live_authorizations.
Proof. unfold monitor_live_authorizations, monitor_wait. discipline monitor_live_authorizations. Qed.
Lemma authenticator_ok l R : disciplined l [] R [] authenticator.
Proof. unfold authenticator, complete_authentication. discipline authenticator. Qed.
#[export] Hint Resolve create_and_start_ok monitor_disciplined authenticator_ok : discipline.
Lemma main_ok : disciplined false [] [] [] main.
Proof.
  unfold main, server_start, sender, broadcast_message, api_server, handle_client, send_to_device, discovery_start,
    on_device_discovered, connect_to_device.
  discipline main.
Qed.

(** ** The discipline is kept by every step *)

Lemma disciplined_last l H R E c : disciplined false H R E c -> disciplined l H R E c.
Proof.
  revert H R. induction c; cbn [disciplined]; intros HH R Hd; try done; try tauto.
  - destruct Hd. auto.
  - destruct Hd. auto.
  - auto.
  - destruct Hd. auto.
  - by destruct Hd.
  - by destruct Hd.
Qed.

Lemma may_lock_mono H R R' E m : R ⊆ R' -> may_lock H R E m -> may_lock H R' E m.
Proof. unfold may_lock. destruct (session_of m); [|done]. case_decide; [done|]. set_solver. Qed.

Lemma disciplined_mono l H R R' E c : R ⊆ R' -> disciplined l H R E c -> disciplined l H R' E c.
Proof.
  revert l H R R'. induction c; cbn [disciplined]; intros l HH R R' HR; try done.
  - intros [??]. eauto.
  - intros [??]. eauto.
  - eauto.
  - intros [??]. eauto.
  - intros [??]. eauto using may_lock_mono.
  - intros [??]. eauto.
  - intros (? & ? & ?). split; [done|]. split; [|by eauto]. eapply IHc1; [|done]. set_solver.
  - intros (? & ? & Hf). split; [done|]. split; [done|]. intros s. eapply H; [|done]. set_solver.
  - intros (? & ? & ?). split; [done|]. split; [set_solver|done].
Qed.

Lemma held_fill s k : held (fill s k) = held k.
Proof. induction k as [|[] k IH]; [done|done|exact (f_equal (cons _) IH)|done|done]. Qed.
Lemma dying_fill s k : dying (fill s k) = dying k.
Proof. induction k as [|[] k IH]; [done|done|exact IH|done|done]. Qed.
Lemma refs_fill s k s' : slot_free k = true -> s' ∈ refs (fill s k) <-> s' = s \/ s' ∈ refs k.
Proof.
  induction k as [|[|m|[s0|]|] k IH]; cbn; try done.
  - intros _. rewrite elem_of_cons. done.
Qed.
Lemma slot_free_fill s k : slot_free k = true -> slot_free (fill s k) = false.
Proof. by induction k as [|[|m|[s0|]|] k IH]. Qed.
Lemma well_formed_fill s k : slot_free k = true -> well_formed k -> well_formed (fill s k).
Proof.
  induction k as [|[|m|[s0|]|] k IH]; cbn [slot_free fill well_formed]; try done.
  intros Hf [Hm Hk]. rewrite held_fill, dying_fill. split; [|auto]. eapply may_lock_mono; [|done].
  intros s' Hs'. apply refs_fill; auto.
Qed.

(** A mutex held is one of a connection referred to or destroyed, and held once. *)
Lemma may_lock_not_held H R E m : may_lock H R E m -> m ∉ H.
Proof.
  assert (ordered H m -> m ∉ H) as Hord.
  { intros Ho Hin. unfold ordered in Ho. rewrite Forall_forall in Ho. specialize (Ho m Hin). lia. }
  unfold may_lock. destruct (session_of m); [case_decide; tauto|done].
Qed.
Lemma held_session k m s : well_formed k -> m ∈ held k -> session_of m = Some s -> s ∈ refs k \/ s ∈ dying k.
Proof.
  intros Hwf Hin Hs. induction k as [|f k IH]; [by apply elem_of_nil in Hin|].
  assert (well_formed k) as Hk by (destruct f; cbn in Hwf; tauto).
  destruct f as [c|m'|o|s']; cbn in Hin |- *.
  - auto.
  - apply elem_of_cons in Hin as [->|Hin]; [|auto]. cbn in Hwf. destruct Hwf as [Hm _].
    unfold may_lock in Hm. rewrite Hs in Hm. case_decide; tauto.
  - destruct (IH Hk Hin); [|auto]. left. destruct o; [by right|done].
  - destruct (IH Hk Hin); [auto|]. right. by right.
Qed.

Lemma alive_lookup ts s : alive ts s <-> exists i k, ts !! i = Some k /\ s ∈ refs k.
Proof.
  unfold alive. rewrite Exists_exists. split.
  - intros (k & [i Hi]%list_elem_of_lookup & Hs). eauto.
  - intros (i & k & Hi & Hs). exists k. split; [by eapply list_elem_of_lookup_2|done].
Qed.

(** Replacing the stack of a thread. *)
Section replace.
Variables (σ : system) (i : nat) (k : stack).
Hypothesis (Hcon : consistent σ) (Hi : sy_threads σ !! i = Some k).

Lemma lookup_replaced k' j kj :
  <[i := k']> (sy_threads σ) !! j = Some kj <-> (j = i /\ kj = k') \/ (j <> i /\ sy_threads σ !! j = Some kj).
Proof.
  destruct (decide (j = i)) as [->|Hne].
  - rewrite list_lookup_insert_eq by (by eapply lookup_lt_Some). naive_solver.
  - rewrite list_lookup_insert_ne by done. naive_solver.
Qed.

Lemma consistent_replace k' o u :
  well_formed k' ->
  (forall s, s ∈ refs k' -> s ∈ refs k \/
     (s ∈ u /\ s ∉ dying k' /\ forall j kj, sy_threads σ !! j = Some kj -> s ∉ dying kj)) ->
  (forall s, s ∈ dying k' -> s ∈ dying k \/ (s ∈ refs k /\ ~ alive (<[i := k']> (sy_threads σ)) s)) ->
  sy_used σ ⊆ u ->
  (forall m j, o !! m = Some j <-> if decide (j = i) then m ∈ held k' else sy_owner σ !! m = Some j) ->
  consistent (mkSystem (<[i := k']> (sy_threads σ)) o u).
Proof.
  intros Hwf Hrefs Hdying Hused Howner. destruct Hcon as [Hformed Hown Hdy Hdes Hus].
  assert (forall j kj s, sy_threads σ !! j = Some kj -> s ∈ refs kj -> alive (sy_threads σ) s) as Halive.
  { intros j kj s Hj Hs. apply alive_lookup. eauto. }
  constructor; cbn [sy_threads sy_owner sy_used].
  - intros j kj [[-> ->]|[_ Hj]]%lookup_replaced; eauto.
  - intros m j. rewrite Howner. setoid_rewrite lookup_replaced. case_decide.
    + naive_solver.
    + rewrite Hown. naive_solver.
  - intros j kj s Hj Hs. assert (s ∈ dying kj /\ sy_threads σ !! j = Some kj \/ (kj = k' /\ s ∈ dying k' /\ (s ∈ dying k \/ (s ∈ refs k /\ ~ alive (<[i := k']> (sy_threads σ)) s)))) as Hcase.
    { apply lookup_replaced in Hj as [[-> ->]|[_ Hj]]; [|auto]. right. auto. }
    intros (j' & kj' & [[-> ->]|[Hne Hj']]%lookup_replaced & Hr)%alive_lookup.
    + destruct (Hrefs s Hr) as [Hrk|(_ & Hnd & Hn)].
      * destruct Hcase as [[_ Hj2]|(-> & _ & [Hd|[_ Hna]])].
        -- exact (Hdy _ _ _ Hj2 Hs (Halive _ _ _ Hi Hrk)).
        -- exact (Hdy _ _ _ Hi Hd (Halive _ _ _ Hi Hrk)).
        -- apply Hna, alive_lookup. exists i, k'. split; [|done]. apply lookup_replaced. auto.
      * destruct Hcase as [[_ Hj2]|(-> & ? & _)]; [by eapply Hn|done].
    + destruct Hcase as [[_ Hj2]|(-> & _ & [Hd|[_ Hna]])].
      * exact (Hdy _ _ _ Hj2 Hs (Halive _ _ _ Hj' Hr)).
      * exact (Hdy _ _ _ Hi Hd (Halive _ _ _ Hj' Hr)).
      * apply Hna, alive_lookup. exists j', kj'. split; [|done]. apply lookup_replaced. auto.
  - assert (forall j kj s, j <> i -> sy_threads σ !! j = Some kj -> s ∈ dying kj -> s ∈ dying k' -> False) as Hother.
    { intros j kj s Hne Hj Hs [Hd|[Hr _]]%Hdying; [exact (Hne (Hdes _ _ _ _ _ Hj Hi Hs Hd))|exact (Hdy _ _ _ Hj Hs (Halive _ _ _ Hi Hr))]. }
    intros j1 j2 k1 k2 s [[-> ->]|[Hne1 Hj1]]%lookup_replaced [[-> ->]|[Hne2 Hj2]]%lookup_replaced; try done; eauto.
    + intros H1 H2. exfalso. eauto.
    + intros H1 H2. exfalso. eauto.
  - intros j kj s [[-> ->]|[_ Hj]]%lookup_replaced [Hs|Hs].
    + destruct (Hrefs s Hs) as [?|[? _]]; [|done]. apply Hused. eauto.
    + destruct (Hdying s Hs) as [?|[? _]]; apply Hused; eauto.
    + apply Hused. eauto.
    + apply Hused. eauto.
Qed.

(** A step that changes neither the mutexes held nor adds references. *)
Lemma consistent_local k' :
  well_formed k' -> held k' = held k -> refs k' ⊆ refs k -> dying k' ⊆ dying k ->
  consistent (mkSystem (<[i := k']> (sy_threads σ)) (sy_owner σ) (sy_used σ)).
Proof.
  intros Hwf Hh Hr Hd. apply consistent_replace; auto. intros m j. case_decide as Hj; [|done]. subst j.
  rewrite Hh, (con_owner _ Hcon). naive_solver.
Qed.
End replace.

(** A new thread with references that exist. *)
Lemma consistent_spawn σ k :
  consistent σ -> well_formed k -> held k = [] -> dying k = [] ->
  (forall s, s ∈ refs k -> alive (sy_threads σ) s) ->
  consistent (mkSystem (sy_threads σ ++ [k]) (sy_owner σ) (sy_used σ)).
Proof.
  intros [Hformed Hown Hdy Hdes Hus] Hwf Hh Hd Hr.
  assert (forall j kj, (sy_threads σ ++ [k]) !! j = Some kj -> sy_threads σ !! j = Some kj \/ kj = k) as Hlook.
  { intros j kj [Hj|[_ Hj]]%lookup_app_Some; [auto|]. apply list_lookup_singleton_Some in Hj as [_ <-]. auto. }
  assert (forall j kj, sy_threads σ !! j = Some kj -> (sy_threads σ ++ [k]) !! j = Some kj) as Hold.
  { intros j kj Hj. by apply lookup_app_l_Some. }
  assert (forall j kj s, (sy_threads σ ++ [k]) !! j = Some kj -> s ∈ dying kj -> sy_threads σ !! j = Some kj) as Hdk.
  { intros j kj s Hj Hs. destruct (Hlook _ _ Hj) as [?| ->]; [done|]. rewrite Hd in Hs. by apply elem_of_nil in Hs. }
  constructor; cbn [sy_threads sy_owner sy_used].
  - intros j kj Hj. destruct (Hlook _ _ Hj) as [?| ->]; eauto.
  - intros m j. rewrite Hown. split; [naive_solver|]. intros (kj & Hj & Hm).
    destruct (Hlook _ _ Hj) as [?| ->]; [eauto|]. rewrite Hh in Hm. by apply elem_of_nil in Hm.
  - intros j kj s Hj Hs Ha. apply (Hdy j kj s); eauto. apply alive_lookup in Ha as (j' & kj' & Hj' & Hs').
    destruct (Hlook _ _ Hj') as [?| ->]; [|auto]. apply alive_lookup. eauto.
  - intros j1 j2 k1 k2 s H1 H2 Hs1 Hs2. eapply (Hdes j1 j2); eauto.
  - intros j kj s Hj Hs. destruct (Hlook _ _ Hj) as [?| ->]; [eauto|].
    rewrite Hd in Hs. destruct Hs as [Hs|Hs]; [|by apply elem_of_nil in Hs].
    apply Hr, alive_lookup in Hs as (j' & kj' & Hj' & Hs'). eauto.
Qed.

(** Taking and giving back a mutex. *)
Lemma lock_consistent σ i m c k :
  consistent σ -> sy_threads σ !! i = Some (FCode (Guard m c) :: k) -> sy_owner σ !! m = None ->
  consistent (mkSystem (<[i := FCode c :: FUnlock m :: k]> (sy_threads σ)) (<[m := i]> (sy_owner σ)) (sy_used σ)).
Proof.
  intros Hcon Hi Hfree. pose proof (con_formed _ Hcon _ _ Hi) as [[Hm Hc] Hk].
  apply (consistent_replace σ i _ Hcon Hi); cbn; auto.
  intros m' j. destruct (decide (m' = m)) as [->|Hne].
  - rewrite lookup_insert_eq. case_decide; [subst; set_solver|]. rewrite Hfree. naive_solver.
  - rewrite lookup_insert_ne by done. case_decide; [|done]. subst j. rewrite (con_owner _ Hcon). split.
    + intros (k' & Hk' & Hin). rewrite Hi in Hk'. injection Hk' as <-. cbn in Hin. by right.
    + intros [?|?]%elem_of_cons; [done|]. eauto.
Qed.

Lemma unlock_consistent σ i m k :
  consistent σ -> sy_threads σ !! i = Some (FUnlock m :: k) ->
  consistent (mkSystem (<[i := k]> (sy_threads σ)) (delete m (sy_owner σ)) (sy_used σ)).
Proof.
  intros Hcon Hi. pose proof (con_formed _ Hcon _ _ Hi) as [Hm Hk].
  apply (consistent_replace σ i _ Hcon Hi); cbn; auto.
  assert (sy_owner σ !! m = Some i) as Hown.
  { apply (con_owner _ Hcon). exists (FUnlock m :: k). split; [done|]. by left. }
  intros m' j. destruct (decide (m' = m)) as [->|Hne].
  - rewrite lookup_delete_eq. case_decide; [|rewrite Hown; naive_solver].
    apply may_lock_not_held in Hm. split; [done|]. by intros ?%Hm.
  - rewrite lookup_delete_ne by done. case_decide; [|done]. subst j. rewrite (con_owner _ Hcon). split.
    + intros (k' & Hk' & Hin). rewrite Hi in Hk'. injection Hk' as <-. by apply elem_of_cons in Hin as [?|?].
    + intros Hin. eexists. split; [done|]. by right.
Qed.

(** Filling the reference of a scope. *)
Lemma fill_consistent σ i c s k f u :
  consistent σ -> sy_threads σ !! i = Some (FCode f :: k) -> slot_free k = true ->
  disciplined false (held k) (s :: refs k) (dying k) c -> well_formed k ->
  (forall j kj, sy_threads σ !! j = Some kj -> s ∉ dying kj) -> s ∈ u -> sy_used σ ⊆ u ->
  consistent (mkSystem (<[i := FCode c :: fill s k]> (sy_threads σ)) (sy_owner σ) u).
Proof.
  intros Hcon Hi Hfree Hc Hk Hdy Hs Hu. apply (consistent_replace σ i _ Hcon Hi).
  - cbn [well_formed]. rewrite slot_free_fill, held_fill, dying_fill by done. split; [|by apply well_formed_fill].
    eapply disciplined_mono; [|done]. intros s' [->|?]%elem_of_cons; apply refs_fill; auto.
  - intros s'. change (refs (FCode c :: fill s k)) with (refs (fill s k)). rewrite refs_fill by done.
    change (dying (FCode c :: fill s k)) with (dying (fill s k)). rewrite dying_fill.
    intros [->|?]; [|by left]. right. split; [done|]. split; [|done]. by eapply (Hdy i) in Hi.
  - intros s'. change (dying (FCode c :: fill s k)) with (dying (fill s k)). rewrite dying_fill. auto.
  - done.
  - intros m j. change (held (FCode c :: fill s k)) with (held (fill s k)). rewrite held_fill.
    case_decide; [|done]. subst j. rewrite (con_owner _ Hcon). rewrite Hi. naive_solver.
Qed.

(** The last reference is released. *)
Lemma destroy_consistent σ i s k :
  consistent σ -> sy_threads σ !! i = Some (FRef (Some s) :: k) ->
  ~ alive (<[i := k]> (sy_threads σ)) s ->
  consistent (mkSystem (<[i := FCode (destructor s) :: FDead s :: k]> (sy_threads σ)) (sy_owner σ) (sy_used σ)).
Proof.
  intros Hcon Hi Hna. pose proof (con_formed _ Hcon _ _ Hi) as [Hr Hk].
  assert (alive (sy_threads σ) s) as Ha.
  { apply alive_lookup. eexists i, _. split; [done|]. by left. }
  assert (s ∉ dying k) as Hnd. { intros Hd. exact (con_dying _ Hcon _ _ _ Hi Hd Ha). }
  assert (s ∉ refs k) as Hnr.
  { intros Hin. apply Hna, alive_lookup. exists i, k. split; [|done]. apply list_lookup_insert_eq. by eapply lookup_lt_Some. }
  apply (consistent_replace σ i _ Hcon Hi).
  - cbn [well_formed]. split; [|done]. apply destructor_ok; [done|by left|].
    intros m Hm Hs. destruct (held_session _ _ _ Hk Hm Hs); done.
  - intros s' Hs'. left. by right.
  - intros s' [->|Hs']%elem_of_cons; [|by left]. right. split; [by left|].
    intros (j & kj & Hj & Hs)%alive_lookup. apply Hna, alive_lookup.
    apply (lookup_replaced _ _ _ Hi) in Hj as [[-> ->]|[Hne Hj]]; [done|].
    exists j, kj. split; [|done]. by rewrite list_lookup_insert_ne.
  - done.
  - intros m j. case_decide; [|done]. subst j. rewrite (con_owner _ Hcon), Hi. naive_solver.
Qed.

Lemma step_consistent i σ σ' : consistent σ -> thread_step i σ σ' -> consistent σ'.
Proof.
  intros Hcon (f & k & k' & o & u & new & Hi & Hstep & ->).
  pose proof (con_formed _ Hcon _ _ Hi) as Hwf.
  destruct Hstep; cbn [well_formed disciplined] in Hwf; try rewrite app_nil_r;
    try (apply (consistent_local σ i _ Hcon Hi); cbn [well_formed disciplined]; (tauto || done || set_solver)).
  - by apply lock_consistent.
  - by apply unlock_consistent.
  - destruct Hwf as [(_ & Ha & _) Hk]. eapply fill_consistent; eauto.
    + intros j kj Hj Hd. by eapply (con_dying _ Hcon).
    + apply alive_lookup in H0 as (j & kj & Hj & Hs). eapply (con_used _ Hcon); eauto.
  - destruct Hwf as [(_ & _ & Hb) Hk]. apply (consistent_local σ i _ Hcon Hi); cbn [well_formed]; [|done..].
    split; [by apply disciplined_last|done].
  - destruct Hwf as [(_ & _ & Hf) Hk]. eapply fill_consistent; eauto; [|set_solver..].
    intros j kj Hj Hd. apply H0. eapply (con_used _ Hcon); eauto.
  - apply (consistent_spawn (mkSystem _ _ _)); cbn; [|tauto|done|done|by intros s []%elem_of_nil].
    apply (consistent_local σ i _ Hcon Hi); [tauto|done..].
  - apply (consistent_spawn (mkSystem _ _ _)); cbn; [|split; [tauto|by split; [constructor|]]|done|done|].
    + apply (consistent_local σ i _ Hcon Hi); [tauto|done..].
    + intros s' [->|[]%elem_of_nil]%elem_of_cons. apply alive_lookup. exists i, k. split; [|tauto].
      apply list_lookup_insert_eq. by eapply lookup_lt_Some.
  - by apply destroy_consistent.
Qed.

Lemma steps_consistent σ σ' : rtc system_step σ σ' -> consistent σ -> consistent σ'.
Proof. induction 1 as [|? ? ? [i Hs]]; eauto using step_consistent. Qed.

Lemma boot_consistent : consistent boot.
Proof.
  assert (forall i k, sy_threads boot !! i = Some k -> k = [FCode main]) as Hb.
  { intros i k Hi. by apply list_lookup_singleton_Some in Hi as [_ <-]. }
  constructor.
  - intros i k ->%Hb. split; [exact main_ok|done].
  - intros m i. split; [done|]. intros (k & ->%Hb & Hm). by apply elem_of_nil in Hm.
  - intros i k s ->%Hb Hs. by apply elem_of_nil in Hs.
  - intros i j ki kj s ->%Hb _ Hs. by apply elem_of_nil in Hs.
  - intros i k s ->%Hb [Hs|Hs]; by apply elem_of_nil in Hs.
Qed.

Lemma throw_consistent i σ σ' : consistent σ -> throw_step i σ σ' -> consistent σ'.
Proof.
  intros Hcon (c & k & Hi & ->). apply (consistent_local σ i _ Hcon Hi); [|done..].
  by apply (con_formed _ Hcon) in Hi as [_ Hk].
Qed.

Lemma reachable_consistent σ : reachable σ -> consistent σ.
Proof.
  intros Hr. pose proof boot_consistent as Hb. induction Hr as [|? ? ? [i [Hs|Hs]]]; eauto using step_consistent, throw_consistent.
Qed.

(** ** Every mutex is given back *)

(** Stacks that differ in what their references refer to. *)
Inductive frame_like : frame -> frame -> Prop :=
| like_same f : frame_like f f
| like_ref o o' : frame_like (FRef o) (FRef o').
Abbreviation stack_like := (Forall2 frame_like).

Lemma stack_like_refl k : stack_like k k.
Proof. induction k; repeat constructor; auto. Qed.
Lemma stack_like_trans k1 k2 k3 : stack_like k1 k2 -> stack_like k2 k3 -> stack_like k1 k3.
Proof.
  intros H. revert k3. induction H as [|f1 f2 k1 k2 Hf H IH]; intros k3 H3; [done|].
  inversion H3 as [|? f3 ? k3' Hf' H3']; subst. constructor; [|auto].
  destruct Hf; [done|]. inversion Hf'; subst; constructor.
Qed.
Lemma stack_like_held k k' : stack_like k k' -> held k' = held k.
Proof. induction 1 as [|f f' k k' [g|o o'] H IH]; [done| |done]. destruct g; [done|exact (f_equal (cons _) IH)|done|done]. Qed.
Lemma stack_like_length k k' : stack_like k k' -> length k' = length k.
Proof. intros H. by apply Forall2_length in H. Qed.
Lemma stack_like_fill s k : stack_like k (fill s k).
Proof. induction k as [|[] k IH]; cbn; repeat constructor; auto using stack_like_refl. Qed.
Lemma stack_like_cons f k k' : (forall o, f <> FRef o) -> stack_like (f :: k) k' -> exists k1, k' = f :: k1 /\ stack_like k k1.
Proof.
  intros Hne H. inversion H as [|? f' ? k1 Hf H1]; subst. destruct Hf as [g|o o']; [eauto|]. by destruct (Hne o).
Qed.

(** Other threads that hold nothing from rank [r] on have not moved. *)
Definition others_wait (r : nat) (i : nat) (σ σ' : system) : Prop :=
  forall j k, j <> i -> sy_threads σ !! j = Some k -> below r (held k) -> sy_threads σ' !! j = Some k.

Lemma others_wait_refl r i σ : others_wait r i σ σ.
Proof. by intros j k. Qed.
Lemma others_wait_trans r i σ1 σ2 σ3 : others_wait r i σ1 σ2 -> others_wait r i σ2 σ3 -> others_wait r i σ1 σ3.
Proof. intros H1 H2 j k Hj Hk Hb. eauto. Qed.
Lemma thread_step_others r i σ σ' : thread_step i σ σ' -> others_wait r i σ σ'.
Proof.
  intros (f & k & k' & o & u & new & Hi & _ & ->) j kj Hj Hk _. cbn [sy_threads].
  apply lookup_app_l_Some. by rewrite list_lookup_insert_ne.
Qed.

(** Thread [i], which holds a mutex of rank [r] or more, can come to a stack like [k]. *)
Definition comes_to (r : nat) (i : nat) (σ : system) (k : stack) : Prop :=
  exists σ' k', rtc system_step σ σ' /\ sy_threads σ' !! i = Some k' /\ stack_like k k' /\ others_wait r i σ σ'.

Lemma comes_now r i σ k k' : sy_threads σ !! i = Some k' -> stack_like k k' -> comes_to r i σ k.
Proof. intros Hi Hl. exists σ, k'. eauto using rtc_refl, others_wait_refl. Qed.
Lemma comes_steps r i σ σ' k :
  rtc system_step σ σ' -> others_wait r i σ σ' -> comes_to r i σ' k -> comes_to r i σ k.
Proof.
  intros Hs Ho (σ2 & k2 & Hs2 & Hi & Hl & Ho2). exists σ2, k2.
  split; [by etrans|]. eauto using others_wait_trans.
Qed.

(** One step of thread [i]. *)
Lemma comes_step r i σ f k k' o u new k0 :
  sy_threads σ !! i = Some (f :: k) -> frame_step σ i f k k' o u new ->
  (forall σ', system_step σ σ' -> sy_threads σ' !! i = Some k' -> sy_owner σ' = o -> comes_to r i σ' k0) ->
  comes_to r i σ k0.
Proof.
  intros Hi Hf Hk. set (σ' := mkSystem (<[i := k']> (sy_threads σ) ++ new) o u).
  assert (thread_step i σ σ') as Hstep by (by exists f, k, k', o, u, new).
  eapply comes_steps; [by apply rtc_once; exists i|by eapply thread_step_others|]. apply Hk; [by exists i| |done].
  apply lookup_app_l_Some, list_lookup_insert_eq. by eapply lookup_lt_Some.
Qed.

(** Code that a thread under a mutex of rank [r] or more can finish. *)
Definition finishes (r : nat) (c : code) : Prop :=
  forall σ i k m, consistent σ -> sy_threads σ !! i = Some (FCode c :: k) ->
    m ∈ held k -> (r <= rank m)%nat -> comes_to r i σ k.

Section finishing.
Variable r : nat.
(** Mutexes of higher rank can be freed while the threads below that rank wait. *)
Hypothesis can_free : forall σ m j, consistent σ -> sy_owner σ !! m = Some j -> (r < rank m)%nat ->
  exists σ', rtc system_step σ σ' /\ sy_owner σ' !! m = None /\
    forall i k, sy_threads σ !! i = Some k -> below (rank m) (held k) -> sy_threads σ' !! i = Some k.

Ltac one_step c := eapply comes_step; [eassumption|apply c|]; intros σ' Hstep Hi' Howner.

Lemma finishes_atomic c : c = Skip \/ c = Io \/ (exists a, c = Access a) -> finishes r c.
Proof.
  intros Hc σ i k m Hcon Hi Hm Hr. destruct Hc as [->|[->|[a ->]]];
    [one_step step_skip|one_step step_io|one_step step_access]; by eapply comes_now; eauto using stack_like_refl.
Qed.

Lemma finishes_seq a b : finishes r a -> finishes r b -> finishes r (Seq a b).
Proof.
  intros Ha Hb σ i k m Hcon Hi Hm Hr. one_step step_seq.
  assert (consistent σ') as Hcon' by (destruct Hstep; eauto using step_consistent).
  destruct (Ha σ' i (FCode b :: k) m) as (σ2 & k2 & Hs & Hi2 & Hl & Ho); [done..|].
  apply stack_like_cons in Hl as (k3 & -> & Hl); [|done]. eapply comes_steps; [done..|].
  destruct (Hb σ2 i k3 m) as (σ4 & k4 & Hs4 & Hi4 & Hl4 & Ho4);
    [by eapply steps_consistent|done|by rewrite (stack_like_held _ _ Hl)|done|].
  exists σ4, k4. eauto using stack_like_trans.
Qed.

Lemma finishes_choose a b : finishes r a -> finishes r (Choose a b).
Proof.
  intros Ha σ i k m Hcon Hi Hm Hr. one_step step_left. eapply Ha; eauto. destruct Hstep. eauto using step_consistent.
Qed.

Lemma finishes_any f : (forall s, finishes r (f s)) -> finishes r (Any f).
Proof.
  intros Ha σ i k m Hcon Hi Hm Hr. one_step (step_any σ i f 0). eapply (Ha 0); eauto.
  destruct Hstep. eauto using step_consistent.
Qed.

(** A thread waits only for mutexes above all it holds. *)
Lemma waits_above σ i j m c k :
  consistent σ -> sy_threads σ !! i = Some (FCode (Guard m c) :: k) -> sy_owner σ !! m = Some j ->
  below (rank m) (held k).
Proof.
  intros Hcon Hi Hown. pose proof (con_formed _ Hcon _ _ Hi) as [[Hm _] Hk].
  unfold may_lock in Hm. destruct (session_of m) as [s|] eqn:Hs; [|done]. case_decide as Hd; [|tauto].
  exfalso. apply (con_owner _ Hcon) in Hown as (kj & Hj & Hin).
  destruct (held_session _ _ _ (con_formed _ Hcon _ _ Hj) Hin Hs) as [Href|Hdj].
  - apply (con_dying _ Hcon _ _ _ Hi Hd), alive_lookup. eauto.
  - assert (i = j) as -> by (eapply (con_destroyer _ Hcon); eauto). rewrite Hi in Hj. injection Hj as <-. done.
Qed.

Lemma finishes_guard m c : finishes r c -> finishes r (Guard m c).
Proof.
  intros Hc σ i k m0 Hcon Hi Hm0 Hr.
  assert (exists σ1, rtc system_step σ σ1 /\ others_wait r i σ σ1 /\
    sy_threads σ1 !! i = Some (FCode (Guard m c) :: k) /\ sy_owner σ1 !! m = None) as (σ1 & Hs1 & Ho1 & Hi1 & Hfree).
  { destruct (sy_owner σ !! m) as [j|] eqn:Hown; [|exists σ; eauto using rtc_refl, others_wait_refl].
    pose proof (waits_above _ _ _ _ _ _ Hcon Hi Hown) as Habove.
    assert (rank m0 < rank m)%nat as Hlt by (rewrite Forall_forall in Habove; auto).
    destruct (can_free σ m j) as (σ1 & Hs & Hf & Hq); [done|done|lia|].
    exists σ1. split; [done|]. split; [|eauto]. intros j' kj _ Hj Hb. apply Hq; [done|]. eapply below_le; [done|lia]. }
  eapply comes_steps; [done..|]. clear Hi Ho1. assert (consistent σ1) as Hcon1 by (by eapply steps_consistent).
  one_step (step_lock σ1 i m c k Hfree).
  assert (consistent σ') as Hcon' by (destruct Hstep; eauto using step_consistent).
  destruct (Hc σ' i (FUnlock m :: k) m0) as (σ2 & k2 & Hs & Hi2 & Hl & Ho); [done|done|by right|done|].
  apply stack_like_cons in Hl as (k3 & -> & Hl); [|done]. eapply comes_steps; [done..|].
  eapply comes_step; [exact Hi2|apply step_unlock|]. intros σ3 _ Hi3 _. by eapply comes_now.
Qed.

Lemma finishes_destructor s : finishes r (destructor s).
Proof.
  unfold destructor, finalize_disconnect, request_disconnect, unregister_live_session, remove_device, registry_operation,
    unregister_connection.
  repeat first [apply finishes_atomic; by eauto | apply finishes_guard | apply finishes_seq | apply finishes_choose].
Qed.

(** The end of the scope of a reference. *)
Lemma release_finishes σ i o k m :
  consistent σ -> sy_threads σ !! i = Some (FRef o :: k) -> m ∈ held k -> (r <= rank m)%nat -> comes_to r i σ k.
Proof.
  intros Hcon Hi Hm Hr. destruct o as [s|].
  - destruct (decide (alive (<[i := k]> (sy_threads σ)) s)).
    + eapply comes_step; [done|by apply step_release|]. intros σ' _ Hi' _. by eapply comes_now; eauto using stack_like_refl.
    + eapply comes_step; [done|by apply step_release_last|]. intros σ' Hstep Hi' _.
      assert (consistent σ') as Hcon' by (destruct Hstep; eauto using step_consistent).
      destruct (finishes_destructor s σ' i (FDead s :: k) m) as (σ2 & k2 & Hs & Hi2 & Hl & Ho); [done..|].
      apply stack_like_cons in Hl as (k3 & -> & Hl); [|done]. eapply comes_steps; [done..|].
      eapply comes_step; [exact Hi2|apply step_dead|]. intros σ3 _ Hi3 _. by eapply comes_now.
  - one_step step_release_none. by eapply comes_now; eauto using stack_like_refl.
Qed.

Lemma finishes_ref c : finishes r c -> finishes r (Ref c).
Proof.
  intros Hc σ i k m Hcon Hi Hm Hr. one_step step_ref.
  assert (consistent σ') as Hcon' by (destruct Hstep; eauto using step_consistent).
  destruct (Hc σ' i (FRef None :: k) m) as (σ2 & k2 & Hs & Hi2 & Hl & Ho); [done..|].
  inversion Hl as [|? f2 ? k3 Hf Hl3]; subst. assert (exists o, f2 = FRef o) as [o ->] by (inversion Hf; eauto).
  eapply comes_steps; [done..|].
  destruct (release_finishes σ2 i o k3 m) as (σ4 & k4 & Hs4 & Hi4 & Hl4 & Ho4);
    [by eapply steps_consistent|done|by rewrite (stack_like_held _ _ Hl3)|done|].
  exists σ4, k4. eauto using stack_like_trans.
Qed.

Lemma finishes_lock_weak s a b : finishes r a -> finishes r b -> finishes r (LockWeak s a b).
Proof.
  intros Ha Hb σ i k m Hcon Hi Hm Hr. pose proof (con_formed _ Hcon _ _ Hi) as [(Hfree & _) _].
  destruct (decide (alive (sy_threads σ) s)).
  - eapply comes_step; [done|by apply step_alive|]. intros σ' Hstep Hi' _.
    destruct (Ha σ' i (fill s k) m) as (σ2 & k2 & Hs & Hi2 & Hl & Ho);
      [by destruct Hstep; eauto using step_consistent|done|by rewrite held_fill|done|].
    exists σ2, k2. eauto using stack_like_trans, stack_like_fill.
  - eapply comes_step; [done|by apply step_expired|]. intros σ' Hstep Hi' _.
    eapply Hb; eauto. destruct Hstep. eauto using step_consistent.
Qed.

(** Disciplined code under a mutex has no loops, so it finishes. *)
Lemma finishes_all c l H R E : H <> [] -> disciplined l H R E c -> finishes r c.
Proof.
  revert l H R. induction c; intros lst HH R Hne; cbn [disciplined]; intros Hd; try (by destruct Hd).
  - apply finishes_atomic. auto.
  - destruct Hd. apply finishes_seq; eauto.
  - destruct Hd. apply finishes_choose; eauto.
  - apply finishes_any. eauto.
  - apply finishes_atomic. auto.
  - apply finishes_atomic. eauto.
  - destruct Hd as [_ Hd]. apply finishes_guard. by eapply IHc; [|exact Hd].
  - destruct Hd. apply finishes_ref. eauto.
  - destruct Hd as (_ & ? & ?). apply finishes_lock_weak; eauto.
  - destruct Hd as (_ & ? & _). done.
Qed.

(** A thread can run until it has given a mutex back. *)
Lemma unlocks n σ i k m :
  length k = n -> consistent σ -> sy_threads σ !! i = Some k -> m ∈ held k -> (r <= rank m)%nat ->
  exists σ', rtc system_step σ σ' /\ sy_owner σ' !! m = None /\ others_wait r i σ σ'.
Proof.
  revert σ k. induction n as [n IH] using lt_wf_ind. intros σ k Hn Hcon Hi Hm Hr.
  destruct k as [|f k]; [by apply elem_of_nil in Hm|]. cbn in Hn.
  assert (comes_to r i σ k -> m ∈ held k -> exists σ', rtc system_step σ σ' /\ sy_owner σ' !! m = None /\ others_wait r i σ σ') as Hcont.
  { intros (σ1 & k1 & Hs & Hi1 & Hl & Ho) Hmk.
    destruct (IH (length k1) ltac:(rewrite (stack_like_length _ _ Hl); lia) σ1 k1) as (σ2 & Hs2 & Hf & Ho2);
      [done|by eapply steps_consistent|done|by rewrite (stack_like_held _ _ Hl)|done|].
    exists σ2. split; [by etrans|]. eauto using others_wait_trans. }
  pose proof (con_formed _ Hcon _ _ Hi) as Hwf. destruct f as [c|m'|o|s]; cbn [well_formed] in Hwf.
  - apply Hcont; [|done]. destruct Hwf as [Hd _]. eapply finishes_all; eauto.
    intros Hnil. change (m ∈ held k) in Hm. rewrite Hnil in Hm. by apply elem_of_nil in Hm.
  - destruct (decide (m' = m)) as [->|Hne].
    + set (σ' := mkSystem (<[i := k]> (sy_threads σ) ++ []) (delete m (sy_owner σ)) (sy_used σ)).
      assert (thread_step i σ σ') as Hst by (eexists _, _, _, _, _, _; split; [done|split; [apply step_unlock|done]]).
      exists σ'. split; [by apply rtc_once; exists i|]. split; [apply lookup_delete_eq|by eapply thread_step_others].
    + apply Hcont; [|by apply elem_of_cons in Hm as [?|?]].
      eapply comes_step; [done|apply step_unlock|]. intros σ' _ Hi' _. by eapply comes_now; eauto using stack_like_refl.
  - apply Hcont; [|done]. by eapply release_finishes.
  - apply Hcont; [|done]. eapply comes_step; [done|apply step_dead|]. intros σ' _ Hi' _.
    by eapply comes_now; eauto using stack_like_refl.
Qed.
End finishing.

(** Every mutex held can be freed while the threads that hold nothing of its rank or
    above wait. *)
Lemma mutex_freed n σ m j :
  (5 - rank m <= n)%nat -> consistent σ -> sy_owner σ !! m = Some j ->
  exists σ', rtc system_step σ σ' /\ sy_owner σ' !! m = None /\
    forall i k, sy_threads σ !! i = Some k -> below (rank m) (held k) -> sy_threads σ' !! i = Some k.
Proof.
  revert σ m j. induction n as [n IH] using lt_wf_ind. intros σ m j Hn Hcon Hown.
  assert (rank m <= 4)%nat as Hmax by (destruct m; cbn; lia).
  pose proof Hown as (k & Hj & Hm)%(con_owner _ Hcon).
  destruct (unlocks (rank m)) with (n := length k) (σ := σ) (i := j) (k := k) (m := m) as (σ' & Hs & Hf & Ho); auto.
  - intros σ1 m1 j1 Hcon1 Hown1 Hlt. assert (rank m1 <= 4)%nat by (destruct m1; cbn; lia).
    eapply (IH (5 - rank m1)%nat); eauto. lia.
  - exists σ'. split; [done|]. split; [done|]. intros i ki Hi Hb. apply Ho; [|done..].
    intros ->. rewrite Hj in Hi. injection Hi as <-. rewrite Forall_forall in Hb. specialize (Hb m Hm). lia.
Qed.

(** ** The claims *)

(** C16. No two threads touch the same guarded data at the same time: in every reachable
    state, the accesses two threads are about to make have no mutex in common.  In
    particular a socket is not closed while it is written or shut down. *)
Theorem accesses_exclusive σ i j a b ki kj m :
  reachable σ -> i <> j ->
  sy_threads σ !! i = Some (FCode (Access a) :: ki) -> sy_threads σ !! j = Some (FCode (Access b) :: kj) ->
  m ∈ guards a -> m ∉ guards b.
Proof.
  intros Hcon%reachable_consistent Hne Hi Hj Ha Hb.
  pose proof (con_formed _ Hcon _ _ Hi) as [Hga _]. pose proof (con_formed _ Hcon _ _ Hj) as [Hgb _].
  assert (sy_owner σ !! m = Some i) as Hoi by (apply (con_owner _ Hcon); eexists; split; [done|by apply Hga]).
  assert (sy_owner σ !! m = Some j) as Hoj by (apply (con_owner _ Hcon); eexists; split; [done|by apply Hgb]).
  congruence.
Qed.

(** C6. The threads do not block each other for ever: in every reachable state, whatever
    exceptions there were, a thread that is about to lock a mutex can still get it,
    after finitely many steps of the threads that hold mutexes. *)
Theorem mutex_obtained σ i m c k :
  reachable σ -> sy_threads σ !! i = Some (FCode (Guard m c) :: k) ->
  exists σ1 σ2, rtc system_step σ σ1 /\ thread_step i σ1 σ2 /\ sy_owner σ2 !! m = Some i.
Proof.
  intros Hcon%reachable_consistent Hi.
  assert (exists σ1, rtc system_step σ σ1 /\ sy_owner σ1 !! m = None /\
    sy_threads σ1 !! i = Some (FCode (Guard m c) :: k)) as (σ1 & Hs & Hfree & Hi1).
  { destruct (sy_owner σ !! m) as [j|] eqn:Hown; [|eauto using rtc_refl].
    destruct (mutex_freed (5 - rank m) σ m j (le_n _) Hcon Hown) as (σ1 & Hs & Hf & Hq).
    exists σ1. split; [done|]. split; [done|]. apply Hq; [done|]. exact (waits_above _ _ _ _ _ _ Hcon Hi Hown). }
  eexists σ1, _. split; [done|]. split.
  - eexists _, _, _, _, _, _. split; [exact Hi1|]. split; [by apply step_lock|reflexivity].
  - apply lookup_insert_eq.
Qed.

(** ** Runs *)

(** A scheduled step: the thread, and its choice where it has one. *)
Definition run_step (σ : system) (i : nat) (b : bool) (z : Z) : option system :=
  let ts := sy_threads σ in
  let next k := Some (mkSystem (<[i := k]> ts) (sy_owner σ) (sy_used σ)) in
  match ts !! i with
  | Some (f :: k) =>
      match f with
      | FCode Skip | FCode Io | FCode (Access _) => next k
      | FCode (Seq a c) => next (FCode a :: FCode c :: k)
      | FCode (Choose a c) => next (FCode (if b then a else c) :: k)
      | FCode (Any g) => next (FCode (g z) :: k)
      | FCode (Loop c) => next (if b then FCode c :: FCode (Loop c) :: k else k)
      | FCode (Guard m c) =>
          match sy_owner σ !! m with
          | None => Some (mkSystem (<[i := FCode c :: FUnlock m :: k]> ts) (<[m := i]> (sy_owner σ)) (sy_used σ))
          | Some _ => None
          end
      | FCode (Ref c) => next (FCode c :: FRef None :: k)
      | FCode (LockWeak s a c) =>
          if slot_free k then next (if decide (alive ts s) then FCode a :: fill s k else FCode c :: k) else None
      | FCode (Create g) =>
          if slot_free k && bool_decide (z ∉ sy_used σ) then
            Some (mkSystem (<[i := FCode (g z) :: fill z k]> ts) (sy_owner σ) ({[z]} ∪ sy_used σ))
          else None
      | FCode (Spawn c) => Some (mkSystem (<[i := k]> ts ++ [[FCode c]]) (sy_owner σ) (sy_used σ))
      | FCode (SpawnRef s c) =>
          Some (mkSystem (<[i := k]> ts ++ [[FCode c; FRef (Some s)]]) (sy_owner σ) (sy_used σ))
      | FUnlock m => Some (mkSystem (<[i := k]> ts) (delete m (sy_owner σ)) (sy_used σ))
      | FRef None => next k
      | FRef (Some s) =>
          next (if decide (alive (<[i := k]> ts) s) then k else FCode (destructor s) :: FDead s :: k)
      | FDead _ => next k
      end
  | _ => None
  end.

Fixpoint run (schedule : list (nat * bool * Z)) (σ : system) : option system :=
  match schedule with
  | [] => Some σ
  | (i, b, z) :: rest => match run_step σ i b z with Some σ' => run rest σ' | None => None end
  end.

Lemma run_step_sound σ i b z σ' : run_step σ i b z = Some σ' -> thread_step i σ σ'.
Proof.
  unfold run_step. destruct (sy_threads σ !! i) as [[|f k]|] eqn:Hi; try done.
  assert (forall k' o u new, frame_step σ i f k k' o u new ->
    thread_step i σ (mkSystem (<[i := k']> (sy_threads σ) ++ new) o u)) as Hnew.
  { intros k' o u new Hf. by exists f, k, k', o, u, new. }
  assert (forall k' o u, frame_step σ i f k k' o u [] -> thread_step i σ (mkSystem (<[i := k']> (sy_threads σ)) o u)) as Hs.
  { intros k' o u Hf. specialize (Hnew k' o u [] Hf). by rewrite app_nil_r in Hnew. }
  destruct f as [[|a c|a c|g|c| |a|m c|c|s a c|g|c|s c]|m|[s|]|s].
  - intros [= <-]. apply Hs. constructor.
  - intros [= <-]. apply Hs. constructor.
  - intros [= <-]. apply Hs. destruct b; constructor.
  - intros [= <-]. apply Hs. constructor.
  - intros [= <-]. apply Hs. destruct b; constructor.
  - intros [= <-]. apply Hs. constructor.
  - intros [= <-]. apply Hs. constructor.
  - destruct (sy_owner σ !! m) eqn:Ho; [done|]. intros [= <-]. apply Hs. by constructor.
  - intros [= <-]. apply Hs. constructor.
  - destruct (slot_free k) eqn:Hf; [|done]. intros [= <-]. apply Hs. case_decide; by constructor.
  - destruct (slot_free k) eqn:Hf; [|done]. cbn [andb]. case_bool_decide; [|done]. intros [= <-]. apply Hs. by constructor.
  - intros [= <-]. apply Hnew. constructor.
  - intros [= <-]. apply Hnew. constructor.
  - intros [= <-]. apply Hs. constructor.
  - intros [= <-]. apply Hs. case_decide; by constructor.
  - intros [= <-]. apply Hs. constructor.
  - intros [= <-]. apply Hs. constructor.
Qed.

Lemma run_reachable schedule σ σ' : reachable σ -> run schedule σ = Some σ' -> reachable σ'.
Proof.
  revert σ. induction schedule as [|[[i b] z] rest IH]; intros σ Hr; cbn; [by intros [= <-]|].
  destruct (run_step σ i b z) as [σ1|] eqn:Hs; [|done]. apply IH. eapply rtc_r; [exact Hr|].
  exists i. left. by eapply run_step_sound.
Qed.

Module LocksScenario.
(** The main thread starts the others; the authenticator takes the store's mutex; the
    monitor ends its wait and needs the same mutex. *)
Definition startup : list (nat * bool * Z) := repeat (0%nat, true, 0) 12.
Definition store_request : list (nat * bool * Z) := [(6%nat, true, 0); (6%nat, false, 0); (6%nat, true, 0)].
Definition monitor_wakes : list (nat * bool * Z) :=
  [(1%nat, true, 0); (1%nat, true, 0); (1%nat, true, 0); (1%nat, false, 0); (1%nat, true, 0)].
Definition monitor_asks : list (nat * bool * Z) := repeat (1%nat, true, 0) 3.

Definition both_inside : system := default boot (run (startup ++ store_request ++ monitor_wakes) boot).
Definition contended : system := default boot (run (startup ++ store_request ++ monitor_wakes ++ monitor_asks) boot).

Definition runs (schedule : list (nat * bool * Z)) : bool := match run schedule boot with Some _ => true | None => false end.
Lemma run_default schedule : runs schedule = true -> reachable (default boot (run schedule boot)).
Proof.
  unfold runs. destruct (run schedule boot) as [σ|] eqn:Hr; [|done]. intros _.
  eapply run_reachable; [apply rtc_refl|exact Hr].
Qed.

(** The rest of the monitor's stack after its second lock. *)
Definition rest_of (o : option stack) : stack := match o with Some (_ :: k) => k | _ => [] end.

Lemma accesses_exclusive_witness :
  sy_owner both_inside !! StoreMutex = Some 6%nat /\ sy_owner both_inside !! LiveMutex = Some 1%nat /\
  StoreMutex ∉ guards LiveAuthorizations.
Proof.
  split; [by vm_compute|]. split; [by vm_compute|].
  apply (accesses_exclusive both_inside 6 1 StoreDb LiveAuthorizations
           (rest_of (sy_threads both_inside !! 6%nat)) (rest_of (sy_threads both_inside !! 1%nat)));
    [apply run_default; vm_compute; reflexivity|done|vm_compute; reflexivity|vm_compute; reflexivity|by left].
Defined.

Lemma mutex_obtained_witness :
  sy_owner contended !! StoreMutex = Some 6%nat /\
  exists σ1 σ2, rtc system_step contended σ1 /\ thread_step 1 σ1 σ2 /\ sy_owner σ2 !! StoreMutex = Some 1%nat.
Proof.
  split; [by vm_compute|].
  apply (mutex_obtained contended 1 StoreMutex (Access StoreDb) (rest_of (sy_threads contended !! 1%nat)));
    [apply run_default; vm_compute; reflexivity|vm_compute; reflexivity].
Defined.
End LocksScenario.
