(* ===== verification/Network.v ===== *)
(** * Threads and sessions together

    The receive workers, the senders, the authentication of sessions, the cleanup,
    the authorization monitor, and the users of the trust store run concurrently.
    A state is the world of [Connection.v] with the monitor's position, the
    authorizations obtained by authentications under way, and the owners that a
    finished authentication still has to stop.  A step is one section of the code
    between two points where other threads can intervene: the operations of the
    input and output side are single steps, [activate_authorized_peer] and
    [finalize_disconnect] take one step per guarded section, the monitor one per
    access.  A section that takes a mutex is enabled only when the mutex is free:
    while an activation of a session holds its write and lifecycle mutexes, or a
    cleanup its write and socket mutexes, the other sections of that session wait;
    an iteration of the receive loop that neither sends nor disconnects takes no
    mutex and does not wait.

    One iteration of the receive loop is one step: what other threads do between
    the tests of [handle_record] and its effects is ordered before or after it. *)

From S2P Require Import Prelude V2Framing Uuid TrustTables TrustStore TrustContract SessionAuth EventBus Registry Packet Connection.

Section network.
Context {TQ : TrustQueries} {JL : JsonLibrary} (my_device_id : string).

Record Net : Type := mkNet {
  n_world : World;
  n_monitor : Monitor;
  n_authorized : list (Z * AuthorizedPeer);   (** results of [authorize_verified_identity] in use *)
  n_replaced : list (option Device)           (** owners replaced by committed activations *)
}.
Definition set_world w n := mkNet w (n_monitor n) (n_authorized n) (n_replaced n).

(** The mutexes of a session are held by a section that spans several steps. *)
Definition busy (c : Connection) : bool :=
  match c_critical c with
  | Some _ => true
  | None => match c_cleanup c with LiveRemoved | RegistryRemoved => true | _ => false end
  end.

(** The session exists and is not held. *)
Definition free (sid : Z) (w : World) : Prop :=
  exists c, w_connections w !! sid = Some c /\ busy c = false.

(** The step took none of the session's mutexes: it neither sent nor stopped. *)
Definition lock_free (sid : Z) (w w' : World) : Prop :=
  exists c c', w_connections w !! sid = Some c /\ w_connections w' !! sid = Some c' /\
    c_stopping c' = c_stopping c /\ c_sent c' = c_sent c.

(** Calling the callback the monitor is at. *)
Definition call_invalidate (m : Monitor) (w : World) : World :=
  match calls_invalidate m with
  | Some sid => match alive w sid with
                | Some _ => snd (request_disconnect sid w)
                | None => w
                end
  | None => w
  end.
Definition invalidate_enabled (m : Monitor) (w : World) : Prop :=
  match calls_invalidate m with
  | Some sid => forall c, w_connections w !! sid = Some c -> busy c = false
  | None => True
  end.

(** The owner an activation has replaced, when it can still be locked. *)
Definition replaced_owner (w : World) (replaced : option Device) : option Z :=
  match replaced with
  | Some d => fst <$> lock_weak (alive w) (dev_connection d)
  | None => None
  end.

Inductive step : Net -> Net -> Prop :=
(* the environment: trust store, clock, network *)
| step_store n s : step n (set_world (set_store s (n_world n)) n)
| step_clock n t : w_clock (n_world n) <= t -> step n (set_world (set_clock t (n_world n)) n)
| step_sends n io : step n (set_world (set_sends io (n_world n)) n)
(* creation; session ids are not exhausted *)
| step_create n fd role :
    w_next_session_id (n_world n) < 2 ^ 64 - 1 ->
    step n (set_world (snd (create fd role (n_world n))) n)
(* authentication *)
| step_authorize n sid identity a :
    is_Some (w_connections (n_world n) !! sid) ->
    authorize_verified_identity my_device_id sid identity (n_world n) = Ok (Some a) ->
    step n (mkNet (n_world n) (n_monitor n) ((sid, a) :: n_authorized n) (n_replaced n))
| step_enter n sid a name type :
    (sid, a) ∈ n_authorized n -> free sid (n_world n) ->
    step n (set_world (snd (activate_enter my_device_id sid a name type (n_world n))) n)
| step_register n sid c a d :
    w_connections (n_world n) !! sid = Some c -> c_critical c = Some (CurrentChecked a d) ->
    step n (set_world (snd (activate_register sid a d (n_world n))) n)
| step_publish n sid c a d :
    w_connections (n_world n) !! sid = Some c -> c_critical c = Some (LiveRegistered a d) ->
    step n (set_world (snd (activate_publish sid a d (n_world n))) n)
| step_commit n sid c a r :
    w_connections (n_world n) !! sid = Some c -> c_critical c = Some (Published a r) ->
    step n (mkNet (snd (activate_commit sid a (n_world n))) (n_monitor n) (n_authorized n) (r :: n_replaced n))
| step_replaced n r rest :
    n_replaced n = r :: rest ->
    (forall sid, replaced_owner (n_world n) r = Some sid -> free sid (n_world n)) ->
    step n (mkNet (snd (disconnect_replaced r (n_world n))) (n_monitor n) (n_authorized n) rest)
(* input and output of a session; whoever has a reference to it may disconnect it *)
| step_disconnect n sid :
    free sid (n_world n) -> step n (set_world (snd (request_disconnect sid (n_world n))) n)
| step_preface n sid :
    free sid (n_world n) -> step n (set_world (snd (send_preface sid (n_world n))) n)
| step_send n sid packet :
    free sid (n_world n) -> step n (set_world (snd (send_packet sid packet (n_world n))) n)
| step_receive n sid ev :
    free sid (n_world n) \/ lock_free sid (n_world n) (snd (receive_iteration my_device_id sid ev (n_world n))) ->
    step n (set_world (snd (receive_iteration my_device_id sid ev (n_world n))) n)
(* cleanup, after its request_disconnect *)
| step_finalize n sid c :
    w_connections (n_world n) !! sid = Some c -> busy c = false -> c_stopping c = true ->
    step n (set_world (snd (finalize_enter sid (n_world n))) n)
| step_unregister n sid c :
    w_connections (n_world n) !! sid = Some c -> c_cleanup c = LiveRemoved ->
    step n (set_world (snd (finalize_registry sid (n_world n))) n)
| step_close n sid c :
    w_connections (n_world n) !! sid = Some c -> c_cleanup c = RegistryRemoved ->
    step n (set_world (snd (finalize_close sid (n_world n))) n)
(* the monitor, and the end of the authentication service *)
| step_monitor n au m :
    monitor_step (w_store (n_world n)) (w_auth (n_world n)) (n_monitor n) = Some (au, m) ->
    invalidate_enabled (n_monitor n) (n_world n) ->
    step n (mkNet (set_auth au (call_invalidate (n_monitor n) (n_world n))) m (n_authorized n) (n_replaced n))
| step_stop_authentication n :
    step n (set_world (set_auth (stop_authentication (w_auth (n_world n))) (n_world n)) n)
(* the API server drains the events *)
| step_consume n :
    step n (set_world (set_events (snd (consume_events (w_events (n_world n)))) (n_world n)) n).

(** The daemon just started, on any store and clock. *)
Definition initial (s : trust_store) (clock : Z) : Net :=
  mkNet (mkWorld ∅ 1 ∅ [] (mkAuth ∅ false false) [] s clock []) (mkMonitor MLoop None) [] [].

Inductive reachable : Net -> Prop :=
| reachable_initial s clock : reachable (initial s clock)
| reachable_step n n' : reachable n -> step n n' -> reachable n'.

(** ** The invariant *)

(** The authorization under which a session is watched by the monitor, and the one
    under which it is published. *)
Definition watched (c : Connection) : option AuthorizedPeer :=
  if c_ready c then c_authorized_peer c
  else match c_critical c with
       | Some (LiveRegistered a _) | Some (Published a _) => Some a
       | _ => None
       end.
Definition published (c : Connection) : option AuthorizedPeer :=
  if c_ready c then c_authorized_peer c
  else match c_critical c with Some (Published a _) => Some a | _ => None end.

Definition live_entry (sid : Z) (a : AuthorizedPeer) : LiveAuthorization :=
  mkLiveAuthorization (ap_uuid a) (ap_public_key a) (ap_revision a) (ap_permissions a) (Some sid).

(** The device carries the session and the authorization. *)
Record device_matches (d : Device) (sid : Z) (a : AuthorizedPeer) : Prop := {
  dm_session : dev_session_id d = sid;
  dm_connection : dev_connection d = Some sid;
  dm_id : dev_id d = ap_device_id a;
  dm_key : dev_public_key d = ap_public_key a;
  dm_revision : dev_trust_revision d = ap_revision a;
  dm_permissions : dev_permissions d = ap_permissions a
}.

(** One connection, against the live authorizations and the monitor. *)
Record conn_ok (live : gmap Z LiveAuthorization) (m : Monitor) (sid : Z) (c : Connection) : Prop := {
  co_authorized : c_ready c = true -> is_Some (c_authorized_peer c);
  co_critical : c_critical c <> None -> c_stopping c = false /\ c_ready c = false /\ c_cleanup c = NotCleaned;
  co_cleanup : c_cleanup c <> NotCleaned -> c_stopping c = true;
  co_device : match c_critical c with
              | Some (CurrentChecked a d) | Some (LiveRegistered a d) => device_matches d sid a
              | _ => True
              end;
  co_outbound : outbound_ok c;
  co_watched : forall a, watched c = Some a ->
    live !! sid = Some (live_entry sid a) \/ c_stopping c = true \/ calls_invalidate m = Some sid
}.

Record net_ok (n : Net) : Prop := {
  ok_ids : forall sid c, w_connections (n_world n) !! sid = Some c -> 0 < sid < w_next_session_id (n_world n);
  ok_next : 0 < w_next_session_id (n_world n) < 2 ^ 64;
  ok_conns : forall sid c, w_connections (n_world n) !! sid = Some c ->
               conn_ok (au_live (w_auth (n_world n))) (n_monitor n) sid c;
  ok_live : forall sid e, au_live (w_auth (n_world n)) !! sid = Some e ->
               exists c a, w_connections (n_world n) !! sid = Some c /\ watched c = Some a /\
                 e = live_entry sid a /\ c_cleanup c = NotCleaned;
  ok_registry : registry_ok (w_registry (n_world n));
  ok_entries : forall d, d ∈ w_registry (n_world n) ->
               exists c a, w_connections (n_world n) !! dev_session_id d = Some c /\ published c = Some a /\
                 device_matches d (dev_session_id d) a /\
                 (c_cleanup c = NotCleaned \/ c_cleanup c = LiveRemoved);
  ok_manager : forall sid, w_manager (n_world n) !! sid =
               match w_connections (n_world n) !! sid with
               | Some c => if bool_decide (c_cleanup c = Closed) then None else Some sid
               | None => None
               end
}.

Lemma initial_ok s clock : net_ok (initial s clock).
Proof.
  split; cbn [n_world initial w_connections w_next_session_id w_auth au_live w_registry w_manager].
  - intros sid c. by rewrite lookup_empty.
  - lia.
  - intros sid c. by rewrite lookup_empty.
  - intros sid e. by rewrite lookup_empty.
  - split; constructor.
  - by intros d ?%not_elem_of_nil.
  - intros sid. by rewrite !lookup_empty.
Qed.

(** ** Preservation *)

Lemma busy_critical c : busy c = false -> c_critical c = None.
Proof. unfold busy. by destruct (c_critical c). Qed.

Lemma watched_published c a : published c = Some a -> watched c = Some a.
Proof. unfold watched, published. destruct (c_ready c); [done|]. by destruct (c_critical c) as [[]|]. Qed.

Lemma io_watched c c' : io_evolve c c' -> watched c' = watched c /\ published c' = published c.
Proof. intros []. unfold watched, published. by rewrite ev_ready, ev_authorized, ev_critical. Qed.

Lemma conn_ok_io live m sid c c' :
  io_evolve c c' -> c_critical c = None \/ c_stopping c' = c_stopping c ->
  conn_ok live m sid c -> conn_ok live m sid c'.
Proof.
  intros Hev Hcr [H1 H2 H3 H4 H5 H6]. destruct (io_watched _ _ Hev) as [Hw _]. destruct Hev.
  split.
  - by rewrite ev_ready, ev_authorized.
  - rewrite ev_critical, ev_ready, ev_cleanup. intros Hne. destruct (H2 Hne) as (? & ? & ?).
    destruct Hcr as [?|Hst]; [done|]. by rewrite Hst.
  - rewrite ev_cleanup. auto.
  - by rewrite ev_critical.
  - auto.
  - intros a. rewrite Hw. intros [?|[?|?]]%H6; auto.
Qed.

(** Replacing one connection, with what belongs to it. *)
Lemma net_ok_update n n' sid c c' :
  net_ok n -> w_connections (n_world n) !! sid = Some c ->
  w_connections (n_world n') !! sid = Some c' ->
  (forall j, j <> sid -> w_connections (n_world n') !! j = w_connections (n_world n) !! j) ->
  w_next_session_id (n_world n') = w_next_session_id (n_world n) -> n_monitor n' = n_monitor n ->
  (forall j, j <> sid -> au_live (w_auth (n_world n')) !! j = au_live (w_auth (n_world n)) !! j) ->
  conn_ok (au_live (w_auth (n_world n'))) (n_monitor n) sid c' ->
  (forall e, au_live (w_auth (n_world n')) !! sid = Some e ->
     exists a, watched c' = Some a /\ e = live_entry sid a /\ c_cleanup c' = NotCleaned) ->
  registry_ok (w_registry (n_world n')) ->
  (forall d, d ∈ w_registry (n_world n') ->
     (dev_session_id d <> sid /\ d ∈ w_registry (n_world n)) \/
     (dev_session_id d = sid /\ exists a, published c' = Some a /\ device_matches d sid a /\
        (c_cleanup c' = NotCleaned \/ c_cleanup c' = LiveRemoved))) ->
  (forall j, j <> sid -> w_manager (n_world n') !! j = w_manager (n_world n) !! j) ->
  w_manager (n_world n') !! sid = (if bool_decide (c_cleanup c' = Closed) then None else Some sid) ->
  net_ok n'.
Proof.
  intros [Hids Hnext Hconns Hlive Hreg Hent Hman] Hc Hc' Hother Hn Hm Hlo Hcok Hls Hreg' Hent' Hmo Hms.
  split; rewrite ?Hn, ?Hm; try done.
  - intros j x Hj. destruct (decide (j = sid)) as [->|Hne]; [eauto|]. rewrite Hother in Hj by done. eauto.
  - intros j x Hj. destruct (decide (j = sid)) as [->|Hne]; [congruence|]. rewrite Hother in Hj by done.
    destruct (Hconns _ _ Hj). split; try done. intros a Ha. rewrite Hlo by done. eauto.
  - intros j e Hj. destruct (decide (j = sid)) as [->|Hne].
    + destruct (Hls _ Hj) as (a & ? & ? & ?). eauto 6.
    + rewrite Hlo in Hj by done. rewrite Hother by done. eauto.
  - intros d [[Hne Hd]|[-> Hd]]%Hent'.
    + rewrite Hother by done. eauto.
    + destruct Hd as (a & ? & ? & ?). eauto 6.
  - intros j. destruct (decide (j = sid)) as [->|Hne]; [by rewrite Hms, Hc'|].
    by rewrite Hmo, Hother, Hman.
Qed.

Lemma entry_of_session n sid c d :
  net_ok n -> w_connections (n_world n) !! sid = Some c -> d ∈ w_registry (n_world n) -> dev_session_id d = sid ->
  exists a, published c = Some a /\ device_matches d sid a /\ (c_cleanup c = NotCleaned \/ c_cleanup c = LiveRemoved).
Proof.
  intros Hok Hc Hd <-. destruct (ok_entries _ Hok _ Hd) as (c0 & a & Hc0 & H). rewrite Hc in Hc0.
  injection Hc0 as <-. eauto.
Qed.

Lemma live_of_session n sid c e :
  net_ok n -> w_connections (n_world n) !! sid = Some c -> au_live (w_auth (n_world n)) !! sid = Some e ->
  exists a, watched c = Some a /\ e = live_entry sid a /\ c_cleanup c = NotCleaned.
Proof.
  intros Hok Hc He. destruct (ok_live _ Hok _ _ He) as (c0 & a & Hc0 & H). rewrite Hc in Hc0.
  injection Hc0 as <-. eauto.
Qed.

(** A connection changed by input and output alone. *)
Lemma net_ok_io n sid w' :
  net_ok n -> io_frame sid (n_world n) w' -> free sid (n_world n) \/ lock_free sid (n_world n) w' ->
  net_ok (set_world w' n).
Proof.
  intros Hok [] Hfree.
  assert (exists c, w_connections (n_world n) !! sid = Some c) as [c Hc]
    by (destruct Hfree as [(c & ? & _)|(c & ? & ? & _)]; eauto).
  rewrite Hc in fr_conn. inversion fr_conn as [? c' Hev Heq1 Heq2|]; subst.
  assert (Hcr : c_critical c = None \/ c_stopping c' = c_stopping c).
  { destruct Hfree as [(c0 & Hc0 & Hb)|(c0 & c1 & Hc0 & Hc1 & Hst & _)].
    - left. apply busy_critical. congruence.
    - right. congruence. }
  destruct (io_watched _ _ Hev) as [Hw Hp]. pose proof (ev_cleanup _ _ Hev) as Hcl.
  eapply (net_ok_update n _ sid c c' Hok Hc); cbn; rewrite ?fr_auth, ?fr_registry, ?fr_manager; try done.
  - eapply conn_ok_io; [done|done|by apply ok_conns].
  - intros e He. rewrite Hw, Hcl. by eapply live_of_session.
  - by apply ok_registry.
  - intros d Hd. destruct (decide (dev_session_id d = sid)); [right|by left]. split; [done|].
    rewrite Hp, Hcl. by eapply entry_of_session.
  - rewrite (ok_manager _ Hok), Hc, Hcl. done.
Qed.

(** Steps that touch none of what the invariant speaks of. *)
Lemma net_ok_congr n n' :
  net_ok n -> w_connections (n_world n') = w_connections (n_world n) ->
  w_next_session_id (n_world n') = w_next_session_id (n_world n) ->
  au_live (w_auth (n_world n')) = au_live (w_auth (n_world n)) ->
  w_registry (n_world n') = w_registry (n_world n) -> w_manager (n_world n') = w_manager (n_world n) ->
  n_monitor n' = n_monitor n -> net_ok n'.
Proof. intros [] H1 H2 H3 H4 H5 H6. split; rewrite ?H1, ?H2, ?H3, ?H4, ?H5, ?H6; auto. Qed.

Lemma create_ok n fd role :
  net_ok n -> w_next_session_id (n_world n) < 2 ^ 64 - 1 ->
  net_ok (set_world (snd (create fd role (n_world n))) n).
Proof.
  intros [Hids Hnext Hconns Hlive Hreg Hent Hman] Hlt. set (sid := w_next_session_id (n_world n)) in *.
  assert (Hnone : w_connections (n_world n) !! sid = None).
  { destruct (w_connections (n_world n) !! sid) eqn:E; [|done]. apply Hids in E. lia. }
  assert (Hs : u64_succ sid = sid + 1) by (unfold u64_succ; apply Z.mod_small; lia).
  split; cbn; fold sid; rewrite ?Hs; try done.
  - intros j c Hj. apply lookup_insert_Some in Hj as [[<- _]|[_ Hj]]; [lia|]. apply Hids in Hj. lia.
  - lia.
  - intros j c Hj. apply lookup_insert_Some in Hj as [[<- <-]|[_ Hj]]; [|eauto].
    split; try done. exists [], []. split_and!; [done|constructor|by left].
  - intros j e Hj. destruct (Hlive _ _ Hj) as (c & a & Hc & ?). exists c, a. split; [|done].
    rewrite lookup_insert_ne; [done|]. intros Heq. rewrite Heq in Hnone. congruence.
  - intros d Hd. destruct (Hent _ Hd) as (c & a & Hc & ?). exists c, a. split; [|done].
    rewrite lookup_insert_ne; [done|]. intros Heq. rewrite Heq in Hnone. congruence.
  - intros j. unfold register_connection. destruct (decide (j = sid)) as [->|Hne].
    + by rewrite !lookup_insert_eq.
    + by rewrite !lookup_insert_ne.
Qed.

(** A session that is neither watched nor published owns no entry. *)
Lemma unwatched_free n sid c :
  net_ok n -> w_connections (n_world n) !! sid = Some c -> watched c = None ->
  au_live (w_auth (n_world n)) !! sid = None.
Proof.
  intros Hok Hc Hw. destruct (au_live _ !! sid) eqn:E; [|done].
  destruct (live_of_session _ _ _ _ Hok Hc E) as (a & ? & _). congruence.
Qed.
Lemma unpublished_free n sid c d :
  net_ok n -> w_connections (n_world n) !! sid = Some c -> published c = None ->
  d ∈ w_registry (n_world n) -> dev_session_id d <> sid.
Proof. intros Hok Hc Hp Hd Hs. destruct (entry_of_session _ _ _ _ Hok Hc Hd Hs) as (a & ? & _). congruence. Qed.

Lemma manager_of_session n sid c :
  net_ok n -> w_connections (n_world n) !! sid = Some c -> c_cleanup c <> Closed ->
  w_manager (n_world n) !! sid = Some sid.
Proof. intros Hok Hc Hn. by rewrite (ok_manager _ Hok), Hc, bool_decide_false. Qed.

Lemma lookup_update_ne sid f w j : j <> sid -> w_connections (update sid f w) !! j = w_connections w !! j.
Proof. intros. cbn. by rewrite lookup_alter_ne. Qed.

Lemma candidate_matches my outgoing fd sid name type a :
  device_matches (candidate_device my outgoing fd sid name type a) sid a.
Proof. by split. Qed.

Lemma enter_ok n sid a name type :
  net_ok n -> free sid (n_world n) ->
  net_ok (set_world (snd (activate_enter my_device_id sid a name type (n_world n))) n).
Proof.
  intros Hok (c & Hc & Hb). pose proof (busy_critical _ Hb) as Hcr. pose proof (ok_conns _ Hok _ _ Hc) as [H1 H2 H3 H4 H5 H6].
  unfold activate_enter. rewrite !bind_gets, (conn_lookup _ _ _ Hc).
  unfold activation_refused. destruct (c_stopping c) eqn:Hs; [by destruct n|]. destruct (c_ready c) eqn:Hr; [by destruct n|].
  cbn [orb]. destruct (_ <=? _); [by destruct n|]. destruct (register_live_check _ _ _); [|by destruct n].
  assert (Hcl : c_cleanup c = NotCleaned).
  { destruct (decide (c_cleanup c = NotCleaned)) as [|Hn]; [done|]. apply H3 in Hn. congruence. }
  assert (Hw : watched c = None) by (unfold watched; by rewrite Hr, Hcr).
  assert (Hp : published c = None) by (unfold published; by rewrite Hr, Hcr).
  set (d := candidate_device _ _ _ _ _ _ _).
  eapply (net_ok_update n _ sid c (set_critical (Some (CurrentChecked a d)) c) Hok Hc); cbn.
  - by apply lookup_update.
  - intros j Hj. by apply lookup_update_ne.
  - done.
  - done.
  - done.
  - split; unfold watched; cbn; rewrite ?Hs, ?Hr, ?Hcl; done.
  - intros e He. rewrite (unwatched_free _ _ _ Hok Hc Hw) in He. done.
  - apply ok_registry, Hok.
  - intros d' Hd. left. split; [by eapply unpublished_free|done].
  - done.
  - rewrite Hcl. by apply (manager_of_session _ _ _ Hok Hc); rewrite Hcl.
Qed.

Lemma register_ok n sid c a d :
  net_ok n -> w_connections (n_world n) !! sid = Some c -> c_critical c = Some (CurrentChecked a d) ->
  net_ok (set_world (snd (activate_register sid a d (n_world n))) n).
Proof.
  intros Hok Hc Hcr. pose proof (ok_conns _ Hok _ _ Hc) as [H1 H2 H3 H4 H5 H6].
  destruct H2 as (Hs & Hr & Hcl); [by rewrite Hcr|]. rewrite Hcr in H4.
  assert (Hw : watched c = None) by (unfold watched; by rewrite Hr, Hcr).
  assert (Hp : published c = None) by (unfold published; by rewrite Hr, Hcr).
  pose proof (unwatched_free _ _ _ Hok Hc Hw) as Hnl.
  unfold activate_register. rewrite bind_gets. unfold register_live_insert. rewrite Hnl.
  rewrite (bool_decide_false (is_Some None)) by (by intros [? ?]). rewrite orb_false_r.
  destruct (au_stopping (w_auth (n_world n))) eqn:Hau; cbn.
  - eapply (net_ok_update n _ sid c (set_critical None c) Hok Hc); cbn; try done.
    + by apply lookup_update.
    + intros j Hj. by apply lookup_update_ne.
    + split; unfold watched; cbn; rewrite ?Hs, ?Hr, ?Hcl; done.
    + intros e He. congruence.
    + apply ok_registry, Hok.
    + intros d' Hd. left. split; [by eapply unpublished_free|done].
    + rewrite Hcl. by apply (manager_of_session _ _ _ Hok Hc); rewrite Hcl.
  - eapply (net_ok_update n _ sid c (set_critical (Some (LiveRegistered a d)) c) Hok Hc); cbn; try done.
    + cbn. by rewrite lookup_alter_eq, Hc.
    + intros j Hj. cbn. by rewrite lookup_alter_ne.
    + intros j Hj. by rewrite lookup_insert_ne.
    + split; unfold watched; cbn; rewrite ?Hs, ?Hr, ?Hcl; try done.
      intros a' [= <-]. left. by rewrite lookup_insert_eq.
    + intros e. rewrite lookup_insert_eq. intros [= <-]. exists a. unfold watched. cbn. by rewrite Hr.
    + apply ok_registry, Hok.
    + intros d' Hd. left. split; [by eapply unpublished_free|done].
    + rewrite Hcl. by apply (manager_of_session _ _ _ Hok Hc); rewrite Hcl.
Qed.

Lemma set_ready_matches d sid a : device_matches d sid a -> device_matches (set_dev_state READY d) sid a.
Proof. by intros []. Qed.

Lemma publish_step_ok n sid c a d :
  net_ok n -> w_connections (n_world n) !! sid = Some c -> c_critical c = Some (LiveRegistered a d) ->
  net_ok (set_world (snd (activate_publish sid a d (n_world n))) n).
Proof.
  intros Hok Hc Hcr. pose proof (ok_conns _ Hok _ _ Hc) as [H1 H2 H3 H4 H5 H6].
  destruct H2 as (Hs & Hr & Hcl); [by rewrite Hcr|]. rewrite Hcr in H4.
  assert (Hw : watched c = Some a) by (unfold watched; by rewrite Hr, Hcr).
  assert (Hp : published c = None) by (unfold published; by rewrite Hr, Hcr).
  unfold activate_publish. rewrite bind_gets. cbn [id].
  destruct (publish_authenticated_device (alive (n_world n)) d a (w_registry (n_world n))) as [r devices] eqn:Hpub.
  pose proof (publish_ok _ _ _ _ _ _ (ok_registry _ Hok) Hpub) as Hreg.
  unfold publish_authenticated_device in Hpub.
  destruct (accepted r) eqn:Hacc; cbn.
  - destruct (candidate_valid _ _ _); [|injection Hpub as <- _; done].
    apply publish_loop_spec in Hpub as [_ Hpub]. cbn zeta in Hpub. rewrite Hacc in Hpub.
    destruct Hpub as (_ & _ & _ & Hin & _).
    eapply (net_ok_update n _ sid c (set_critical (Some (Published a (replaced_device r))) c) Hok Hc); cbn; try done.
    + cbn. by rewrite lookup_alter_eq, Hc.
    + intros j Hj. cbn. by rewrite lookup_alter_ne.
    + split; unfold watched; cbn; rewrite ?Hs, ?Hr, ?Hcl; try done.
      intros a' [= <-]. destruct (H6 a Hw) as [?|[?|?]]; auto. congruence.
    + intros e He. destruct (live_of_session _ _ _ _ Hok Hc He) as (a' & Ha' & -> & _).
      exists a'. unfold watched in *. cbn. rewrite Hr in *. rewrite Hcr in Ha'. done.
    + intros d' [->|Hd]%Hin.
      * right. pose proof (dm_session _ _ _ H4) as Hsid. cbn. split; [done|]. exists a.
        unfold published. cbn. rewrite Hr. split_and!; [done|by apply set_ready_matches|auto].
      * left. split; [by eapply unpublished_free|done].
    + rewrite Hcl. by apply (manager_of_session _ _ _ Hok Hc); rewrite Hcl.
  - eapply (net_ok_update n _ sid c (set_critical None c) Hok Hc); cbn; try done.
    + cbn. by rewrite lookup_alter_eq, Hc.
    + intros j Hj. cbn. by rewrite lookup_alter_ne.
    + intros j Hj. by rewrite lookup_delete_ne.
    + split; unfold watched; cbn; rewrite ?Hs, ?Hr, ?Hcl; done.
    + intros e. by rewrite lookup_delete_eq.
    + apply ok_registry, Hok.
    + intros d' Hd. left. split; [by eapply unpublished_free|done].
    + rewrite Hcl. by apply (manager_of_session _ _ _ Hok Hc); rewrite Hcl.
Qed.

Lemma commit_ok n sid c a r reps :
  net_ok n -> w_connections (n_world n) !! sid = Some c -> c_critical c = Some (Published a r) ->
  net_ok (mkNet (snd (activate_commit sid a (n_world n))) (n_monitor n) (n_authorized n) reps).
Proof.
  intros Hok Hc Hcr. pose proof (ok_conns _ Hok _ _ Hc) as [H1 H2 H3 H4 H5 H6].
  destruct H2 as (Hs & Hr & Hcl); [by rewrite Hcr|].
  assert (Hw : watched c = Some a) by (unfold watched; by rewrite Hr, Hcr).
  assert (Hp : published c = Some a) by (unfold published; by rewrite Hr, Hcr).
  eapply (net_ok_update n _ sid c (set_ready a c) Hok Hc); cbn; try done.
  - by apply lookup_update.
  - intros j Hj. by apply lookup_update_ne.
  - split; unfold watched; cbn; rewrite ?Hs, ?Hr, ?Hcl; try done.
    intros a' [= <-]. destruct (H6 a Hw) as [?|[?|?]]; auto. congruence.
  - intros e He. destruct (live_of_session _ _ _ _ Hok Hc He) as (a' & Ha' & -> & _).
    exists a'. rewrite Hw in Ha'. injection Ha' as <-. done.
  - apply ok_registry, Hok.
  - intros d Hd. destruct (decide (dev_session_id d = sid)) as [Hsid|]; [right|by left]. split; [done|].
    destruct (entry_of_session _ _ _ _ Hok Hc Hd Hsid) as (a' & Ha' & ?). exists a'.
    rewrite Hp in Ha'. injection Ha' as <-. done.
  - rewrite Hcl. by apply (manager_of_session _ _ _ Hok Hc); rewrite Hcl.
Qed.

(** Cleanup: [sid] has already stopped. *)
Lemma cleanup_conn_ok live live' m sid c x :
  c_critical c = None -> c_stopping c = true -> conn_ok live m sid c -> conn_ok live' m sid (set_cleanup x c).
Proof. intros Hcr Hs [H1 H2 H3 H4 H5 H6]. split; unfold watched; cbn; rewrite ?Hcr; auto; done. Qed.

Lemma finalize_enter_ok n sid c :
  net_ok n -> w_connections (n_world n) !! sid = Some c -> busy c = false -> c_stopping c = true ->
  net_ok (set_world (snd (finalize_enter sid (n_world n))) n).
Proof.
  intros Hok Hc Hb Hs. pose proof (busy_critical _ Hb) as Hcr.
  unfold finalize_enter. rewrite bind_gets, (conn_lookup _ _ _ Hc). unfold c_cleaned_up.
  case_bool_decide as Hcl; cbn; [|by destruct n].
  eapply (net_ok_update n _ sid c (set_cleanup LiveRemoved c) Hok Hc); cbn; try done.
  - cbn. by rewrite lookup_alter_eq, Hc.
  - intros j Hj. cbn. by rewrite lookup_alter_ne.
  - intros j Hj. by rewrite lookup_delete_ne.
  - eapply cleanup_conn_ok; [done..|]. by apply ok_conns.
  - intros e. by rewrite lookup_delete_eq.
  - apply ok_registry, Hok.
  - intros d Hd. destruct (decide (dev_session_id d = sid)) as [Hsid|]; [right|by left]. split; [done|].
    destruct (entry_of_session _ _ _ _ Hok Hc Hd Hsid) as (a & ? & ? & _). exists a. auto.
  - by apply (manager_of_session _ _ _ Hok Hc); rewrite Hcl.
Qed.

Lemma cleanup_not_critical n sid c :
  net_ok n -> w_connections (n_world n) !! sid = Some c -> c_cleanup c <> NotCleaned ->
  c_critical c = None /\ c_stopping c = true.
Proof.
  intros Hok Hc Hcl. destruct (ok_conns _ Hok _ _ Hc) as [_ H2 H3 _ _ _]. split; [|auto].
  destruct (c_critical c); [|done]. destruct H2 as (_ & _ & ?); done.
Qed.

Lemma finalize_registry_ok n sid c :
  net_ok n -> w_connections (n_world n) !! sid = Some c -> c_cleanup c = LiveRemoved ->
  net_ok (set_world (snd (finalize_registry sid (n_world n))) n).
Proof.
  intros Hok Hc Hcl. destruct (cleanup_not_critical _ _ _ Hok Hc) as [Hcr Hs]; [by rewrite Hcl|].
  eapply (net_ok_update n _ sid c (set_cleanup RegistryRemoved c) Hok Hc); cbn; try done.
  - cbn. by rewrite lookup_alter_eq, Hc.
  - intros j Hj. cbn. by rewrite lookup_alter_ne.
  - eapply cleanup_conn_ok; [done..|]. by apply ok_conns.
  - intros e He. destruct (live_of_session _ _ _ _ Hok Hc He) as (a & _ & _ & ?). congruence.
  - apply remove_ok, Hok.
  - intros d [Hne Hd]%list_elem_of_filter. by left.
  - by apply (manager_of_session _ _ _ Hok Hc); rewrite Hcl.
Qed.

Lemma finalize_close_ok n sid c :
  net_ok n -> w_connections (n_world n) !! sid = Some c -> c_cleanup c = RegistryRemoved ->
  net_ok (set_world (snd (finalize_close sid (n_world n))) n).
Proof.
  intros Hok Hc Hcl. destruct (cleanup_not_critical _ _ _ Hok Hc) as [Hcr Hs]; [by rewrite Hcl|].
  eapply (net_ok_update n _ sid c (set_cleanup Closed c) Hok Hc); cbn; try done.
  - cbn. by rewrite lookup_alter_eq, Hc.
  - intros j Hj. cbn. by rewrite lookup_alter_ne.
  - eapply cleanup_conn_ok; [done..|]. by apply ok_conns.
  - intros e He. destruct (live_of_session _ _ _ _ Hok Hc He) as (a & _ & _ & ?). congruence.
  - apply ok_registry, Hok.
  - intros d Hd. left. split; [|done]. intros Hsid.
    destruct (entry_of_session _ _ _ _ Hok Hc Hd Hsid) as (a & _ & _ & [?|?]); congruence.
  - intros j Hj. unfold unregister_connection. by rewrite lookup_delete_ne.
  - apply lookup_delete_eq.
Qed.

(** The monitor changes the live authorizations only by erasing the entry whose
    callback it calls next. *)
Lemma monitor_step_live s au m au' m' :
  monitor_step s au m = Some (au', m') ->
  (au_live au' = au_live au /\ calls_invalidate m' = None) \/
  (calls_invalidate m = None /\ exists sid e, au_live au !! sid = Some e /\
     au_live au' = delete sid (au_live au) /\ calls_invalidate m' = la_invalidate e).
Proof.
  unfold monitor_step, after_wait, calls_invalidate.
  destruct (m_pc m) as [| | |force| |[|[sid e] rest]|[sid e] rest|inv rest|] eqn:Hpc;
    try (repeat case_match; intros [= <- <-]; left; done).
  destruct (au_live au !! sid) as [e'|] eqn:He; [|by intros [= <- <-]; left].
  destruct (_ && _ && _); [|by intros [= <- <-]; left]. intros [= <- <-]. right. split; [done|].
  by exists sid, e'.
Qed.

Lemma call_invalidate_stops m w sid c :
  calls_invalidate m = Some sid -> w_connections w !! sid = Some c ->
  (c_cleanup c = Closed -> c_stopping c = true) ->
  exists c', w_connections (call_invalidate m w) !! sid = Some c' /\ c_stopping c' = true.
Proof.
  intros Hm Hc Hcl. unfold call_invalidate. rewrite Hm. unfold alive. rewrite Hc. case_bool_decide as E.
  - exists c. auto.
  - exists (set_stopping true c). split; [|done]. by apply lookup_update.
Qed.

(** The call of the callback is a disconnect of a session that is not held. *)
Lemma call_invalidate_io m w :
  call_invalidate m w = w \/ exists sid, calls_invalidate m = Some sid /\ io_frame sid w (call_invalidate m w).
Proof.
  unfold call_invalidate. destruct (calls_invalidate m) as [sid|]; [|by left].
  destruct (alive w sid); [|by left]. right. exists sid. split; [done|]. apply request_disconnect_io.
Qed.

Lemma call_invalidate_ok n :
  net_ok n -> invalidate_enabled (n_monitor n) (n_world n) ->
  net_ok (set_world (call_invalidate (n_monitor n) (n_world n)) n).
Proof.
  intros Hok Hen. destruct (call_invalidate_io (n_monitor n) (n_world n)) as [->|(sid & Hm & Hio)]; [by destruct n|].
  unfold invalidate_enabled in Hen. rewrite Hm in Hen.
  destruct (w_connections (n_world n) !! sid) as [c|] eqn:Hc.
  - eapply net_ok_io; [done..|]. left. exists c. auto.
  - unfold call_invalidate. rewrite Hm. unfold alive. rewrite Hc. by destruct n.
Qed.

Lemma monitor_ok n au m :
  net_ok n -> monitor_step (w_store (n_world n)) (w_auth (n_world n)) (n_monitor n) = Some (au, m) ->
  invalidate_enabled (n_monitor n) (n_world n) ->
  net_ok (mkNet (set_auth au (call_invalidate (n_monitor n) (n_world n))) m (n_authorized n) (n_replaced n)).
Proof.
  intros Hok Hstep Hen. pose proof (call_invalidate_ok n Hok Hen) as Hok1.
  assert (Hau : w_auth (call_invalidate (n_monitor n) (n_world n)) = w_auth (n_world n)).
  { destruct (call_invalidate_io (n_monitor n) (n_world n)) as [->|(sid & _ & [])]; done. }
  destruct Hok1 as [Hids Hnext Hconns Hlive Hreg Hent Hman]; cbn in *. rewrite Hau in *.
  apply monitor_step_live in Hstep as [[Hl Hm']|(Hm & sid0 & e0 & He0 & Hl & Hm')].
  - split; cbn; rewrite ?Hl; try done.
    intros sid c Hc. destruct (Hconns _ _ Hc) as [H1 H2 H3 H4 H5 H6]. split; try done. rewrite Hm'.
    intros a [?|[?|Hi]]%H6; auto. right. left.
    destruct (call_invalidate_io (n_monitor n) (n_world n)) as [Heq|(sid1 & Hm1 & Hio)].
    + rewrite Heq in Hc. destruct (call_invalidate_stops _ _ _ _ Hi Hc) as (c' & Hc' & Hs').
      { intros Hcl. apply H3. by rewrite Hcl. }
      rewrite Heq in Hc'. congruence.
    + assert (sid1 = sid) as -> by congruence.
      destruct Hio as [_ _ _ _ _ _ _ Hio]. rewrite Hc in Hio.
      destruct (w_connections (n_world n) !! sid) as [c0|] eqn:Hc0; [|by inversion Hio].
      destruct (call_invalidate_stops _ _ _ _ Hi Hc0) as (c' & Hc' & Hs'); [|congruence].
      intros Hcl. apply (ok_conns _ Hok _ _ Hc0). by rewrite Hcl.
  - assert (Hm1 : calls_invalidate m = Some sid0).
    { rewrite Hm'. destruct (Hlive _ _ He0) as (c & a & _ & _ & -> & _). done. }
    split; cbn; rewrite ?Hl; try done.
    + intros sid c Hc. destruct (Hconns _ _ Hc) as [H1 H2 H3 H4 H5 H6]. split; try done.
      intros a [Ha|[?|Hi]]%H6; [|auto|congruence]. destruct (decide (sid = sid0)) as [->|Hne]; [auto|].
      left. by rewrite lookup_delete_ne.
    + intros sid e He. apply lookup_delete_Some in He as [_ He]. eauto.
Qed.

Lemma replaced_ok n r rest :
  net_ok n -> (forall sid, replaced_owner (n_world n) r = Some sid -> free sid (n_world n)) ->
  net_ok (mkNet (snd (disconnect_replaced r (n_world n))) (n_monitor n) (n_authorized n) rest).
Proof.
  intros Hok Hfree. eapply (net_ok_congr (set_world (snd (disconnect_replaced r (n_world n))) n)); try done.
  unfold disconnect_replaced. destruct r as [d|]; [|by destruct n]. rewrite bind_gets. cbn [id].
  unfold replaced_owner in Hfree. destruct (lock_weak (alive (n_world n)) (dev_connection d)) as [[sid st]|] eqn:E;
    [|by destruct n].
  eapply net_ok_io; [done|apply request_disconnect_io|]. left. by apply Hfree.
Qed.

Lemma step_ok n n' : net_ok n -> step n n' -> net_ok n'.
Proof.
  intros Hok Hstep. destruct Hstep.
  - by apply (net_ok_congr n).
  - by apply (net_ok_congr n).
  - by apply (net_ok_congr n).
  - by apply create_ok.
  - by apply (net_ok_congr n).
  - by apply enter_ok.
  - by eapply register_ok.
  - by eapply publish_step_ok.
  - by eapply commit_ok.
  - by apply replaced_ok.
  - eapply net_ok_io; [done|apply request_disconnect_io|by left].
  - eapply net_ok_io; [done|apply send_preface_io|by left].
  - eapply net_ok_io; [done|apply send_packet_io|by left].
  - by eapply net_ok_io; [|apply receive_iteration_io|].
  - by eapply finalize_enter_ok.
  - by eapply finalize_registry_ok.
  - by eapply finalize_close_ok.
  - by apply monitor_ok.
  - by apply (net_ok_congr n).
  - by apply (net_ok_congr n).
Qed.

Lemma reachable_ok n : reachable n -> net_ok n.
Proof. induction 1; [apply initial_ok|by eapply step_ok]. Qed.

(** ** Theorems *)

(** A session has at most one entry. *)
Lemma sessions_distinct n : net_ok n -> NoDup (dev_session_id <$> w_registry (n_world n)).
Proof.
  intros Hok. destruct (ok_registry _ Hok) as [Hids _].
  apply NoDup_fmap_2_strong; [|by eapply NoDup_fmap_1]. intros d1 d2 H1 H2 Heq.
  destruct (ok_entries _ Hok _ H1) as (c & a & Hc & Ha & Hm1 & _).
  destruct (entry_of_session _ _ _ _ Hok Hc H2 (eq_sym Heq)) as (a' & Ha' & Hm2 & _).
  assert (a' = a) as -> by congruence.
  pose proof (find_id_elem _ _ Hids H1) as F1. pose proof (find_id_elem _ _ Hids H2) as F2.
  rewrite (dm_id _ _ _ Hm1) in F1. rewrite (dm_id _ _ _ Hm2) in F2. congruence.
Qed.

(** The registry is sound in every reachable state of the concurrent system:
    one entry per device id and per session, every entry READY and held by an
    existing session that was published under an authorization with exactly the
    entry's device id, key, revision and permissions. *)
Theorem registry_sound n :
  reachable n ->
  NoDup (dev_id <$> w_registry (n_world n)) /\ NoDup (dev_session_id <$> w_registry (n_world n)) /\
  forall d, d ∈ w_registry (n_world n) -> dev_state d = READY /\
    exists c a, w_connections (n_world n) !! dev_session_id d = Some c /\ published c = Some a /\
      device_matches d (dev_session_id d) a.
Proof.
  intros Hok%reachable_ok. destruct (ok_registry _ Hok) as [Hids Hready]. split_and!; [done| |].
  - by apply sessions_distinct.
  - intros d Hd. rewrite Forall_forall in Hready. split; [by apply Hready|].
    destruct (ok_entries _ Hok _ Hd) as (c & a & ? & ? & ? & _). eauto.
Qed.

(** C12. No READY session escapes the monitor: in every reachable state, a session
    that is READY and not stopping has an authorization, and either it is among
    the live authorizations with exactly that authorization and its own callback,
    or the monitor has just found it stale and is about to stop it. *)
Theorem ready_sessions_watched n sid c :
  reachable n -> w_connections (n_world n) !! sid = Some c -> c_ready c = true -> c_stopping c = false ->
  exists a, c_authorized_peer c = Some a /\
    (au_live (w_auth (n_world n)) !! sid = Some (live_entry sid a) \/ calls_invalidate (n_monitor n) = Some sid).
Proof.
  intros Hok%reachable_ok Hc Hr Hs. destruct (ok_conns _ Hok _ _ Hc) as [H1 _ _ _ _ H6].
  destruct (H1 Hr) as [a Ha]. exists a. split; [done|].
  destruct (H6 a) as [?|[?|?]]; [by unfold watched; rewrite Hr|by left|congruence|by right].
Qed.

(** Cleanup leaves nothing behind: in every reachable state, a closed session
    has no live authorization, no registry entry and no manager entry; and a
    session that is not closed is still found by the manager. *)
Theorem cleanup_complete n sid c :
  reachable n -> w_connections (n_world n) !! sid = Some c ->
  (c_cleanup c = Closed ->
     au_live (w_auth (n_world n)) !! sid = None /\ w_manager (n_world n) !! sid = None /\
     forall d, d ∈ w_registry (n_world n) -> dev_session_id d <> sid) /\
  (c_cleanup c <> Closed -> w_manager (n_world n) !! sid = Some sid).
Proof.
  intros Hok%reachable_ok Hc. split; [|by apply manager_of_session].
  intros Hcl. split_and!.
  - destruct (au_live _ !! sid) eqn:E; [|done].
    destruct (live_of_session _ _ _ _ Hok Hc E) as (a & _ & _ & ?). congruence.
  - by rewrite (ok_manager _ Hok), Hc, bool_decide_true.
  - intros d Hd Hsid. destruct (entry_of_session _ _ _ _ Hok Hc Hd Hsid) as (a & _ & _ & [?|?]); congruence.
Qed.

(** The outgoing streams are well formed in every reachable state: what a
    session has sent is a sequence of complete units -- the preface and records
    of at most 65535 bytes -- and only a session that is stopping may end in a
    part of one; so no bytes ever follow a partial frame. *)
Theorem streams_well_formed n sid c :
  reachable n -> w_connections (n_world n) !! sid = Some c ->
  exists us tail, c_sent c = concat (unit_bytes <$> us) ++ tail /\ Forall unit_ok us /\
    (tail = [] \/ c_stopping c = true /\ exists u, unit_ok u /\ tail `prefix_of` unit_bytes u).
Proof. intros Hok%reachable_ok Hc. apply (ok_conns _ Hok _ _ Hc). Qed.

(** *** The life of a session *)

Definition cleanup_rank (x : Cleanup) : nat :=
  match x with NotCleaned => 0 | LiveRemoved => 1 | RegistryRemoved => 2 | Closed => 3 end.

Record lifecycle (c c' : Connection) : Prop := {
  lc_stopping : c_stopping c = true -> c_stopping c' = true;
  lc_ready : c_ready c = true -> c_ready c' = true /\ c_authorized_peer c' = c_authorized_peer c;
  lc_late : c_stopping c = true -> c_ready c' = c_ready c;
  lc_cleanup : (cleanup_rank (c_cleanup c) <= cleanup_rank (c_cleanup c'))%nat;
  lc_fixed : c_socket_fd c' = c_socket_fd c /\ c_role c' = c_role c /\ c_handshake_deadline c' = c_handshake_deadline c
}.

Lemma lifecycle_refl c : lifecycle c c.
Proof. by split. Qed.
Lemma lifecycle_io c c' : io_evolve c c' -> lifecycle c c'.
Proof. intros []. split; try congruence; try done. - intros. split; congruence. - rewrite ev_cleanup. done. Qed.

Lemma lifecycle_frame sid w w' j c :
  io_frame sid w w' -> w_connections w !! j = Some c ->
  exists c', w_connections w' !! j = Some c' /\ lifecycle c c'.
Proof.
  intros [] Hj. destruct (decide (j = sid)) as [->|Hne].
  - rewrite Hj in fr_conn. inversion fr_conn; subst. eexists. split; [done|]. by apply lifecycle_io.
  - exists c. rewrite fr_others by done. split; [done|apply lifecycle_refl].
Qed.

(** An update of one session. *)
Lemma lifecycle_update sid f w w' j c :
  w_connections w' = w_connections (update sid f w) -> w_connections w !! j = Some c ->
  (j = sid -> lifecycle c (f c)) -> exists c', w_connections w' !! j = Some c' /\ lifecycle c c'.
Proof.
  intros -> Hj Hf. destruct (decide (j = sid)) as [->|Hne].
  - exists (f c). split; [by apply lookup_update|auto].
  - exists c. rewrite lookup_update_ne by done. split; [done|apply lifecycle_refl].
Qed.

Lemma lifecycle_same w w' j c :
  w_connections w' = w_connections w -> w_connections w !! j = Some c ->
  exists c', w_connections w' !! j = Some c' /\ lifecycle c c'.
Proof. intros -> Hj. exists c. split; [done|apply lifecycle_refl]. Qed.

Lemma activate_enter_connections sid a name type w :
  w_connections (snd (activate_enter my_device_id sid a name type w)) = w_connections w \/
  exists x, w_connections (snd (activate_enter my_device_id sid a name type w)) = w_connections (update sid (set_critical x) w).
Proof.
  unfold activate_enter. rewrite !bind_gets. destruct (activation_refused _ _); [by left|].
  destruct (register_live_check _ _ _); [right; by eexists|by left].
Qed.
Lemma activate_register_connections sid a d w :
  exists x, w_connections (snd (activate_register sid a d w)) = w_connections (update sid (set_critical x) w).
Proof.
  unfold activate_register. rewrite bind_gets. destruct (register_live_insert _ _ _ _) as [[|] ?]; by eexists.
Qed.
Lemma activate_publish_connections sid a d w :
  exists x, w_connections (snd (activate_publish sid a d w)) = w_connections (update sid (set_critical x) w).
Proof.
  unfold activate_publish. rewrite bind_gets. destruct (publish_authenticated_device _ _ _ _) as [r ?].
  destruct (accepted r); by eexists.
Qed.
Lemma lifecycle_critical c x : lifecycle c (set_critical x c).
Proof. by split. Qed.

Lemma step_lifecycle n n' j c :
  net_ok n -> step n n' -> w_connections (n_world n) !! j = Some c ->
  exists c', w_connections (n_world n') !! j = Some c' /\ lifecycle c c'.
Proof.
  intros Hok Hstep Hj. destruct Hstep as [| | |n fd role Hlt| |n sid a name type _ _|n sid c0 a d Hc Hcr|n sid c0 a d Hc Hcr
    |n sid c0 a r Hc Hcr|n r rest _ _|n sid _|n sid _|n sid p _|n sid ev _|n sid c0 Hc Hb Hs|n sid c0 Hc Hcl|n sid c0 Hc Hcl|n au m _ _| |];
    try (by apply (lifecycle_same (n_world n))).
  - exists c. split; [|apply lifecycle_refl]. cbn. rewrite lookup_insert_ne; [done|].
    intros <-. apply (ok_ids _ Hok) in Hj. lia.
  - cbn [set_world n_world]. destruct (activate_enter_connections sid a name type (n_world n)) as [Heq|[x Heq]].
    + by apply (lifecycle_same (n_world n)).
    + eapply lifecycle_update; [exact Heq|done|]. intros _. apply lifecycle_critical.
  - cbn [set_world n_world]. destruct (activate_register_connections sid a d (n_world n)) as [x Heq].
    eapply lifecycle_update; [exact Heq|done|]. intros _. apply lifecycle_critical.
  - cbn [set_world n_world]. destruct (activate_publish_connections sid a d (n_world n)) as [x Heq].
    eapply lifecycle_update; [exact Heq|done|]. intros _. apply lifecycle_critical.
  - eapply (lifecycle_update sid (set_ready a)); [done|exact Hj|]. intros ->.
    assert (c0 = c) as -> by congruence.
    destruct (ok_conns _ Hok _ _ Hc) as [_ H2 _ _ _ _]. destruct H2 as (Hs & Hr & _); [by rewrite Hcr|].
    split; try done; intros; congruence.
  - cbn [set_world n_world]. unfold disconnect_replaced. destruct r as [d|]; [|by apply (lifecycle_same (n_world n))]. rewrite bind_gets.
    destruct (lock_weak _ _) as [[o ?]|]; [|by apply (lifecycle_same (n_world n))].
    eapply (lifecycle_frame o); [apply request_disconnect_io|done].
  - eapply lifecycle_frame; [apply request_disconnect_io|done].
  - eapply lifecycle_frame; [apply send_preface_io|done].
  - eapply lifecycle_frame; [apply send_packet_io|done].
  - eapply lifecycle_frame; [apply receive_iteration_io|done].
  - cbn [set_world n_world]. unfold finalize_enter. rewrite bind_gets, (conn_lookup _ _ _ Hc). unfold c_cleaned_up.
    case_bool_decide as E; cbn [negb]; [|by apply (lifecycle_same (n_world n))].
    eapply (lifecycle_update sid (set_cleanup LiveRemoved)); [done|exact Hj|]. intros ->.
    assert (c0 = c) as -> by congruence. split; cbn; try done. rewrite E. cbn. lia.
  - eapply (lifecycle_update sid (set_cleanup RegistryRemoved)); [done|exact Hj|]. intros ->.
    assert (c0 = c) as -> by congruence. split; cbn; try done. rewrite Hcl. cbn. lia.
  - eapply (lifecycle_update sid (set_cleanup Closed)); [done|exact Hj|]. intros ->.
    assert (c0 = c) as -> by congruence. split; cbn; try done. rewrite Hcl. cbn. lia.
  - cbn [set_world n_world]. destruct (call_invalidate_io (n_monitor n) (n_world n)) as [Heq|(sid & _ & Hio)].
    + rewrite Heq. by apply (lifecycle_same (n_world n)).
    + exact (lifecycle_frame _ _ _ _ _ Hio Hj).
Qed.

(** Sessions only move forward: from any reachable state, every step keeps
    every session; a session that is stopping stays so, one that is READY stays
    READY under the same authorization, one that was stopping before it was READY
    never becomes READY, and cleanup never goes back. *)
Theorem session_lifecycle n n' sid c :
  reachable n -> step n n' -> w_connections (n_world n) !! sid = Some c ->
  exists c', w_connections (n_world n') !! sid = Some c' /\ lifecycle c c'.
Proof. intros Hok%reachable_ok. by apply step_lifecycle. Qed.

(** *** Where the authorization of a READY session comes from *)

(** Executions: the past states, newest first, and the current one. *)
Inductive execution : list Net -> Net -> Prop :=
| execution_initial s clock : execution [] (initial s clock)
| execution_step past n n' : execution past n -> step n n' -> execution (n :: past) n'.

Lemma execution_ok past n : execution past n -> net_ok n.
Proof. induction 1; [apply initial_ok|by eapply step_ok]. Qed.

Lemma execution_reachable past n : execution past n -> reachable n.
Proof. induction 1; [apply reachable_initial|by eapply reachable_step]. Qed.

(** The authorization a session is READY with, or is being activated with. *)
Definition carried (c : Connection) : option AuthorizedPeer :=
  if c_ready c then c_authorized_peer c
  else match c_critical c with
       | Some (CurrentChecked a _) | Some (LiveRegistered a _) | Some (Published a _) => Some a
       | None => None
       end.

(** Every carried authorization was carried before. *)
Definition carries_less (w w' : World) : Prop :=
  forall sid c' a, w_connections w' !! sid = Some c' -> carried c' = Some a ->
  exists c, w_connections w !! sid = Some c /\ carried c = Some a.

Lemma carries_same w w' : w_connections w' = w_connections w -> carries_less w w'.
Proof. intros Heq sid c' a Hc Ha. rewrite Heq in Hc. eauto. Qed.

Lemma carries_io sid w w' : io_frame sid w w' -> carries_less w w'.
Proof.
  intros [] j c' a Hj Ha. destruct (decide (j = sid)) as [->|Hne]; [|rewrite fr_others in Hj by done; eauto].
  rewrite Hj in fr_conn. inversion fr_conn as [c ? Hev Hl|]; subst. exists c. split; [done|].
  revert Ha. destruct Hev. unfold carried. by rewrite ev_ready, ev_authorized, ev_critical.
Qed.

Lemma carries_m {A} sid (m : stx World Exn A) w : IoOnly sid m -> carries_less w (snd (m w)).
Proof. intros Hm. exact (carries_io sid _ _ (Hm w)). Qed.

Lemma carries_update sid f w w' c :
  w_connections w' = w_connections (update sid f w) -> w_connections w !! sid = Some c ->
  (forall a, carried (f c) = Some a -> carried c = Some a) -> carries_less w w'.
Proof.
  intros Heq Hc Hf j c' a Hj Ha. rewrite Heq in Hj. destruct (decide (j = sid)) as [->|Hne].
  - rewrite (lookup_update _ _ _ _ Hc) in Hj. injection Hj as <-. eauto.
  - rewrite lookup_update_ne in Hj by done. eauto.
Qed.

Lemma register_carries sid c a d w :
  w_connections w !! sid = Some c -> c_critical c = Some (CurrentChecked a d) -> c_ready c = false ->
  carries_less w (snd (activate_register sid a d w)).
Proof.
  intros Hc Hcr Hr. unfold activate_register. rewrite bind_gets.
  destruct (register_live_insert _ _ _ _) as [[|] ?]; eapply carries_update; try done; unfold carried; cbn; by rewrite Hr, ?Hcr.
Qed.
Lemma publish_carries sid c a d w :
  w_connections w !! sid = Some c -> c_critical c = Some (LiveRegistered a d) -> c_ready c = false ->
  carries_less w (snd (activate_publish sid a d w)).
Proof.
  intros Hc Hcr Hr. unfold activate_publish. rewrite bind_gets.
  destruct (publish_authenticated_device _ _ _ _) as [r ?].
  destruct (accepted r); eapply carries_update; try done; unfold carried; cbn; by rewrite Hr, ?Hcr.
Qed.

Lemma step_carried n n' sid c' a :
  net_ok n -> step n n' -> w_connections (n_world n') !! sid = Some c' -> carried c' = Some a ->
  (exists c, w_connections (n_world n) !! sid = Some c /\ carried c = Some a) \/
  (authorization_is_current (w_store (n_world n)) a = true /\ (sid, a) ∈ n_authorized n).
Proof.
  intros Hok Hstep. revert sid c' a.
  destruct Hstep as [| | |n fd role Hlt| |n sid a name type Hin (c & Hc & Hb)|n sid c a d Hc Hcr|n sid c a d Hc Hcr
    |n sid c a r Hc Hcr|n r rest _ _|n sid _|n sid _|n sid p _|n sid ev _|n sid c Hc Hb Hs|n sid c Hc Hcl|n sid c Hc Hcl|n au m _ _| |];
    try (intros sid' c' a' Hc' Ha'; left; by eapply (carries_same (n_world n)));
    try (pose proof (proj1 (proj2 (co_critical _ _ _ _ (ok_conns _ Hok _ _ Hc) ltac:(by rewrite Hcr)))) as Hr).
  - intros j c' a' Hc' Ha'. left. cbn in Hc'. apply lookup_insert_Some in Hc' as [[_ <-]|[_ Hc']]; [done|eauto].
  - cbn [set_world n_world]. unfold activate_enter. rewrite !bind_gets.
    destruct (activation_refused _ _) eqn:Hrf; [eauto|]. destruct (register_live_check _ _ _) eqn:Hchk; [|eauto].
    intros j c' a' Hj Ha'. cbn [snd] in Hj. destruct (decide (j = sid)) as [->|Hne].
    + unfold bind in Hj. cbn -[update] in Hj. rewrite (lookup_update _ _ _ _ Hc) in Hj. injection Hj as <-.
      rewrite (conn_lookup _ _ _ Hc) in Hrf. unfold activation_refused in Hrf. revert Ha'. unfold carried. cbn.
      destruct (c_ready c); [by rewrite orb_true_r in Hrf|]. intros [= <-]. right. split; [|done].
      unfold register_live_check in Hchk. by bool_inv.
    + left. cbn -[update] in Hj. rewrite lookup_update_ne in Hj by done. eauto.
  - intros j c' a' Hj Ha'. left. exact (register_carries sid c a d _ Hc Hcr Hr _ _ _ Hj Ha').
  - intros j c' a' Hj Ha'. left. exact (publish_carries sid c a d _ Hc Hcr Hr _ _ _ Hj Ha').
  - intros j c' a' Hj Ha'. left. eapply (carries_update sid (set_ready a) (n_world n)); [done|exact Hc| |exact Hj|done].
    unfold carried. cbn. by rewrite Hr, Hcr.
  - intros j c' a' Hj Ha'. left. cbn [set_world n_world] in Hj. unfold disconnect_replaced in Hj. destruct r as [d|]; [|eauto].
    rewrite bind_gets in Hj. destruct (lock_weak _ _) as [[o ?]|]; [|eauto].
    exact (carries_m o _ _ _ _ _ _ Hj Ha').
  - intros j c' a' Hj Ha'. left. exact (carries_m sid _ _ _ _ _ _ Hj Ha').
  - intros j c' a' Hj Ha'. left. exact (carries_m sid _ _ _ _ _ _ Hj Ha').
  - intros j c' a' Hj Ha'. left. exact (carries_m sid _ _ _ _ _ _ Hj Ha').
  - intros j c' a' Hj Ha'. left. exact (carries_m sid _ _ _ _ _ _ Hj Ha').
  - intros j c' a' Hj Ha'. left. cbn [set_world n_world] in Hj. unfold finalize_enter in Hj.
    rewrite bind_gets in Hj. destruct (c_cleaned_up _); [eauto|].
    by eapply (carries_update sid (set_cleanup LiveRemoved) (n_world n)).
  - intros j c' a' Hj Ha'. left. by eapply (carries_update sid (set_cleanup RegistryRemoved) (n_world n)).
  - intros j c' a' Hj Ha'. left. by eapply (carries_update sid (set_cleanup Closed) (n_world n)).
  - intros j c' a' Hj Ha'. left. cbn [set_world n_world] in Hj.
    destruct (call_invalidate_io (n_monitor n) (n_world n)) as [Heq|(sid & _ & Hio)].
    + rewrite Heq in Hj. eauto.
    + by eapply (carries_io sid).
Qed.

(** Authorizations are issued for other devices, under the verified UUID. *)
Lemma step_authorized n n' sid a :
  step n n' -> (sid, a) ∈ n_authorized n' ->
  (sid, a) ∈ n_authorized n \/ (ap_device_id a <> my_device_id /\ ap_device_id a = trust_uuid_to_string (ap_uuid a)).
Proof.
  destruct 1 as [| | | |n sid' identity a' _ Hauth| | | | | | | | | | | | | | |]; try (by left).
  cbn. intros [Heq|Hin]%elem_of_cons; [|by left]. injection Heq as -> ->. right.
  unfold authorize_verified_identity, authorize_verified_peer in Hauth.
  destruct (activation_refused _ _); [done|].
  destruct (query_authorization _ _ _) as [[q|]|]; try done. cbn in Hauth.
  case_bool_decide as Hid; [done|]. injection Hauth as <-. by cbn.
Qed.

Lemma execution_authorized past n sid a :
  execution past n -> (sid, a) ∈ n_authorized n ->
  ap_device_id a <> my_device_id /\ ap_device_id a = trust_uuid_to_string (ap_uuid a).
Proof.
  induction 1 as [|past n n' _ IH Hs]; [by intros ?%not_elem_of_nil|].
  intros [?|?]%(step_authorized _ _ _ _ Hs); auto.
Qed.

(** The history of a READY session. *)
Lemma ready_history past n sid c :
  execution past n -> w_connections (n_world n) !! sid = Some c -> c_ready c = true ->
  exists a n0, c_authorized_peer c = Some a /\ n0 ∈ past /\
    authorization_is_current (w_store (n_world n0)) a = true /\
    ap_device_id a <> my_device_id /\ ap_device_id a = trust_uuid_to_string (ap_uuid a).
Proof.
  intros He Hc Hr. pose proof (ok_conns _ (execution_ok _ _ He) _ _ Hc) as Hok.
  destruct (co_authorized _ _ _ _ Hok Hr) as [a Ha]. exists a.
  assert (Hca : carried c = Some a) by (unfold carried; by rewrite Hr).
  enough (exists n0, n0 ∈ past /\ authorization_is_current (w_store (n_world n0)) a = true /\
    ap_device_id a <> my_device_id /\ ap_device_id a = trust_uuid_to_string (ap_uuid a)) as (n0 & H) by eauto.
  clear Hr Hok Ha. revert c Hc Hca. induction He as [s clock|past n n' He IH Hs]; intros c Hc Hca.
  - cbn in Hc. by rewrite lookup_empty in Hc.
  - destruct (step_carried _ _ _ _ _ (execution_ok _ _ He) Hs Hc Hca) as [(c0 & Hc0 & Hca0)|[Hcur Hin]].
    + destruct (IH _ Hc0 Hca0) as (n0 & Hn0 & H). exists n0. split; [by right|done].
    + exists n. split; [left|]. split; [done|]. by eapply execution_authorized.
Qed.

(** Where readiness comes from: in every execution, a READY session's
    authorization was current in the trust store at an earlier moment (the one at
    which its activation started), belongs to another device, and names the device
    whose identity was verified. *)
Theorem ready_was_current past n sid c :
  execution past n -> w_connections (n_world n) !! sid = Some c -> c_ready c = true ->
  exists a n0, c_authorized_peer c = Some a /\ n0 ∈ past /\
    authorization_is_current (w_store (n_world n0)) a = true /\
    ap_device_id a <> my_device_id /\ ap_device_id a = trust_uuid_to_string (ap_uuid a).
Proof. apply ready_history. Qed.
End network.

(** ** A scenario: a session becomes READY, its peer is revoked, the session ends *)

Module NetworkScenario.
Import Scenario AuthScenario SmallJson ConnectionScenario.

Definition dev1 : Device := candidate_device my_id true 5 1 "desk" "linux" authorized1.

Definition n0 : Net := initial store_ready 0.
Definition n1 : Net := set_world (snd (create 5 Outgoing (n_world n0))) n0.
Definition n2 : Net := mkNet (n_world n1) (n_monitor n1) [(1, authorized1)] [].
Definition n3 : Net := set_world (snd (activate_enter my_id 1 authorized1 "desk" "linux" (n_world n2))) n2.
Definition n4 : Net := set_world (snd (activate_register 1 authorized1 dev1 (n_world n3))) n3.
Definition n5 : Net := set_world (snd (activate_publish 1 authorized1 dev1 (n_world n4))) n4.
Definition n6 : Net := mkNet (snd (activate_commit 1 authorized1 (n_world n5))) (n_monitor n5) (n_authorized n5) [None].
Definition n7 : Net := set_world (set_sends [Sent 1000; Sent 5] (n_world n6)) n6.
Definition n8 : Net := set_world (snd (send_preface 1 (n_world n7))) n7.
Definition n9 : Net := set_world (set_store revoked_store (n_world n8)) n8.
Definition n13 : Net := set_world (snd (request_disconnect 1 (n_world n9))) n9.
Definition n14 : Net := set_world (snd (finalize_enter 1 (n_world n13))) n13.
Definition n15 : Net := set_world (snd (finalize_registry 1 (n_world n14))) n14.
Definition n16 : Net := set_world (snd (finalize_close 1 (n_world n15))) n15.

Strategy expand [n1 n3 n4 n5 n6 n8 n13 n14 n15 n16].

Lemma step1 : step my_id n0 n1.
Proof. apply (step_create my_id n0 5 Outgoing). vm_compute. reflexivity. Qed.
Lemma step2 : step my_id n1 n2.
Proof.
  apply (step_authorize my_id n1 1 identity1 authorized1); [vm_compute; by eexists|vm_compute; reflexivity].
Qed.
Lemma step3 : step my_id n2 n3.
Proof.
  apply (step_enter my_id n2 1 authorized1 "desk" "linux"); [by left|].
  exists (conn 1 (n_world n2)). split; vm_compute; reflexivity.
Qed.
Lemma step4 : step my_id n3 n4.
Proof. apply (step_register my_id n3 1 (conn 1 (n_world n3))); vm_compute; reflexivity. Qed.
Lemma step5 : step my_id n4 n5.
Proof. apply (step_publish my_id n4 1 (conn 1 (n_world n4))); vm_compute; reflexivity. Qed.
Lemma step6 : step my_id n5 n6.
Proof. apply (step_commit my_id n5 1 (conn 1 (n_world n5)) authorized1 None); vm_compute; reflexivity. Qed.
Lemma step7 : step my_id n6 n7.
Proof. apply step_sends. Qed.
Lemma step8 : step my_id n7 n8.
Proof. apply step_preface. exists (conn 1 (n_world n7)). split; vm_compute; reflexivity. Qed.
Lemma step9 : step my_id n8 n9.
Proof. apply step_store. Qed.

Lemma step13 : step my_id n9 n13.
Proof. apply step_disconnect. exists (conn 1 (n_world n9)). split; vm_compute; reflexivity. Qed.
Lemma step14 : step my_id n13 n14.
Proof. apply (step_finalize my_id n13 1 (conn 1 (n_world n13))); vm_compute; reflexivity. Qed.
Lemma step15 : step my_id n14 n15.
Proof. apply (step_unregister my_id n14 1 (conn 1 (n_world n14))); vm_compute; reflexivity. Qed.
Lemma step16 : step my_id n15 n16.
Proof. apply (step_close my_id n15 1 (conn 1 (n_world n15))); vm_compute; reflexivity. Qed.

Lemma execution9 : execution my_id [n8; n7; n6; n5; n4; n3; n2; n1; n0] n9.
Proof.
  repeat (eapply execution_step; [|first [exact step9|exact step8|exact step7|exact step6|exact step5|exact step4
    |exact step3|exact step2|exact step1]]). apply execution_initial.
Qed.
Lemma reachable9 : reachable my_id n9.
Proof. exact (execution_reachable _ _ _ execution9). Qed.
Lemma reachable16 : reachable my_id n16.
Proof.
  exact (reachable_step my_id n15 n16 (reachable_step my_id n14 n15 (reachable_step my_id n13 n14
    (reachable_step my_id n9 n13 reachable9 step13) step14) step15) step16).
Qed.

Lemma registry_sound_witness : NoDup (dev_id <$> w_registry (n_world n9)) /\ w_registry (n_world n9) <> [].
Proof. split; [exact (proj1 (registry_sound my_id n9 reachable9))|vm_compute; discriminate]. Defined.

Lemma ready_sessions_watched_witness :
  exists a, c_authorized_peer (conn 1 (n_world n9)) = Some a /\
    (au_live (w_auth (n_world n9)) !! 1 = Some (live_entry 1 a) \/ calls_invalidate (n_monitor n9) = Some 1).
Proof. apply (ready_sessions_watched my_id n9 1 _ reachable9); vm_compute; reflexivity. Defined.

Lemma cleanup_complete_witness :
  c_cleanup (conn 1 (n_world n16)) = Closed /\ au_live (w_auth (n_world n16)) !! 1 = None.
Proof.
  assert (Hcl : c_cleanup (conn 1 (n_world n16)) = Closed) by (vm_compute; reflexivity).
  split; [exact Hcl|].
  refine (proj1 (proj1 (cleanup_complete my_id n16 1 (conn 1 (n_world n16)) reachable16 _) Hcl)).
  vm_compute. reflexivity.
Defined.

Lemma streams_well_formed_witness :
  exists us tail, c_sent (conn 1 (n_world n9)) = concat (unit_bytes <$> us) ++ tail /\ Forall unit_ok us /\
    (tail = [] \/ c_stopping (conn 1 (n_world n9)) = true /\ exists u, unit_ok u /\ tail `prefix_of` unit_bytes u).
Proof. apply (streams_well_formed my_id n9 1 _ reachable9). vm_compute. reflexivity. Defined.

Lemma session_lifecycle_witness :
  exists c', w_connections (n_world n13) !! 1 = Some c' /\ lifecycle (conn 1 (n_world n9)) c'.
Proof. apply (session_lifecycle my_id n9 n13 1 _ reachable9 step13). vm_compute. reflexivity. Defined.

Lemma ready_was_current_witness :
  exists a n, c_authorized_peer (conn 1 (n_world n9)) = Some a /\ n ∈ [n8; n7; n6; n5; n4; n3; n2; n1; n0] /\
    authorization_is_current (w_store (n_world n)) a = true.
Proof.
  destruct (ready_was_current my_id _ n9 1 (conn 1 (n_world n9)) execution9) as (a & n & Ha & Hn & Hc & _);
    [vm_compute; reflexivity..|]. exists a, n. auto.
Defined.
End NetworkScenario.
