(* ===== verification/Revocation.v ===== *)
(** * From a revocation to the end of the sessions

    The parts together, in every interleaving: requests change the trust store, made
    by this process or by another one; the change token tells the monitor; the monitor
    scans the live authorizations and stops the sessions it finds stale.  A [run] is
    any sequence of steps of the threads and of changes of the store, with the number
    of its steps and of those that are the monitor's.

    An authorization that the store does not hold any more is outdated for ever, since
    revisions only grow.  While its session is live, the monitor either has the
    session before it in the scan it is in ([armed]), or will see the change before it
    sleeps again ([alarm]).  [rank] bounds the monitor's own steps until it calls the
    callback of that session; no other thread increases it. *)

From S2P Require Import Prelude TrustTables TrustStore TrustLedger TrustContract SessionAuth Registry Packet Connection Network.

(** ** The monitor's work *)

Section monitoring.
Context {txt : SqlText}.

(** The token [change_token] reads. *)
Definition token_of (s : trust_store) : Z * Z := (im_local_generation s.2, to_int (im_data_version s.2)).

Lemma query_token_ok s token : query_token s = Ok token -> token = token_of s.
Proof.
  destruct s as [env im]. cbn. destruct (change_token env im) as [r im'] eqn:E. cbn. intros ->.
  by apply change_token_ok in E as [-> _].
Qed.

(** The next test of the token or of [force_scan_] will ask for a scan. *)
Definition alarm (s : trust_store) (au : Auth) (m : Monitor) : Prop :=
  au_force_scan au = true \/ m_last_token m <> Some (token_of s).

(** The entry will be looked at before the monitor is back at the top of its loop. *)
Definition armed (s : trust_store) (au : Auth) (m : Monitor) (x : Z * LiveAuthorization) : Prop :=
  match m_pc m with
  | MLoop | MWait | MWaitFor => alarm s au m
  | MToken force => force = true \/ m_last_token m <> Some (token_of s)
  | MSnapshot => True
  | MScan rest => x ∈ rest
  | MErase y rest => x = y \/ x ∈ rest
  | MInvalidate _ rest => x ∈ rest
  | MReturned => True
  end.

(** The monitor's steps to the end of its scan, when at most [l] sessions are live. *)
Definition rank (l : nat) (pc : MonitorPc) : nat :=
  match pc with
  | MScan rest => 3 * length rest
  | MErase _ rest => 3 * length rest + 2
  | MInvalidate _ rest => 3 * length rest + 1
  | MSnapshot => 3 * l + 1
  | MToken _ => 3 * l + 2
  | MWait | MWaitFor => 3 * l + 3
  | MLoop => 3 * l + 4
  | MReturned => 1
  end.

(** The entries still to be looked at. *)
Definition pending (pc : MonitorPc) : nat :=
  match pc with
  | MScan rest => length rest
  | MErase _ rest | MInvalidate _ rest => S (length rest)
  | _ => 0
  end.

Lemma in_key_order_elem live sid e : (sid, e) ∈ in_key_order live <-> live !! sid = Some e.
Proof. by rewrite in_key_order_perm, elem_of_map_to_list. Qed.
Lemma in_key_order_length live : length (in_key_order live) = size live.
Proof. by rewrite (Permutation_length (in_key_order_perm live)), length_map_to_list. Qed.

(** An armed entry that is stale stays armed until it is erased. *)
Lemma armed_step s au m au' m' l sid e :
  monitor_step s au m = Some (au', m') -> is_current s e = false -> (size (au_live au) <= l)%nat ->
  au_live au !! sid = Some e -> au_live au' !! sid = Some e -> armed s au m (sid, e) ->
  armed s au' m' (sid, e) /\ (rank l (m_pc m') < rank l (m_pc m))%nat.
Proof.
  destruct m as [pc tok]. unfold monitor_step, after_wait, armed, alarm. cbn [m_pc m_last_token set_pc].
  destruct pc as [| | |force| |[|[sid' e'] rest]|[sid' e'] rest|inv rest|]; intros Hstep Hst Hsize Hlive Hlive'.
  - destruct (_ && _); injection Hstep as <- <-; cbn; (split; [done|lia]).
  - destruct (_ || _ || _); [|done]. destruct (au_stopping au); injection Hstep as <- <-; cbn; (split; [done|lia]).
  - destruct (au_stopping au); injection Hstep as <- <-; cbn; (split; [done|lia]).
  - intros Ha. destruct (query_token s) as [token|err] eqn:Hq; [|injection Hstep as <- <-; cbn; split; [done|lia]].
    apply query_token_ok in Hq as ->.
    rewrite (proj2 (orb_true_iff force _)) in Hstep; [injection Hstep as <- <-; cbn; split; [done|lia]|].
    destruct Ha as [->|Ha]; [by left|right]. by rewrite (bool_decide_false _ Ha).
  - injection Hstep as <- <-. intros _. cbn [m_pc set_pc rank]. rewrite in_key_order_elem, in_key_order_length.
    split; [done|lia].
  - by intros ?%not_elem_of_nil.
  - intros Hin. destruct (matches_current _ _ _ _ _) eqn:Hc; injection Hstep as <- <-; cbn.
    + apply elem_of_cons in Hin as [[= <- <-]|Hin]; [unfold is_current in Hst; congruence|]. split; [done|lia].
    + apply elem_of_cons in Hin. split; [done|lia].
  - intros Hin. destruct (au_live au !! sid') as [live|] eqn:Hl; [destruct (_ && _) eqn:Hb|];
      injection Hstep as <- <-; cbn in *; (split; [|lia]); (destruct Hin as [[= <- <-]|Hin]; [exfalso|done]).
    + by rewrite lookup_delete_eq in Hlive'.
    + assert (live = e) as -> by congruence. by rewrite !bool_decide_true in Hb.
    + congruence.
  - intros Hin. injection Hstep as <- <-. cbn. split; [done|lia].
  - done.
Qed.

(** A pending alarm is kept, or arms the entry. *)
Lemma alarm_step s au m au' m' l sid e :
  monitor_step s au m = Some (au', m') -> is_current s e = false -> (size (au_live au) <= l)%nat ->
  au_live au !! sid = Some e -> au_live au' !! sid = Some e -> alarm s au m ->
  (armed s au' m' (sid, e) /\ (rank l (m_pc m') < rank l (m_pc m) + (3 * l + 5))%nat) \/
  (alarm s au' m' /\ (rank l (m_pc m') < rank l (m_pc m))%nat).
Proof.
  intros Hstep Hst Hsize Hl Hl' Ha.
  assert (armed s au m (sid, e) \/ ~ (m_pc m = MLoop \/ m_pc m = MWait \/ m_pc m = MWaitFor \/ m_pc m = MSnapshot)) as [Harm|Hpc].
  { unfold armed. destruct (m_pc m); auto; right; naive_solver. }
  { destruct (armed_step s au m au' m' l sid e) as [? ?]; [done..|]. left. split; [done|lia]. }
  destruct m as [pc tok]. unfold monitor_step, armed, alarm in *. cbn [m_pc m_last_token set_pc] in *.
  destruct pc as [| | |force| |[|[sid' e'] rest]|[sid' e'] rest|inv rest|]; try naive_solver.
  - left. destruct (query_token s) as [token|err] eqn:Hq; injection Hstep as <- <-; [|split; [done|cbn; lia]].
    apply query_token_ok in Hq as ->. destruct (force || _) eqn:Hb; cbn; (split; [|lia]); [done|]. left.
    apply orb_false_elim in Hb as [_ Hb]. apply negb_false_iff, bool_decide_eq_true_1 in Hb. naive_solver.
  - left. injection Hstep as <- <-. cbn. split; [done|lia].
  - right. destruct (matches_current _ _ _ _ _); injection Hstep as <- <-; cbn; (split; [done|lia]).
  - right. destruct (au_live au !! sid') as [live|]; [destruct (_ && _)|]; injection Hstep as <- <-; cbn; (split; [done|lia]).
  - right. injection Hstep as <- <-. cbn. split; [done|lia].
Qed.

(** The entry is looked at within [budget] steps of the monitor. *)
Definition covers (l budget : nat) (s : trust_store) (au : Auth) (m : Monitor) (x : Z * LiveAuthorization) : Prop :=
  (armed s au m x /\ (rank l (m_pc m) <= budget)%nat) \/
  (alarm s au m /\ (rank l (m_pc m) + (3 * l + 5) <= budget)%nat).

Lemma covers_positive l budget s au m x : covers l budget s au m x -> (0 < budget)%nat.
Proof.
  intros [[Ha Hb]|[_ Hb]]; [|lia]. unfold armed in Ha. destruct (m_pc m) as [| | |force| |[|y rest]|y rest|inv rest|]; cbn in *; try lia.
  by apply not_elem_of_nil in Ha.
Qed.

Lemma covers_step l budget s au m au' m' sid e :
  monitor_step s au m = Some (au', m') -> is_current s e = false -> (size (au_live au) <= l)%nat ->
  au_live au !! sid = Some e -> au_live au' !! sid = Some e ->
  covers l budget s au m (sid, e) -> covers l (pred budget) s au' m' (sid, e).
Proof.
  intros Hstep Hst Hl He He' [[Ha Hb]|[Ha Hb]].
  - destruct (armed_step s au m au' m' l sid e) as [? ?]; [done..|]. left. split; [done|lia].
  - destruct (alarm_step s au m au' m' l sid e) as [[? ?]|[? ?]]; [done..| |]; [left|right]; (split; [done|lia]).
Qed.

(** What the other threads may do to the guarded state: withdraw entries, and force a
    scan when they add one. *)
Record grows (au au' : Auth) : Prop := {
  gr_force : au_force_scan au = true -> au_force_scan au' = true;
  gr_stopping : au_stopping au = true -> au_stopping au' = true;
  gr_live sid e : au_live au' !! sid = Some e -> au_live au !! sid = Some e \/ au_force_scan au' = true
}.
Lemma grows_refl au : grows au au.
Proof. split; auto. Qed.

(** The token only moves away from the one that was read. *)
Definition token_le (t t' : Z * Z) : Prop := t.1 <= t'.1 /\ t.2 <= t'.2.
Definition read_before (m : Monitor) (s : trust_store) : Prop :=
  forall token, m_last_token m = Some token -> token_le token (token_of s).

Lemma token_moves s s' m :
  read_before m s -> token_le (token_of s) (token_of s') ->
  m_last_token m <> Some (token_of s) -> m_last_token m <> Some (token_of s').
Proof.
  intros Hr Hle Hne Heq. apply Hne. rewrite Heq. f_equal. destruct (Hr _ Heq), Hle.
  apply injective_projections; lia.
Qed.

Lemma armed_mono s s' au au' m x :
  read_before m s -> token_le (token_of s) (token_of s') -> grows au au' -> armed s au m x -> armed s' au' m x.
Proof.
  intros Hr Hle Hg. pose proof (token_moves s s' m Hr Hle). pose proof (gr_force _ _ Hg).
  unfold armed, alarm. destruct (m_pc m); naive_solver.
Qed.
Lemma alarm_mono s s' au au' m :
  read_before m s -> token_le (token_of s) (token_of s') -> grows au au' -> alarm s au m -> alarm s' au' m.
Proof. intros Hr Hle Hg [?|?]; [left; by apply Hg|right; by eapply token_moves]. Qed.

Lemma covers_mono l budget s s' au au' m x :
  read_before m s -> token_le (token_of s) (token_of s') -> grows au au' ->
  covers l budget s au m x -> covers l budget s' au' m x.
Proof. intros Hr Hle Hg [[? ?]|[? ?]]; [left|right]; eauto using armed_mono, alarm_mono. Qed.

Lemma monitor_step_read s au m au' m' :
  monitor_step s au m = Some (au', m') -> read_before m s -> read_before m' s.
Proof.
  unfold monitor_step, after_wait, read_before. intros Hstep Hr.
  destruct (m_pc m) as [| | |force| |[|[sid e] rest]|[sid e] rest|inv rest|];
    try (repeat case_match; simplify_eq; exact Hr).
  destruct (query_token s) as [token|err] eqn:Hq; injection Hstep as <- <-; [|done].
  apply query_token_ok in Hq as ->. cbn. intros ? [= <-]. by split.
Qed.
End monitoring.

(** ** Changes of the store *)

Section store.
Context {txt : SqlText}.

(** The store between two steps of the threads: the environment of the next call, a
    request of this process, or one of another process.  A commit of another process
    gives the connection a new data version; the numbers increase here, while the code
    only tests them for equality. *)
Inductive store_move : trust_store -> trust_store -> Prop :=
| move_environment env env' im : store_move (env, im) (env', im)
| move_request env env' e req im : store_move (env, im) (env', snd (execute e req im))
| move_other env env' e req im other data_version :
    let t := im_tables (snd (execute e req other)) in
    im_tables other = im_tables im ->
    to_int (im_data_version im) <= to_int data_version ->
    (t <> im_tables im -> to_int (im_data_version im) < to_int data_version) ->
    store_move (env, im) (env', mkImpl t (im_local_generation im) data_version (im_changes im) (im_calls im)).

(** The store holds exactly this authorization. *)
Definition holds (s : trust_store) (a : AuthorizedPeer) : Prop :=
  stored_matches s (ap_uuid a) (ap_public_key a) (ap_revision a) (ap_permissions a).
#[export] Instance holds_dec s a : Decision (holds s a).
Proof. unfold holds, stored_matches. apply _. Defined.

(** The entry of the peer has moved on. *)
Definition outdated (s : trust_store) (a : AuthorizedPeer) : Prop :=
  exists e, im_ledger s.2 !! ap_uuid a = Some e /\ ap_revision a < e_revision e.
(** The authorization was read from the store: it is the one held, or an older one. *)
Definition issued (s : trust_store) (a : AuthorizedPeer) : Prop := holds s a \/ outdated s a.

Lemma outdated_not_held s a : outdated s a -> ~ holds s a.
Proof.
  intros (e & He & Hlt) (e' & He' & Hr)%active_authorization_revision. unfold im_ledger in He.
  rewrite He in He'. injection He' as <-. lia.
Qed.
Lemma not_held_current s a : ~ holds s a -> authorization_is_current s a = false.
Proof. destruct (authorization_is_current s a) eqn:E; [|done]. by intros []%(fun H => H (matches_current_sound _ _ _ _ _ E)). Qed.

(** The ledger and the token after a change. *)
Record moved (s s' : trust_store) : Prop := {
  mv_tables : tables_ok (im_tables s'.2);
  mv_version : to_int (im_data_version s.2) <= to_int (im_data_version s'.2);
  mv_ledger :
    (im_ledger s'.2 = im_ledger s.2 /\ im_local_generation s'.2 = im_local_generation s.2) \/
    (exists v a, ledger_step v a (im_ledger s.2) (im_ledger s'.2) /\
       (im_local_generation s'.2 = u64_succ (im_local_generation s.2) \/
        im_local_generation s'.2 = im_local_generation s.2 /\
        to_int (im_data_version s.2) < to_int (im_data_version s'.2)))
}.

Lemma ledger_step_changes v a l : ~ ledger_step v a l l.
Proof.
  intros Hs. assert (forall l', ledger_step v a l l' -> is_Some (l' !! v)) as Hin.
  { intros l' [ ]; rewrite lookup_insert_eq; eauto. }
  destruct (Hin l Hs) as [e He]. destruct (step_entry _ _ _ _ v e Hs He) as (e' & He' & _ & [[? _]|(_ & Hr & _)]); [done|].
  rewrite He in He'. injection He' as <-. lia.
Qed.

Lemma store_moved s s' : tables_ok (im_tables s.2) -> store_move s s' -> moved s s'.
Proof.
  intros Hok Hmove. revert Hok.
  destruct Hmove as [env env' im|env env' e req im|env env' e req im other dv t Ht Hle Hlt]; cbn [snd] in *; intros Hok.
  - split; cbn; [done|lia|by left].
  - destruct (execute_effect e req im Hok) as [Hok' [[Hl [Hg Hd]]|(v & a & _ & Hs & [Hg Hd])]];
      split; cbn; [done|by rewrite Hd|by left|done|by rewrite Hd|].
    right. exists v, a. split; [done|by left].
  - rewrite <-Ht in Hok. destruct (execute_effect e req other Hok) as [Hok' [[Hl _]|(v & a & _ & Hs & _)]];
      fold t in Hok'; split; cbn; [done..| |done|done|].
    + left. unfold im_ledger. cbn. split; [|done]. subst t. by rewrite Hl, Ht.
    + right. exists v, a. rewrite Ht in Hs. split; [done|]. right. split; [done|]. apply Hlt. intros Heq.
      fold t in Hs. rewrite Heq in Hs. by eapply ledger_step_changes.
Qed.

Lemma moved_entry s s' u e :
  moved s s' -> im_ledger s.2 !! u = Some e ->
  im_ledger s'.2 !! u = Some e \/ exists e', im_ledger s'.2 !! u = Some e' /\ e_revision e < e_revision e'.
Proof.
  intros [_ _ [[-> _]|(v & a & Hs & _)]] He; [by left|].
  destruct (step_entry _ _ _ _ _ _ Hs He) as (e' & He' & _ & [[_ ->]|(_ & Hr & _)]); [by left|].
  right. exists e'. split; [done|lia].
Qed.

Lemma moved_outdated s s' a : moved s s' -> outdated s a -> outdated s' a.
Proof.
  intros Hm (e & He & Hlt). destruct (moved_entry _ _ _ _ Hm He) as [He'|(e' & He' & Hr)]; eexists; (split; [exact He'|lia]).
Qed.

Lemma moved_issued s s' a : tables_ok (im_tables s.2) -> moved s s' -> issued s a -> issued s' a.
Proof.
  intros Hok Hm [Hh|Ho]; [|right; by eapply moved_outdated].
  destruct (active_authorization_revision _ _ _ _ _ Hh) as (e & He & Hr).
  destruct (moved_entry _ _ _ _ Hm He) as [He'|(e' & He' & Hlt)].
  - left. unfold holds, stored_matches in *. cbn in *. rewrite <-Hh.
    apply active_authorization_entry; [done|apply Hm|]. unfold im_ledger in *. congruence.
  - right. exists e'. split; [done|lia].
Qed.

(** Below 2^64 changes, the token grows with every change of the ledger. *)
Lemma moved_token s s' :
  0 <= im_local_generation s.2 < 2 ^ 64 - 1 -> moved s s' ->
  token_le (token_of s) (token_of s') /\ im_local_generation s'.2 <= im_local_generation s.2 + 1 /\
  (im_ledger s'.2 <> im_ledger s.2 ->
   im_local_generation s.2 < im_local_generation s'.2 \/ to_int (im_data_version s.2) < to_int (im_data_version s'.2)).
Proof.
  intros Hg [_ Hv Hl]. unfold token_le, token_of. cbn [fst snd].
  destruct Hl as [[Heq ->]|(v & a & _ & [->|[-> Hlt]])].
  - split_and!; [lia..|done].
  - unfold u64_succ. rewrite Z.mod_small by lia. split_and!; [lia..|]. left. lia.
  - split_and!; [lia..|]. by right.
Qed.
End store.

(** ** Runs *)

Section runs.
Context {txt : SqlText} {JL : JsonLibrary} (my_device_id : string).
Abbreviation step := (step my_device_id).

(** A step of the monitor's thread. *)
Definition monitor_moves (n n' : Net) : Prop :=
  exists au m, monitor_step (w_store (n_world n)) (w_auth (n_world n)) (n_monitor n) = Some (au, m) /\
    invalidate_enabled (n_monitor n) (n_world n) /\
    n' = mkNet (set_auth au (call_invalidate (n_monitor n) (n_world n))) m (n_authorized n) (n_replaced n).

(** [run k j n n']: [k] steps lead from [n] to [n'], at least [j] of them the monitor's. *)
Inductive run : nat -> nat -> Net -> Net -> Prop :=
| run_nil n : run 0 0 n n
| run_thread k j n n1 n2 :
    run k j n n1 -> step n1 n2 -> w_store (n_world n2) = w_store (n_world n1) -> run (S k) j n n2
| run_monitor k j n n1 n2 : run k j n n1 -> monitor_moves n1 n2 -> run (S k) (S j) n n2
| run_store k j n n1 s :
    run k j n n1 -> store_move (w_store (n_world n1)) s ->
    run (S k) j n (set_world (set_store s (n_world n1)) n1).

Lemma monitor_moves_step n n' : monitor_moves n n' -> step n n' /\ w_store (n_world n') = w_store (n_world n).
Proof.
  intros (au & m & Hs & He & ->). split; [by apply step_monitor|]. cbn.
  by destruct (call_invalidate_io (n_monitor n) (n_world n)) as [->|(sid & _ & [])].
Qed.

(** What a step does to the state guarded by [live_mutex_]. *)
Lemma grows_io sid w w' : io_frame sid w w' -> grows (w_auth w) (w_auth w').
Proof. intros []. rewrite fr_auth. apply grows_refl. Qed.
Lemma grows_unregister sid au : grows au (unregister_live_session sid au).
Proof. split; cbn; auto. intros j e [_ ?]%lookup_delete_Some. auto. Qed.
Lemma grows_register sid a inv au : grows au (register_live_insert sid a inv au).2.
Proof.
  unfold register_live_insert. destruct (_ || _); [apply grows_refl|]. split; cbn; auto.
Qed.

Lemma step_kinds n n' :
  step n n' -> (n_monitor n' = n_monitor n /\ grows (w_auth (n_world n)) (w_auth (n_world n'))) \/ monitor_moves n n'.
Proof.
  intros Hs. destruct Hs; try (left; split; [done|apply grows_refl]).
  - left. split; [done|]. cbn [set_world n_world]. unfold activate_enter. rewrite !bind_gets.
    repeat case_match; apply grows_refl.
  - left. split; [done|]. cbn [set_world n_world]. unfold activate_register. rewrite bind_gets.
    pose proof (grows_register sid a (Some sid) (w_auth (n_world n))) as Hg.
    destruct (register_live_insert _ _ _ _) as [[|] au]; [exact Hg|apply grows_refl].
  - left. split; [done|]. cbn [set_world n_world]. unfold activate_publish. rewrite bind_gets.
    destruct (publish_authenticated_device _ _ _ _) as [r ds]. destruct (accepted r); [apply grows_refl|apply grows_unregister].
  - left. split; [done|]. cbn [n_world]. unfold disconnect_replaced. destruct r as [d|]; [|apply grows_refl].
    rewrite bind_gets. destruct (lock_weak _ _) as [[o ?]|]; apply grows_refl.
  - left. split; [done|]. eapply grows_io, send_preface_io.
  - left. split; [done|]. eapply grows_io, send_packet_io.
  - left. split; [done|]. eapply grows_io, receive_iteration_io.
  - left. split; [done|]. cbn [set_world n_world]. unfold finalize_enter. rewrite bind_gets.
    destruct (c_cleaned_up _); [apply grows_refl|apply grows_unregister].
  - right. by exists au, m.
  - left. split; [done|]. split; cbn; auto.
Qed.

(** Session ids are not given twice. *)
Lemma step_next n n' : net_ok n -> step n n' -> w_next_session_id (n_world n) <= w_next_session_id (n_world n').
Proof.
  intros Hok Hs. destruct Hs; try done.
  - cbn. unfold u64_succ. pose proof (ok_next _ Hok). rewrite Z.mod_small by lia. lia.
  - cbn [set_world n_world]. unfold activate_enter. rewrite !bind_gets. by repeat case_match.
  - cbn [set_world n_world]. unfold activate_register. rewrite bind_gets.
    by destruct (register_live_insert _ _ _ _) as [[|] au].
  - cbn [set_world n_world]. unfold activate_publish. rewrite bind_gets.
    destruct (publish_authenticated_device _ _ _ _) as [r ds]. by destruct (accepted r).
  - cbn [n_world]. unfold disconnect_replaced. destruct r as [d|]; [|done].
    rewrite bind_gets. by destruct (lock_weak _ _) as [[o ?]|].
  - cbn [set_world n_world]. by rewrite (fr_next _ _ _ (send_preface_io sid (n_world n))).
  - cbn [set_world n_world]. by rewrite (fr_next _ _ _ (send_packet_io sid packet (n_world n))).
  - cbn [set_world n_world]. by rewrite (fr_next _ _ _ (receive_iteration_io my_device_id sid ev (n_world n))).
  - cbn [set_world n_world]. unfold finalize_enter. rewrite bind_gets. by destruct (c_cleaned_up _).
  - cbn. destruct (call_invalidate_io (n_monitor n) (n_world n)) as [->|(sid & _ & Hio)]; [done|]. cbn.
    by rewrite (fr_next _ _ _ Hio).
Qed.

(** The sessions created so far; no more of them are live. *)
Definition created (n : Net) : nat := Z.to_nat (w_next_session_id (n_world n) - 1).

Lemma live_created n : net_ok n -> (size (au_live (w_auth (n_world n))) <= created n)%nat.
Proof.
  intros Hok. rewrite <-length_map_to_list, <-(length_fmap fst). unfold created.
  rewrite <-(length_seqZ 1 (w_next_session_id (n_world n) - 1)).
  apply submseteq_length, NoDup_submseteq; [apply NoDup_fst_map_to_list|].
  intros sid. rewrite list_elem_of_fmap. intros ([j e] & -> & Hin). apply elem_of_map_to_list in Hin.
  destruct (ok_live _ Hok _ _ Hin) as (c & a & Hc & _). apply (ok_ids _ Hok) in Hc. apply elem_of_seqZ. cbn. lia.
Qed.

(** *** The invariant of a run from the start of the daemon *)

Record run_ok (k : nat) (n : Net) : Prop := {
  ro_net : net_ok n;
  ro_tables : tables_ok (im_tables (w_store (n_world n)).2);
  ro_generation : 0 <= im_local_generation (w_store (n_world n)).2 <= Z.of_nat k;
  ro_read : read_before (n_monitor n) (w_store (n_world n));
  ro_issued sid c a : w_connections (n_world n) !! sid = Some c -> carried c = Some a -> issued (w_store (n_world n)) a;
  ro_covered sid a : au_live (w_auth (n_world n)) !! sid = Some (live_entry sid a) -> ~ holds (w_store (n_world n)) a ->
    armed (w_store (n_world n)) (w_auth (n_world n)) (n_monitor n) (sid, live_entry sid a) \/
    alarm (w_store (n_world n)) (w_auth (n_world n)) (n_monitor n);
  ro_pending : (pending (m_pc (n_monitor n)) <= created n)%nat;
  ro_returned : m_pc (n_monitor n) = MReturned -> au_stopping (w_auth (n_world n)) = true
}.

Lemma created_step n n' : net_ok n -> step n n' -> (created n <= created n')%nat.
Proof. intros Hok Hs. pose proof (step_next n n' Hok Hs). unfold created. lia. Qed.

Lemma issued_step n n' :
  net_ok n -> step n n' -> w_store (n_world n') = w_store (n_world n) ->
  (forall sid c a, w_connections (n_world n) !! sid = Some c -> carried c = Some a -> issued (w_store (n_world n)) a) ->
  forall sid c a, w_connections (n_world n') !! sid = Some c -> carried c = Some a -> issued (w_store (n_world n')) a.
Proof.
  intros Hok Hs -> Hi sid c a Hc Ha.
  destruct (step_carried _ _ _ _ _ _ Hok Hs Hc Ha) as [(c0 & Hc0 & Ha0)|[Hcur _]]; [eauto|].
  left. by apply matches_current_sound.
Qed.

Lemma run_ok_thread k n n' :
  run_ok k n -> step n n' -> w_store (n_world n') = w_store (n_world n) ->
  n_monitor n' = n_monitor n -> grows (w_auth (n_world n)) (w_auth (n_world n')) -> run_ok (S k) n'.
Proof.
  intros [Hok Ht Hg Hr Hi Hc Hp Hret] Hs Hst Hm Hgr.
  split; rewrite ?Hst, ?Hm; [by eapply step_ok|done|lia|done| | | |].
  - rewrite <-Hst. by eapply issued_step.
  - intros sid a Hl Hno. destruct (gr_live _ _ Hgr _ _ Hl) as [Hl0|Hf]; [|right; by left].
    assert (token_le (token_of (w_store (n_world n))) (token_of (w_store (n_world n)))) as Hle by (by split).
    destruct (Hc sid a Hl0 Hno); eauto using armed_mono, alarm_mono.
  - pose proof (created_step n n' Hok Hs). lia.
  - intros Hpc. by apply (gr_stopping _ _ Hgr), Hret.
Qed.

Lemma monitor_step_pending s au m au' m' l :
  monitor_step s au m = Some (au', m') -> (size (au_live au) <= l)%nat -> (pending (m_pc m) <= l)%nat ->
  (pending (m_pc m') <= l)%nat.
Proof.
  unfold monitor_step, after_wait. intros Hstep Hsize.
  destruct (m_pc m) as [| | |force| |[|[sid e] rest]|[sid e] rest|inv rest|];
    repeat case_match; simplify_eq; cbn; try lia. by rewrite in_key_order_length.
Qed.
Lemma monitor_step_returned s au m au' m' :
  monitor_step s au m = Some (au', m') -> m_pc m' = MReturned -> au_stopping au' = true.
Proof. unfold monitor_step, after_wait. intros Hstep. repeat case_match; simplify_eq; done. Qed.
Lemma monitor_step_entry s au m au' m' sid e :
  monitor_step s au m = Some (au', m') -> au_live au' !! sid = Some e -> au_live au !! sid = Some e.
Proof.
  intros [[-> _]|(_ & j & ? & _ & -> & _)]%monitor_step_live; [done|]. by intros [_ ?]%lookup_delete_Some.
Qed.

Lemma run_ok_monitor k n n' : run_ok k n -> monitor_moves n n' -> run_ok (S k) n'.
Proof.
  intros [Hok Ht Hg Hr Hi Hc Hp Hret] Hm. destruct (monitor_moves_step _ _ Hm) as [Hs Hst].
  pose proof (issued_step n n' Hok Hs Hst Hi) as Hi'. destruct Hm as (au & m & Hstep & _ & ->).
  split; rewrite ?Hst; cbn [n_monitor n_world w_auth set_auth]; [by eapply step_ok|done|lia|by eapply monitor_step_read| | | |].
  - rewrite <-Hst. exact Hi'.
  - intros sid a Hl Hno. pose proof (monitor_step_entry _ _ _ _ _ _ _ Hstep Hl) as Hl0.
    pose proof (not_held_current _ _ Hno) as Hcur. pose proof (live_created n Hok) as Hsize.
    destruct (Hc sid a Hl0 Hno) as [Ha|Ha].
    + left. by eapply armed_step.
    + destruct (alarm_step _ _ _ _ _ _ sid (live_entry sid a) Hstep Hcur Hsize) as [[? _]|[? _]]; auto.
  - etrans; [|apply (created_step n _ Hok Hs)]. by eapply monitor_step_pending; [|apply live_created|].
  - by eapply monitor_step_returned.
Qed.

Lemma run_ok_store k n s :
  run_ok k n -> store_move (w_store (n_world n)) s -> Z.of_nat (S k) < 2 ^ 64 ->
  run_ok (S k) (set_world (set_store s (n_world n)) n).
Proof.
  intros [Hok Ht Hg Hr Hi Hc Hp Hret] Hmove Hk. pose proof (store_moved _ _ Ht Hmove) as Hm.
  destruct (fun H => moved_token _ _ H Hm) as (Hle & Hgen & Hnew); [lia|].
  split; cbn [set_world n_world n_monitor set_store w_store w_auth w_connections].
  - eapply step_ok; [done|apply (step_store my_device_id)].
  - apply Hm.
  - destruct Hle as [Hle _]. cbn in Hle. lia.
  - intros token Htok. destruct (Hr _ Htok), Hle. split; lia.
  - intros sid c a Hcn Ha. eapply moved_issued; eauto.
  - intros sid a Hl Hno. destruct (decide (holds (w_store (n_world n)) a)) as [Hh|Hh].
    + right. right. intros Heq. destruct (Hr _ Heq) as [H1 H2]. cbn in H1, H2.
      destruct Hnew as [?|?]; [|cbn in *; lia..]. intros Hsame. apply Hno. unfold holds, stored_matches in *. cbn in *. rewrite <-Hh.
      apply active_authorization_ledger; [done|apply Hm|done].
    + destruct (Hc sid a Hl Hh); eauto using armed_mono, alarm_mono, grows_refl.
  - done.
  - done.
Qed.

Lemma run_ok_initial t env data_version clock :
  tables_ok t -> run_ok 0 (initial (TQ := trust_store_queries) (env, mkImpl t 0 data_version 0 0) clock).
Proof.
  intros Ht. split; try done; [apply initial_ok|..]; intros *; cbn; by rewrite lookup_empty.
Qed.

Lemma run_ok_run k0 k j n n' :
  run_ok k0 n -> run k j n n' -> Z.of_nat (k0 + k) < 2 ^ 64 -> run_ok (k0 + k) n'.
Proof.
  intros Hok Hrun. induction Hrun as [n|k j n n1 n2 _ IH Hs Hst|k j n n1 n2 _ IH Hm|k j n n1 s _ IH Hm]; intros Hk;
    [by rewrite Nat.add_0_r|..]; rewrite Nat.add_succ_r in *; specialize (IH Hok ltac:(lia)).
  - destruct (step_kinds _ _ Hs) as [[Hmon Hgr]|Hm]; [by eapply run_ok_thread|by eapply run_ok_monitor].
  - by eapply run_ok_monitor.
  - by apply run_ok_store.
Qed.

(** *** A withdrawn session, followed through a run *)

(** The session is READY under [a]; it is stopping, or at most [budget] steps of the
    monitor away from that. *)
Definition followed (l budget : nat) (sid : Z) (a : AuthorizedPeer) (n : Net) : Prop :=
  exists c, w_connections (n_world n) !! sid = Some c /\ c_ready c = true /\ c_authorized_peer c = Some a /\
    (c_stopping c = true \/
     (0 < budget)%nat /\
     (calls_invalidate (n_monitor n) = Some sid \/
      au_live (w_auth (n_world n)) !! sid = Some (live_entry sid a) /\
      covers l budget (w_store (n_world n)) (w_auth (n_world n)) (n_monitor n) (sid, live_entry sid a))).

Lemma followed_weaken l budget budget' sid a n :
  (budget <= budget')%nat -> followed l budget sid a n -> followed l budget' sid a n.
Proof.
  intros Hle (c & Hc & Hr & Ha & Hf). exists c. split_and!; [done..|].
  destruct Hf as [?|[Hb Hf]]; [by left|right]. split; [lia|]. destruct Hf as [?|[Hl Hcov]]; [by left|right].
  split; [done|]. destruct Hcov as [[? ?]|[? ?]]; [left|right]; (split; [done|lia]).
Qed.

(** A READY session that is not stopping is live or about to be stopped. *)
Lemma ready_watched n sid c a :
  net_ok n -> w_connections (n_world n) !! sid = Some c -> c_ready c = true -> c_authorized_peer c = Some a ->
  c_stopping c = true \/ calls_invalidate (n_monitor n) = Some sid \/
  au_live (w_auth (n_world n)) !! sid = Some (live_entry sid a).
Proof.
  intros Hok Hc Hr Ha. destruct (co_watched _ _ _ _ (ok_conns _ Hok _ _ Hc) a) as [?|[?|?]]; auto.
  unfold watched. by rewrite Hr.
Qed.

Lemma ready_step n n' sid c a :
  net_ok n -> step n n' -> w_connections (n_world n) !! sid = Some c -> c_ready c = true -> c_authorized_peer c = Some a ->
  exists c', w_connections (n_world n') !! sid = Some c' /\ c_ready c' = true /\ c_authorized_peer c' = Some a /\
    (c_stopping c = true -> c_stopping c' = true) /\
    (c_stopping c' = true \/ calls_invalidate (n_monitor n') = Some sid \/
     au_live (w_auth (n_world n')) !! sid = Some (live_entry sid a)).
Proof.
  intros Hok Hs Hc Hr Ha. destruct (step_lifecycle _ _ _ _ _ Hok Hs Hc) as (c' & Hc' & Hlc).
  destruct (lc_ready _ _ Hlc Hr) as [Hr' Ha']. rewrite Ha in Ha'. exists c'. split_and!; try done; [apply Hlc|].
  eapply ready_watched; eauto using step_ok.
Qed.

(** Nothing that the other threads or the users of the store do takes it further away. *)
Lemma followed_other k l budget sid a n n' :
  run_ok k n -> step n n' -> n_monitor n' = n_monitor n -> grows (w_auth (n_world n)) (w_auth (n_world n')) ->
  token_le (token_of (w_store (n_world n))) (token_of (w_store (n_world n'))) ->
  followed l budget sid a n -> followed l budget sid a n'.
Proof.
  intros Hok Hs Hm Hg Hle (c & Hc & Hr & Ha & Hf).
  destruct (ready_step _ _ _ _ _ (ro_net _ _ Hok) Hs Hc Hr Ha) as (c' & Hc' & Hr' & Ha' & Hst & Hw).
  exists c'. split_and!; [done..|]. destruct Hf as [?|[Hb Hf]]; [left; auto|]. rewrite Hm in *.
  destruct Hw as [?|[?|Hl']]; [by left|auto|]. right. split; [done|].
  destruct Hf as [?|[Hl Hcov]]; [by left|right]. split; [done|].
  eapply covers_mono; [by apply (ro_read _ _ Hok)|done..].
Qed.

Lemma monitor_step_calls s au m au' m' sid l :
  monitor_step s au m = Some (au', m') -> calls_invalidate m' = Some sid -> (2 <= rank l (m_pc m))%nat.
Proof.
  unfold monitor_step, after_wait, calls_invalidate. intros Hstep.
  destruct (m_pc m) as [| | |force| |[|[j e] rest]|[j e] rest|inv rest|];
    repeat case_match; simplify_eq; cbn in *; (done || lia).
Qed.

(** A step of the monitor takes it nearer. *)
Lemma followed_monitor k l budget sid a n n' :
  run_ok k n -> monitor_moves n n' -> (created n <= l)%nat -> ~ holds (w_store (n_world n)) a ->
  followed l budget sid a n -> followed l (pred budget) sid a n'.
Proof.
  intros Hok Hm Hl Hno (c & Hc & Hr & Ha & Hf). destruct (monitor_moves_step _ _ Hm) as [Hs Hst].
  destruct (ready_step _ _ _ _ _ (ro_net _ _ Hok) Hs Hc Hr Ha) as (c' & Hc' & Hr' & Ha' & Hmono & Hw).
  exists c'. split_and!; [done..|]. destruct Hf as [?|[Hb Hf]]; [left; auto|].
  destruct Hm as (au & m & Hstep & _ & ->). rewrite Hst. cbn [n_world n_monitor w_auth set_auth w_connections] in *.
  destruct Hf as [Hcall|[Hlive Hcov]].
  { left. destruct (call_invalidate_stops _ _ _ _ Hcall Hc) as (c2 & Hc2 & Hs2); [|congruence].
    intros Hcl. apply (co_cleanup _ _ _ _ (ok_conns _ (ro_net _ _ Hok) _ _ Hc)). by rewrite Hcl. }
  destruct Hw as [?|[Hcall|Hlive']]; [by left|right..].
  - pose proof (monitor_step_calls _ _ _ _ _ _ l Hstep Hcall). split; [|by left].
    destruct Hcov as [[_ ?]|[_ ?]]; lia.
  - pose proof (live_created n (ro_net _ _ Hok)) as Hsize.
    assert (covers l (pred budget) (w_store (n_world n)) au m (sid, live_entry sid a)) as Hcov'.
    { eapply covers_step; [done|by apply not_held_current|lia|done..]. }
    split; [by eapply covers_positive|auto].
Qed.

(** The monitor's steps that are enough from the state [n], when the run ends in [n']. *)
Definition scan_bound (n n' : Net) : nat :=
  match m_pc (n_monitor n) with
  | MLoop => 3 * created n' + 4
  | _ => 6 * created n' + 7
  end.

Lemma followed_start k n n' sid c a :
  run_ok k n -> (created n <= created n')%nat ->
  w_connections (n_world n) !! sid = Some c -> c_ready c = true -> c_authorized_peer c = Some a ->
  ~ holds (w_store (n_world n)) a -> followed (created n') (scan_bound n n') sid a n.
Proof.
  intros Hok Hcr Hc Hr Ha Hno. exists c. split_and!; [done..|].
  destruct (ready_watched _ _ _ _ (ro_net _ _ Hok) Hc Hr Ha) as [?|Hw]; [by left|right].
  split; [unfold scan_bound; destruct (m_pc _); lia|]. destruct Hw as [?|Hl]; [by left|right]. split; [done|].
  pose proof (ro_pending _ _ Hok) as Hp. pose proof (ro_covered _ _ Hok sid a Hl Hno) as Hcov.
  unfold covers, scan_bound. unfold armed in *.
  destruct (m_pc (n_monitor n)) as [| | |force| |rest|y rest|inv rest|]; cbn [rank pending] in *;
    destruct Hcov as [Hcov|Hcov]; first [left; split; [exact Hcov|lia] | right; split; [exact Hcov|lia]].
Qed.

(** What is known of a withdrawn session after a run. *)
Lemma followed_run k0 k j n n' n2 sid c a :
  run_ok k0 n -> run k j n n' -> Z.of_nat (k0 + k) < 2 ^ 64 -> (created n' <= created n2)%nat ->
  w_connections (n_world n) !! sid = Some c -> c_ready c = true -> c_authorized_peer c = Some a ->
  ~ holds (w_store (n_world n)) a ->
  outdated (w_store (n_world n')) a /\ (created n <= created n')%nat /\
  followed (created n2) (scan_bound n n2 - j) sid a n'.
Proof.
  intros Hok Hrun Hk Hn2 Hc Hr Ha Hno.
  induction Hrun as [n|k j n n1 n2' Hrun IH Hs Hst|k j n n1 n2' Hrun IH Hm|k j n n1 s Hrun IH Hm].
  - split_and!; [|done|].
    + destruct (ro_issued _ _ Hok sid c a Hc) as [?|?]; [unfold carried; by rewrite Hr|done|done].
    + rewrite Nat.sub_0_r. by eapply followed_start.
  - pose proof (run_ok_run k0 k j n n1 Hok Hrun ltac:(lia)) as Hok1. pose proof (created_step _ _ (ro_net _ _ Hok1) Hs) as Hcr.
    destruct IH as (Ho & Hcn & Hf); [done|lia|lia|done..|]. rewrite Hst. split_and!; [done|lia|].
    destruct (step_kinds _ _ Hs) as [[Hmon Hgr]|Hm].
    + eapply followed_other; [done..| |done]. rewrite Hst. by split.
    + eapply followed_weaken; [apply Nat.le_pred_l|].
      eapply followed_monitor; [done|done|lia|by apply outdated_not_held|done].
  - pose proof (run_ok_run k0 k j n n1 Hok Hrun ltac:(lia)) as Hok1. destruct (monitor_moves_step _ _ Hm) as [Hs Hst].
    pose proof (created_step _ _ (ro_net _ _ Hok1) Hs) as Hcr.
    destruct IH as (Ho & Hcn & Hf); [done|lia|lia|done..|]. rewrite Hst. split_and!; [done|lia|].
    replace (scan_bound n n2 - S j)%nat with (pred (scan_bound n n2 - j)) by lia.
    eapply followed_monitor; [done|done|lia|by apply outdated_not_held|done].
  - pose proof (run_ok_run k0 k j n n1 Hok Hrun ltac:(lia)) as Hok1.
    pose proof (store_moved _ _ (ro_tables _ _ Hok1) Hm) as Hmv.
    destruct IH as (Ho & Hcn & Hf); [done|lia|done..|]. split_and!; [by eapply moved_outdated|done|].
    eapply followed_other; [exact Hok1|apply (step_store my_device_id)|done|apply grows_refl| |done].
    apply moved_token; [|done]. pose proof (ro_generation _ _ Hok1). lia.
Qed.

Lemma followed_enabled k n sid c a l budget :
  run_ok k n -> followed l budget sid a n -> w_connections (n_world n) !! sid = Some c -> c_stopping c = false ->
  (0 < budget)%nat /\
  (au_stopping (w_auth (n_world n)) = false ->
   monitor_step (w_store (n_world n)) (w_auth (n_world n)) (n_monitor n) <> None).
Proof.
  intros Hok (c' & Hc' & _ & _ & Hf) Hc Hs. rewrite Hc in Hc'. injection Hc' as <-.
  destruct Hf as [?|[Hb Hf]]; [congruence|]. split; [done|]. intros Hns.
  unfold monitor_step. destruct (m_pc (n_monitor n)) as [| | |force| |[|[j e] rest]|[j e] rest|inv rest|] eqn:Hpc;
    try (repeat case_match; done).
  - destruct Hf as [Hcall|[Hl _]]; [unfold calls_invalidate in Hcall; by rewrite Hpc in Hcall|].
    rewrite bool_decide_false, !orb_true_r; [done|]. intros He. by rewrite He, lookup_empty in Hl.
  - rewrite (ro_returned _ _ Hok Hpc) in Hns. done.
Qed.

(** C2. A withdrawn authorization ends its session, in every interleaving.  Take any
    run of the daemon from its start, through requests of this process and of others,
    and a session that is READY under an authorization which the store does not hold
    any more: the peer was revoked, or its revision or permissions changed.  Then the
    store never holds that authorization again, whatever happens to it; and after any
    further steps the session is stopping, or the monitor has taken fewer than
    [scan_bound] steps since, and has a next step to take unless the service is being
    shut down (in a callback it may wait for the mutexes of that one session).  So the
    monitor never sleeps over a stale session.  Counting fewer than 2^64 steps, since
    the generation in the change token has 64 bits. *)
Theorem withdrawn_sessions_stopped t env data_version clock k0 j0 n k j n' sid c a :
  tables_ok t ->
  run k0 j0 (initial (TQ := trust_store_queries) (env, mkImpl t 0 data_version 0 0) clock) n ->
  w_connections (n_world n) !! sid = Some c -> c_ready c = true -> c_authorized_peer c = Some a ->
  ~ holds (w_store (n_world n)) a ->
  run k j n n' -> Z.of_nat (k0 + k) < 2 ^ 64 ->
  ~ holds (w_store (n_world n')) a /\
  exists c', w_connections (n_world n') !! sid = Some c' /\
    (c_stopping c' = true \/
     (j < scan_bound n n')%nat /\
     (au_stopping (w_auth (n_world n')) = false ->
      monitor_step (w_store (n_world n')) (w_auth (n_world n')) (n_monitor n') <> None)).
Proof.
  intros Ht Hrun0 Hc Hr Ha Hno Hrun Hk.
  pose proof (run_ok_run 0 k0 j0 _ n (run_ok_initial t env data_version clock Ht) Hrun0 ltac:(lia)) as Hok.
  pose proof (run_ok_run k0 k j n n' Hok Hrun Hk) as Hok'.
  destruct (followed_run k0 k j n n' n' sid c a) as (Ho & _ & Hf); [done..|]. split; [by apply outdated_not_held|].
  pose proof Hf as (c' & Hc' & _). exists c'. split; [done|]. destruct (c_stopping c') eqn:Hs; [by left|right].
  destruct (followed_enabled _ _ _ _ _ _ _ Hok' Hf Hc' Hs) as [Hb He].
  split; [lia|done].
Qed.

(** A revocation withdraws every authorization of the device. *)
Theorem revocation_withdraws env u expected revoked_at im im' env' a :
  tables_ok (im_tables im) -> revoke_device env u expected revoked_at im = (Ok tt, im') -> ap_uuid a = u ->
  ~ holds (env', im') a.
Proof.
  intros Hok Hrev Ha Hh. destruct (revoke_revoked _ _ _ _ _ _ Hrev) as (e & He & Hs). subst u.
  unfold holds, stored_matches in Hh. cbn in Hh. rewrite (revoked_unauthorized im' (ap_uuid a) (ap_public_key a) e) in Hh; [done| |done|done].
  by destruct (revoke_effect _ _ _ _ _ _ _ Hok Hrev).
Qed.
End runs.

(** ** A scenario: a device is imported, its session becomes READY, it is revoked *)

Module RevocationScenario.
Import Scenario AuthScenario SmallJson ConnectionScenario NetworkScenario.

Definition r0 : Net := set_world (set_store (TQ := trust_store_queries) (env0, Scenario.revoked_store) (n_world n8)) n8.

(** The monitor's next step. *)
Definition monitor_net (n : Net) : Net :=
  match monitor_step (w_store (n_world n)) (w_auth (n_world n)) (n_monitor n) with
  | Some (au, m) => mkNet (set_auth au (call_invalidate (n_monitor n) (n_world n))) m (n_authorized n) (n_replaced n)
  | None => n
  end.
Lemma monitor_net_moves n :
  monitor_step (w_store (n_world n)) (w_auth (n_world n)) (n_monitor n) <> None ->
  (forall sid, calls_invalidate (n_monitor n) = Some sid -> busy (conn sid (n_world n)) = false) ->
  monitor_moves n (monitor_net n).
Proof.
  unfold monitor_net. destruct (monitor_step _ _ _) as [[au m]|] eqn:E; [|done]. intros _ Hinv.
  exists au, m. split_and!; [done| |done]. unfold invalidate_enabled. destruct (calls_invalidate _) as [sid|]; [|done].
  intros c Hc. rewrite <-(conn_lookup _ _ _ Hc). by apply Hinv.
Qed.

Definition r1 : Net := monitor_net r0.
Definition r2 : Net := monitor_net r1.
Definition r3 : Net := monitor_net r2.
Definition r4 : Net := monitor_net r3.
Definition r5 : Net := monitor_net r4.
Definition r6 : Net := monitor_net r5.
Definition r7 : Net := monitor_net r6.
Strategy expand [r0 r1 r2 r3 r4 r5 r6 r7].

#[local] Ltac monitor_goes :=
  apply monitor_net_moves; [vm_compute; discriminate|vm_compute; intros sid Hsid; first [discriminate Hsid|injection Hsid as <-; reflexivity]].

Lemma scan_run : run my_id 7 7 r0 r7.
Proof.
  eapply run_monitor; [|instantiate (1 := r6); monitor_goes].
  eapply run_monitor; [|instantiate (1 := r5); monitor_goes].
  eapply run_monitor; [|instantiate (1 := r4); monitor_goes].
  eapply run_monitor; [|instantiate (1 := r3); monitor_goes].
  eapply run_monitor; [|instantiate (1 := r2); monitor_goes].
  eapply run_monitor; [|instantiate (1 := r1); monitor_goes].
  eapply run_monitor; [|instantiate (1 := r0); monitor_goes].
  apply run_nil.
Qed.

Lemma request_move env im r im' req : execute env req im = (r, im') -> store_move (env, im) (env, im').
Proof. intros H. pose proof (move_request env env env req im) as Hm. by rewrite H in Hm. Qed.

Lemma life_run : run my_id 11 0 (initial (TQ := trust_store_queries) (env0, mkImpl empty_tables 0 0 0 0) 0) r0.
Proof.
  refine (run_store my_id _ _ _ n8 (env0, Scenario.revoked_store) _ (request_move env0 ready _ _ (ReqRevoke peer1 1 1000) revoked_run)).
  do 8 (eapply run_thread; [|first [exact step8|exact step7|exact step6|exact step5|exact step4|exact step3|exact step2|exact step1]|reflexivity]).
  refine (run_store my_id _ _ _ (initial (env0, imported) 0) (env0, ready) _ (request_move env0 imported _ _ (ReqCreateAttempt attempt2) ready_run)).
  refine (run_store my_id _ _ _ (initial (env0, fresh_store) 0) (env0, imported) _ (request_move env0 fresh_store _ _ (ReqImport device1) imported_run)).
  apply run_nil.
Qed.

(** After seven steps of the monitor the session is stopping. *)
Lemma withdrawn_sessions_stopped_witness :
  c_stopping (conn 1 (n_world r7)) = true /\ ~ holds (w_store (n_world r7)) authorized1.
Proof.
  destruct (withdrawn_sessions_stopped my_id empty_tables env0 0 0 11 0 r0 7 7 r7 1 (conn 1 (n_world r0)) authorized1)
    as (Hno & c' & Hc' & Hst).
  - exact empty_tables_ok.
  - exact life_run.
  - vm_compute. reflexivity.
  - vm_compute. reflexivity.
  - vm_compute. reflexivity.
  - exact (revocation_withdraws env0 peer1 1 1000 ready Scenario.revoked_store env0 authorized1 ready_ok revoked_run eq_refl).
  - exact scan_run.
  - vm_compute. reflexivity.
  - split; [|exact Hno]. rewrite (conn_lookup _ _ _ Hc'). destruct Hst as [Hst|[Hlt _]]; [exact Hst|].
    exfalso. vm_compute in Hlt. lia.
Defined.
End RevocationScenario.
