(* ===== verification/Service.v ===== *)
(** * Whole operations on the running daemon

    What a caller sees of the two operations that involve every part: completing
    the authentication of a session ([Connection.complete_authentication_after_verified_identity])
    and sending a text to one device or to all ([services/message_service.cpp]),
    from any reachable state of [Network.v], run without interruption. *)

From S2P Require Import Prelude V2Framing Uuid TrustTables TrustStore TrustContract SessionAuth EventBus Registry Packet Connection Network.

Section service.
Context {TQ : TrustQueries} {JL : JsonLibrary} (my_device_id : string).

(** ** Authentication *)

(** Nothing another part of the daemon can observe has changed, except that the
    monitor may have been asked to scan. *)
Record unchanged (w w' : World) : Prop := {
  un_connections : w_connections w' = w_connections w;
  un_manager : w_manager w' = w_manager w;
  un_registry : w_registry w' = w_registry w;
  un_live : au_live (w_auth w') = au_live (w_auth w);
  un_events : w_events w' = w_events w
}.
#[local] Instance unchanged_refl : Reflexive unchanged.
Proof. by split. Qed.

(** The session [sid] has become READY under [a]. *)
Record activated (sid : Z) (a : AuthorizedPeer) (name type : string) (c : Connection) (w w' : World) : Prop := {
  ac_session : w_connections w' !! sid = Some (set_ready a c);
  ac_live : au_live (w_auth w') = <[sid := live_entry sid a]> (au_live (w_auth w));
  ac_device : find_id (ap_device_id a) (w_registry w') =
    Some (set_dev_state READY (candidate_device my_device_id (is_outgoing c) (c_socket_fd c) sid name type a));
  ac_other_devices : forall id, id <> ap_device_id a -> find_id id (w_registry w') = find_id id (w_registry w);
  ac_other_sessions : forall j cj, j <> sid -> w_connections w !! j = Some cj ->
    w_connections w' !! j =
      Some (if bool_decide (replaced_owner w (find_id (ap_device_id a) (w_registry w)) = Some j)
            then set_stopping true cj else cj)
}.

(** Successive alterations of one key that give back the old value. *)
Lemma map_same {A} (m m' : gmap Z A) i x :
  m !! i = Some x -> m' !! i = Some x -> (forall j, j <> i -> m' !! j = m !! j) -> m' = m.
Proof. intros H H' Hne. apply map_eq. intros j. destruct (decide (j = i)) as [->|]; [congruence|auto]. Qed.

(** The owner that the publication replaces is another session. *)
Lemma replaced_stops (w w' : World) d sid :
  (forall e, d = Some e -> dev_connection e <> Some sid) ->
  (forall j, j <> sid -> alive w' j = alive w j) ->
  forall j, j <> sid -> w_connections (snd (disconnect_replaced d w')) !! j =
    (if bool_decide (replaced_owner w d = Some j) then set_stopping true else id) <$> w_connections w' !! j.
Proof.
  intros Hd Hal j Hj. unfold disconnect_replaced, replaced_owner. destruct d as [e|]; [|by rewrite option_fmap_id].
  rewrite bind_gets. unfold lock_weak. destruct (dev_connection e) as [o|] eqn:Ho; [|by rewrite option_fmap_id].
  assert (o <> sid) by (intros ->; by apply (Hd e)). unfold id at 1. rewrite Hal by done.
  destruct (alive w o); cbn; [|by rewrite option_fmap_id].
  destruct (decide (j = o)) as [->|Hne].
  - by rewrite bool_decide_true, lookup_alter_eq.
  - by rewrite lookup_alter_ne, bool_decide_false, option_fmap_id by congruence.
Qed.

Lemma replaced_keeps (w : World) d sid :
  (forall e, d = Some e -> dev_connection e <> Some sid) ->
  w_connections (snd (disconnect_replaced d w)) !! sid = w_connections w !! sid /\
  w_auth (snd (disconnect_replaced d w)) = w_auth w /\ w_registry (snd (disconnect_replaced d w)) = w_registry w.
Proof.
  intros Hd. unfold disconnect_replaced. destruct d as [e|]; [|done]. rewrite bind_gets. unfold lock_weak.
  destruct (dev_connection e) as [o|] eqn:Ho; [|done]. assert (o <> sid) by (intros ->; by apply (Hd e)).
  destruct (alive (id w) o); cbn; [|done]. by rewrite lookup_alter_ne.
Qed.

(** The stages of an activation as equations. *)
Lemma enter_run sid a name type w c :
  w_connections w !! sid = Some c ->
  activate_enter my_device_id sid a name type w =
    if negb (activation_refused c (w_clock w)) && authorization_is_current (w_store w) a
    then (Ok true, update sid (set_critical (Some (CurrentChecked a
             (candidate_device my_device_id (is_outgoing c) (c_socket_fd c) sid name type a)))) w)
    else (Ok false, w).
Proof.
  intros Hc. unfold activate_enter, register_live_check. rewrite !bind_gets, (conn_lookup _ _ _ Hc).
  rewrite bool_decide_true by done. destruct (activation_refused _ _); [done|]. cbn [negb andb].
  by destruct (authorization_is_current _ _).
Qed.

Lemma register_run sid a d w :
  activate_register sid a d w =
    if au_stopping (w_auth w) || bool_decide (is_Some (au_live (w_auth w) !! sid))
    then (Ok false, update sid (set_critical None) w)
    else (Ok true, update sid (set_critical (Some (LiveRegistered a d)))
            (set_auth (set_force_scan true (set_live (<[sid := live_entry sid a]> (au_live (w_auth w))) (w_auth w))) w)).
Proof.
  unfold activate_register. rewrite bind_gets. unfold register_live_insert. by destruct (_ || _).
Qed.

Lemma activate_run sid a name type w c :
  w_connections w !! sid = Some c ->
  let d := candidate_device my_device_id (is_outgoing c) (c_socket_fd c) sid name type a in
  activate_authorized_peer my_device_id sid a name type w =
    if negb (activation_refused c (w_clock w)) && authorization_is_current (w_store w) a then
      let w1 := update sid (set_critical (Some (CurrentChecked a d))) w in
      if au_stopping (w_auth w) || bool_decide (is_Some (au_live (w_auth w) !! sid))
      then (Ok false, update sid (set_critical None) w1)
      else
        let live := <[sid := live_entry sid a]> (au_live (w_auth w)) in
        let w2 := update sid (set_critical (Some (LiveRegistered a d)))
                    (set_auth (set_force_scan true (set_live live (w_auth w))) w1) in
        let '(registration, devices) := publish_authenticated_device (alive w2) d a (w_registry w) in
        if accepted registration then
          (Ok true, snd (disconnect_replaced (replaced_device registration)
                      (update sid (set_ready a) (update sid (set_critical (Some (Published a (replaced_device registration))))
                         (set_registry devices w2)))))
        else (Ok false, update sid (set_critical None) (set_auth (unregister_live_session sid (w_auth w2)) w2))
    else (Ok false, w).
Proof.
  intros Hc d. unfold activate_authorized_peer. unfold bind at 1. rewrite (enter_run _ _ _ _ _ _ Hc). fold d.
  destruct (negb _ && _); [|done]. set (w1 := update sid _ w). cbn [negb]. rewrite bind_gets.
  assert (Hc1 : w_connections w1 !! sid = Some (set_critical (Some (CurrentChecked a d)) c)) by (by apply lookup_update).
  rewrite (conn_lookup _ _ _ Hc1). change (candidate_device _ _ _ _ _ _ _) with d.
  unfold bind at 1. rewrite register_run. change (w_auth w1) with (w_auth w).
  destruct (_ || _); [done|]. set (w2 := update sid _ (set_auth _ w1)). cbn [negb].
  unfold bind at 1, activate_publish. rewrite bind_gets. change (w_registry (id w2)) with (w_registry w).
  change (alive (id w2)) with (alive w2).
  destruct (publish_authenticated_device _ _ _ _) as [reg devices]. destruct (accepted reg); [|done].
  set (w3 := update sid (set_critical (Some (Published _ _))) (set_registry devices w2)).
  change ((let! c' := gets (conn sid) in activate_commit sid a;;;
            match c_critical c' with
            | Some (Published _ replaced) => disconnect_replaced replaced
            | _ => ret tt
            end;;; ret true) w3 =
          (Ok true, snd (disconnect_replaced (replaced_device reg) (update sid (set_ready a) w3)))).
  rewrite bind_gets.
  assert (Hc3 : c_critical (conn sid w3) = Some (Published a (replaced_device reg))).
  { unfold conn, w3, w2, w1. cbn. by rewrite !lookup_alter_eq, Hc. }
  rewrite Hc3. unfold bind at 1, activate_commit, modify. cbn [fst snd].
  unfold bind, disconnect_replaced. destruct (replaced_device reg) as [e|]; [|done]. cbn.
  by destruct (lock_weak _ _) as [[]|].
Qed.

(** What a publication gives back. *)
Lemma publish_result al d a devices reg devices' :
  publish_authenticated_device al d a devices = (reg, devices') ->
  if accepted reg then
    replaced_device reg = find_id (dev_id d) devices /\ find_id (dev_id d) devices' = Some (set_dev_state READY d) /\
    (forall id, id <> dev_id d -> find_id id devices' = find_id id devices)
  else devices' = devices.
Proof.
  unfold publish_authenticated_device. destruct (candidate_valid al d a); [|by intros [= <- <-]].
  intros H%publish_loop_spec. cbn zeta in H. destruct H as [_ H]. destruct (accepted reg); [|by destruct H].
  destruct H as (? & ? & ? & _). done.
Qed.

Lemma activation_open c now :
  activation_refused c now = false -> c_stopping c = false /\ c_ready c = false /\ now < c_handshake_deadline c.
Proof.
  unfold activation_refused. intros [[Hs Hr]%orb_false_elim Hd]%orb_false_elim.
  split_and!; [done|done|]. by apply Z.leb_gt.
Qed.

(** A failed activation leaves the session as it was. *)
Lemma restored sid w x c :
  w_connections w !! sid = Some c -> c_critical c = None ->
  unchanged w (update sid (set_critical None) (update sid (set_critical x) w)).
Proof.
  intros Hc Hcr. split; cbn; try done. apply (map_same _ _ sid c Hc).
  - rewrite !lookup_alter_eq, Hc. destruct c. cbn in *. by subst.
  - intros j Hj. by rewrite !lookup_alter_ne.
Qed.
Lemma restored_live sid w d a c :
  w_connections w !! sid = Some c -> c_critical c = None -> au_live (w_auth w) !! sid = None ->
  let w1 := update sid (set_critical (Some (CurrentChecked a d))) w in
  let w2 := update sid (set_critical (Some (LiveRegistered a d)))
              (set_auth (set_force_scan true (set_live (<[sid := live_entry sid a]> (au_live (w_auth w))) (w_auth w))) w1) in
  unchanged w (update sid (set_critical None) (set_auth (unregister_live_session sid (w_auth w2)) w2)).
Proof.
  intros Hc Hcr Hl. split; cbn; try done.
  - apply (map_same _ _ sid c Hc).
    + rewrite !lookup_alter_eq, Hc. destruct c. cbn in *. by subst.
    + intros j Hj. by rewrite !lookup_alter_ne.
  - by rewrite delete_insert_id.
Qed.

Lemma activate_outcome sid a name type w c r w' :
  w_connections w !! sid = Some c -> c_critical c = None ->
  (forall d, d ∈ w_registry w -> dev_connection d <> Some sid) ->
  activate_authorized_peer my_device_id sid a name type w = (r, w') ->
  (r = Ok true /\ activation_refused c (w_clock w) = false /\ authorization_is_current (w_store w) a = true /\
   activated sid a name type c w w') \/
  (r = Ok false /\ unchanged w w').
Proof.
  intros Hc Hcr Hown. rewrite (activate_run _ _ _ _ _ _ Hc). set (d := candidate_device _ _ _ _ _ _ _).
  destruct (activation_refused c (w_clock w)); [intros [= <- <-]; by right|].
  destruct (authorization_is_current (w_store w) a); [|intros [= <- <-]; by right]. cbn [negb andb].
  destruct (au_stopping (w_auth w) || bool_decide (is_Some (au_live (w_auth w) !! sid))) eqn:Hreg; cbv zeta.
  { intros [= <- <-]. right. split; [done|]. by apply (restored sid _ _ c). }
  apply orb_false_elim in Hreg as [_ Hl%bool_decide_eq_false]. apply eq_None_not_Some in Hl.
  set (w2 := update sid _ (set_auth _ _)).
  destruct (publish_authenticated_device (alive w2) d a (w_registry w)) as [reg devices] eqn:Hpub.
  apply publish_result in Hpub. destruct (accepted reg).
  - intros [= <- <-]. left. destruct Hpub as (Hrep & Hid & Hother). split_and!; [done..|]. rewrite Hrep.
    set (w4 := update sid (set_ready a) _). change (dev_id d) with (ap_device_id a) in *.
    assert (Hself : forall e, find_id (ap_device_id a) (w_registry w) = Some e -> dev_connection e <> Some sid).
    { intros e [He _]%find_id_some. by apply Hown. }
    destruct (replaced_keeps w4 _ sid Hself) as (Hk1 & Hk2 & Hk3).
    split; [rewrite Hk1|by rewrite Hk2|by rewrite Hk3|rewrite Hk3; exact Hother|].
    + cbn. by rewrite !lookup_alter_eq, Hc.
    + intros j cj Hj Hcj. rewrite (replaced_stops w w4 _ sid Hself); [|intros i Hi; cbn; unfold alive; cbn|done].
      * cbn. rewrite !lookup_alter_ne, Hcj by done. cbn. by case_bool_decide.
      * by rewrite !lookup_alter_ne.
  - intros [= <- <-]. right. split; [done|]. apply (restored_live sid _ _ _ c); [done|done|done].
Qed.

Lemma owns_no_entry n sid c :
  reachable my_device_id n -> w_connections (n_world n) !! sid = Some c -> busy c = false -> c_ready c = false ->
  forall d, d ∈ w_registry (n_world n) -> dev_connection d <> Some sid.
Proof.
  intros Hok%reachable_ok Hc Hb Hr d Hin Hcn. destruct (ok_entries _ Hok _ Hin) as (c0 & a0 & Hc0 & Hp & Hm & _).
  rewrite (dm_connection _ _ _ Hm) in Hcn. injection Hcn as Hsid. rewrite Hsid, Hc in Hc0. injection Hc0 as <-.
  unfold published in Hp. by rewrite Hr, (busy_critical _ Hb) in Hp.
Qed.

(** C27. Authentication is all or nothing, and is not fooled by what happens in between:
    whatever the threads, the peers and the users of the store do between the
    authorization of a verified identity and the activation of the session, the session
    becomes READY only under the authorization the store issued for that identity, for
    another device, if the store confirms it as current at the activation, before the
    handshake deadline -- with its live authorization registered, its device published
    and the session it replaces told to stop, and no other session and no other device
    changed; or the operation changes nothing itself. *)
Theorem authentication_all_or_nothing n n1 sid c1 identity name type r w' :
  reachable my_device_id n -> rtc (step my_device_id) n n1 ->
  w_connections (n_world n1) !! sid = Some c1 -> busy c1 = false ->
  complete_authentication_for_test my_device_id sid identity name type (Some (fun _ => n_world n1)) (n_world n) = (r, w') ->
  (r = Ok (Ok true) /\
   exists a, authorize_verified_peer (w_store (n_world n)) identity = Ok (Some a) /\
     authorization_is_current (w_store (n_world n1)) a = true /\ ap_device_id a <> my_device_id /\
     c_stopping c1 = false /\ c_ready c1 = false /\ w_clock (n_world n1) < c_handshake_deadline c1 /\
     activated sid a name type c1 (n_world n1) w') \/
  (r <> Ok (Ok true) /\ (w' = n_world n \/ unchanged (n_world n1) w')).
Proof.
  intros Hreach Hsteps Hc Hb. assert (reachable my_device_id n1) as Hreach1 by (induction Hsteps; eauto using reachable_step).
  unfold complete_authentication_for_test, authorize_verified_identity.
  destruct (activation_refused (conn sid (n_world n)) (w_clock (n_world n))); [intros [= <- <-]; right; auto|].
  destruct (authorize_verified_peer _ identity) as [[a|]|e]; [|intros [= <- <-]; right; auto..].
  case_bool_decide as Hme; [intros [= <- <-]; right; auto|].
  destruct (activate_authorized_peer _ _ _ _ _ _) as [r1 w1] eqn:Hact. intros [= <- <-].
  destruct (activation_refused c1 (w_clock (n_world n1))) eqn:Hrf.
  { rewrite (activate_run _ _ _ _ _ _ Hc), Hrf in Hact. injection Hact as <- <-. right. split; [done|]. by right. }
  apply activation_open in Hrf as (Hs & Hr & Hd).
  apply (activate_outcome _ _ _ _ _ c1) in Hact; [|done|by apply busy_critical|by eapply owns_no_entry].
  destruct Hact as [(-> & _ & ? & ?)|[-> ?]]; [left|right; auto]. split; [done|]. by exists a.
Qed.

(** ** The life of a worker *)

(** The outcomes that end the receive loop whatever the session's state is. *)
Definition ends_loop (ev : RecvEvent) : bool :=
  match ev with PollTimeout | PollFailed | RecvFailed | RecvEof => true | RecvAgain | RecvBytes _ => false end.

Lemma receive_iteration_ends sid ev w :
  ends_loop ev = true -> fst (receive_iteration my_device_id sid ev w) = Ok false.
Proof.
  intros Hev. unfold receive_iteration. rewrite bind_gets. destruct (c_stopping (conn sid w)); [done|]. by destruct ev.
Qed.

Lemma receive_loop_ends sid events w :
  existsb ends_loop events = true ->
  fst (receive_loop my_device_id sid events w) <> Ok false.
Proof.
  revert w. induction events as [|ev rest IH]; intros w; [done|]. cbn [existsb receive_loop]. intros Hev.
  unfold bind. destruct (receive_iteration my_device_id sid ev w) as [[[|]|e] w1] eqn:E; [|done|done].
  destruct (ends_loop ev) eqn:Hends; [|by apply IH].
  apply (receive_iteration_ends sid ev w) in Hends. by rewrite E in Hends.
Qed.

#[local] Instance receive_loop_io sid events : IoOnly sid (receive_loop my_device_id sid events).
Proof.
  induction events as [|ev rest IH]; cbn [receive_loop]; [apply _|]. apply bind_io; [apply _|].
  intros b. destruct b; apply _.
Qed.

(** What is left of a session after its cleanup. *)
Record cleaned (sid : Z) (w : World) : Prop := {
  cl_session : exists c, w_connections w !! sid = Some c /\ c_stopping c = true /\ c_cleanup c = Closed;
  cl_live : au_live (w_auth w) !! sid = None;
  cl_manager : w_manager w !! sid = None;
  cl_registry : Forall (fun d => dev_session_id d <> sid) (w_registry w)
}.

Lemma finalize_cleans sid w c :
  w_connections w !! sid = Some c -> c_cleanup c = NotCleaned ->
  exists w', finalize_disconnect sid w = (Ok tt, w') /\ cleaned sid w' /\
    (forall j, j <> sid -> w_connections w' !! j = w_connections w !! j) /\
    w_registry w' = remove_device sid (w_registry w).
Proof.
  intros Hc Hcl. unfold finalize_disconnect, request_disconnect. unfold bind at 1, modify at 1. rewrite bind_gets.
  pose proof (lookup_update sid (set_stopping true) w c Hc) as Hc1. set (w1 := update sid (set_stopping true) w) in *.
  rewrite (conn_lookup _ _ _ Hc1). unfold c_cleaned_up. cbn [c_cleanup set_stopping]. rewrite Hcl, bool_decide_true by done.
  cbn [negb]. unfold finalize_enter. unfold bind at 1. rewrite bind_gets, (conn_lookup _ _ _ Hc1).
  unfold c_cleaned_up. cbn [c_cleanup set_stopping]. rewrite Hcl, bool_decide_true by done. cbn [negb].
  eexists. split; [done|]. split; [split|].
  - eexists. cbn. rewrite !lookup_alter_eq, Hc. done.
  - cbn. apply lookup_delete_eq.
  - cbn. apply lookup_delete_eq.
  - cbn. apply Forall_forall. by intros d [? _]%list_elem_of_filter.
  - split; [|done]. intros j Hj. cbn. by rewrite !lookup_alter_ne.
Qed.

(** C29. A worker that ends leaves nothing behind, and it does end: when the thread
    cannot be created, or once its socket reports the end of the stream, an error
    or a timeout -- whatever was received before, whether handlers or parsers
    threw, and even if the preface could not be sent -- [start] has closed the
    session and removed it from the live authorizations, the registry and the
    manager; no other session is touched. *)
Theorem worker_cleans_up sid created events w c :
  w_connections w !! sid = Some c -> c_started c = false -> c_cleanup c = NotCleaned ->
  created = false \/ existsb ends_loop events = true ->
  exists w', start my_device_id sid created events w = (Ok WorkerEnded, w') /\ cleaned sid w' /\
    (forall j, j <> sid -> w_connections w' !! j = w_connections w !! j) /\
    w_registry w' = remove_device sid (w_registry w).
Proof.
  intros Hc Hst Hcl Hends. unfold start. rewrite bind_gets, (conn_lookup _ _ _ Hc), Hst.
  unfold bind at 1, modify. pose proof (lookup_update sid (set_started true) w c Hc) as Hc1.
  set (w1 := update sid (set_started true) w) in *.
  assert (Ho1 : forall j, j <> sid -> w_connections w1 !! j = w_connections w !! j)
    by (intros j Hj; by apply lookup_update_ne).
  destruct created.
  - destruct Hends as [?|Hends]; [done|]. set (body := try_catch _ _).
    assert (Hb : IoOnly sid body).
    { unfold body. apply try_catch_io; [|intros ?; apply _]. apply bind_io; [apply _|]. intros r.
      destruct (0 <=? r); apply _. }
    assert (Hr : fst (body w1) = Ok true).
    { unfold body, try_catch. unfold bind. destruct (send_preface sid w1) as [[r|e] w2]; [|done].
      destruct (0 <=? r); [|done]. pose proof (receive_loop_ends sid events w2 Hends) as Hl.
      by destruct (receive_loop my_device_id sid events w2) as [[[|]|e] w3]. }
    unfold bind at 1. specialize (Hb w1). destruct (body w1) as [r w2]. cbn in Hr, Hb. subst r.
    destruct Hb. rewrite Hc1 in fr_conn. inversion fr_conn as [? c2 Hev Heq Hc2|]; subst.
    destruct (finalize_cleans sid w2 c2) as (w3 & Hrun & Hclean & Ho & Hreg); [done|by rewrite (ev_cleanup _ _ Hev)|].
    exists w3. unfold bind. rewrite Hrun. split_and!; [done|done| |].
    + intros j Hj. by rewrite Ho, fr_others, Ho1.
    + rewrite Hreg, fr_registry. done.
  - destruct (finalize_cleans sid w1 _ Hc1) as (w3 & Hrun & Hclean & Ho & Hreg); [done|].
    exists w3. unfold bind. rewrite Hrun. split_and!; [done|done| |done].
    intros j Hj. by rewrite Ho, Ho1.
Qed.

(** ** Messages *)

(** What one session makes of a packet whose record is [wire]. *)
Inductive delivered (store : trust_store) (wire : list byte) (c : Connection) : Connection -> Prop :=
| delivered_whole a :
    c_ready c = true -> c_stopping c = false -> c_authorized_peer c = Some a ->
    authorization_is_current store a = true -> delivered store wire c (add_sent wire c)
| delivered_part a sent :
    c_ready c = true -> c_stopping c = false -> c_authorized_peer c = Some a ->
    authorization_is_current store a = true -> sent `prefix_of` wire ->
    delivered store wire c (set_stopping true (add_sent sent c))
| delivered_stale a :
    c_ready c = true -> c_stopping c = false -> c_authorized_peer c = Some a ->
    authorization_is_current store a = false -> delivered store wire c (set_stopping true c)
| delivered_refused :
    c_ready c = false \/ c_stopping c = true -> delivered store wire c c.

Context {JLaws : JsonLaws}.

Lemma message_typed text : json_find "type" (message_json my_device_id text) = Some (json_string "message").
Proof.
  assert (Hn : json_is_object (json_set "type" (json_string "message") json_null) = true)
    by (apply json_set_object; auto).
  unfold message_json. rewrite !json_find_set by eauto using json_set_object. by field_cases.
Qed.
Lemma message_object text : json_is_object (message_json my_device_id text) = true.
Proof. exact (json_find_object _ _ _ (message_typed text)). Qed.
Lemma own_message_not_control text : is_control_json (message_json my_device_id text) = false.
Proof.
  unfold is_control_json, string_field. rewrite message_typed, json_as_string_string.
  unfold is_control_type. by field_cases.
Qed.
Lemma message_type_read text (w : World) : json_value "type" (message_json my_device_id text) w = (Ok tt, w).
Proof. unfold json_value. by rewrite message_object, message_typed, json_as_string_string. Qed.

Lemma send_message_spec text sid w c wire :
  wire_record (message_json my_device_id text) = Some wire ->
  w_connections w !! sid = Some c -> (c_ready c = true -> is_Some (c_authorized_peer c)) ->
  exists r c' w', send_packet sid (message_json my_device_id text) w = (Ok r, w') /\
    w_connections w' !! sid = Some c' /\ delivered (w_store w) wire c c'.
Proof.
  intros Hw Hc Ha. unfold send_packet. rewrite bind_gets, (conn_lookup _ _ _ Hc), own_message_not_control.
  destruct (c_stopping c) eqn:Hs; cbn [orb].
  { exists (-1), c, w. split_and!; [done|done|]. apply delivered_refused. auto. }
  destruct (c_ready c) eqn:Hr; cbn [negb].
  2: { exists (-1), c, w. split_and!; [done|done|]. apply delivered_refused. auto. }
  destruct (Ha eq_refl) as [a Hp]. rewrite Hp, bind_gets.
  destruct (authorization_is_current (w_store w) a) eqn:Hcur.
  2: { eexists _, _, _. split_and!; [done|by apply lookup_update|]. by eapply delivered_stale. }
  unfold send_packet_locked. unfold wire_record in Hw.
  destruct (bounded_dump _ _) as [data|]; [|done]. rewrite Hw. unfold bind at 1. rewrite message_type_read.
  destruct (send_or_stop sid wire w) as [r w'] eqn:Hsend. pose proof Hsend as Hsend'.
  apply (send_or_stop_spec sid wire w c r w' Hc (encode_record_not_nil _ _ Hw)) in Hsend
    as [(-> & _ & Hc')|(-> & sent & Hpre & Hc')]; eexists _, _, _; (split_and!; [exact Hsend'|exact Hc'|]).
  - by eapply delivered_whole.
  - by eapply delivered_part.
Qed.

(** The devices as [Network.v] finds them in the registry. *)
Definition addressable (d : Device) : Prop := dev_connection d = Some (dev_session_id d) /\ dev_state d = READY.

(** What happened to the sessions: those in [targets] were handed the packet, the
    others were left alone. *)
Definition delivery (wire : list byte) (targets : list Z) (w w' : World) : Prop :=
  w_store w' = w_store w /\ w_registry w' = w_registry w /\ w_events w' = w_events w /\
  forall j c, w_connections w !! j = Some c ->
    exists c', w_connections w' !! j = Some c' /\
      if bool_decide (j ∈ targets) then delivered (w_store w) wire c c' else c' = c.

(** A registered session exists until its entry is removed. *)
Definition sessions_exist (devices : list Device) (w : World) : Prop :=
  forall d, d ∈ devices -> exists c, w_connections w !! dev_session_id d = Some c /\ c_cleanup c <> Closed /\
    (c_ready c = true -> is_Some (c_authorized_peer c)).

Lemma delivery_refl wire w : delivery wire [] w w.
Proof. split_and!; [done..|]. intros j c Hc. exists c. split; [done|]. by rewrite bool_decide_false by apply not_elem_of_nil. Qed.

Lemma delivery_one wire sid w w' c c' :
  io_frame sid w w' -> w_events w' = w_events w -> w_connections w !! sid = Some c ->
  w_connections w' !! sid = Some c' -> delivered (w_store w) wire c c' -> delivery wire [sid] w w'.
Proof.
  intros [] Hev Hc Hc' Hd. split_and!; try done. intros j cj Hj. destruct (decide (j = sid)) as [->|Hne].
  - exists c'. rewrite bool_decide_true by by left. rewrite Hc in Hj. injection Hj as <-. done.
  - exists cj. rewrite fr_others by done. rewrite bool_decide_false; [done|]. by intros ?%list_elem_of_singleton.
Qed.

Lemma delivery_cons wire sid targets w1 w2 w3 :
  sid ∉ targets -> delivery wire [sid] w1 w2 -> delivery wire targets w2 w3 -> delivery wire (sid :: targets) w1 w3.
Proof.
  intros Hni (Hs1 & Hr1 & He1 & H1) (Hs2 & Hr2 & He2 & H2). split_and!; try congruence.
  intros j c Hj. destruct (H1 j c Hj) as (c1 & Hc1 & Hd1). destruct (H2 j c1 Hc1) as (c2 & Hc2 & Hd2).
  exists c2. split; [done|]. rewrite Hs1 in Hd2. revert Hd1 Hd2. destruct (decide (j = sid)) as [->|Hne].
  - rewrite (bool_decide_true (sid ∈ [sid])), (bool_decide_false (sid ∈ targets)) by (done || by left).
    rewrite bool_decide_true by by left. by intros ? ->.
  - rewrite (bool_decide_false (j ∈ [sid])) by by intros ?%list_elem_of_singleton. intros ->.
    rewrite (bool_decide_ext (j ∈ sid :: targets) (j ∈ targets)); [done|]. rewrite elem_of_cons. naive_solver.
Qed.

Lemma send_one text wire d w :
  wire_record (message_json my_device_id text) = Some wire -> addressable d -> sessions_exist [d] w ->
  exists r w', lock_weak (alive w) (dev_connection d) = Some (dev_session_id d, r) /\
    (send_packet_to (Some (dev_session_id d)) (message_json my_device_id text);;; ret tt) w = (Ok tt, w') /\
    delivery wire [dev_session_id d] w w'.
Proof.
  intros Hw [Hcn _] Hex. destruct (Hex d) as (c & Hc & Hcl & Ha); [by left|].
  destruct (send_message_spec text (dev_session_id d) w c wire Hw Hc Ha) as (r & c' & w' & Hsend & Hc' & Hd).
  exists (c_stopping c), w'. split_and!.
  - rewrite Hcn. cbn. unfold alive. by rewrite Hc, bool_decide_false.
  - unfold bind, send_packet_to. by rewrite Hsend.
  - pose proof (send_packet_io (dev_session_id d) (message_json my_device_id text) w) as Hio.
    pose proof (send_packet_silent (dev_session_id d) (message_json my_device_id text) w) as Hev.
    rewrite Hsend in Hio, Hev. by eapply delivery_one.
Qed.

(** The sessions a broadcast goes to. *)
Definition others (devices : list Device) : list Z :=
  dev_session_id <$> filter (fun d => dev_id d <> my_device_id) devices.

Lemma sessions_exist_one devices d w : sessions_exist devices w -> d ∈ devices -> sessions_exist [d] w.
Proof. intros H Hd e ->%list_elem_of_singleton. by apply H. Qed.

Lemma sessions_exist_rest wire sid devices w w' :
  delivery wire [sid] w w' -> sid ∉ dev_session_id <$> devices -> sessions_exist devices w -> sessions_exist devices w'.
Proof.
  intros (_ & _ & _ & H) Hni Hex d Hd. destruct (Hex d Hd) as (c & Hc & Hcl & Ha).
  destruct (H _ _ Hc) as (c' & Hc' & Hd'). rewrite bool_decide_false in Hd'; [subst c'; by exists c|].
  intros Heq%list_elem_of_singleton. destruct Hni. rewrite <-Heq. apply list_elem_of_fmap. by exists d.
Qed.

Lemma broadcast_loop_spec text wire devices w :
  wire_record (message_json my_device_id text) = Some wire ->
  NoDup (dev_session_id <$> devices) -> Forall addressable devices -> sessions_exist devices w ->
  exists w', broadcast_loop my_device_id (message_json my_device_id text) devices w = (Ok tt, w') /\
    delivery wire (others devices) w w'.
Proof.
  intros Hw. revert w. induction devices as [|d rest IH]; intros w Hnd Had Hex.
  { exists w. split; [done|apply delivery_refl]. }
  cbn [fmap list_fmap] in Hnd. apply NoDup_cons in Hnd as [Hni Hnd]. apply Forall_cons in Had as [Hd Had].
  assert (Hrest : sessions_exist rest w) by (intros e He; apply Hex; by right).
  destruct (send_one text wire d w Hw Hd (sessions_exist_one _ d _ Hex ltac:(by left))) as (st & w1 & Hlock & Hsend & Hdel).
  cbn [broadcast_loop]. rewrite bind_gets. cbn [id]. rewrite Hlock, (proj2 Hd). unfold others. rewrite filter_cons.
  rewrite (bool_decide_true (READY = READY)) by done. cbn [negb orb].
  case_bool_decide as Hme; [rewrite decide_False by (intros Hn; by apply Hn)|rewrite decide_True by done].
  - by apply IH.
  - destruct (IH w1 Hnd Had (sessions_exist_rest _ _ _ _ _ Hdel Hni Hrest)) as (w2 & Hrun & Hdel2). exists w2. split.
    + unfold bind in *. destruct (send_packet_to _ _ w) as [[r|e] wx]; [|done]. injection Hsend as ->. done.
    + cbn [fmap list_fmap]. eapply delivery_cons; [|done|done]. intros (e & Heq & [_ He]%list_elem_of_filter)%list_elem_of_fmap.
      destruct Hni. rewrite Heq. apply list_elem_of_fmap. by exists e.
Qed.

Lemma send_to_first_spec text wire id devices w :
  wire_record (message_json my_device_id text) = Some wire -> Forall addressable devices -> sessions_exist devices w ->
  exists w', send_to_first id (message_json my_device_id text) devices w = (Ok tt, w') /\
    delivery wire (match find_id id devices with Some d => [dev_session_id d] | None => [] end) w w'.
Proof.
  intros Hw. induction devices as [|d rest IH]; intros Had Hex.
  { exists w. split; [done|apply delivery_refl]. }
  apply Forall_cons in Had as [Hd Had]. cbn [send_to_first find_id]. case_bool_decide as Hid; cbn [negb].
  - destruct (send_one text wire d w Hw Hd (sessions_exist_one _ d _ Hex ltac:(by left))) as (st & w1 & Hlock & Hsend & Hdel).
    exists w1. split; [|done]. rewrite bind_gets. unfold Datatypes.id at 1. rewrite Hlock, (proj2 Hd). exact Hsend.
  - apply IH; [done|]. intros e He. apply Hex. by right.
Qed.

(** The registered devices can be addressed, and their sessions exist. *)
Lemma reachable_devices n :
  reachable my_device_id n ->
  Forall addressable (w_registry (n_world n)) /\ sessions_exist (w_registry (n_world n)) (n_world n) /\
  NoDup (dev_session_id <$> w_registry (n_world n)).
Proof.
  intros Hok%reachable_ok. split_and!; [| |by apply sessions_distinct].
  - apply Forall_forall. intros d Hd. destruct (ok_entries _ Hok _ Hd) as (c & a & _ & _ & Hm & _).
    split; [by apply (dm_connection _ _ _ Hm)|]. destruct (ok_registry _ Hok) as [_ Hr].
    rewrite Forall_forall in Hr. by apply Hr.
  - intros d Hd. destruct (ok_entries _ Hok _ Hd) as (c & a & Hc & _ & _ & Hcl). exists c. split_and!; [done| |].
    + by destruct Hcl as [-> | ->].
    + apply (co_authorized _ _ _ _ (ok_conns _ Hok _ _ Hc)).
Qed.

Lemma send_to_device_delivers n text wire device_id :
  reachable my_device_id n -> text <> EmptyString -> wire_record (message_json my_device_id text) = Some wire ->
  exists w', send_to_device my_device_id device_id text (n_world n) = (Ok tt, w') /\
    delivery wire (match find_id device_id (w_registry (n_world n)) with
                   | Some d => [dev_session_id d] | None => [] end) (n_world n) w'.
Proof.
  intros (Had & Hex & _)%reachable_devices Htext Hw. unfold send_to_device. rewrite bool_decide_false, bind_gets by done.
  by apply send_to_first_spec.
Qed.

(** Messages reach exactly their recipients: from any reachable state, sending a
    text whose packet can be encoded to one device hands the packet to the session
    registered for that device and to no other, and a broadcast hands it once to
    the session of every other registered device.  A session that is READY and
    whose authorization is current has then sent the whole record, or has failed
    and is stopping; a stale one is stopping and has sent nothing; no other session
    changes, and nothing is thrown. *)
Theorem message_delivery n text wire device_id :
  reachable my_device_id n -> text <> EmptyString -> wire_record (message_json my_device_id text) = Some wire ->
  (exists w', broadcast_message my_device_id text (n_world n) = (Ok tt, w') /\
     delivery wire (others (w_registry (n_world n))) (n_world n) w') /\
  (exists w', send_to_device my_device_id device_id text (n_world n) = (Ok tt, w') /\
     delivery wire (match find_id device_id (w_registry (n_world n)) with
                    | Some d => [dev_session_id d] | None => [] end) (n_world n) w').
Proof.
  intros Hn Htext Hw. split; [|by apply send_to_device_delivers].
  destruct (reachable_devices n Hn) as (Had & Hex & Hnd). unfold broadcast_message.
  rewrite bool_decide_false, bind_gets by done. by apply broadcast_loop_spec.
Qed.
End service.

(** ** A scenario: the session of [Network.v] authenticated in one go, then used *)

Module ServiceScenario.
Import Scenario AuthScenario SmallJson ConnectionScenario NetworkScenario.

Definition authenticated : World :=
  snd (complete_authentication_after_verified_identity my_id 1 identity1 "desk" "linux" (n_world n1)).

Strategy expand [authenticated].

Lemma reachable1 : reachable my_id n1.
Proof. exact (reachable_step my_id n0 n1 (reachable_initial my_id store_ready 0) step1). Qed.
Lemma reachable8 : reachable my_id n8.
Proof.
  refine (execution_reachable my_id [n7; n6; n5; n4; n3; n2; n1; n0] n8 _).
  repeat (eapply execution_step; [|first [exact step8|exact step7|exact step6|exact step5|exact step4
    |exact step3|exact step2|exact step1]]). apply execution_initial.
Qed.

(** In between, the clock moved on. *)
Definition later_net : Net := set_world (set_clock 5 (n_world n1)) n1.
Definition authenticated_later : World :=
  snd (complete_authentication_for_test my_id 1 identity1 "desk" "linux" (Some (fun _ => n_world later_net)) (n_world n1)).
Lemma authentication_all_or_nothing_witness :
  exists a, activated my_id 1 a "desk" "linux" (new_connection 5 Outgoing 10000) (n_world later_net) authenticated_later.
Proof.
  destruct (authentication_all_or_nothing my_id n1 later_net 1 (new_connection 5 Outgoing 10000) identity1 "desk" "linux"
              (Ok (Ok true)) authenticated_later reachable1) as [(_ & a & _ & _ & _ & _ & _ & _ & H)|[Hne _]].
  - apply rtc_once, step_clock. vm_compute. discriminate.
  - vm_compute. reflexivity.
  - reflexivity.
  - apply run_eta. vm_compute. reflexivity.
  - exists a. exact H.
  - destruct Hne. reflexivity.
Defined.

Lemma worker_cleans_up_witness :
  exists w', start my_id 1 true [RecvBytes preface_bytes; RecvAgain; RecvEof] (n_world n1) = (Ok WorkerEnded, w') /\
    cleaned 1 w'.
Proof.
  destruct (worker_cleans_up my_id 1 true [RecvBytes preface_bytes; RecvAgain; RecvEof] (n_world n1)
              (new_connection 5 Outgoing 10000)) as (w' & Hrun & Hclean & _).
  - vm_compute. reflexivity.
  - reflexivity.
  - reflexivity.
  - right. reflexivity.
  - exists w'. split; [exact Hrun|exact Hclean].
Defined.

Lemma message_delivery_witness :
  exists w', broadcast_message my_id "hi" (n_world n8) = (Ok tt, w') /\
    delivery sent_bytes (others my_id (w_registry (n_world n8))) (n_world n8) w' /\
    others my_id (w_registry (n_world n8)) = [1].
Proof.
  destruct (message_delivery my_id n8 "hi" sent_bytes "nobody" reachable8) as [(w' & Hrun & Hdel) _].
  - discriminate.
  - vm_compute. reflexivity.
  - exists w'. split; [exact Hrun|]. split; [exact Hdel|]. vm_compute. reflexivity.
Defined.
End ServiceScenario.
