(* ===== verification/HttpApi.v ===== *)
(** * The local HTTP interface ([interface/api_server.cpp])

    One request per connection: the request is received until its headers and the
    announced body are complete, dispatched on its first line, answered, and the
    socket is closed.  A client is the chunks its socket will deliver and the sends
    it will accept; the rest of the program is the world of [Connection.v].  An
    exception that leaves a handler leaves the thread and terminates the process:
    it is the [Throw] of [handle_api_client]. *)

From S2P Require Import Prelude V2Framing Uuid TrustTables TrustStore TrustContract SessionAuth EventBus Registry Packet Connection Network Service.

(** ** Texts *)

Definition crlf : list byte := [x0d; x0a].
Definition crlf2 : list byte := crlf ++ crlf.

Fixpoint starts_with (needle text : list byte) : bool :=
  match needle, text with
  | [], _ => true
  | c :: needle, d :: text => bool_decide (c = d) && starts_with needle text
  | _ :: _, [] => false
  end.

(** [std::string::find], from the beginning and from a position. *)
Fixpoint find_text (needle text : list byte) : option nat :=
  if starts_with needle text then Some 0%nat
  else match text with [] => None | _ :: rest => S <$> find_text needle rest end.
Definition find_text_from (needle text : list byte) (pos : nat) : option nat :=
  Nat.add pos <$> find_text needle (drop pos text).

(** [std::to_string] of a number that is not negative. *)
Definition digit (d : Z) : byte := byte_of_Z (48 + d).
Fixpoint digits (fuel : nat) (n : Z) (acc : list byte) : list byte :=
  match fuel with
  | O => acc
  | S fuel => let acc := digit (n mod 10) :: acc in
              if n / 10 =? 0 then acc else digits fuel (n / 10) acc
  end.
Definition to_string (n : Z) : list byte := digits (S (Z.to_nat (Z.log2 n))) n [].

(** [std::stoi]: leading white space, a sign, digits; [None] when it throws. *)
Definition is_digit (c : byte) : bool := (48 <=? Z_of_byte c) && (Z_of_byte c <=? 57).
Definition is_space (c : byte) : bool := (Z_of_byte c =? 32) || (9 <=? Z_of_byte c) && (Z_of_byte c <=? 13).
Fixpoint drop_while (p : byte -> bool) (l : list byte) : list byte :=
  match l with c :: rest => if p c then drop_while p rest else l | [] => [] end.
Fixpoint read_digits (l : list byte) (acc : Z) : Z :=
  match l with
  | c :: rest => if is_digit c then read_digits rest (acc * 10 + (Z_of_byte c - 48)) else acc
  | [] => acc
  end.
Definition stoi (l : list byte) : option Z :=
  let l := drop_while is_space l in
  let '(negative, l) := match l with
                        | c :: rest => if Z_of_byte c =? 45 then (true, rest)
                                       else if Z_of_byte c =? 43 then (false, rest) else (false, l)
                        | [] => (false, l)
                        end in
  if match l with c :: _ => is_digit c | [] => false end then
    let v := if negative then - read_digits l 0 else read_digits l 0 in
    if (- 2 ^ 31 <=? v) && (v <=? 2 ^ 31 - 1) then Some v else None
  else None.

(** *** Searching *)

Lemma starts_with_app needle text more : starts_with needle text = true -> starts_with needle (text ++ more) = true.
Proof.
  revert text. induction needle as [|c needle IH]; intros [|d text]; cbn; try done.
  destruct (bool_decide (c = d)); [apply IH|done].
Qed.
Lemma starts_with_prefix needle text more :
  (length needle <= length text)%nat -> starts_with needle (text ++ more) = starts_with needle text.
Proof.
  revert text. induction needle as [|c needle IH]; intros [|d text]; cbn; intros Hl; try done; [lia|].
  by rewrite IH by lia.
Qed.
Lemma starts_with_length needle text : starts_with needle text = true -> (length needle <= length text)%nat.
Proof.
  revert text. induction needle as [|c needle IH]; intros [|d text]; cbn; try done; [lia..|].
  destruct (bool_decide (c = d)); [|done]. intros H%IH. lia.
Qed.

Lemma find_text_fits needle text k : find_text needle text = Some k -> (k + length needle <= length text)%nat.
Proof.
  revert k. induction text as [|c text IH]; intros k; cbn [find_text].
  - destruct (starts_with needle []) eqn:Hs; [|done]. intros [= <-]. by apply starts_with_length in Hs.
  - destruct (starts_with needle (c :: text)) eqn:Hs.
    + intros [= <-]. by apply starts_with_length in Hs.
    + destruct (find_text needle text) as [j|]; [|done]. cbn. intros [= <-]. specialize (IH j eq_refl). lia.
Qed.

(** The first occurrence stays the first when the text grows. *)
Lemma find_text_app needle text more k : find_text needle text = Some k -> find_text needle (text ++ more) = Some k.
Proof.
  revert k. induction text as [|c text IH]; intros k; cbn [find_text app].
  - destruct (starts_with needle []) eqn:Hs; [|done]. intros [= <-]. apply (starts_with_app _ _ more) in Hs. cbn [app] in Hs.
    destruct more; cbn [find_text]; by rewrite Hs.
  - destruct (find_text needle text) as [j|] eqn:Hf.
    + pose proof (find_text_fits _ _ _ Hf) as Hl. rewrite (IH j eq_refl).
      change (c :: text ++ more) with ((c :: text) ++ more). rewrite starts_with_prefix by (cbn; lia). done.
    + destruct (starts_with needle (c :: text)) eqn:Hs; [|done]. intros [= <-].
      change (c :: text ++ more) with ((c :: text) ++ more). by rewrite (starts_with_app _ _ more Hs).
Qed.

(** A character that is not searched for separates the text. *)
Lemma starts_with_cut needle text c rest :
  c ∉ needle -> starts_with needle (text ++ c :: rest) = starts_with needle text.
Proof.
  revert text. induction needle as [|n needle IH]; intros [|d text] Hc; cbn; try done;
    apply not_elem_of_cons in Hc as [Hn Hc].
  - by rewrite bool_decide_eq_false_2 by congruence.
  - by rewrite IH.
Qed.
Lemma find_text_cut needle text c rest :
  c ∉ needle -> needle <> [] -> find_text needle text = None ->
  find_text needle (text ++ c :: rest) = Nat.add (S (length text)) <$> find_text needle rest.
Proof.
  intros Hc Hn. induction text as [|d text IH]; cbn [find_text app length].
  - intros _. assert (starts_with needle (c :: rest) = false) as ->.
    { destruct needle as [|n needle]; [done|]. cbn. apply not_elem_of_cons in Hc as [? _]. by rewrite bool_decide_eq_false_2 by congruence. }
    by destruct (find_text needle rest).
  - change (d :: text ++ c :: rest) with ((d :: text) ++ c :: rest). rewrite starts_with_cut by done.
    destruct (starts_with needle (d :: text)); [done|]. destruct (find_text needle text); [done|]. intros _.
    rewrite IH by done. by destruct (find_text needle rest).
Qed.
Lemma find_text_skip needle text rest :
  Forall (fun c => c ∉ needle) text -> needle <> [] ->
  find_text needle (text ++ rest) = Nat.add (length text) <$> find_text needle rest.
Proof.
  intros Ht Hn. induction Ht as [|c text Hc _ IH]; [cbn [app length]; by destruct (find_text needle rest)|].
  cbn [app length]. change (c :: text ++ rest) with ([] ++ c :: (text ++ rest)).
  rewrite find_text_cut, IH; [|done|done|by destruct needle]. by destruct (find_text needle rest).
Qed.

(** *** Numbers *)

Lemma digit_value d : 0 <= d < 10 -> Z_of_byte (digit d) = 48 + d.
Proof. intros. unfold digit. rewrite Z_of_byte_of_Z, Z.mod_small; lia. Qed.
Lemma digit_is_digit d : 0 <= d < 10 -> is_digit (digit d) = true.
Proof. intros. unfold is_digit. rewrite digit_value by done. lia. Qed.

(** The digits are digits, and read as [n]. *)
Lemma digits_read fuel n acc : 0 <= n < 2 ^ Z.of_nat fuel -> (0 < fuel)%nat ->
  exists ds, digits fuel n acc = ds ++ acc /\ ds <> [] /\ Forall (fun c => is_digit c = true) ds /\
    forall rest z, read_digits (ds ++ rest) z = read_digits rest (z * 10 ^ zlen ds + n).
Proof.
  revert n acc. induction fuel as [|fuel IH]; intros n acc Hn Hf; [lia|]. cbn [digits].
  pose proof (Z.mod_pos_bound n 10 ltac:(lia)) as Hm. pose proof (Z.div_mod n 10 ltac:(lia)) as Hd.
  destruct (Z.eqb_spec (n / 10) 0) as [H0|H0].
  - exists [digit (n mod 10)]. split_and!; [done|done|by repeat constructor; apply digit_is_digit|]. intros rest z.
    cbn [app read_digits]. rewrite digit_is_digit, digit_value by done. f_equal. cbn. lia.
  - assert (0 < n / 10 < 2 ^ Z.of_nat fuel) as Hq.
    { rewrite Nat2Z.inj_succ, Z.pow_succ_r in Hn by lia. lia. }
    destruct fuel as [|fuel]; [cbn in Hq; lia|].
    destruct (IH (n / 10) (digit (n mod 10) :: acc) ltac:(lia) ltac:(lia)) as (ds & Hds & Hne & Hall & Hread).
    exists (ds ++ [digit (n mod 10)]). split_and!.
    + by rewrite Hds, <-app_assoc.
    + by destruct ds.
    + apply Forall_app. split; [done|]. by repeat constructor; apply digit_is_digit.
    + intros rest z. rewrite <-app_assoc, Hread. cbn [app read_digits]. rewrite digit_is_digit, digit_value by done. f_equal.
      rewrite length_app. cbn [length]. rewrite Nat2Z.inj_add, Z.pow_add_r by lia. cbn. lia.
Qed.

(** [stoi] reads back what [to_string] printed. *)
Lemma to_string_digits n : 0 <= n ->
  to_string n <> [] /\ Forall (fun c => is_digit c = true) (to_string n) /\
  (n <= 2 ^ 31 - 1 -> stoi (to_string n) = Some n).
Proof.
  intros Hn. unfold to_string.
  destruct (digits_read (S (Z.to_nat (Z.log2 n))) n []) as (ds & Hds & Hne & Hall & Hread); [|lia|].
  { split; [done|]. rewrite Nat2Z.inj_succ, Z2Nat.id by apply Z.log2_nonneg.
    destruct (Z.eq_dec n 0) as [->|]; [done|]. apply Z.log2_spec. lia. }
  rewrite app_nil_r in Hds. rewrite Hds. split_and!; [done..|]. intros Hmax.
  specialize (Hread [] 0). rewrite app_nil_r in Hread. cbn [read_digits] in Hread. rewrite Z.mul_0_l, Z.add_0_l in Hread.
  unfold stoi. destruct ds as [|c ds]; [done|]. apply Forall_cons in Hall as [Hc _].
  assert (is_space c = false) as Hsp by (unfold is_digit in Hc; unfold is_space; lia).
  cbn [drop_while]. rewrite Hsp. unfold is_digit in Hc.
  destruct (Z.eqb_spec (Z_of_byte c) 45); [lia|]. destruct (Z.eqb_spec (Z_of_byte c) 43); [lia|].
  unfold is_digit at 1. rewrite Hc, Hread.
  destruct (Z.leb_spec (- 2 ^ 31) n); [|lia]. by destruct (Z.leb_spec n (2 ^ 31 - 1)); [|lia].
Qed.

(** ** The client *)

Record Client : Type := mkClient {
  cl_chunks : list (list byte);   (** what the coming [recv] calls return; empty or none: end or error *)
  cl_accepts : list nat;          (** how many bytes the coming [send] calls take; 0: error; none: all *)
  cl_received : list byte;        (** what was sent to the client *)
  cl_closed : nat
}.

Definition API_PORT : Z := 42667.
Definition API_BUFFER_SIZE : Z := 4096.

(** The [recv] loops: append while [more]. *)
Fixpoint recv_while (more : list byte -> bool) (chunks : list (list byte)) (acc : list byte)
  : bool * list byte * list (list byte) :=
  if more acc then
    match chunks with
    | [] => (false, acc, [])
    | [] :: rest => (false, acc, rest)
    | chunk :: rest => recv_while more rest (acc ++ chunk)
    end
  else (true, acc, chunks).

Fixpoint http_send_loop (accepts : list nat) (data : list byte) : bool * list byte * list nat :=
  match data with
  | [] => (true, [], accepts)
  | _ :: _ =>
      match accepts with
      | [] => (true, data, [])
      | O :: rest => (false, [], rest)
      | S n :: rest =>
          let '(ok, more, rest') := http_send_loop rest (drop (S n) data) in (ok, take (S n) data ++ more, rest')
      end
  end.

Definition http_response (status_code : Z) (status_text : string) (body : list byte) (content_type : string) : list byte :=
  bytes_of "HTTP/1.1 " ++ to_string status_code ++ bytes_of " " ++ bytes_of status_text ++ crlf ++
  bytes_of "Content-Type: " ++ bytes_of content_type ++ crlf ++
  bytes_of "Content-Length: " ++ to_string (zlen body) ++ crlf ++
  bytes_of "Connection: close" ++ crlf2 ++ body.

Definition extract_content_length (headers : list byte) : Z :=
  let needle := bytes_of "Content-Length:" in
  match find_text needle headers with
  | None => 0
  | Some pos =>
      let start := (pos + length needle)%nat in
      let rest := drop start headers in
      let value_start := (start + (length rest - length (drop_while (fun c => bool_decide (c = x20)) rest)))%nat in
      match find_text_from crlf headers value_start with
      | None => 0
      | Some value_end => default 0 (stoi (take (value_end - value_start) (drop value_start headers)))
      end
  end.

Definition has_crlf2 (request : list byte) : bool :=
  match find_text crlf2 request with Some _ => true | None => false end.

(** The request, when it is complete, and what is left to receive. *)
Definition recv_http_request (chunks : list (list byte)) : option (list byte) * list (list byte) :=
  match recv_while (fun acc => negb (has_crlf2 acc)) chunks [] with
  | (false, _, rest) => (None, rest)
  | (true, out_request, rest) =>
      match find_text crlf2 out_request with
      | None => (None, rest)
      | Some headers_end =>
          let content_length := extract_content_length (take (headers_end + 4) out_request) in
          if (content_length <? 0) || (API_BUFFER_SIZE <? content_length) then (None, rest)
          else
            let target_size := Z.of_nat headers_end + 4 + content_length in
            match recv_while (fun acc => zlen acc <? target_size) rest out_request with
            | (false, _, rest') => (None, rest')
            | (true, out_request, rest') => (Some out_request, rest')
            end
      end
  end.

Definition get_request_body (request : list byte) : list byte :=
  match find_text crlf2 request with None => [] | Some headers_end => drop (headers_end + 4) request end.

Definition device_state_to_string (state : DeviceState) : string :=
  match state with
  | CONNECTING => "CONNECTING"
  | HANDSHAKE_DONE => "HANDSHAKE_DONE"
  | READY => "READY"
  | DISCONNECTED => "DISCONNECTED"
  | AUTHENTICATED => "UNKNOWN"
  end.

(** ** Handlers *)

(** What the handlers use of the JSON library beyond the packet code: arrays, truth
    values, and the texts of its exceptions ([what()]). *)
Class JsonReports `{JsonLibrary} : Type := {
  json_array : list json -> json;
  json_bool : bool -> json;
  parse_what : list byte -> string;     (** of the [parse_error] for a text *)
  type_what : json -> string;           (** of the [type_error] of [get<std::string>] *)
  exn_what : Exn -> string              (** of what [send_to_device] may throw *)
}.

(** [{"key":"text"}] *)
Definition quoted (s : string) : list byte := x22 :: bytes_of s ++ [x22].
Definition json_pair (key text : string) : list byte := x7b :: quoted key ++ x3a :: quoted text ++ [x7d].

Section api.
Context {TQ : TrustQueries} {JL : JsonLibrary} {JR : JsonReports} (my_device_id : string).

Record Api : Type := mkApi { a_client : Client; a_world : World }.
Definition set_client x a := mkApi x (a_world a).

Definition send_http_response (status_code : Z) (status_text : string) (body : list byte) (content_type : string)
  : stx Api Exn bool :=
  fun a =>
    let c := a_client a in
    let '(ok, sent, rest) := http_send_loop (cl_accepts c) (http_response status_code status_text body content_type) in
    (Ok ok, set_client (mkClient (cl_chunks c) rest (cl_received c ++ sent) (cl_closed c)) a).
Definition send_json (status_code : Z) (status_text : string) (body : list byte) : stx Api Exn bool :=
  send_http_response status_code status_text body "application/json".

(** [json::dump]. *)
Definition dump (j : json) : stx Api Exn (list byte) :=
  match json_dump j with (ws, true) => ret (text_of ws) | (_, false) => throw JsonTypeError end.

Definition device_json (device : Device) : json :=
  json_set "is_self" (json_bool (bool_decide (dev_id device = my_device_id)))
    (json_set "state" (json_string (device_state_to_string (dev_state device)))
      (json_set "device_type" (json_string (dev_type device))
        (json_set "device_name" (json_string (dev_name device))
          (json_set "device_id" (json_string (dev_id device)) json_null)))).
Definition handle_get_devices : stx Api Exn unit :=
  let! devices := gets (fun a => get_devices_copy (w_registry (a_world a))) in
  let! body := dump (json_array (device_json <$> devices)) in
  send_json 200 "OK" body;;; ret tt.

Definition event_json (event : MessageEvent) : json :=
  json_set "text" (json_string (ev_text event)) (json_set "device_id" (json_string (ev_device_id event)) json_null).
Definition handle_get_events : stx Api Exn unit :=
  let! events := (fun a => let '(events, rest) := consume_events (w_events (a_world a)) in
                           (Ok events, mkApi (a_client a) (set_events rest (a_world a)))) in
  let! body := dump (json_array (event_json <$> events)) in
  send_json 200 "OK" body;;; ret tt.

(** [MessageService::send_to_device], its exceptions as texts. *)
Definition service_send (device_id text : string) : stx Api string unit :=
  fun a => match send_to_device my_device_id device_id text (a_world a) with
           | (Ok u, w) => (Ok u, mkApi (a_client a) w)
           | (Throw e, w) => (Throw (exn_what e), mkApi (a_client a) w)
           end.
Definition get_string (j : json) : stx Api string string :=
  match json_as_string j with Some s => ret s | None => throw (type_what j) end.

(** The [try] block: the response it gets to send. *)
Definition post_send (request_body : list byte) : stx Api string (Z * string * list byte) :=
  match json_parse request_body with
  | None => throw (parse_what request_body)
  | Some body =>
      match json_find "device_id" body, json_find "text" body with
      | Some device_id, Some text =>
          let! device_id := get_string device_id in
          let! text := get_string text in
          service_send device_id text;;;
          ret (200, "OK", json_pair "status" "queued")
      | _, _ => ret (400, "Bad Request", json_pair "error" "'device_id' and 'text' are required")
      end
  end.
Definition error_json (what : string) : json := json_set "error" (json_string what) json_null.
Definition handle_post_send (request_body : list byte) : stx Api Exn unit :=
  fun a =>
    match post_send request_body a with
    | (Ok (code, text, body), a') => (send_json code text body;;; ret tt) a'
    | (Throw what, a') =>
        (let! body := dump (error_json what) in send_json 400 "Bad Request" body;;; ret tt) a'
    end.

Definition close : stx Api Exn unit :=
  modify (fun a => let c := a_client a in
                   set_client (mkClient (cl_chunks c) (cl_accepts c) (cl_received c) (S (cl_closed c))) a).
Definition recv_request : stx Api Exn (option (list byte)) :=
  fun a => let c := a_client a in
           let '(request, rest) := recv_http_request (cl_chunks c) in
           (Ok request, set_client (mkClient rest (cl_accepts c) (cl_received c) (cl_closed c)) a).

(** The dispatch on the request line. *)
Definition dispatch (request_line request : list byte) : stx Api Exn unit :=
  if starts_with (bytes_of "OPTIONS ") request_line
  then send_http_response 204 "No Content" [] "text/plain";;; ret tt
  else if starts_with (bytes_of "GET /devices") request_line then handle_get_devices
  else if starts_with (bytes_of "GET /events") request_line then handle_get_events
  else if starts_with (bytes_of "POST /send") request_line then handle_post_send (get_request_body request)
  else send_json 404 "Not Found" (json_pair "error" "endpoint not found");;; ret tt.

Definition handle_api_client : stx Api Exn unit :=
  let! request := recv_request in
  match request with
  | None => send_json 400 "Bad Request" (json_pair "error" "incomplete request");;; close
  | Some request =>
      if negb (has_crlf2 request) then close
      else
        match find_text crlf request with
        | None => send_json 400 "Bad Request" (json_pair "error" "invalid request line");;; close
        | Some line_end => dispatch (take line_end request) request;;; close
        end
  end.

(** ** Receiving *)

Lemma recv_while_spec more chunks acc b acc' rest :
  Forall (fun chunk => chunk <> []) chunks -> recv_while more chunks acc = (b, acc', rest) ->
  exists pre, chunks = pre ++ rest /\ acc' = acc ++ concat pre /\ (b = true -> more acc' = false) /\
    (b = false -> rest = [] /\ more acc' = true).
Proof.
  intros Hne. revert acc. induction Hne as [|chunk chunks Hc _ IH]; intros acc; cbn [recv_while].
  - destruct (more acc) eqn:Hm; intros [= <- <- <-]; exists []; cbn; rewrite app_nil_r; by split_and!.
  - destruct (more acc) eqn:Hm.
    + destruct chunk as [|c chunk]; [done|]. intros (pre & -> & -> & H1 & H2)%IH.
      exists ((c :: chunk) :: pre). cbn [concat app]. by rewrite <-app_assoc in *.
    + intros [= <- <- <-]. exists []. cbn. rewrite app_nil_r. by split_and!.
Qed.

(** What the bytes of a client mean, however they arrive: the size of the request
    they begin with. *)
Definition request_size (stream : list byte) : option nat :=
  match find_text crlf2 stream with
  | None => None
  | Some headers_end =>
      let content_length := extract_content_length (take (headers_end + 4) stream) in
      let target_size := (headers_end + 4 + Z.to_nat content_length)%nat in
      if (content_length <? 0) || (API_BUFFER_SIZE <? content_length) || (length stream <? target_size)%nat
      then None else Some target_size
  end.

Lemma has_crlf2_true l : has_crlf2 l = true -> exists k, find_text crlf2 l = Some k.
Proof. unfold has_crlf2. destruct (find_text crlf2 l); eauto. done. Qed.

Lemma recv_fragments chunks :
  Forall (fun chunk => chunk <> []) chunks ->
  match request_size (concat chunks) with
  | None => (recv_http_request chunks).1 = None
  | Some size => exists request, (recv_http_request chunks).1 = Some request /\
      take size (concat chunks) `prefix_of` request /\ request `prefix_of` concat chunks /\
      (length (concat chunks) = size -> request = concat chunks)
  end.
Proof.
  intros Hne. unfold recv_http_request, request_size.
  destruct (recv_while (fun acc => negb (has_crlf2 acc)) chunks []) as [[b acc] rest] eqn:H1.
  apply recv_while_spec in H1 as (pre & -> & -> & Ht & Hf); [|done]. cbn [app] in *. rewrite concat_app.
  destruct b.
  2: { destruct (Hf eq_refl) as [-> Hm]. cbn [concat]. rewrite app_nil_r. unfold has_crlf2 in Hm.
       by destruct (find_text crlf2 (concat pre)). }
  specialize (Ht eq_refl). apply negb_false_iff, has_crlf2_true in Ht as [k Hk]. clear Hf.
  pose proof (find_text_fits _ _ _ Hk) as Hfit. cbn [crlf2 crlf app length] in Hfit.
  rewrite (find_text_app _ _ (concat rest) _ Hk), Hk, take_app_le by lia.
  set (L := extract_content_length (take (k + 4) (concat pre))).
  destruct ((L <? 0) || (API_BUFFER_SIZE <? L)) eqn:HL; cbn [orb]; [done|]. apply orb_false_iff in HL as [HL _].
  destruct (recv_while _ rest (concat pre)) as [[b acc] rest'] eqn:H2.
  apply recv_while_spec in H2 as (pre' & -> & -> & Ht & Hf); [|by apply Forall_app in Hne as [_ ?]].
  rewrite concat_app. destruct b.
  - specialize (Ht eq_refl). apply Z.ltb_ge in Ht. rewrite !length_app in *.
    destruct (Nat.ltb_spec (length (concat pre) + (length (concat pre') + length (concat rest'))) (k + 4 + Z.to_nat L)); [lia|].
    eexists. split; [done|]. rewrite (app_assoc (concat pre)). split_and!.
    + rewrite take_app_le by (rewrite length_app; lia). apply prefix_take.
    + by apply prefix_app_r.
    + intros Hlen. destruct (concat rest') as [|c l]; [by rewrite app_nil_r|]. cbn in Hlen. lia.
  - destruct (Hf eq_refl) as [-> Hm]. apply Z.ltb_lt in Hm. cbn [concat]. rewrite app_nil_r. rewrite length_app in *.
    destruct (Nat.ltb_spec (length (concat pre) + length (concat pre')) (k + 4 + Z.to_nat L)); [done|lia].
Qed.

Lemma request_fragmentation_exact chunks :
  Forall (fun chunk => chunk <> []) chunks -> request_size (concat chunks) = Some (length (concat chunks)) ->
  (recv_http_request chunks).1 = Some (concat chunks).
Proof.
  intros Hne Hs. pose proof (recv_fragments chunks Hne) as H. rewrite Hs in H.
  destruct H as (request & -> & _ & _ & Heq). by rewrite Heq.
Qed.

(** A request is understood the same however it is split: the bytes a client sends
    are received as one request exactly when they contain complete headers, an
    announced length of at most 4096, and a body of at least that length; what is
    received then begins with that request and is a part of what was sent, and is
    all of it when nothing follows the request. *)
Theorem request_fragmentation chunks :
  Forall (fun chunk => chunk <> []) chunks ->
  match request_size (concat chunks) with
  | None => (recv_http_request chunks).1 = None
  | Some size => exists request, (recv_http_request chunks).1 = Some request /\
      take size (concat chunks) `prefix_of` request /\ request `prefix_of` concat chunks /\
      (length (concat chunks) = size -> request = concat chunks)
  end.
Proof. apply recv_fragments. Qed.

(** ** Responses *)

(** The status lines and content types the code sends. *)
Definition statuses : list (Z * string * string) :=
  [(200, "OK", "application/json"); (204, "No Content", "text/plain"); (400, "Bad Request", "application/json");
   (404, "Not Found", "application/json")].

(** The response up to the length. *)
Definition response_head (status : Z * string * string) : list byte :=
  let '(code, text, content_type) := status in
  bytes_of "HTTP/1.1 " ++ to_string code ++ bytes_of " " ++ bytes_of text ++ crlf ++
  bytes_of "Content-Type: " ++ bytes_of content_type ++ crlf ++ bytes_of "Content-Length:".
Definition response_tail : list byte := crlf ++ bytes_of "Connection: close" ++ crlf2.

#[local] Ltac in_statuses := by apply (bool_decide_unpack _); vm_compute.

Lemma response_parts code text content_type body :
  http_response code text body content_type =
    (response_head (code, text, content_type) ++ x20 :: to_string (zlen body)) ++ response_tail ++ body.
Proof.
  unfold http_response, response_head, response_tail. change (bytes_of "Content-Length: ") with (bytes_of "Content-Length:" ++ [x20]).
  by rewrite <-!app_assoc.
Qed.

(** A number is not searched for. *)
Lemma number_skipped n : 0 <= n -> Forall (fun c => c ∉ crlf) (x20 :: to_string n).
Proof.
  intros Hn. constructor; [by apply (bool_decide_unpack (x20 ∉ crlf)); vm_compute|].
  eapply Forall_impl; [apply (to_string_digits n Hn)|]. intros c Hc Hin.
  apply elem_of_cons in Hin as [->| ->%list_elem_of_singleton]; done.
Qed.
Lemma crlf2_chars c : c ∉ crlf -> c ∉ crlf2.
Proof. intros H [|]%elem_of_app; done. Qed.

Lemma response_facts status :
  status ∈ statuses ->
  find_text crlf2 (response_head status) = None /\
  find_text (bytes_of "Content-Length:") (response_head status) = Some (length (response_head status) - 15)%nat /\
  (15 <= length (response_head status))%nat.
Proof.
  unfold statuses. rewrite !elem_of_cons.
  intros [->|[->|[->|[->|?%not_elem_of_nil]]]]; [..|done]; (split_and!; [vm_compute; reflexivity..|vm_compute; lia]).
Qed.

Lemma drop_spaces l : (forall c, c ∈ take 1 l -> c <> x20) -> drop_while (fun c => bool_decide (c = x20)) l = l.
Proof. destruct l as [|c l]; [done|]. cbn. intros H. rewrite bool_decide_eq_false_2; [done|]. apply H. left. Qed.

(** Every response can be framed: its headers end before its body, and the length
    they announce is that of the body. *)
Theorem response_framed code text content_type body :
  (code, text, content_type) ∈ statuses -> zlen body <= 2 ^ 31 - 1 ->
  let response := http_response code text body content_type in
  exists headers_end, find_text crlf2 response = Some headers_end /\
    drop (headers_end + 4) response = body /\
    extract_content_length (take (headers_end + 4) response) = zlen body.
Proof.
  intros Hin Hlen response. unfold response. rewrite response_parts.
  destruct (response_facts _ Hin) as (Hnone & Hneedle & H15). revert Hnone Hneedle H15.
  set (head := response_head _). set (number := to_string (zlen body)). intros Hnone Hneedle H15.
  pose proof (number_skipped (zlen body) ltac:(lia)) as Hskip. fold number in Hskip.
  destruct (to_string_digits (zlen body) ltac:(lia)) as (Hn0 & Hdig & Hstoi). fold number in Hn0, Hdig, Hstoi.
  specialize (Hstoi Hlen).
  assert (Hfind : forall tail, find_text crlf2 ((head ++ x20 :: number) ++ response_tail ++ tail) =
            Some (length head + S (length number) + 19)%nat).
  { intros tail. apply Forall_cons in Hskip as [Hsp Hnum]. rewrite <-app_assoc. cbn [app].
    rewrite find_text_cut; [|by apply crlf2_chars|done|done].
    rewrite find_text_skip; [|by eapply Forall_impl; [exact Hnum|]; apply crlf2_chars|done].
    rewrite (find_text_app crlf2 response_tail tail 19) by (vm_compute; reflexivity). cbn. f_equal. lia. }
  exists (length head + S (length number) + 19)%nat. split; [apply Hfind|].
  assert (Htl : length response_tail = 23%nat) by (vm_compute; reflexivity).
  assert (Hcut : (length head + S (length number) + 19 + 4)%nat = length ((head ++ x20 :: number) ++ response_tail)).
  { rewrite !length_app, Htl. cbn [length]. lia. }
  rewrite Hcut, (app_assoc _ response_tail), drop_app_length, take_app_length. split; [done|].
  rewrite <-app_assoc. cbn [app]. unfold extract_content_length.
  rewrite (find_text_app _ head _ _ Hneedle).
  change (length (bytes_of "Content-Length:")) with 15%nat. replace (length head - 15 + 15)%nat with (length head) by lia.
  rewrite drop_app_length. cbn [drop_while]. rewrite bool_decide_eq_true_2 by done.
  rewrite drop_spaces; [|].
  2: { intros c Hc. destruct number as [|d number']; [done|]. cbn in Hc. rewrite take_0 in Hc.
       apply list_elem_of_singleton in Hc as ->. apply Forall_cons in Hdig as [Hd _]. by intros ->. }
  rewrite length_cons. replace (length head + _)%nat with (S (length head)) by lia.
  unfold find_text_from. replace (drop (S (length head)) (head ++ x20 :: number ++ response_tail)) with (number ++ response_tail).
  2: { rewrite (cons_middle x20), app_assoc. by rewrite <-(drop_app_length (head ++ [x20]) (number ++ _)) at 1; rewrite length_app, Nat.add_1_r. }
  apply Forall_cons in Hskip as [_ Hskip]. rewrite find_text_skip by done.
  replace (find_text crlf response_tail) with (Some 0%nat) by (vm_compute; reflexivity). cbn [fmap option_fmap option_map].
  replace (S (length head) + (length number + 0) - S (length head))%nat with (length number) by lia.
  by rewrite take_app_length, Hstoi.
Qed.

(** ** Answers *)

Lemma http_send_loop_spec accepts data ok sent rest :
  http_send_loop accepts data = (ok, sent, rest) ->
  sent `prefix_of` data /\ (ok = true -> sent = data) /\ (Forall (fun n => 0 < n)%nat accepts -> ok = true).
Proof.
  revert data ok sent. induction accepts as [|[|n] accepts IH]; intros [|c data] ok sent; cbn [http_send_loop];
    try (intros [= <- <- <-]; split_and!; done || apply prefix_nil).
  - intros [= <- <- <-]. split_and!; [apply prefix_nil|done|]. intros [? _]%Forall_cons. lia.
  - destruct (http_send_loop accepts (drop (S n) (c :: data))) as [[ok' more] rest'] eqn:H. intros [= <- <- <-].
    apply IH in H as (Hp & Hall & Hok). split_and!.
    + destruct Hp as [k Hk]. exists k. cbn in *. by rewrite <-app_assoc, <-Hk, take_drop.
    + intros Ht. rewrite (Hall Ht). cbn. by rewrite take_drop.
    + intros [_ ?]%Forall_cons. auto.
Qed.

(** The client was sent one response, or a part of it when a [send] failed. *)
Record answered (status : Z * string * string) (body : list byte) (c c' : Client) : Prop := {
  answered_chunks : cl_chunks c' = cl_chunks c;
  answered_closed : cl_closed c' = cl_closed c;
  answered_sent : exists sent, cl_received c' = cl_received c ++ sent /\
    sent `prefix_of` http_response status.1.1 status.1.2 body status.2 /\
    (Forall (fun n => 0 < n)%nat (cl_accepts c) -> sent = http_response status.1.1 status.1.2 body status.2)
}.

Lemma send_http_response_answers code text body content_type a :
  exists ok c', send_http_response code text body content_type a = (Ok ok, set_client c' a) /\
    answered (code, text, content_type) body (a_client a) c'.
Proof.
  unfold send_http_response. destruct (http_send_loop _ _) as [[ok sent] rest] eqn:H.
  apply http_send_loop_spec in H as (Hp & Hall & Hok). eexists _, _. split; [done|]. split; cbn; [done..|].
  exists sent. split_and!; auto.
Qed.

(** A run that ends in an answer, with the world [w]. *)
Definition answers (m : stx Api Exn unit) (a : Api) (status : Z * string * string) (body : list byte) (w : World) : Prop :=
  exists c', m a = (Ok tt, mkApi c' w) /\ answered status body (a_client a) c'.

Lemma send_json_answers code text body a :
  answers (send_json code text body;;; ret tt) a (code, text, "application/json") body (a_world a).
Proof.
  destruct (send_http_response_answers code text body "application/json" a) as (ok & c' & Hrun & Ha).
  exists c'. split; [|done]. unfold send_json, bind. by rewrite Hrun.
Qed.

Lemma dump_answers j code text a :
  match json_dump j with
  | (ws, true) => answers (let! body := dump j in send_json code text body;;; ret tt) a
                    (code, text, "application/json") (text_of ws) (a_world a)
  | (_, false) => (let! body := dump j in send_json code text body;;; ret tt) a = (Throw JsonTypeError, a)
  end.
Proof.
  unfold dump. destruct (json_dump j) as [ws [|]]; [|done]. apply (send_json_answers code text (text_of ws)).
Qed.

(** *** The handlers *)

(** Reading the events takes them: the client of [GET /events] is sent exactly the
    events that waited, oldest first; they are gone from the bus afterwards, whether
    or not the client received them, and nothing else has changed. *)
Theorem events_drained a ws :
  json_dump (json_array (event_json <$> w_events (a_world a))) = (ws, true) ->
  answers handle_get_events a (200, "OK", "application/json") (text_of ws) (set_events [] (a_world a)).
Proof.
  intros Hd. pose proof (dump_answers (json_array (event_json <$> w_events (a_world a))) 200 "OK"
    (mkApi (a_client a) (set_events [] (a_world a)))) as H. by rewrite Hd in H.
Qed.

Lemma get_devices_answers a ws :
  json_dump (json_array (device_json <$> w_registry (a_world a))) = (ws, true) ->
  answers handle_get_devices a (200, "OK", "application/json") (text_of ws) (a_world a).
Proof.
  intros Hd. pose proof (dump_answers (json_array (device_json <$> w_registry (a_world a))) 200 "OK" a) as H.
  by rewrite Hd in H.
Qed.

(** [POST /send]: what the [try] block obtains is the answer; a text that cannot be
    reported leaves the handler as an exception. *)
Lemma handle_post_send_cases request_body a :
  match post_send request_body a with
  | (Ok (code, text, body), a') =>
      exists c', handle_post_send request_body a = (Ok tt, mkApi c' (a_world a')) /\
        answered (code, text, "application/json") body (a_client a') c'
  | (Throw what, a') =>
      match json_dump (error_json what) with
      | (ws, true) => exists c', handle_post_send request_body a = (Ok tt, mkApi c' (a_world a')) /\
          answered (400, "Bad Request", "application/json") (text_of ws) (a_client a') c'
      | (_, false) => handle_post_send request_body a = (Throw JsonTypeError, a')
      end
  end.
Proof.
  unfold handle_post_send. destruct (post_send request_body a) as [[[[code text] body]|what] a'].
  - exact (send_json_answers code text body a').
  - exact (dump_answers (error_json what) 400 "Bad Request" a').
Qed.

(** The client is only touched by the answer. *)
Lemma post_send_client request_body a r a' :
  post_send request_body a = (r, a') -> a_client a' = a_client a /\
  forall code text body, r = Ok (code, text, body) -> (code, text, "application/json") ∈ statuses.
Proof.
  assert (Hret : forall code text body (s s' : Api) (r : result string (Z * string * list byte)), (code, text, "application/json") ∈ statuses ->
    (Ok (code, text, body), s) = (r, s') -> a_client s' = a_client s /\
     forall code text body, r = Ok (code, text, body) -> (code, text, "application/json") ∈ statuses).
  { intros code text body s s' r' Hin [= <- <-]. split; [done|]. by intros ? ? ? [= <- <- <-]. }
  unfold post_send. destruct (json_parse request_body) as [body|]; [|by intros [= <- <-]].
  destruct (json_find "device_id" body) as [d|], (json_find "text" body) as [t|];
    try (apply Hret; in_statuses).
  unfold get_string. destruct (json_as_string d) as [device_id|]; [|by intros [= <- <-]].
  destruct (json_as_string t) as [text|]; [|by intros [= <- <-]]. unfold bind, ret, service_send.
  destruct (send_to_device _ _ _ _) as [[u|e] w]; [|by intros [= <- <-]].
  intros H. apply Hret in H; [done|]. in_statuses.
Qed.

(** ** Whole connections *)

Lemma recv_while_true more chunks acc acc' rest :
  recv_while more chunks acc = (true, acc', rest) -> more acc' = false /\ acc `prefix_of` acc'.
Proof.
  revert acc. induction chunks as [|[|c chunk] chunks IH]; intros acc; cbn [recv_while];
    destruct (more acc) eqn:Hm; try done; try (by intros [= <- <-]).
  intros [? Hp]%IH. split; [done|]. etransitivity; [|exact Hp]. by apply prefix_app_r.
Qed.

(** A request that was received has complete headers, and so a request line. *)
Lemma recv_http_request_some chunks request rest :
  recv_http_request chunks = (Some request, rest) ->
  has_crlf2 request = true /\ exists line_end, find_text crlf request = Some line_end.
Proof.
  unfold recv_http_request. destruct (recv_while _ chunks []) as [[[|] acc] rest1] eqn:H1; [|done].
  destruct (find_text crlf2 acc) as [k|] eqn:Hk; [|done]. destruct (_ || _); [done|].
  destruct (recv_while _ rest1 acc) as [[[|] acc'] rest2] eqn:H2; [|done]. intros [= <- <-].
  apply recv_while_true in H2 as [_ [more ->]]. apply (find_text_app _ _ more) in Hk.
  unfold has_crlf2. rewrite Hk. split; [done|].
  clear -Hk. revert k Hk. generalize (acc ++ more) as text. induction text as [|c text IH]; intros k.
  - done.
  - cbn [find_text]. destruct (starts_with crlf (c :: text)) eqn:Hs; [eauto|].
    destruct (starts_with crlf2 (c :: text)) eqn:Hs2.
    + exfalso. revert Hs Hs2. destruct text as [|d text]; cbn; [by destruct (bool_decide (x0d = c))|].
      destruct (bool_decide (x0d = c)), (bool_decide (x0a = d)); done.
    + destruct (find_text crlf2 text) as [j|]; [|done]. intros _. destruct (IH j eq_refl) as [i ->]. cbn. eauto.
Qed.

(** How a handler ends: with an answer, or with an exception of the serializer
    before anything was sent. *)
Definition concluded (c : Client) (r : result Exn unit) (c' : Client) : Prop :=
  match r with
  | Ok _ => exists status body, status ∈ statuses /\ answered status body c c'
  | Throw e => e = JsonTypeError /\ c' = c
  end.

Lemma answers_concluded m a status body w r a' :
  status ∈ statuses -> answers m a status body w -> m a = (r, a') -> concluded (a_client a) r (a_client a').
Proof. intros Hin (c' & Hrun & Ha). rewrite Hrun. intros [= <- <-]. by exists status, body. Qed.

Lemma dump_concluded j a r a' :
  (let! body := dump j in send_json 200 "OK" body;;; ret tt) a = (r, a') -> concluded (a_client a) r (a_client a').
Proof.
  intros Hrun. pose proof (dump_answers j 200 "OK" a) as Hd. destruct (json_dump j) as [ws [|]].
  - eapply answers_concluded; [|exact Hd|exact Hrun]. in_statuses.
  - rewrite Hrun in Hd. by injection Hd as -> ->.
Qed.

Lemma post_send_concluded request_body a r a' :
  handle_post_send request_body a = (r, a') -> concluded (a_client a) r (a_client a').
Proof.
  intros Hrun. pose proof (handle_post_send_cases request_body a) as Hc. rewrite Hrun in Hc.
  destruct (post_send request_body a) as [[[[code text] body]|what] a1] eqn:Hp;
    apply post_send_client in Hp as [Hcl Hst]; rewrite Hcl in Hc.
  - destruct Hc as (c' & [= -> ->] & Ha). eexists _, _. split; [|exact Ha]. by eapply Hst.
  - destruct (json_dump (error_json what)) as [ws [|]].
    + destruct Hc as (c' & [= -> ->] & Ha). eexists _, _. split; [|exact Ha]. in_statuses.
    + injection Hc as -> ->. done.
Qed.

Lemma dispatch_concluded line request a r a' :
  dispatch line request a = (r, a') -> concluded (a_client a) r (a_client a').
Proof.
  unfold dispatch. destruct (starts_with (bytes_of "OPTIONS ") line).
  { destruct (send_http_response_answers 204 "No Content" [] "text/plain" a) as (ok & c' & Hrun & Ha).
    unfold bind at 1. rewrite Hrun. intros [= <- <-]. eexists _, _. split; [|exact Ha]. in_statuses. }
  destruct (starts_with (bytes_of "GET /devices") line); [apply dump_concluded|].
  destruct (starts_with (bytes_of "GET /events") line).
  { apply (dump_concluded _ (mkApi (a_client a) (set_events [] (a_world a)))). }
  destruct (starts_with (bytes_of "POST /send") line); [apply post_send_concluded|].
  eapply answers_concluded; [|apply send_json_answers]. in_statuses.
Qed.

(** C36. Every client gets one answer and is closed once: when [handle_api_client] returns, the
    client was sent one response of the code, or a beginning of it if a [send]
    failed, and its socket was closed exactly once.  The only other end is an
    exception of the JSON serializer; the client is then neither answered nor
    closed. *)
Theorem api_client_answered a r a' :
  handle_api_client a = (r, a') ->
  match r with
  | Ok _ => cl_closed (a_client a') = S (cl_closed (a_client a)) /\
      exists status body sent, status ∈ statuses /\ cl_received (a_client a') = cl_received (a_client a) ++ sent /\
        sent `prefix_of` http_response status.1.1 status.1.2 body status.2 /\
        (Forall (fun n => 0 < n)%nat (cl_accepts (a_client a)) ->
         sent = http_response status.1.1 status.1.2 body status.2)
  | Throw e => e = JsonTypeError /\ cl_closed (a_client a') = cl_closed (a_client a) /\
      cl_received (a_client a') = cl_received (a_client a)
  end.
Proof.
  unfold handle_api_client, bind at 1, recv_request.
  destruct (recv_http_request (cl_chunks (a_client a))) as [[request|] rest] eqn:Hr.
  - apply recv_http_request_some in Hr as [-> [line_end ->]]. cbn [negb].
    intros [(u & a1 & Hd & Hc)|(e & Hd & ->)]%bind_run; apply dispatch_concluded in Hd; cbn [a_client set_client] in Hd.
    + injection Hc as <- <-. destruct Hd as (status & body & Hin & [_ Hcl (sent & Hs & Hp & Hall)]).
      cbn in *. split; [by rewrite Hcl|]. exists status, body, sent. auto.
    + destruct Hd as [-> ->]. done.
  - intros H. set (a0 := set_client _ a) in H.
    destruct (send_http_response_answers 400 "Bad Request" (json_pair "error" "incomplete request") "application/json" a0)
      as (ok & c' & Hrun & [_ Hcl (sent & Hs & Hp & Hall)]).
    unfold send_json, bind at 1 in H. rewrite Hrun in H. injection H as <- <-. cbn in *. split; [by rewrite Hcl|].
    exists (400, "Bad Request", "application/json"), (json_pair "error" "incomplete request"), sent. split_and!; try done.
    in_statuses.
Qed.

Context {JLaws : JsonLaws}.

(** A client that sends one complete request and nothing else. *)
Definition sends_request (c : Client) (line request : list byte) : Prop :=
  Forall (fun chunk => chunk <> []) (cl_chunks c) /\ concat (cl_chunks c) = request /\
  request_size request = Some (length request) /\
  exists line_end, find_text crlf request = Some line_end /\ take line_end request = line.

(** Received: nothing is left to read, and the world has not changed. *)
Definition received (c : Client) : Client := mkClient (recv_http_request (cl_chunks c)).2 (cl_accepts c) (cl_received c) (cl_closed c).

Lemma handle_request a line request :
  sends_request (a_client a) line request ->
  handle_api_client a = (dispatch line request;;; close) (set_client (received (a_client a)) a).
Proof.
  intros (Hne & Hcat & Hsize & line_end & Hline & <-). unfold handle_api_client, bind at 1, recv_request, received.
  pose proof (request_fragmentation_exact _ Hne ltac:(by rewrite Hcat)) as Hr. rewrite Hcat in Hr.
  destruct (recv_http_request (cl_chunks (a_client a))) as [req rest] eqn:Heq. cbn [fst snd] in *. subst req.
  apply recv_http_request_some in Heq as [-> _]. by rewrite Hline.
Qed.


(** C37. A body that cannot be quoted ends the process: the error reported for a body that
    does not parse quotes the body, and the text of an error is put into a JSON
    document inside the handler of the exception; when the quoted bytes are not
    UTF-8 the serializer throws there, the exception leaves the thread, and the
    client is neither answered nor closed. *)
Theorem malformed_body_terminates a line request ws :
  sends_request (a_client a) line request ->
  starts_with (bytes_of "POST /send") line = true -> json_parse (get_request_body request) = None ->
  json_dump (error_json (parse_what (get_request_body request))) = (ws, false) ->
  exists a', handle_api_client a = (Throw JsonTypeError, a') /\ a_world a' = a_world a /\
    cl_received (a_client a') = cl_received (a_client a) /\ cl_closed (a_client a') = cl_closed (a_client a).
Proof.
  intros Hreq Hline Hparse Hdump. rewrite (handle_request _ line request) by done.
  exists (set_client (received (a_client a)) a). split; [|done]. unfold bind at 1.
  assert (dispatch line request (set_client (received (a_client a)) a) = (Throw JsonTypeError, set_client (received (a_client a)) a)) as ->; [|done].
  unfold dispatch. rewrite Hline. destruct line as [|l0 line]; [done|].
  assert (l0 = x50) as -> by (cbn in Hline; by case_bool_decide). cbn [starts_with bytes_of].
  pose proof (handle_post_send_cases (get_request_body request) (set_client (received (a_client a)) a)) as Hc.
  unfold post_send in Hc. rewrite Hparse in Hc. unfold throw in Hc. rewrite Hdump in Hc. exact Hc.
Qed.

(** The devices reported are the registered ones: from any reachable state, the client of
    [GET /devices] is sent one entry per registered device, with its identifier,
    the identifiers are distinct, every state is READY, and nothing changes. *)
Theorem devices_listed n c ws :
  reachable my_device_id n ->
  json_dump (json_array (device_json <$> w_registry (n_world n))) = (ws, true) ->
  answers handle_get_devices (mkApi c (n_world n)) (200, "OK", "application/json") (text_of ws) (n_world n) /\
  NoDup (dev_id <$> w_registry (n_world n)) /\
  forall d, d ∈ w_registry (n_world n) ->
    string_field "device_id" (device_json d) = Some (dev_id d) /\ string_field "state" (device_json d) = Some "READY".
Proof.
  intros Hn Hd. split; [by apply (get_devices_answers (mkApi c (n_world n)))|].
  pose proof (reachable_ok _ _ Hn) as Hok. destruct (ok_registry _ Hok) as [Hids Hready]. split; [exact Hids|].
  intros d Hin. rewrite Forall_forall in Hready. pose proof (Hready d Hin) as Hr.
  unfold string_field, device_json. rewrite Hr. rewrite !json_find_set by (repeat (left; apply json_set_object); auto).
  field_cases. by rewrite !json_as_string_string.
Qed.
End api.

(** ** The listening socket *)

Inductive AcceptEvent : Type := AcceptFailed | Accepted (client_fd : Z) (thread_created : bool).

(** How [bootstrap_api_server] ends, or goes on waiting for clients. *)
Inductive ApiServer : Type :=
| NotListening                                  (** it returned *)
| Listening (address port : Z) (clients : list Z)
| ApiTerminated (clients : list Z).             (** no thread could be created *)

Fixpoint api_accept_loop (events : list AcceptEvent) (clients : list Z) : ApiServer :=
  match events with
  | [] => Listening 2130706433 API_PORT clients   (* 127.0.0.1 *)
  | AcceptFailed :: rest => api_accept_loop rest clients
  | Accepted client_fd true :: rest => api_accept_loop rest (clients ++ [client_fd])
  | Accepted client_fd false :: _ => ApiTerminated clients
  end.

(** The file descriptors it closes, and its end. *)
Definition bootstrap_api_server (socket : option Z) (bound listening : bool) (events : list AcceptEvent)
  : list Z * ApiServer :=
  match socket with
  | None => ([], NotListening)
  | Some server_fd =>
      if negb bound then ([server_fd], NotListening)
      else if negb listening then ([server_fd], NotListening)
      else ([], api_accept_loop events [])
  end.

(** ** Concrete clients *)

Module HttpScenario.
Import Scenario AuthScenario SmallJson ConnectionScenario NetworkScenario ServiceScenario.

(** [SmallJson] with a serializer that refuses bytes outside ASCII, arrays as lists of
    members, and errors that quote. *)
Definition ascii_text (s : string) : bool := forallb (fun c => Z_of_byte c <? 128) (bytes_of s).
Fixpoint ascii_value (j : value) : bool :=
  match j with
  | Null => true
  | Str s => ascii_text s
  | Obj l => (fix members l := match l with [] => true | (k, v) :: rest => ascii_text k && ascii_value v && members rest end) l
  end.
Definition strict : JsonLibrary := {|
  json := value; json_null := Null; json_string := Str; json_parse := parse;
  json_dump j := (dump_value j, ascii_value j);
  json_is_object := is_object; json_as_string := as_string; json_find := find; json_set := set
|}.
Definition small_array (l : list value) : value := Obj ((fun j => ("item", j)) <$> l).
Definition small_bool (b : bool) : value := Str (if b then "true" else "false").
Definition small_what (data : list byte) : string := String.append "parse error; last read: " (text_of_bytes data).
Definition strict_reports : @JsonReports strict :=
  @Build_JsonReports strict small_array small_bool small_what (fun _ => "type must be string") (fun _ => "exception").
#[local] Instance reports : @JsonReports library :=
  @Build_JsonReports library small_array small_bool small_what (fun _ => "type must be string") (fun _ => "exception").

Definition post (body : list byte) : list byte :=
  bytes_of "POST /send HTTP/1.1" ++ crlf ++ bytes_of "Content-Length: " ++ to_string (zlen body) ++ crlf2 ++ body.
Definition post_line : list byte := bytes_of "POST /send HTTP/1.1".
Definition message_body : list byte :=
  x7b :: quoted "device_id" ++ x3a :: quoted (dev_id dev1) ++ x2c :: quoted "text" ++ x3a :: quoted "hi" ++ [x7d].
(** The request in two parts, the sends in many. *)
Definition client (request : list byte) : Client := mkClient [take 30 request; drop 30 request] [10; 20]%nat [] 0.

Lemma post_sent body k :
  find_text crlf (post body) = Some k -> (30 < length (post body))%nat ->
  request_size (post body) = Some (length (post body)) -> take k (post body) = post_line ->
  sends_request (client (post body)) post_line (post body).
Proof.
  intros Hk Hl Hs Ht. split_and!.
  - unfold client. cbn [cl_chunks]. repeat constructor; intros Heq%(f_equal length); rewrite ?length_take, ?length_drop in Heq; cbn in Heq; lia.
  - unfold client. cbn [cl_chunks concat]. by rewrite app_nil_r, take_drop.
  - done.
  - eauto.
Qed.

Lemma request_fragmentation_witness :
  request_size (post message_body) = Some (length (post message_body)) /\
  exists request, (recv_http_request (cl_chunks (client (post message_body)))).1 = Some request.
Proof.
  split; [vm_compute; reflexivity|].
  assert (Forall (fun chunk => chunk <> []) (cl_chunks (client (post message_body)))) as Hne
    by (repeat constructor; vm_compute; discriminate).
  pose proof (request_fragmentation (cl_chunks (client (post message_body))) Hne) as H.
  destruct (request_size (concat (cl_chunks (client (post message_body))))) as [size|] eqn:E; [|vm_compute in E; discriminate].
  destruct H as (request & Hr & _). by exists request.
Defined.

Lemma response_framed_witness :
  exists headers_end, drop (headers_end + 4) (http_response 200 "OK" message_body "application/json") = message_body.
Proof.
  destruct (response_framed 200 "OK" "application/json" message_body) as (k & _ & Hd & _).
  - left.
  - vm_compute. discriminate.
  - by exists k.
Defined.

Definition quiet : World := n_world n8.
Definition with_events : World := set_events [mkMessageEvent "a" "b"] quiet.
Lemma events_drained_witness :
  answers handle_get_events (mkApi (client []) with_events) (200, "OK", "application/json")
    (text_of (dump_value (json_array (event_json <$> w_events with_events)))) (set_events [] with_events).
Proof. apply (events_drained (mkApi (client []) with_events)). reflexivity. Defined.

Lemma devices_listed_witness : NoDup (dev_id <$> w_registry (n_world n8)).
Proof.
  exact (proj1 (proj2 (devices_listed my_id n8 (client [])
    (dump_value (json_array (device_json my_id <$> w_registry (n_world n8)))) reachable8 eq_refl))).
Defined.

Definition api0 : Api := mkApi (client (post message_body)) (n_world n8).
Lemma api_client_answered_witness : cl_closed (a_client (handle_api_client my_id api0).2) = 1%nat.
Proof.
  pose proof (api_client_answered my_id api0 (Ok tt) (handle_api_client my_id api0).2) as H.
  destruct H as [H _].
  - apply run_eta. vm_compute. reflexivity.
  - exact H.
Defined.


(** The single byte 0xff as a body. *)
Definition bad_post : list byte := post [xff].
Lemma malformed_body_terminates_witness :
  exists a', @handle_api_client _ strict strict_reports my_id (mkApi (client bad_post) (n_world n8)) = (Throw JsonTypeError, a') /\
    cl_closed (a_client a') = 0%nat.
Proof.
  destruct (@malformed_body_terminates _ strict strict_reports my_id (mkApi (client bad_post) (n_world n8)) post_line bad_post
    (dump_value (@error_json strict (small_what [xff])))) as (a' & Hrun & _ & _ & Hc).
  - apply (post_sent _ 19); [vm_compute; reflexivity|vm_compute; lia|vm_compute; reflexivity..].
  - vm_compute. reflexivity.
  - vm_compute. reflexivity.
  - vm_compute. reflexivity.
  - exists a'. split; [exact Hrun|exact Hc].
Defined.
End HttpScenario.
