(* ===== verification/Avahi.v ===== *)
(** * Discovery through Avahi ([platform/linux/discovery/])

    [AvahiBrowser] and [AvahiPublisher] own objects of the Avahi client library, a C
    library with manual deallocation: freeing a client frees the browsers, resolvers
    and entry groups made with it.  The model keeps the live objects, each with the
    client it belongs to, and records a fault when the code frees or uses an object
    that is not live.  The loop of [avahi_simple_poll_loop] is the sequence of
    callbacks it makes, each to an object that is live; the first callback for a
    client comes from inside [avahi_client_new], and none comes when that fails. *)

From S2P Require Import Prelude.

(** ** Data ([core/discovery/discovered_device.hpp]) *)

Record DiscoveredDevice : Type := mkDiscoveredDevice {
  dd_device_id : string;
  dd_device_name : string;
  dd_ip_address : string;
  dd_port : Z
}.

(** A service as it is announced. *)
Record Service : Type := mkService { sv_name : string; sv_port : Z; sv_device_id : string }.

(** ** Objects of the library *)

Inductive AvahiObject : Type :=
| Poll
| Client
| Browser (client : nat)
| Resolver (client : nat)
| EntryGroup (client : nat) (services : list Service) (committed : bool)
| Memory.   (** a string or a list of strings that the library allocated *)
#[export] Instance Service_eq_dec : EqDecision Service.
Proof. solve_decision. Defined.
#[export] Instance AvahiObject_eq_dec : EqDecision AvahiObject.
Proof. solve_decision. Defined.

Record Heap : Type := mkHeap {
  h_live : gmap nat AvahiObject;
  h_next : nat;
  h_fault : bool
}.
Definition fault (h : Heap) : Heap := mkHeap (h_live h) (h_next h) true.

Definition allocate (o : AvahiObject) (h : Heap) : nat * Heap :=
  (h_next h, mkHeap (<[h_next h := o]> (h_live h)) (S (h_next h)) (h_fault h)).

Definition owned_by (client : nat) (o : AvahiObject) : bool :=
  match o with
  | Browser c | Resolver c | EntryGroup c _ _ => bool_decide (c = client)
  | Poll | Client | Memory => false
  end.
Definition is_browser (o : AvahiObject) : bool := match o with Browser _ => true | _ => false end.
Definition is_resolver (o : AvahiObject) : bool := match o with Resolver _ => true | _ => false end.
Definition is_group (o : AvahiObject) : bool := match o with EntryGroup _ _ _ => true | _ => false end.

(** An object of the right kind is needed. *)
Definition with_object (p : AvahiObject -> bool) (id : nat) (f : Heap -> Heap) (h : Heap) : Heap :=
  match h_live h !! id with
  | Some o => if p o then f h else fault h
  | None => fault h
  end.
Definition free_object (p : AvahiObject -> bool) (id : nat) : Heap -> Heap :=
  with_object p id (fun h => mkHeap (delete id (h_live h)) (h_next h) (h_fault h)).
(** [avahi_client_free]. *)
Definition client_free (id : nat) : Heap -> Heap :=
  with_object (fun o => bool_decide (o = Client)) id
    (fun h => mkHeap (filter (fun io => owned_by id io.2 = false) (delete id (h_live h))) (h_next h) (h_fault h)).
Definition poll_free : nat -> Heap -> Heap := free_object (fun o => bool_decide (o = Poll)).
Definition browser_free : nat -> Heap -> Heap := free_object is_browser.
Definition resolver_free : nat -> Heap -> Heap := free_object is_resolver.
Definition group_free : nat -> Heap -> Heap := free_object is_group.
(** [avahi_free], [avahi_string_list_free]. *)
Definition memory_free : nat -> Heap -> Heap := free_object (fun o => bool_decide (o = Memory)).
(** A use of a client by one of the library's functions, [avahi_client_errno] among them. *)
Definition use_client (id : nat) : Heap -> Heap := with_object (fun o => bool_decide (o = Client)) id Datatypes.id.

Lemma with_object_live p id f h o :
  h_live h !! id = Some o -> p o = true -> with_object p id f h = f h.
Proof. intros Hl Hp. unfold with_object. by rewrite Hl, Hp. Qed.

(** Memory that was allocated and freed again leaves only a used identifier. *)
Definition bump (n : nat) (h : Heap) : Heap := mkHeap (h_live h) (n + h_next h) (h_fault h).
Definition fresh (h : Heap) : Prop := forall i o, h_live h !! i = Some o -> (i < h_next h)%nat.

Lemma fresh_next h : fresh h -> h_live h !! h_next h = None.
Proof. intros Hf. destruct (h_live h !! h_next h) as [o|] eqn:E; [|done]. apply Hf in E. lia. Qed.
Lemma fresh_bump n h : fresh h -> fresh (bump n h).
Proof. intros Hf i o Hi%Hf. cbn. lia. Qed.

(** A block freed after a change [f] of another object. *)
Lemma memory_scope h (f : gmap nat AvahiObject -> gmap nat AvahiObject) :
  fresh h -> (forall o, f (<[h_next h := o]> (h_live h)) = <[h_next h := o]> (f (h_live h))) ->
  f (h_live h) !! h_next h = None ->
  memory_free (h_next h) (mkHeap (f (<[h_next h := Memory]> (h_live h))) (S (h_next h)) (h_fault h))
  = mkHeap (f (h_live h)) (S (h_next h)) (h_fault h).
Proof.
  intros Hf Hc Hn. unfold memory_free, free_object. rewrite Hc.
  rewrite (with_object_live _ _ _ _ Memory); [|apply lookup_insert_eq|by rewrite bool_decide_eq_true_2].
  cbn. by rewrite delete_insert_id.
Qed.

Inductive ClientState : Type := S_RUNNING | S_COLLISION | S_REGISTERING | CLIENT_FAILURE | CLIENT_CONNECTING.

(** ** The browser *)

Module AvahiBrowser.

Record browser_State : Type := mkState {
  callback_ : bool;
  simple_poll_ : option nat;
  client_ : option nat;
  browser_ : option nat;
  running_ : bool;
  heap : Heap;
  quit : bool;                          (** the loop was asked to end *)
  discovered : list DiscoveredDevice    (** what the callback was given *)
}.
Definition browser_set_heap x s := mkState (callback_ s) (simple_poll_ s) (client_ s) (browser_ s) (running_ s) x (quit s) (discovered s).
Definition browser_set_poll x s := mkState (callback_ s) x (client_ s) (browser_ s) (running_ s) (heap s) (quit s) (discovered s).
Definition browser_set_client x s := mkState (callback_ s) (simple_poll_ s) x (browser_ s) (running_ s) (heap s) (quit s) (discovered s).
Definition set_browser x s := mkState (callback_ s) (simple_poll_ s) (client_ s) x (running_ s) (heap s) (quit s) (discovered s).
Definition browser_set_running x s := mkState (callback_ s) (simple_poll_ s) (client_ s) (browser_ s) x (heap s) (quit s) (discovered s).
Definition browser_set_quit x s := mkState (callback_ s) (simple_poll_ s) (client_ s) (browser_ s) (running_ s) (heap s) x (discovered s).
Definition set_callback x s := mkState x (simple_poll_ s) (client_ s) (browser_ s) (running_ s) (heap s) (quit s) (discovered s).
Definition add_device d s :=
  mkState (callback_ s) (simple_poll_ s) (client_ s) (browser_ s) (running_ s) (heap s) (quit s) (discovered s ++ [d]).

(** [if (simple_poll_) avahi_simple_poll_quit(simple_poll_)] *)
Definition browser_request_quit (s : browser_State) : browser_State :=
  match simple_poll_ s with
  | Some p => browser_set_quit true (browser_set_heap (with_object (fun o => bool_decide (o = Poll)) p Datatypes.id (heap s)) s)
  | None => s
  end.

Definition browser_stop (s : browser_State) : browser_State :=
  if running_ s then browser_request_quit (browser_set_running false s) else s.

Definition free_browser (s : browser_State) : browser_State :=
  match browser_ s with
  | Some b => set_browser None (browser_set_heap (browser_free b (heap s)) s)
  | None => s
  end.
Definition browser_cleanup (s : browser_State) : browser_State :=
  let s := free_browser s in
  let s := match client_ s with
           | Some c => browser_set_client None (browser_set_heap (client_free c (heap s)) s)
           | None => s
           end in
  match simple_poll_ s with
  | Some p => browser_set_poll None (browser_set_heap (poll_free p (heap s)) s)
  | None => s
  end.

(** What a resolver reports.  The TXT record may be missing, or have no entry
    [device_id]; [avahi_string_list_get_pair] of the entry may fail, and otherwise
    allocates a key and a value, either of which may be null. *)
Inductive AvahiProtocol : Type := PROTO_INET | PROTO_INET6 | PROTO_UNSPEC.
Record TxtPair : Type := mkTxtPair { tp_read : bool; tp_key : bool; tp_value : option string }.
Record Resolution : Type := mkResolution {
  rs_found : bool;
  rs_name : option string;
  rs_address : option (AvahiProtocol * string);   (** its protocol and its text *)
  rs_port : Z;
  rs_txt : option (option TxtPair)
}.

(** The [device_id] of the TXT record; what the library allocated for it is freed. *)
Definition read_device_id (txt : option (option TxtPair)) (h : Heap) : string * Heap :=
  match txt with
  | Some (Some entry) =>
      if negb (tp_read entry) then (EmptyString, h)
      else
        let '(key, h) := if tp_key entry then let '(k, h) := allocate Memory h in (Some k, h) else (None, h) in
        let '(value, h) := match tp_value entry with
                           | Some v => let '(b, h) := allocate Memory h in (Some (b, v), h)
                           | None => (None, h)
                           end in
        let '(id, h) := match value with Some (b, v) => (v, memory_free b h) | None => (EmptyString, h) end in
        (id, match key with Some k => memory_free k h | None => h end)
  | Some None | None => (EmptyString, h)
  end.

(** The guard frees the resolver when the function returns, wherever it does. *)
Definition resolve_callback (r : nat) (res : Resolution) (s : browser_State) : browser_State :=
  let guard s := browser_set_heap (resolver_free r (heap s)) s in
  let service_name := default "unknown" (rs_name res) in
  if negb (rs_found res) then
    guard match client_ s with Some c => browser_set_heap (use_client c (heap s)) s | None => s end
  else
    match rs_address res with
    | Some (PROTO_INET, ip) =>
        if bool_decide (ip = "127.0.0.1") then guard s
        else
          let '(peer_device_id, h) := read_device_id (rs_txt res) (heap s) in
          let s := browser_set_heap h s in
          if bool_decide (peer_device_id = EmptyString) then guard s
          else guard (if callback_ s then add_device (mkDiscoveredDevice peer_device_id service_name ip (rs_port res)) s else s)
    | Some (PROTO_INET6, _) | Some (PROTO_UNSPEC, _) | None => guard s
    end.

Inductive BrowserEvent : Type := BROWSER_NEW (resolver_created : bool) | BROWSER_REMOVE | BROWSER_FAILURE
| BROWSER_ALL_FOR_NOW | BROWSER_CACHE_EXHAUSTED.

Definition browse_callback (event : BrowserEvent) (s : browser_State) : browser_State :=
  match event with
  | BROWSER_NEW resolver_created =>
      match client_ s with
      | Some c => let h := use_client c (heap s) in
                  browser_set_heap (if resolver_created then snd (allocate (Resolver c) h) else use_client c h) s
      | None => browser_set_heap (fault (heap s)) s
      end
  | BROWSER_FAILURE =>
      match client_ s with
      | Some c => browser_request_quit (browser_set_heap (use_client c (heap s)) s)
      | None => browser_set_heap (fault (heap s)) s
      end
  | BROWSER_REMOVE | BROWSER_ALL_FOR_NOW | BROWSER_CACHE_EXHAUSTED => s
  end.

Definition browser_client_callback (client : nat) (state : ClientState) (browser_created : bool) (s : browser_State) : browser_State :=
  let s := browser_set_client (Some client) s in
  match state with
  | S_RUNNING =>
      let s := free_browser s in
      let h := use_client client (heap s) in
      if browser_created then let '(b, h) := allocate (Browser client) h in set_browser (Some b) (browser_set_heap h s)
      else set_browser None (browser_set_heap (use_client client h) s)
  | CLIENT_FAILURE => browser_request_quit (browser_set_heap (use_client client (heap s)) s)
  | S_COLLISION | S_REGISTERING | CLIENT_CONNECTING => s
  end.

(** Callbacks of the loop, and requests to stop from another thread. *)
Inductive browser_LoopEvent : Type :=
| OnClient (state : ClientState) (browser_created : bool)
| OnBrowse (event : BrowserEvent)
| OnResolve (r : nat) (res : Resolution)
| OnStop.

(** A callback is made for a live object. *)
Definition browser_handle (ev : browser_LoopEvent) (s : browser_State) : browser_State :=
  match ev with
  | OnClient state created =>
      match client_ s with Some c => browser_client_callback c state created s | None => s end
  | OnBrowse event => match browser_ s with Some _ => browse_callback event s | None => s end
  | OnResolve r res =>
      match h_live (heap s) !! r with
      | Some (Resolver _) => resolve_callback r res s
      | _ => s
      end
  | OnStop => browser_stop s
  end.
(** [avahi_simple_poll_loop]: until it is asked to quit, or fails. *)
Fixpoint browser_loop (events : list browser_LoopEvent) (s : browser_State) : browser_State :=
  match events with
  | [] => s
  | ev :: rest => if quit s then s else browser_loop rest (browser_handle ev s)
  end.

(** How the creation of the client goes: it may fail, or first call back. *)
Definition browser_client_new (created : option (list (ClientState * bool))) (s : browser_State) : browser_State :=
  match created with
  | None => browser_set_client None s
  | Some callbacks =>
      let '(c, h) := allocate Client (heap s) in
      browser_set_client (Some c) (fold_left (fun s sb => browser_client_callback c sb.1 sb.2 s) callbacks (browser_set_heap h s))
  end.

Definition browser_start (poll_created : bool) (created : option (list (ClientState * bool))) (events : list browser_LoopEvent) (s : browser_State)
  : bool * browser_State :=
  let s := browser_cleanup (set_callback true s) in
  if negb poll_created then (false, browser_set_poll None s)
  else
    let '(p, h) := allocate Poll (heap s) in
    let s := browser_set_quit false (browser_set_poll (Some p) (browser_set_heap h s)) in
    let s := browser_client_new created s in
    match client_ s with
    | None => (false, browser_cleanup s)
    | Some _ => (true, browser_cleanup (browser_loop events (browser_set_running true s)))
    end.

(** *** The invariant *)

(** The pointers are to live objects of the right kind, and every live object is one
    that a pointer or the current client owns. *)
Record browser_ok (s : browser_State) : Prop := {
  ok_fault : h_fault (heap s) = false;
  ok_fresh i o : h_live (heap s) !! i = Some o -> (i < h_next (heap s))%nat;
  ok_live i o : h_live (heap s) !! i = Some o ->
    match o with
    | Poll => simple_poll_ s = Some i
    | Client => client_ s = Some i
    | Browser c => client_ s = Some c /\ browser_ s = Some i
    | Resolver c => client_ s = Some c
    | EntryGroup _ _ _ | Memory => False
    end;
  ok_poll p : simple_poll_ s = Some p -> h_live (heap s) !! p = Some Poll;
  ok_client c : client_ s = Some c -> h_live (heap s) !! c = Some Client;
  ok_browser b : browser_ s = Some b -> exists c, client_ s = Some c /\ h_live (heap s) !! b = Some (Browser c)
}.

Lemma browser_request_quit_ok s : browser_ok s -> browser_ok (browser_request_quit s) /\ discovered (browser_request_quit s) = discovered s.
Proof.
  intros Hok. unfold browser_request_quit. destruct (simple_poll_ s) as [p|] eqn:Hp; [|done].
  rewrite (with_object_live _ _ _ _ Poll) by (by apply (ok_poll _ Hok) || by rewrite bool_decide_eq_true_2).
  destruct Hok. split; [|done]. by split.
Qed.

Lemma free_browser_ok s :
  browser_ok s -> browser_ok (free_browser s) /\ browser_ (free_browser s) = None /\ client_ (free_browser s) = client_ s /\
  simple_poll_ (free_browser s) = simple_poll_ s /\ discovered (free_browser s) = discovered s.
Proof.
  intros Hok. unfold free_browser. destruct (browser_ s) as [b|] eqn:Hb; [|by split_and!].
  destruct (ok_browser _ Hok b Hb) as (c & Hc & Hl).
  unfold browser_free, free_object. rewrite (with_object_live _ _ _ _ (Browser c)) by done.
  split_and!; [|done..]. destruct Hok as [Hf Hfr Hlv Hp Hcl Hbr].
  split; cbn [heap h_live h_next h_fault simple_poll_ client_ browser_ set_browser browser_set_heap]; try done.
  - intros i o [_ Hi]%lookup_delete_Some. eauto.
  - intros i o [Hne Hi]%lookup_delete_Some. specialize (Hlv i o Hi). destruct o; try done.
    destruct Hlv as [_ Hbi]. congruence.
  - intros p Hpp. rewrite lookup_delete_ne; [by apply Hp|]. intros ->. specialize (Hp p Hpp). congruence.
  - intros c' Hcc. rewrite lookup_delete_ne; [by apply Hcl|]. intros ->. specialize (Hcl c' Hcc). congruence.
Qed.

(** New objects. *)
Lemma browser_fresh_id s i o : browser_ok s -> h_live (heap s) !! i = Some o -> h_next (heap s) <> i.
Proof. intros Hok Hi%(ok_fresh _ Hok). lia. Qed.

#[local] Ltac alloc_ok Hok :=
  pose proof (fun i o => browser_fresh_id _ i o Hok) as Hnew; destruct Hok as [Hf Hfr Hlv Hp Hcl Hbr];
  split; cbn [heap h_live h_next h_fault simple_poll_ client_ browser_ set_browser browser_set_heap browser_set_client browser_set_poll allocate snd browser_set_quit];
  [done
  |intros i o [[<- _]|[_ Hi%Hfr]]%lookup_insert_Some; lia
  |intros i o [[<- <-]|[_ Hi]]%lookup_insert_Some; [auto|pose proof (Hlv i o Hi) as Hi'; destruct o; naive_solver]
  |intros p' Hpp; try (injection Hpp as <-; by rewrite lookup_insert_eq);
     rewrite lookup_insert_ne by (eapply Hnew, Hp, Hpp); by apply Hp
  |intros c' Hcc; try (injection Hcc as <-; by rewrite lookup_insert_eq);
     rewrite lookup_insert_ne by (eapply Hnew, Hcl, Hcc); by apply Hcl
  |intros b' Hbb].

Lemma alloc_resolver_ok s c :
  browser_ok s -> client_ s = Some c -> browser_ok (browser_set_heap (snd (allocate (Resolver c) (heap s))) s).
Proof.
  intros Hok Hc. alloc_ok Hok. destruct (Hbr b' Hbb) as (c' & ? & ?). exists c'. split; [done|].
  rewrite lookup_insert_ne; [done|]. by eapply Hnew.
Qed.
Lemma alloc_browser_ok s c :
  browser_ok s -> client_ s = Some c -> browser_ s = None ->
  browser_ok (set_browser (Some (h_next (heap s))) (browser_set_heap (snd (allocate (Browser c) (heap s))) s)).
Proof.
  intros Hok Hc Hb. alloc_ok Hok. injection Hbb as <-. exists c. by rewrite lookup_insert_eq.
Qed.
Lemma alloc_client_ok s :
  browser_ok s -> client_ s = None -> browser_ok (browser_set_client (Some (h_next (heap s))) (browser_set_heap (snd (allocate Client (heap s))) s)).
Proof. intros Hok Hc. alloc_ok Hok. destruct (Hbr b' Hbb) as (c' & ? & ?). congruence. Qed.
Lemma alloc_poll_ok s :
  browser_ok s -> simple_poll_ s = None ->
  browser_ok (browser_set_quit false (browser_set_poll (Some (h_next (heap s))) (browser_set_heap (snd (allocate Poll (heap s))) s))).
Proof.
  intros Hok Hc. alloc_ok Hok. destruct (Hbr b' Hbb) as (c' & ? & ?). exists c'. split; [done|].
  rewrite lookup_insert_ne; [done|]. by eapply Hnew.
Qed.

(** *** The operations keep it *)

Lemma browser_use_client_ok s c : browser_ok s -> client_ s = Some c -> use_client c (heap s) = heap s.
Proof.
  intros Hok Hc. unfold use_client. rewrite (with_object_live _ _ _ _ Client); [done|by apply (ok_client _ Hok)|].
  by rewrite bool_decide_eq_true_2.
Qed.

Lemma set_heap_same s : browser_set_heap (heap s) s = s.
Proof. by destruct s. Qed.
Lemma browser_set_client_same s c : client_ s = Some c -> browser_set_client (Some c) s = s.
Proof. destruct s. cbn. by intros ->. Qed.

Lemma browser_client_callback_ok c state created s :
  browser_ok (browser_set_client (Some c) s) ->
  browser_ok (browser_client_callback c state created s) /\ client_ (browser_client_callback c state created s) = Some c /\
  discovered (browser_client_callback c state created s) = discovered s.
Proof.
  intros Hok. unfold browser_client_callback. destruct state; try by split_and!.
  - destruct (free_browser_ok _ Hok) as (Hok1 & Hb & Hc & _ & Hd). cbn in Hc, Hd. revert Hok1 Hb Hc Hd.
    generalize (free_browser (browser_set_client (Some c) s)) as s1. intros s1 Hok1 Hb Hc Hd. rewrite (browser_use_client_ok s1) by done.
    destruct created.
    + destruct (allocate (Browser c) (heap s1)) as [b h] eqn:E. injection E as <- <-.
      split_and!; [by apply (alloc_browser_ok s1 c)|done..].
    + rewrite (browser_use_client_ok s1), set_heap_same by done. destruct s1; cbn in *. by subst.
  - rewrite (browser_use_client_ok (browser_set_client (Some c) s)), set_heap_same by done.
    destruct (browser_request_quit_ok _ Hok) as [H1 H2]. split_and!; [done| |done]. unfold browser_request_quit.
    by destruct (simple_poll_ (browser_set_client (Some c) s)).
Qed.

Lemma browse_callback_ok event s b :
  browser_ok s -> browser_ s = Some b -> browser_ok (browse_callback event s) /\ discovered (browse_callback event s) = discovered s.
Proof.
  intros Hok Hb. destruct (ok_browser _ Hok b Hb) as (c & Hc & _). unfold browse_callback. destruct event; try done.
  - rewrite Hc, !(browser_use_client_ok s) by done. split; [|done]. destruct resolver_created; [by apply alloc_resolver_ok|].
    by rewrite set_heap_same.
  - rewrite Hc, (browser_use_client_ok s), set_heap_same by done. by apply browser_request_quit_ok.
Qed.

Lemma resolver_free_ok s r c :
  browser_ok s -> h_live (heap s) !! r = Some (Resolver c) -> browser_ok (browser_set_heap (resolver_free r (heap s)) s).
Proof.
  intros Hok Hr. unfold resolver_free, free_object. rewrite (with_object_live _ _ _ _ (Resolver c)) by done.
  destruct Hok as [Hf Hfr Hlv Hp Hcl Hbr].
  split; cbn [heap h_live h_next h_fault simple_poll_ client_ browser_ browser_set_heap]; try done.
  - intros i o [_ Hi]%lookup_delete_Some. eauto.
  - intros i o [Hne Hi]%lookup_delete_Some. by apply Hlv.
  - intros p Hpp. rewrite lookup_delete_ne; [by apply Hp|]. intros ->. specialize (Hp p Hpp). congruence.
  - intros c' Hcc. rewrite lookup_delete_ne; [by apply Hcl|]. intros ->. specialize (Hcl c' Hcc). congruence.
  - intros b Hb. destruct (Hbr b Hb) as (c' & ? & Hl). exists c'. split; [done|]. rewrite lookup_delete_ne; [done|]. congruence.
Qed.

(** The identifier of a TXT record. *)
Definition txt_device_id (txt : option (option TxtPair)) : string :=
  match txt with
  | Some (Some entry) => if tp_read entry then default EmptyString (tp_value entry) else EmptyString
  | _ => EmptyString
  end.

(** A report to the callback comes from a successful resolution, to an IPv4 address
    other than the loopback address, with an identifier in its TXT record. *)
Record reported_by (res : Resolution) (d : DiscoveredDevice) : Prop := {
  rb_found : rs_found res = true;
  rb_address : rs_address res = Some (PROTO_INET, dd_ip_address d);
  rb_not_loopback : dd_ip_address d <> "127.0.0.1";
  rb_id : txt_device_id (rs_txt res) = dd_device_id d;
  rb_has_id : dd_device_id d <> EmptyString;
  rb_name : dd_device_name d = default "unknown" (rs_name res);
  rb_port : dd_port d = rs_port res
}.
Definition resolution_of (ev : browser_LoopEvent) : option Resolution :=
  match ev with OnResolve _ res => Some res | _ => None end.
(** The devices added between two states are reports of some of the resolutions, one
    each, in the order of the events. *)
Definition reports (events : list browser_LoopEvent) (s s' : browser_State) : Prop :=
  exists rs ds, discovered s' = discovered s ++ ds /\ rs `sublist_of` omap resolution_of events /\ Forall2 reported_by rs ds.

Lemma reports_none events s s' : discovered s' = discovered s -> reports events s s'.
Proof. intros Hd. exists [], []. rewrite Hd, app_nil_r. split_and!; [done|apply sublist_nil_l|done]. Qed.
Lemma reports_cons ev events s1 s2 s3 :
  reports [ev] s1 s2 -> reports events s2 s3 -> reports (ev :: events) s1 s3.
Proof.
  intros (rs1 & ds1 & Hd1 & Hs1 & Hf1) (rs2 & ds2 & Hd2 & Hs2 & Hf2). exists (rs1 ++ rs2), (ds1 ++ ds2).
  rewrite Hd2, Hd1, app_assoc. split_and!; [done| |by apply Forall2_app].
  replace (omap resolution_of (ev :: events)) with (omap resolution_of [ev] ++ omap resolution_of events)
    by (cbn; by destruct (resolution_of ev)).
  by apply sublist_app.
Qed.

(** Reading the TXT record leaves no memory behind. *)
Lemma memory_freed h : fresh h -> memory_free (h_next h) (snd (allocate Memory h)) = bump 1 h.
Proof. intros Hf. apply (memory_scope h (fun l => l)); [done..|by apply fresh_next]. Qed.
Lemma read_device_id_ok txt h :
  fresh h -> exists n, read_device_id txt h = (txt_device_id txt, bump n h).
Proof.
  intros Hf. assert (h = bump 0 h) as H0 by (by destruct h). unfold read_device_id, txt_device_id.
  destruct txt as [[[read key value]|]|]; [|by exists 0%nat; rewrite <-H0..]. cbn [tp_read tp_key tp_value].
  destruct read; cbn [negb]; [|by exists 0%nat; rewrite <-H0].
  destruct key, value as [v|]; cbn [allocate default]; unfold Datatypes.id.
  - exists 2%nat. f_equal. set (h1 := snd (allocate Memory h)).
    change (memory_free (h_next h) (memory_free (h_next h1) (snd (allocate Memory h1))) = bump 2 h).
    rewrite memory_freed; [|unfold h1; intros i o; cbn; intros [[<- _]|[_ Hi%Hf]]%lookup_insert_Some; lia].
    unfold memory_free, free_object. rewrite (with_object_live _ _ _ _ Memory);
      [|apply lookup_insert_eq|by rewrite bool_decide_eq_true_2].
    cbn. by rewrite delete_insert_id by (by apply fresh_next).
  - exists 1%nat. f_equal. by apply memory_freed.
  - exists 1%nat. f_equal. by apply memory_freed.
  - exists 0%nat. by rewrite <-H0.
Qed.

Lemma bump_ok n s : browser_ok s -> browser_ok (browser_set_heap (bump n (heap s)) s).
Proof. intros []. split; try done. by apply fresh_bump. Qed.

Lemma resolve_callback_ok r res s c :
  browser_ok s -> h_live (heap s) !! r = Some (Resolver c) ->
  browser_ok (resolve_callback r res s) /\ reports [OnResolve r res] s (resolve_callback r res s).
Proof.
  intros Hok Hr. unfold resolve_callback.
  assert (Hguard : forall s', browser_ok s' -> h_live (heap s') !! r = Some (Resolver c) -> reports [OnResolve r res] s s' ->
    browser_ok (browser_set_heap (resolver_free r (heap s')) s') /\
    reports [OnResolve r res] s (browser_set_heap (resolver_free r (heap s')) s')).
  { intros s' Hok' Hr' Hrep. split; [by eapply resolver_free_ok|exact Hrep]. }
  destruct (rs_found res) eqn:Hfound; cbn [negb].
  2: { destruct (client_ s) as [k|] eqn:Hk; [rewrite (browser_use_client_ok s), set_heap_same by done|];
         apply Hguard; try done; by apply reports_none. }
  destruct (rs_address res) as [[[| |] ip]|] eqn:Haddr; try (apply Hguard; [done..|by apply reports_none]).
  case_bool_decide as Hip; [apply Hguard; [done..|by apply reports_none]|].
  destruct (read_device_id_ok (rs_txt res) (heap s) (ok_fresh _ Hok)) as [k ->].
  pose proof (bump_ok k s Hok) as Hok1. case_bool_decide as Hid; [apply Hguard; [done..|by apply reports_none]|].
  destruct (callback_ (browser_set_heap (bump k (heap s)) s)); [|apply Hguard; [done..|by apply reports_none]].
  apply Hguard; [destruct Hok1; by split|done|]. eexists [res], [_]. split_and!; [done..|].
  by repeat constructor.
Qed.

Lemma browser_handle_ok ev s : browser_ok s -> browser_ok (browser_handle ev s) /\ reports [ev] s (browser_handle ev s).
Proof.
  assert (Hsame : forall s', browser_ok s' /\ discovered s' = discovered s -> browser_ok s' /\ reports [ev] s s').
  { intros s' [? Hd]. split; [done|by apply reports_none]. }
  intros Hok. destruct ev as [state created|event|r res|]; cbn [browser_handle].
  - destruct (client_ s) as [c|] eqn:Hc; [|by apply Hsame]. apply Hsame.
    destruct (browser_client_callback_ok c state created s) as (? & _ & ?); [by rewrite browser_set_client_same|done].
  - destruct (browser_ s) as [b|] eqn:Hb; [|by apply Hsame]. by eapply Hsame, browse_callback_ok.
  - destruct (h_live (heap s) !! r) as [[| | |c| |]|] eqn:Hr; try by apply Hsame. by eapply resolve_callback_ok.
  - unfold browser_stop. destruct (running_ s); [|by apply Hsame]. apply Hsame.
    apply (browser_request_quit_ok (browser_set_running false s)). destruct Hok. by split.
Qed.

Lemma browser_loop_ok events s :
  browser_ok s -> browser_ok (browser_loop events s) /\ reports events s (browser_loop events s).
Proof.
  revert s. induction events as [|ev events IH]; intros s Hok; cbn [browser_loop]; [split; [done|by apply reports_none]|].
  destruct (quit s); [split; [done|by apply reports_none]|].
  destruct (browser_handle_ok ev s Hok) as [Hok1 Hr1]. destruct (IH _ Hok1) as [Hok2 Hr2].
  split; [done|by eapply reports_cons].
Qed.

(** Nothing is left. *)
Record browser_clean (s : browser_State) : Prop := {
  clean_fault : h_fault (heap s) = false;
  clean_live : h_live (heap s) = ∅;
  clean_poll : simple_poll_ s = None;
  clean_client : client_ s = None;
  clean_browser : browser_ s = None
}.
Lemma browser_clean_ok s : browser_clean s -> browser_ok s.
Proof. intros [? Hl Hp Hc Hb]. split; rewrite ?Hl, ?Hp, ?Hc, ?Hb; try done; intros *; by rewrite lookup_empty. Qed.

Lemma browser_cleanup_clean s : browser_ok s -> browser_clean (browser_cleanup s) /\ discovered (browser_cleanup s) = discovered s.
Proof.
  intros Hok. unfold browser_cleanup. destruct (free_browser_ok s Hok) as (Hok1 & Hb & _ & _ & Hd). revert Hok1 Hb Hd.
  generalize (free_browser s) as s1. intros s1 Hok1 Hb <-.
  assert (Hstep : exists s2, match client_ s1 with
      | Some c => browser_set_client None (browser_set_heap (client_free c (heap s1)) s1) | None => s1 end = s2 /\
      h_fault (heap s2) = false /\ client_ s2 = None /\ browser_ s2 = None /\ discovered s2 = discovered s1 /\
      simple_poll_ s2 = simple_poll_ s1 /\
      (forall i o, h_live (heap s2) !! i = Some o -> o = Poll /\ simple_poll_ s2 = Some i) /\
      (forall p, simple_poll_ s2 = Some p -> h_live (heap s2) !! p = Some Poll)).
  { destruct Hok1 as [Hf Hfr Hlv Hp Hcl Hbr]. destruct (client_ s1) as [c|] eqn:Hc; eexists; (split; [reflexivity|]).
    - unfold client_free. rewrite (with_object_live _ _ _ _ Client) by (by apply Hcl || by rewrite bool_decide_eq_true_2).
      cbn [heap h_live h_fault client_ browser_ discovered simple_poll_ browser_set_client browser_set_heap]. split_and!; try done.
      + intros i o [[Hne Hi]%lookup_delete_Some Ho]%map_lookup_filter_Some. cbn in Ho. specialize (Hlv i o Hi).
        destruct o; cbn in Ho; try done; try (case_bool_decide; naive_solver congruence); naive_solver congruence.
      + intros p Hpp. apply map_lookup_filter_Some. split; [|done]. rewrite lookup_delete_ne; [by apply Hp|].
        intros ->. specialize (Hp p Hpp). specialize (Hcl p eq_refl). congruence.
    - split_and!; try done. intros i o Hi. specialize (Hlv i o Hi). destruct o; naive_solver congruence. }
  destruct Hstep as (s2 & -> & Hf & Hc2 & Hb2 & Hd2 & Hp2 & Hl2 & Hpl2). rewrite <-Hd2.
  destruct (simple_poll_ s2) as [p|] eqn:Hp.
  - unfold poll_free, free_object. rewrite (with_object_live _ _ _ _ Poll) by (by apply Hpl2 || by rewrite bool_decide_eq_true_2).
    split; [|done]. split; cbn [heap h_live h_fault client_ browser_ simple_poll_ browser_set_poll browser_set_heap]; try done.
    apply map_empty. intros i. destruct (delete p (h_live (heap s2)) !! i) as [o|] eqn:E; [|done].
    apply lookup_delete_Some in E as [Hne Hi]. destruct (Hl2 i o Hi) as [_ ?]. congruence.
  - split; [|done]. split; try done. apply map_empty. intros i. destruct (h_live (heap s2) !! i) as [o|] eqn:E; [|done].
    by destruct (Hl2 i o E).
Qed.

Lemma browser_client_new_ok created s :
  browser_ok s -> client_ s = None -> browser_ok (browser_client_new created s) /\ discovered (browser_client_new created s) = discovered s.
Proof.
  intros Hok Hc. unfold browser_client_new. destruct created as [callbacks|].
  2: { split; [|done]. assert (browser_set_client None s = s) as -> by (destruct s; cbn in *; by subst). done. }
  destruct (allocate Client (heap s)) as [c h] eqn:E. injection E as <- <-.
  pose proof (alloc_client_ok s Hok Hc) as H0. remember (h_next (heap s)) as c eqn:Heq.
  assert (Hfold : forall l s0, browser_ok (browser_set_client (Some c) s0) ->
    browser_ok (browser_set_client (Some c) (fold_left (fun s sb => browser_client_callback c sb.1 sb.2 s) l s0)) /\
    discovered (fold_left (fun s sb => browser_client_callback c sb.1 sb.2 s) l s0) = discovered s0).
  { induction l as [|[state b] l IH]; intros s0 Hs0; cbn [fold_left]; [done|].
    destruct (browser_client_callback_ok c state b s0 Hs0) as (H1 & H2 & H3).
    destruct (IH (browser_client_callback c state b s0)) as [H4 H5]; [by rewrite browser_set_client_same|]. split; [exact H4|]. cbn in *. congruence. }
  destruct (Hfold callbacks (browser_set_heap (mkHeap (<[c := Client]> (h_live (heap s))) (S c) (h_fault (heap s))) s)) as [H1 H2].
  { subst c. exact H0. }
  subst c. split; [exact H1|exact H2].
Qed.

(** C23. The browser is memory safe and leaks nothing: whichever objects can be created and
    whatever callbacks and requests to stop arrive, [start] frees or uses no Avahi
    object that is not alive, and returns with every object freed, so that it can
    be started again.  What it reports are resolutions of services, each at most once
    and in their order: only successful ones, to an IPv4 address other than 127.0.0.1
    and with a [device_id] in the TXT record, and with that address, port, name and
    identifier. *)
Theorem browser_memory_safe poll_created created events s r s' :
  browser_clean s -> browser_start poll_created created events s = (r, s') ->
  browser_clean s' /\
  exists rs ds, discovered s' = discovered s ++ ds /\ rs `sublist_of` omap resolution_of events /\ Forall2 reported_by rs ds.
Proof.
  intros Hclean. change (browser_start poll_created created events s = (r, s') -> browser_clean s' /\ reports events s s').
  unfold browser_start. destruct (browser_cleanup_clean (set_callback true s)) as [Hc Hd].
  { apply browser_clean_ok in Hclean. destruct Hclean. by split. }
  cbn [discovered set_callback] in Hd. unfold reports. rewrite <-Hd. revert Hc. generalize (browser_cleanup (set_callback true s)) as s0.
  intros s0 Hc.
  destruct poll_created; cbn [negb].
  2: { intros [= <- <-]. split; [|by apply (reports_none events s0)].
       assert (browser_set_poll None s0 = s0) as -> by (destruct Hc as [_ _ Hp _ _], s0; cbn in *; by subst). done. }
  destruct (allocate Poll (heap s0)) as [p h] eqn:E. injection E as <- <-.
  pose proof (alloc_poll_ok s0 (browser_clean_ok _ Hc) (clean_poll _ Hc)) as H1.
  destruct (browser_client_new_ok created _ H1 (clean_client _ Hc)) as [H2 Hd2]. cbn in Hd2.
  revert H2 Hd2. cbn [snd allocate]. generalize (browser_client_new created (browser_set_quit false (browser_set_poll (Some (h_next (heap s0)))
    (browser_set_heap (mkHeap (<[h_next (heap s0) := Poll]> (h_live (heap s0))) (S (h_next (heap s0))) (h_fault (heap s0))) s0)))) as s1.
  intros s1 H2 Hd2. rewrite <-Hd2. destruct (client_ s1) as [c|]; intros [= <- <-].
  - destruct (browser_loop_ok events (browser_set_running true s1)) as [H3 Hr]; [destruct H2; by split|].
    destruct (browser_cleanup_clean _ H3) as [H4 Hd4]. split; [done|]. rewrite Hd4. exact Hr.
  - destruct (browser_cleanup_clean _ H2) as [H4 Hd4]. split; [done|]. by apply (reports_none events s1).
Qed.

(** A concrete run: a device is found, then the daemon fails. *)
Definition browser_idle : browser_State := mkState false None None None false (mkHeap ∅ 0 false) false [].
Definition browser_sample : list browser_LoopEvent :=
  [OnBrowse (BROWSER_NEW true); OnBrowse BROWSER_ALL_FOR_NOW;
   OnResolve 3 (mkResolution true (Some "Gasoline-x") (Some (PROTO_INET, "192.168.1.7")) 42666 (Some (Some (mkTxtPair true true (Some "x")))));
   OnClient S_RUNNING true; OnBrowse (BROWSER_NEW true); OnClient CLIENT_FAILURE false; OnStop].
Lemma browser_memory_safe_witness :
  discovered (browser_start true (Some [(S_RUNNING, true)]) browser_sample browser_idle).2 = [mkDiscoveredDevice "x" "Gasoline-x" "192.168.1.7" 42666] /\
  browser_clean (browser_start true (Some [(S_RUNNING, true)]) browser_sample browser_idle).2.
Proof.
  split; [vm_compute; reflexivity|].
  refine (proj1 (browser_memory_safe true (Some [(S_RUNNING, true)]) browser_sample browser_idle true _ _ _)).
  - by split.
  - apply run_eta. vm_compute. reflexivity.
Defined.
End AvahiBrowser.

(** ** The publisher *)

Module AvahiPublisher.

Record publisher_State : Type := mkState {
  device_id_ : string;
  port_ : Z;
  simple_poll_ : option nat;
  client_ : option nat;
  entry_group_ : option nat;
  running_ : bool;
  heap : Heap;
  quit : bool;
  announced : list Service     (** the services committed so far *)
}.
Definition publisher_set_heap x s :=
  mkState (device_id_ s) (port_ s) (simple_poll_ s) (client_ s) (entry_group_ s) (running_ s) x (quit s) (announced s).
Definition publisher_set_poll x s :=
  mkState (device_id_ s) (port_ s) x (client_ s) (entry_group_ s) (running_ s) (heap s) (quit s) (announced s).
Definition publisher_set_client x s :=
  mkState (device_id_ s) (port_ s) (simple_poll_ s) x (entry_group_ s) (running_ s) (heap s) (quit s) (announced s).
Definition set_group x s :=
  mkState (device_id_ s) (port_ s) (simple_poll_ s) (client_ s) x (running_ s) (heap s) (quit s) (announced s).
Definition publisher_set_running x s :=
  mkState (device_id_ s) (port_ s) (simple_poll_ s) (client_ s) (entry_group_ s) x (heap s) (quit s) (announced s).
Definition publisher_set_quit x s :=
  mkState (device_id_ s) (port_ s) (simple_poll_ s) (client_ s) (entry_group_ s) (running_ s) (heap s) x (announced s).
Definition set_device id port s :=
  mkState id port (simple_poll_ s) (client_ s) (entry_group_ s) (running_ s) (heap s) (quit s) (announced s).
Definition announce svs s :=
  mkState (device_id_ s) (port_ s) (simple_poll_ s) (client_ s) (entry_group_ s) (running_ s) (heap s) (quit s) (announced s ++ svs).

Definition publisher_request_quit (s : publisher_State) : publisher_State :=
  match simple_poll_ s with
  | Some p => publisher_set_quit true (publisher_set_heap (with_object (fun o => bool_decide (o = Poll)) p Datatypes.id (heap s)) s)
  | None => s
  end.
Definition publisher_stop (s : publisher_State) : publisher_State :=
  if running_ s then publisher_request_quit (publisher_set_running false s) else s.

(** The group is reset, then freed. *)
Definition reset_services (s : publisher_State) : publisher_State :=
  match entry_group_ s with
  | Some g => set_group None (publisher_set_heap (group_free g (with_object is_group g Datatypes.id (heap s))) s)
  | None => s
  end.
Definition publisher_cleanup (s : publisher_State) : publisher_State :=
  let s := reset_services s in
  let s := match client_ s with
           | Some c => publisher_set_client None (publisher_set_heap (client_free c (heap s)) s)
           | None => s
           end in
  match simple_poll_ s with
  | Some p => publisher_set_poll None (publisher_set_heap (poll_free p (heap s)) s)
  | None => s
  end.

(** Whether the group can be created, the service added, the group committed. *)
Record Outcomes : Type := mkOutcomes { group_created : bool; service_added : bool; group_committed : bool }.

Definition our_service (s : publisher_State) : Service := mkService (String.append "Gasoline-" (device_id_ s)) (port_ s) (device_id_ s).
Definition group_services (g : nat) (s : publisher_State) : list Service :=
  match h_live (heap s) !! g with Some (EntryGroup _ svs _) => svs | _ => [] end.
(** Change a group. *)
Definition update_group (g : nat) (f : list Service -> list Service) (committed : bool) (s : publisher_State) : publisher_State :=
  publisher_set_heap (with_object is_group g (fun h =>
    mkHeap (alter (fun o => match o with EntryGroup c svs _ => EntryGroup c (f svs) committed | o => o end) g (h_live h))
      (h_next h) (h_fault h)) (heap s)) s.

(** [avahi_entry_group_add_service_strlst], with its list of strings. *)
Definition add_service (added : bool) (g : nat) (s : publisher_State) : publisher_State :=
  let '(txt, h) := allocate Memory (heap s) in
  let s := publisher_set_heap h s in
  let s := update_group g (fun svs => if added then svs ++ [our_service s] else svs) false s in
  publisher_set_heap (memory_free txt (heap s)) s.
Definition add_services (o : Outcomes) (g : nat) (s : publisher_State) : publisher_State :=
  match group_services g s with
  | _ :: _ => s
  | [] =>
      let s := add_service (service_added o) g s in
      if negb (service_added o) then reset_services s
      else
        if negb (group_committed o) then reset_services s
        else announce (group_services g s) (update_group g (fun svs => svs) true s)
  end.
Definition create_services (o : Outcomes) (s : publisher_State) : publisher_State :=
  match client_ s with
  | None => s
  | Some c =>
      match entry_group_ s with
      | Some g => add_services o g s
      | None =>
          let h := use_client c (heap s) in
          if negb (group_created o) then publisher_set_heap (use_client c h) s
          else
            let '(g, h) := allocate (EntryGroup c [] false) h in
            add_services o g (set_group (Some g) (publisher_set_heap h s))
      end
  end.

Inductive GroupState : Type := GROUP_ESTABLISHED | GROUP_COLLISION | GROUP_FAILURE | GROUP_UNCOMMITED | GROUP_REGISTERING.
(** [avahi_client_errno(avahi_entry_group_get_client(group))] *)
Definition use_group_client (g : nat) (h : Heap) : Heap :=
  match h_live h !! g with
  | Some (EntryGroup c _ _) => use_client c h
  | _ => fault h
  end.
Definition entry_group_callback (group : nat) (state : GroupState) (s : publisher_State) : publisher_State :=
  match state with
  | GROUP_FAILURE => publisher_request_quit (publisher_set_heap (use_group_client group (heap s)) s)
  | GROUP_ESTABLISHED | GROUP_COLLISION | GROUP_UNCOMMITED | GROUP_REGISTERING => s
  end.

Definition publisher_client_callback (client : nat) (state : ClientState) (o : Outcomes) (s : publisher_State) : publisher_State :=
  let s := publisher_set_client (Some client) s in
  match state with
  | S_RUNNING => create_services o s
  | S_COLLISION | S_REGISTERING => reset_services s
  | CLIENT_FAILURE => publisher_request_quit (publisher_set_heap (use_client client (heap s)) s)
  | CLIENT_CONNECTING => s
  end.

Inductive publisher_LoopEvent : Type :=
| OnClient (state : ClientState) (o : Outcomes)
| OnGroup (state : GroupState)
| OnStop.
Definition publisher_handle (ev : publisher_LoopEvent) (s : publisher_State) : publisher_State :=
  match ev with
  | OnClient state o => match client_ s with Some c => publisher_client_callback c state o s | None => s end
  | OnGroup state => match entry_group_ s with Some g => entry_group_callback g state s | None => s end
  | OnStop => publisher_stop s
  end.
Fixpoint publisher_loop (events : list publisher_LoopEvent) (s : publisher_State) : publisher_State :=
  match events with
  | [] => s
  | ev :: rest => if quit s then s else publisher_loop rest (publisher_handle ev s)
  end.

Definition publisher_client_new (created : option (list (ClientState * Outcomes))) (s : publisher_State) : publisher_State :=
  match created with
  | None => publisher_set_client None s
  | Some callbacks =>
      let '(c, h) := allocate Client (heap s) in
      publisher_set_client (Some c) (fold_left (fun s so => publisher_client_callback c so.1 so.2 s) callbacks (publisher_set_heap h s))
  end.
Definition publisher_start (device_id : string) (port : Z) (poll_created : bool) (created : option (list (ClientState * Outcomes)))
    (events : list publisher_LoopEvent) (s : publisher_State) : bool * publisher_State :=
  let s := publisher_cleanup (set_device device_id port s) in
  if negb poll_created then (false, publisher_set_poll None s)
  else
    let '(p, h) := allocate Poll (heap s) in
    let s := publisher_set_quit false (publisher_set_poll (Some p) (publisher_set_heap h s)) in
    let s := publisher_client_new created s in
    match client_ s with
    | None => (false, publisher_cleanup s)
    | Some _ => (true, publisher_cleanup (publisher_loop events (publisher_set_running true s)))
    end.

(** *** The invariant *)

Record publisher_ok (s : publisher_State) : Prop := {
  ok_fault : h_fault (heap s) = false;
  ok_fresh i o : h_live (heap s) !! i = Some o -> (i < h_next (heap s))%nat;
  ok_live i o : h_live (heap s) !! i = Some o ->
    match o with
    | Poll => simple_poll_ s = Some i
    | Client => client_ s = Some i
    | EntryGroup c svs _ => client_ s = Some c /\ entry_group_ s = Some i
    | Browser _ | Resolver _ | Memory => False
    end;
  ok_poll p : simple_poll_ s = Some p -> h_live (heap s) !! p = Some Poll;
  ok_client c : client_ s = Some c -> h_live (heap s) !! c = Some Client;
  ok_group g : entry_group_ s = Some g -> exists c svs b, client_ s = Some c /\
    h_live (heap s) !! g = Some (EntryGroup c svs b)
}.

(** What a callback leaves alone. *)
Record same_device (s s' : publisher_State) : Prop := {
  same_id : device_id_ s' = device_id_ s;
  same_port : port_ s' = port_ s;
  same_poll : simple_poll_ s' = simple_poll_ s;
  same_announced : exists svs, announced s' = announced s ++ svs /\ Forall (eq (our_service s)) svs
}.
#[local] Instance same_device_preorder : PreOrder same_device.
Proof.
  split.
  - intros s. split; [done..|]. exists []. by rewrite app_nil_r.
  - intros s1 s2 s3 [Hi1 Hp1 Hq1 (v1 & Ha1 & Hf1)] [Hi2 Hp2 Hq2 (v2 & Ha2 & Hf2)]. split; [congruence..|].
    exists (v1 ++ v2). rewrite Ha2, Ha1, app_assoc. split; [done|]. apply Forall_app. split; [done|].
    eapply Forall_impl; [exact Hf2|]. intros sv <-. unfold our_service. by rewrite Hi1, Hp1.
Qed.

Lemma publisher_fresh_id s i o : publisher_ok s -> h_live (heap s) !! i = Some o -> h_next (heap s) <> i.
Proof. intros Hok Hi%(ok_fresh _ Hok). lia. Qed.

Lemma publisher_request_quit_ok s : publisher_ok s -> publisher_ok (publisher_request_quit s) /\ same_device s (publisher_request_quit s) /\ client_ (publisher_request_quit s) = client_ s.
Proof.
  intros Hok. unfold publisher_request_quit. destruct (simple_poll_ s) as [p|] eqn:Hp; [|done].
  rewrite (with_object_live _ _ _ _ Poll) by (by apply (ok_poll _ Hok) || by rewrite bool_decide_eq_true_2).
  destruct Hok. split_and!; [by split| |done]. split; [done..|]. exists []. by rewrite app_nil_r.
Qed.

Lemma reset_services_ok s :
  publisher_ok s -> publisher_ok (reset_services s) /\ same_device s (reset_services s) /\ client_ (reset_services s) = client_ s /\
  entry_group_ (reset_services s) = None.
Proof.
  intros Hok. unfold reset_services. destruct (entry_group_ s) as [g|] eqn:Hg; [|done].
  destruct (ok_group _ Hok g Hg) as (c & svs & b & Hc & Hl).
  rewrite (with_object_live is_group _ _ _ (EntryGroup c svs b)) by done. unfold Datatypes.id.
  unfold group_free, free_object. rewrite (with_object_live _ _ _ _ (EntryGroup c svs b)) by done.
  split_and!; [|split; [done..|exists []; by rewrite app_nil_r]|done..]. destruct Hok as [Hf Hfr Hlv Hp Hcl Hbr].
  split; cbn [heap h_live h_next h_fault simple_poll_ client_ entry_group_ set_group publisher_set_heap]; try done.
  - intros i o [_ Hi]%lookup_delete_Some. eauto.
  - intros i o [Hne Hi]%lookup_delete_Some. specialize (Hlv i o Hi). destruct o; try done.
    destruct Hlv as [_ Hbi]. congruence.
  - intros p Hpp. rewrite lookup_delete_ne; [by apply Hp|]. intros ->. specialize (Hp p Hpp). congruence.
  - intros c' Hcc. rewrite lookup_delete_ne; [by apply Hcl|]. intros ->. specialize (Hcl c' Hcc). congruence.
Qed.

Lemma update_group_ok g f b s :
  publisher_ok s -> entry_group_ s = Some g ->
  publisher_ok (update_group g f b s) /\ same_device s (update_group g f b s) /\ client_ (update_group g f b s) = client_ s /\
  entry_group_ (update_group g f b s) = Some g /\ group_services g (update_group g f b s) = f (group_services g s).
Proof.
  intros Hok Hg. destruct (ok_group _ Hok g Hg) as (c & svs & b0 & Hc & Hl).
  unfold update_group. rewrite (with_object_live is_group _ _ _ (EntryGroup c svs b0)) by done.
  destruct Hok as [Hf Hfr Hlv Hp Hcl Hbr].
  set (h := alter _ g (h_live (heap s))).
  assert (Hother : forall i, i <> g -> h !! i = h_live (heap s) !! i) by (intros i Hi; by apply lookup_alter_ne, not_eq_sym).
  assert (Hself : h !! g = Some (EntryGroup c (f svs) b)) by (unfold h; by rewrite lookup_alter_eq, Hl).
  split_and!; [|split; [done..|exists []; by rewrite app_nil_r]|done|done|].
  - split; cbn [heap h_live h_next h_fault simple_poll_ client_ entry_group_ publisher_set_heap]; try done.
    + intros i o Hi. destruct (decide (i = g)) as [->|Hne]; [by eapply Hfr|]. rewrite Hother in Hi by done. eauto.
    + intros i o Hi. destruct (decide (i = g)) as [->|Hne]; [|rewrite Hother in Hi by done; by apply Hlv].
      rewrite Hself in Hi. injection Hi as <-. done.
    + intros p Hpp. specialize (Hp p Hpp). rewrite Hother; [done|]. congruence.
    + intros c' Hcc. specialize (Hcl c' Hcc). rewrite Hother; [done|]. congruence.
    + intros g' Hg'. rewrite Hg in Hg'. injection Hg' as <-. eauto 10.
  - unfold group_services. cbn [heap h_live publisher_set_heap]. by rewrite Hself, Hl.
Qed.

Lemma publisher_bump_ok n s :
  publisher_ok s -> publisher_ok (publisher_set_heap (bump n (heap s)) s) /\ same_device s (publisher_set_heap (bump n (heap s)) s).
Proof.
  intros []. split; [split; try done; by apply fresh_bump|]. split; [done..|]. exists []. by rewrite app_nil_r.
Qed.

(** The list of strings is freed; the service is in the group when it was added. *)
Lemma add_service_ok added g s :
  publisher_ok s -> entry_group_ s = Some g -> let s' := add_service added g s in
  publisher_ok s' /\ same_device s s' /\ client_ s' = client_ s /\ entry_group_ s' = Some g /\
  group_services g s' = if added then group_services g s ++ [our_service s] else group_services g s.
Proof.
  intros Hok Hg. cbv zeta. set (f := fun svs => if added then svs ++ [our_service s] else svs).
  assert (add_service added g s = publisher_set_heap (bump 1 (heap (update_group g f false s))) (update_group g f false s)) as ->.
  { destruct (ok_group _ Hok g Hg) as (c & svs & b & _ & Hl). pose proof (publisher_fresh_id s g _ Hok Hl) as Hne.
    unfold add_service. cbn [allocate]. unfold update_group. cbn [heap publisher_set_heap].
    rewrite !(with_object_live is_group _ _ _ (EntryGroup c svs b)); [|done..|by cbn; rewrite lookup_insert_ne|done].
    refine (f_equal (fun h => publisher_set_heap h s) _).
    apply (memory_scope (heap s) (alter (fun o => match o with EntryGroup c svs _ => EntryGroup c (f svs) false | o => o end) g)).
    - exact (ok_fresh _ Hok).
    - intros o. by rewrite alter_insert_ne.
    - rewrite lookup_alter_ne by done. apply fresh_next. exact (ok_fresh _ Hok). }
  destruct (update_group_ok g f false s Hok Hg) as (Hok1 & Hs1 & Hc1 & Hg1 & Hsv1).
  destruct (publisher_bump_ok 1 _ Hok1) as [Hok2 Hs2]. split_and!; [done|by etransitivity|done|done|].
  unfold f in Hsv1. rewrite <-Hsv1. done.
Qed.

Lemma add_services_ok o g s :
  publisher_ok s -> entry_group_ s = Some g ->
  publisher_ok (add_services o g s) /\ same_device s (add_services o g s) /\ client_ (add_services o g s) = client_ s.
Proof.
  intros Hok Hg. unfold add_services. destruct (group_services g s) eqn:Hsvs; [|done].
  destruct (add_service_ok (service_added o) g s Hok Hg) as (Hok1 & Hs1 & Hc1 & Hg1 & Hsv1).
  revert Hok1 Hs1 Hc1 Hg1 Hsv1. generalize (add_service (service_added o) g s) as s1.
  intros s1 Hok1 Hs1 Hc1 Hg1 Hsv1. rewrite Hsvs in Hsv1. destruct (reset_services_ok s1 Hok1) as (H1 & H2 & H3 & _).
  destruct (service_added o); cbn [negb app] in *; [|split_and!; [done|by etransitivity|congruence]].
  destruct (negb (group_committed o)); [split_and!; [done|by etransitivity|congruence]|].
  destruct (update_group_ok g (fun svs => svs) true s1 Hok1 Hg1) as (Hok2 & Hs2 & Hc2 & _ & _).
  rewrite Hsv1. revert Hok2 Hs2 Hc2. generalize (update_group g (fun svs => svs) true s1) as s2. intros s2 Hok2 Hs2 Hc2.
  split_and!; [destruct Hok2; by split| |cbn; congruence].
  transitivity s2; [by transitivity s1|]. split; [done..|]. exists [our_service s]. split; [done|]. repeat constructor.
  destruct Hs1 as [Hi1 Hp1 _ _], Hs2 as [Hi2 Hp2 _ _]. unfold our_service. congruence.
Qed.

Lemma publisher_use_client_ok s c : publisher_ok s -> client_ s = Some c -> use_client c (heap s) = heap s.
Proof.
  intros Hok Hc. unfold use_client. rewrite (with_object_live _ _ _ _ Client); [done|by apply (ok_client _ Hok)|].
  by rewrite bool_decide_eq_true_2.
Qed.

Lemma publisher_set_heap_same s : publisher_set_heap (heap s) s = s.
Proof. by destruct s. Qed.

Lemma alloc_group_ok s c :
  publisher_ok s -> client_ s = Some c -> entry_group_ s = None ->
  publisher_ok (set_group (Some (h_next (heap s))) (publisher_set_heap (snd (allocate (EntryGroup c [] false) (heap s))) s)).
Proof.
  intros Hok Hc Hg. pose proof (fun i o => publisher_fresh_id _ i o Hok) as Hnew. destruct Hok as [Hf Hfr Hlv Hp Hcl Hbr].
  split; cbn [heap h_live h_next h_fault simple_poll_ client_ entry_group_ set_group publisher_set_heap allocate snd]; try done.
  - intros i o [[<- _]|[_ Hi%Hfr]]%lookup_insert_Some; lia.
  - intros i o [[<- <-]|[_ Hi]]%lookup_insert_Some; [done|]. pose proof (Hlv i o Hi). destruct o; naive_solver.
  - intros p Hpp. rewrite lookup_insert_ne by (eapply Hnew, Hp, Hpp). by apply Hp.
  - intros c' Hcc. rewrite lookup_insert_ne by (eapply Hnew, Hcl, Hcc). by apply Hcl.
  - intros g [= <-]. exists c, [], false. by rewrite lookup_insert_eq.
Qed.

Lemma create_services_ok o s :
  publisher_ok s -> publisher_ok (create_services o s) /\ same_device s (create_services o s) /\ client_ (create_services o s) = client_ s.
Proof.
  intros Hok. unfold create_services. destruct (client_ s) as [c|] eqn:Hc; [|done].
  destruct (entry_group_ s) as [g|] eqn:Hg; [by rewrite <-Hc; apply add_services_ok|].
  rewrite (publisher_use_client_ok s) by done.
  destruct (negb (group_created o)); [by rewrite (publisher_use_client_ok s), publisher_set_heap_same by done|].
  destruct (allocate (EntryGroup c [] false) (heap s)) as [g h] eqn:E. injection E as <- <-.
  pose proof (alloc_group_ok s c Hok Hc Hg) as H1. cbn [allocate snd] in H1. revert H1.
  set (s1 := set_group _ _). intros H1. destruct (add_services_ok o (h_next (heap s)) s1 H1 eq_refl) as (H2 & H3 & H4).
  split_and!; [done| |by rewrite H4]. transitivity s1; [|done]. split; [done..|]. exists []. by rewrite app_nil_r.
Qed.

Lemma publisher_set_client_same s c : client_ s = Some c -> publisher_set_client (Some c) s = s.
Proof. destruct s. cbn. by intros ->. Qed.
Lemma set_client_device s c : same_device s (publisher_set_client c s).
Proof. split; [done..|]. exists []. by rewrite app_nil_r. Qed.

Lemma publisher_client_callback_ok c state o s :
  publisher_ok (publisher_set_client (Some c) s) ->
  publisher_ok (publisher_client_callback c state o s) /\ same_device s (publisher_client_callback c state o s) /\
  client_ (publisher_client_callback c state o s) = Some c.
Proof.
  intros Hok. pose proof (set_client_device s (Some c)) as Hsd. unfold publisher_client_callback. destruct state.
  - destruct (create_services_ok o _ Hok) as (? & ? & ?). split_and!; [done|by etransitivity|done].
  - destruct (reset_services_ok _ Hok) as (? & ? & ? & _). split_and!; [done|by etransitivity|done].
  - destruct (reset_services_ok _ Hok) as (? & ? & ? & _). split_and!; [done|by etransitivity|done].
  - rewrite (publisher_use_client_ok (publisher_set_client (Some c) s)), publisher_set_heap_same by done.
    destruct (publisher_request_quit_ok _ Hok) as (? & ? & ?). split_and!; [done|by etransitivity|done].
  - done.
Qed.

Lemma publisher_handle_ok ev s : publisher_ok s -> publisher_ok (publisher_handle ev s) /\ same_device s (publisher_handle ev s).
Proof.
  intros Hok. destruct ev as [state o|state|]; cbn [publisher_handle].
  - destruct (client_ s) as [c|] eqn:Hc; [|done].
    destruct (publisher_client_callback_ok c state o s) as (? & ? & _); [by rewrite publisher_set_client_same|done].
  - destruct (entry_group_ s) as [g|] eqn:Hg; [|done]. destruct state; try done. cbn [entry_group_callback].
    destruct (ok_group _ Hok g Hg) as (c & svs & b & Hc & Hl). unfold use_group_client.
    rewrite Hl, (publisher_use_client_ok s), publisher_set_heap_same by done.
    by destruct (publisher_request_quit_ok s Hok) as (? & ? & _).
  - unfold publisher_stop. destruct (running_ s); [|done].
    destruct (publisher_request_quit_ok (publisher_set_running false s)) as (? & ? & _); [destruct Hok; by split|]. split; [done|].
    transitivity (publisher_set_running false s); [|done]. split; [done..|]. exists []. by rewrite app_nil_r.
Qed.
Lemma publisher_loop_ok events s : publisher_ok s -> publisher_ok (publisher_loop events s) /\ same_device s (publisher_loop events s).
Proof.
  revert s. induction events as [|ev events IH]; intros s Hok; cbn [publisher_loop]; [done|]. destruct (quit s); [done|].
  destruct (publisher_handle_ok ev s Hok) as [H1 H2]. destruct (IH _ H1) as [H3 H4]. split; [done|]. by etransitivity.
Qed.

Record publisher_clean (s : publisher_State) : Prop := {
  clean_fault : h_fault (heap s) = false;
  clean_live : h_live (heap s) = ∅;
  clean_poll : simple_poll_ s = None;
  clean_client : client_ s = None;
  clean_group : entry_group_ s = None
}.
Lemma publisher_clean_ok s : publisher_clean s -> publisher_ok s.
Proof. intros [? Hl Hp Hc Hb]. split; rewrite ?Hl, ?Hp, ?Hc, ?Hb; try done; intros *; by rewrite lookup_empty. Qed.

Lemma publisher_cleanup_clean s : publisher_ok s -> publisher_clean (publisher_cleanup s) /\ announced (publisher_cleanup s) = announced (reset_services s) /\
  device_id_ (publisher_cleanup s) = device_id_ s /\ port_ (publisher_cleanup s) = port_ s.
Proof.
  intros Hok. unfold publisher_cleanup. destruct (reset_services_ok s Hok) as (Hok1 & [Hi Hpo _ _] & _ & Hg). revert Hok1 Hg Hi Hpo.
  generalize (reset_services s) as s1. intros s1 Hok1 Hg Hi Hpo. rewrite <-Hi, <-Hpo.
  assert (Hstep : exists s2, match client_ s1 with
      | Some c => publisher_set_client None (publisher_set_heap (client_free c (heap s1)) s1) | None => s1 end = s2 /\
      h_fault (heap s2) = false /\ client_ s2 = None /\ entry_group_ s2 = None /\ announced s2 = announced s1 /\
      device_id_ s2 = device_id_ s1 /\ port_ s2 = port_ s1 /\
      (forall i o, h_live (heap s2) !! i = Some o -> o = Poll /\ simple_poll_ s2 = Some i) /\
      (forall p, simple_poll_ s2 = Some p -> h_live (heap s2) !! p = Some Poll)).
  { destruct Hok1 as [Hf Hfr Hlv Hp Hcl Hbr]. destruct (client_ s1) as [c|] eqn:Hc; eexists; (split; [reflexivity|]).
    - unfold client_free. rewrite (with_object_live _ _ _ _ Client) by (by apply Hcl || by rewrite bool_decide_eq_true_2).
      cbn [heap h_live h_fault client_ entry_group_ announced simple_poll_ device_id_ port_ publisher_set_client publisher_set_heap]. split_and!; try done.
      + intros i o [[Hne Hi']%lookup_delete_Some Ho]%map_lookup_filter_Some. cbn in Ho. specialize (Hlv i o Hi').
        destruct o; cbn in Ho; try done; naive_solver congruence.
      + intros p Hpp. apply map_lookup_filter_Some. split; [|done]. rewrite lookup_delete_ne; [by apply Hp|].
        intros ->. specialize (Hp p Hpp). specialize (Hcl p eq_refl). congruence.
    - split_and!; try done. intros i o Hi'. specialize (Hlv i o Hi'). destruct o; naive_solver congruence. }
  destruct Hstep as (s2 & -> & Hf & Hc2 & Hb2 & Ha2 & Hd2 & Hp2 & Hl2 & Hpl2). rewrite <-Ha2, <-Hd2, <-Hp2.
  destruct (simple_poll_ s2) as [p|] eqn:Hp.
  - unfold poll_free, free_object. rewrite (with_object_live _ _ _ _ Poll) by (by apply Hpl2 || by rewrite bool_decide_eq_true_2).
    split; [|done]. split; cbn [heap h_live h_fault client_ entry_group_ simple_poll_ publisher_set_poll publisher_set_heap]; try done.
    apply map_empty. intros i. destruct (delete p (h_live (heap s2)) !! i) as [o|] eqn:E; [|done].
    apply lookup_delete_Some in E as [Hne Hi']. destruct (Hl2 i o Hi') as [_ ?]. congruence.
  - split; [|done]. split; try done. apply map_empty. intros i. destruct (h_live (heap s2) !! i) as [o|] eqn:E; [|done].
    by destruct (Hl2 i o E).
Qed.

Lemma reset_announced s : announced (reset_services s) = announced s.
Proof. unfold reset_services. by destruct (entry_group_ s). Qed.

Lemma publisher_client_new_ok created s :
  publisher_ok s -> client_ s = None -> publisher_ok (publisher_client_new created s) /\ same_device s (publisher_client_new created s).
Proof.
  intros Hok Hc. unfold publisher_client_new. destruct created as [callbacks|].
  2: { assert (publisher_set_client None s = s) as -> by (destruct s; cbn in *; by subst). done. }
  destruct (allocate Client (heap s)) as [c h] eqn:E. injection E as <- <-.
  assert (H0 : publisher_ok (publisher_set_client (Some (h_next (heap s))) (publisher_set_heap (snd (allocate Client (heap s))) s))).
  { pose proof (fun i o => publisher_fresh_id _ i o Hok) as Hnew. destruct Hok as [Hf Hfr Hlv Hp Hcl Hbr].
    split; cbn [heap h_live h_next h_fault simple_poll_ client_ entry_group_ publisher_set_client publisher_set_heap allocate snd]; try done.
    - intros i o [[<- _]|[_ Hi%Hfr]]%lookup_insert_Some; lia.
    - intros i o [[<- <-]|[_ Hi]]%lookup_insert_Some; [done|]. pose proof (Hlv i o Hi). destruct o; naive_solver congruence.
    - intros p Hpp. rewrite lookup_insert_ne by (eapply Hnew, Hp, Hpp). by apply Hp.
    - intros c' [= <-]. by rewrite lookup_insert_eq.
    - intros g Hg. destruct (Hbr g Hg) as (c & ? & ? & ? & _). congruence. }
  cbn [allocate snd] in H0. remember (publisher_set_heap _ s) as s0 eqn:Hs0.
  assert (Hsd : same_device s s0) by (subst s0; split; [done..|]; exists []; by rewrite app_nil_r). clear Hs0.
  generalize dependent s0. generalize (h_next (heap s)) as c. intros c s0 H0 Hsd.
  revert s0 H0 Hsd. induction callbacks as [|[state o] l IH]; intros s0 H0 Hsd; cbn [fold_left].
  - split; [done|]. etransitivity; [exact Hsd|]. apply set_client_device.
  - destruct (publisher_client_callback_ok c state o s0 H0) as (H1 & H2 & H3). apply IH; [by rewrite publisher_set_client_same|by etransitivity].
Qed.

(** C24. The publisher is memory safe, leaks nothing and announces one identity: whatever can
    be created, added and committed, and whatever callbacks and requests to stop
    arrive, [start] frees or uses no Avahi object that is not alive, returns with
    every object freed, and announces no service but its own, under the name and
    with the identifier it was given. *)
Theorem publisher_memory_safe device_id port poll_created created events s r s' :
  publisher_clean s -> publisher_start device_id port poll_created created events s = (r, s') ->
  publisher_clean s' /\ exists svs, announced s' = announced s ++ svs /\
    Forall (eq (mkService (String.append "Gasoline-" device_id) port device_id)) svs.
Proof.
  intros Hclean. unfold publisher_start. destruct (publisher_cleanup_clean (set_device device_id port s)) as (Hc & Ha & Hid & Hpo).
  { apply publisher_clean_ok in Hclean. destruct Hclean. by split. }
  rewrite reset_announced in Ha. cbn [announced set_device device_id_ port_] in Ha, Hid, Hpo. rewrite <-Ha. revert Hc Hid Hpo.
  generalize (publisher_cleanup (set_device device_id port s)) as s0. intros s0 Hc Hid Hpo.
  destruct poll_created; cbn [negb].
  2: { intros [= <- <-]. split; [|exists []; by rewrite app_nil_r].
       assert (publisher_set_poll None s0 = s0) as -> by (destruct Hc as [_ _ Hp _ _], s0; cbn in *; by subst). done. }
  destruct (allocate Poll (heap s0)) as [p h] eqn:E. injection E as <- <-. set (s1 := publisher_set_quit false _).
  assert (H1 : publisher_ok s1).
  { pose proof (publisher_clean_ok _ Hc) as Hok. pose proof (fun i o => publisher_fresh_id _ i o Hok) as Hnew.
    destruct Hok as [Hf Hfr Hlv Hp Hcl Hbr], Hc as [_ Hl Hpn Hcn Hgn].
    split; cbn [s1 heap h_live h_next h_fault simple_poll_ client_ entry_group_ publisher_set_poll publisher_set_heap publisher_set_quit]; try done;
      rewrite ?Hl, ?Hcn, ?Hgn; try done.
    - intros i o [[<- _]|[_ Hi]]%lookup_insert_Some; [lia|]. by rewrite lookup_empty in Hi.
    - intros i o [[<- <-]|[_ Hi]]%lookup_insert_Some; [done|]. by rewrite lookup_empty in Hi.
    - intros p [= <-]. by rewrite lookup_insert_eq. }
  destruct (publisher_client_new_ok created s1 H1 (clean_client _ Hc)) as [H2 Hs2].
  assert (Hown : forall s2, same_device s1 s2 -> publisher_ok s2 -> publisher_clean (publisher_cleanup s2) /\ exists svs, announced (publisher_cleanup s2) = announced s0 ++ svs /\
    Forall (eq (mkService (String.append "Gasoline-" device_id) port device_id)) svs).
  { intros s2 [_ _ _ (svs & Hsv & Hf)] Hok2. destruct (publisher_cleanup_clean s2 Hok2) as (? & Ha2 & _). split; [done|].
    exists svs. rewrite Ha2, reset_announced, Hsv. split; [done|]. eapply Forall_impl; [exact Hf|]. intros sv <-.
    unfold our_service. cbn. by rewrite Hid, Hpo. }
  destruct (client_ (publisher_client_new created s1)) as [c|].
  - intros [= <- <-]. destruct (publisher_loop_ok events (publisher_set_running true (publisher_client_new created s1))) as [H3 Hs3]; [destruct H2; by split|].
    apply Hown; [|done]. etransitivity; [exact Hs2|]. etransitivity; [|exact Hs3]. split; [done..|]. exists []. by rewrite app_nil_r.
  - intros [= <- <-]. by apply Hown.
Qed.

(** A concrete run: the service is announced, withdrawn on a collision, announced
    again, and the publisher is stopped. *)
Definition publisher_idle : publisher_State := mkState EmptyString 0 None None None false (mkHeap ∅ 0 false) false [].
Definition all_well : Outcomes := mkOutcomes true true true.
Definition publisher_sample : list publisher_LoopEvent :=
  [OnGroup GROUP_ESTABLISHED; OnClient S_COLLISION all_well; OnClient S_RUNNING (mkOutcomes true false true);
   OnClient S_RUNNING all_well; OnStop; OnClient S_RUNNING all_well].
Lemma publisher_memory_safe_witness :
  announced (publisher_start "x" 42666 true (Some [(S_RUNNING, all_well)]) publisher_sample publisher_idle).2 =
    [mkService "Gasoline-x" 42666 "x"; mkService "Gasoline-x" 42666 "x"] /\
  publisher_clean (publisher_start "x" 42666 true (Some [(S_RUNNING, all_well)]) publisher_sample publisher_idle).2.
Proof.
  split; [vm_compute; reflexivity|].
  refine (proj1 (publisher_memory_safe "x" 42666 true (Some [(S_RUNNING, all_well)]) publisher_sample publisher_idle true _ _ _)).
  - by split.
  - apply run_eta. vm_compute. reflexivity.
Defined.
End AvahiPublisher.
