(* ===== verification/Discovery.v ===== *)
(** * Discovery, connections and the running daemon

    [core/discovery/discovery_client.cpp], [core/discovery/discovery_service.cpp],
    [core/networking/connect.cpp], [core/networking/server.cpp] and the threads of
    [daemon/main.cpp].  A discovered device is contacted by a detached thread, which
    keeps the device's identifier in a set of pending connections until two seconds
    after the attempt.  The last section puts the accept loop, the discovery client
    with its workers, and the message service beside the sessions of [Network.v]:
    every step of the daemon is a step of the network or leaves it as it was. *)

From S2P Require Import Prelude V2Framing Uuid TrustTables TrustStore TrustContract SessionAuth EventBus Registry Packet Connection Network Service Avahi.

(** ** Outgoing connections ([connect.cpp]) *)

(** The socket after [socket], [inet_pton] and [connect], and those closed.  [inet_pton]
    is the address a text denotes, and [connected] whether somebody accepts at an
    address and port; [htons] keeps the low 16 bits of the port. *)
Definition connect_socket (sock : option Z) (ip : string) (port : Z)
    (inet_pton : string -> option Z) (connected : Z -> Z -> bool) : option Z * list Z :=
  match sock with
  | None => (None, [])
  | Some fd =>
      match inet_pton ip with
      | None => (None, [fd])
      | Some address => if negb (connected address (port `mod` 2 ^ 16)) then (None, [fd]) else (Some fd, [])
      end
  end.

(** ** The accept loop ([server.cpp]) *)

Definition SERVER_PORT : Z := 42666.

Inductive ServerAccept : Type :=
| AcceptInterrupted                      (** [EINTR] *)
| AcceptError
| AcceptSocket (client_socket : Z) (thread_created : bool) (events : list RecvEvent).

Section server.
Context {TQ : TrustQueries} {JL : JsonLibrary} (my_device_id : string).

Definition connect_to_device (ip : string) (port : Z) (sock : option Z) (inet_pton : string -> option Z)
    (connected : Z -> Z -> bool) (thread_created : bool) (events : list RecvEvent) : stx World Exn (list Z) :=
  match connect_socket sock ip port inet_pton connected with
  | (None, closed) => ret closed
  | (Some fd, closed) =>
      fun w => let '(sid, w1) := create fd Outgoing w in (start my_device_id sid thread_created events;;; ret closed) w1
  end.

(** The worker of a session runs on; what it does is in the events of its socket. *)
Fixpoint accept_loop (accepts : list ServerAccept) : stx World Exn unit :=
  match accepts with
  | [] => ret tt
  | (AcceptInterrupted | AcceptError) :: rest => accept_loop rest
  | AcceptSocket client_socket thread_created events :: rest =>
      (fun w => let '(sid, w1) := create client_socket Incoming w in
                (start my_device_id sid thread_created events;;; ret tt) w1);;;
      accept_loop rest
  end.

(** The sockets closed, and whether it listens. *)
Definition server_start (server_fd : option Z) (options_set bound listening : bool) (accepts : list ServerAccept)
  : stx World Exn (list Z * bool) :=
  match server_fd with
  | None => ret ([], false)
  | Some fd =>
      if negb options_set then ret ([fd], false)
      else if negb bound then ret ([fd], false)
      else if negb listening then ret ([fd], false)
      else accept_loop accepts;;; ret ([], true)
  end.
End server.

(** ** The discovery client *)

Inductive WorkerPhase : Type := Connecting | Waiting.
Record Worker : Type := mkWorker { wk_device_id : string; wk_ip : string; wk_port : Z; wk_phase : WorkerPhase }.
Definition set_phase ph w := mkWorker (wk_device_id w) (wk_ip w) (wk_port w) ph.

(** The object, the threads that refer to it, and whether one of them used it after
    its destruction. *)
Record Disc : Type := mkDisc {
  pending_connections_ : gset string;
  di_workers : list Worker;
  di_alive : bool;
  di_fault : bool
}.
Definition no_discovery : Disc := mkDisc ∅ [] true false.

Inductive SystemError : Type := ThreadUnavailable.

Definition on_device_discovered (my_id : string) (registry : list Device) (device : DiscoveredDevice) (thread_created : bool)
  : stx Disc SystemError unit :=
  fun d =>
    if negb (discovery_is_valid_uuid (dd_device_id device)) then (Ok tt, d)
    else if bool_decide (dd_device_id device = my_id) then (Ok tt, d)
    else if is_already_connected (dd_device_id device) registry then (Ok tt, d)
    else if bool_decide (dd_device_id device ∈ pending_connections_ d) then (Ok tt, d)
    else
      let pending := {[ dd_device_id device ]} ∪ pending_connections_ d in
      if thread_created
      then (Ok tt, mkDisc pending
                     (di_workers d ++ [mkWorker (dd_device_id device) (dd_ip_address device) (dd_port device) Connecting])
                     (di_alive d) (di_fault d))
      else (Throw ThreadUnavailable, mkDisc pending (di_workers d) (di_alive d) (di_fault d)).

(** A worker made its attempt. *)
Definition worker_waits (i : nat) (d : Disc) : Disc :=
  mkDisc (pending_connections_ d) (alter (set_phase Waiting) i (di_workers d)) (di_alive d) (di_fault d).
(** A worker has waited: it removes its device from the set of the object. *)
Definition worker_ends (i : nat) (w : Worker) (d : Disc) : Disc :=
  mkDisc (if di_alive d then pending_connections_ d ∖ {[ wk_device_id w ]} else pending_connections_ d)
    (delete i (di_workers d)) (di_alive d) (di_fault d || negb (di_alive d)).
(** The destructor stops the browser; it does not wait for the workers. *)
Definition destroy (d : Disc) : Disc := mkDisc ∅ (di_workers d) false (di_fault d).

(** [start] and [stop] hand over to the platform's browser, whose callback is
    [on_device_discovered]: the devices it discovers while it runs, in order. *)
Definition discovery_start (browser : option AvahiBrowser.browser_State) (poll_created : bool)
    (created : option (list (ClientState * bool))) (events : list AvahiBrowser.browser_LoopEvent)
  : option AvahiBrowser.browser_State :=
  match browser with
  | None => None
  | Some s => Some (snd (AvahiBrowser.browser_start poll_created created events s))
  end.
Definition discovery_stop (browser : option AvahiBrowser.browser_State) : option AvahiBrowser.browser_State :=
  AvahiBrowser.browser_stop <$> browser.

(** The advertisement ([discovery_service.cpp]). *)
Definition service_start (my_id : string) (publisher : option AvahiPublisher.publisher_State) (poll_created : bool)
    (created : option (list (ClientState * AvahiPublisher.Outcomes))) (events : list AvahiPublisher.publisher_LoopEvent)
  : option AvahiPublisher.publisher_State :=
  match publisher with
  | None => None
  | Some s => Some (snd (AvahiPublisher.publisher_start my_id SERVER_PORT poll_created created events s))
  end.
Definition service_stop (publisher : option AvahiPublisher.publisher_State) : option AvahiPublisher.publisher_State :=
  AvahiPublisher.publisher_stop <$> publisher.

(** ** The daemon *)

Section daemon.
Context {TQ : TrustQueries} {JL : JsonLibrary} (my_device_id : string).

Inductive daemon_step : Net * Disc -> Net * Disc -> Prop :=
| daemon_net n n' d : step my_device_id n n' -> daemon_step (n, d) (n', d)
(* the accept loop *)
| daemon_accept n d fd :
    w_next_session_id (n_world n) < 2 ^ 64 - 1 ->
    daemon_step (n, d) (set_world (snd (create fd Incoming (n_world n))) n, d)
(* discovery *)
| daemon_discovered n d device :
    di_alive d = true ->
    daemon_step (n, d) (n, snd (on_device_discovered my_device_id (w_registry (n_world n)) device true d))
| daemon_connect_failed n d i w sock inet_pton connected closed :
    di_workers d !! i = Some w -> wk_phase w = Connecting ->
    connect_socket sock (wk_ip w) (wk_port w) inet_pton connected = (None, closed) ->
    daemon_step (n, d) (n, worker_waits i d)
| daemon_connected n d i w sock inet_pton connected fd :
    di_workers d !! i = Some w -> wk_phase w = Connecting ->
    connect_socket sock (wk_ip w) (wk_port w) inet_pton connected = (Some fd, []) -> w_next_session_id (n_world n) < 2 ^ 64 - 1 ->
    daemon_step (n, d) (set_world (snd (create fd Outgoing (n_world n))) n, worker_waits i d)
| daemon_worker_ends n d i w :
    di_workers d !! i = Some w -> wk_phase w = Waiting ->
    daemon_step (n, d) (n, worker_ends i w d)
| daemon_destroy n d : di_alive d = true -> daemon_step (n, d) (n, destroy d)
(* the message service, once the mutexes of the addressed session are free *)
| daemon_send n d device_id text :
    (forall dev, find_id device_id (w_registry (n_world n)) = Some dev -> free (dev_session_id dev) (n_world n)) ->
    daemon_step (n, d) (set_world (snd (send_to_device my_device_id device_id text (n_world n))) n, d).

Inductive daemon_reachable : Net * Disc -> Prop :=
| daemon_initial s clock : daemon_reachable (initial s clock, no_discovery)
| daemon_next nd nd' : daemon_reachable nd -> daemon_step nd nd' -> daemon_reachable nd'.

Definition daemon_steps := rtc daemon_step.

(** *** Sending is a step of the network *)

Lemma send_to_first_step device_id packet devices w :
  (forall dev, dev ∈ devices -> dev_connection dev = Some (dev_session_id dev)) ->
  snd (send_to_first device_id packet devices w) = w \/
  exists dev, find_id device_id devices = Some dev /\
    snd (send_to_first device_id packet devices w) = snd (send_packet (dev_session_id dev) packet w).
Proof.
  induction devices as [|dev devices IH]; intros Hconn; [by left|]. cbn [send_to_first find_id].
  destruct (decide (dev_id dev = device_id)) as [Heq|Hne].
  - rewrite (bool_decide_eq_true_2 _ Heq). cbn [negb]. rewrite bind_gets. unfold Datatypes.id.
    rewrite (Hconn dev) by left. destruct (lock_weak _ _) as [[sid b]|] eqn:Hl; [|by left].
    assert (sid = dev_session_id dev) as ->.
    { unfold lock_weak in Hl. destruct (alive w (dev_session_id dev)); [|done]. by injection Hl. }
    destruct (negb _); [by left|]. right. exists dev. split; [done|]. cbn [send_packet_to]. unfold bind.
    by destruct (send_packet (dev_session_id dev) packet w) as [[z|e] w'].
  - rewrite (bool_decide_eq_false_2 _ Hne). cbn [negb]. apply IH. intros d Hd. apply Hconn. by right.
Qed.

(** *** The invariant *)

Record disc_ok (d : Disc) : Prop := {
  disc_distinct : NoDup (wk_device_id <$> di_workers d);
  disc_pending : di_alive d = true -> pending_connections_ d = list_to_set (wk_device_id <$> di_workers d);
  disc_fault : di_alive d = true -> di_fault d = false;
  disc_valid : Forall (fun w => discovery_is_valid_uuid (wk_device_id w) = true /\ wk_device_id w <> my_device_id) (di_workers d)
}.

Lemma waits_ids (i : nat) (l : list Worker) : wk_device_id <$> alter (set_phase Waiting) i l = wk_device_id <$> l.
Proof. apply list_eq. intros j. rewrite !list_lookup_fmap, list_lookup_alter. case_decide as H; [|done]. subst. by destruct (l !! j). Qed.

Lemma discovered_ok registry device d :
  di_alive d = true -> disc_ok d -> disc_ok (snd (on_device_discovered my_device_id registry device true d)).
Proof.
  intros Ha [Hnd Hp Hf Hv]. unfold on_device_discovered.
  destruct (discovery_is_valid_uuid (dd_device_id device)) eqn:Huuid; cbn [negb]; [|done].
  case_bool_decide as Hown; [done|]. destruct (is_already_connected _ _); [done|]. case_bool_decide as Hpend; [done|].
  rewrite (Hp Ha) in Hpend. rewrite elem_of_list_to_set in Hpend.
  split; cbn [di_workers di_alive di_fault pending_connections_ snd]; rewrite ?fmap_app; cbn [fmap list_fmap wk_device_id].
  - apply NoDup_app. split_and!; [done| |apply NoDup_singleton]. by intros x Hx ->%list_elem_of_singleton.
  - intros _. rewrite (Hp Ha), list_to_set_app_L. set_solver.
  - done.
  - apply Forall_app. split; [done|]. by repeat constructor.
Qed.

Lemma waits_ok i d : disc_ok d -> disc_ok (worker_waits i d).
Proof.
  intros [Hnd Hp Hf Hv]. split; cbn [worker_waits di_workers di_alive di_fault pending_connections_]; rewrite ?waits_ids; try done.
  apply Forall_forall. intros w [j Hj]%list_elem_of_lookup. rewrite list_lookup_alter in Hj.
  assert (Hall := proj1 (Forall_lookup _ _) Hv). case_decide as Hij; [subst i|by eapply Hall].
  destruct (di_workers d !! j) as [w0|] eqn:E; [|done]. injection Hj as <-. by apply (Hall j w0).
Qed.

Lemma ends_ok i w d : di_workers d !! i = Some w -> disc_ok d -> disc_ok (worker_ends i w d).
Proof.
  intros Hi [Hnd Hp Hf Hv].
  assert (Hids : wk_device_id <$> di_workers d = (wk_device_id <$> take i (di_workers d)) ++ wk_device_id w :: (wk_device_id <$> drop (S i) (di_workers d))).
  { rewrite <-(take_drop_middle _ _ _ Hi) at 1. by rewrite fmap_app. }
  assert (Hdel : wk_device_id <$> delete i (di_workers d) = (wk_device_id <$> take i (di_workers d)) ++ (wk_device_id <$> drop (S i) (di_workers d))).
  { by rewrite delete_take_drop, fmap_app. }
  rewrite Hids in Hnd, Hp. apply NoDup_app in Hnd as (Hn1 & Hn2 & [Hn3 Hn4]%NoDup_cons).
  split; cbn [worker_ends di_workers di_alive di_fault pending_connections_]; rewrite ?Hdel.
  - apply NoDup_app. split_and!; [done| |done]. intros x Hx Hin. apply (Hn2 x Hx). by right.
  - intros Ha. rewrite Ha, (Hp Ha), !list_to_set_app_L, list_to_set_cons.
    assert (wk_device_id w ∉ (list_to_set (wk_device_id <$> take i (di_workers d)) : gset string)).
    { rewrite elem_of_list_to_set. intros Hin. apply (Hn2 _ Hin). left. }
    assert (wk_device_id w ∉ (list_to_set (wk_device_id <$> drop (S i) (di_workers d)) : gset string)) by by rewrite elem_of_list_to_set.
    set_solver.
  - intros Ha. rewrite Ha, (Hf Ha). done.
  - apply Forall_forall. intros x Hx. rewrite Forall_forall in Hv. apply Hv. rewrite delete_take_drop in Hx.
    apply elem_of_app in Hx as [Hx|Hx]; [by eapply elem_of_take in Hx as (j & ? & _); eapply list_elem_of_lookup_2|].
    by eapply subseteq_drop.
Qed.

Context {JLaws : JsonLaws}.

(** The network of a daemon step. *)
Lemma daemon_step_network n d n' d' :
  reachable my_device_id n -> daemon_step (n, d) (n', d') -> n' = n \/ step my_device_id n n'.
Proof.
  intros Hn Hs. inversion Hs; subst; auto; try (right; by apply step_create).
  destruct (reachable_devices my_device_id n Hn) as (Had & _ & _). rewrite Forall_forall in Had.
  unfold send_to_device. case_bool_decide; [left; by destruct n|]. rewrite bind_gets.
  destruct (send_to_first_step device_id (message_json my_device_id text) (w_registry (n_world n)) (n_world n)) as [->|(dev & Hf & ->)].
  - intros dev Hd. apply (Had dev Hd).
  - left. by destruct n.
  - right. apply step_send. match goal with H : forall dev, find_id _ _ = Some dev -> _ |- _ => by apply H end.
Qed.

Lemma daemon_step_disc n d n' d' : disc_ok d -> daemon_step (n, d) (n', d') -> disc_ok d'.
Proof.
  intros Hd Hs. inversion Hs; subst; try done.
  - by apply discovered_ok.
  - by apply waits_ok.
  - by apply waits_ok.
  - by apply ends_ok.
  - destruct Hd as [Hnd Hp Hf Hv]. by split.
Qed.

Lemma daemon_reachable_ok nd : daemon_reachable nd -> reachable my_device_id nd.1 /\ disc_ok nd.2.
Proof.
  induction 1 as [s clock|[n d] [n' d'] _ [IHn IHd] Hs].
  - split; [apply reachable_initial|]. by split; cbn; [apply NoDup_nil| | |].
  - cbn in *. split; [|by eapply daemon_step_disc]. destruct (daemon_step_network n d n' d' IHn Hs) as [->|Hstep]; [done|].
    by eapply reachable_step.
Qed.

(** C25. The daemon refines the network: the accept loop, the discovery client with its
    workers and the message service, interleaved with the sessions and the monitor,
    only make steps of the network, so that what holds in every reachable network
    holds in the daemon.  While the discovery client exists, its set of pending
    connections is exactly the devices that a worker is at, no device has two
    workers, and none is contacted under an invalid identifier or our own. *)
Theorem daemon_refines_network n d :
  daemon_reachable (n, d) ->
  reachable my_device_id n /\
  (di_alive d = true ->
   pending_connections_ d = list_to_set (wk_device_id <$> di_workers d) /\ di_fault d = false) /\
  NoDup (wk_device_id <$> di_workers d) /\
  Forall (fun w => discovery_is_valid_uuid (wk_device_id w) = true /\ wk_device_id w <> my_device_id) (di_workers d).
Proof. intros [Hn [Hnd Hp Hf Hv]]%daemon_reachable_ok. auto. Qed.

(** *** Attempts end *)

(** The first worker can finish. *)
Lemma worker_finishes n d w l :
  di_workers d = w :: l -> exists d', daemon_steps (n, d) (n, d') /\ di_workers d' = l /\ di_alive d' = di_alive d.
Proof.
  intros Hw. assert (Hend : forall d0 w0, di_workers d0 = w0 :: l -> wk_phase w0 = Waiting -> di_alive d0 = di_alive d ->
    exists d', daemon_steps (n, d0) (n, d') /\ di_workers d' = l /\ di_alive d' = di_alive d).
  { intros d0 w0 Hw0 Hph Ha. exists (worker_ends 0 w0 d0). split_and!; [|cbn; by rewrite Hw0|done].
    apply rtc_once, daemon_worker_ends; [by rewrite Hw0|done]. }
  destruct (wk_phase w) eqn:Hph; [|by apply (Hend d w)].
  destruct (Hend (worker_waits 0 d) (set_phase Waiting w)) as (d' & Hsteps & ? & ?); [cbn; by rewrite Hw|done|done|].
  exists d'. split; [|done]. eapply rtc_l; [|exact Hsteps].
  apply (daemon_connect_failed n d 0 w None (fun _ => None) (fun _ _ => true) []); [by rewrite Hw|done|done].
Qed.

(** No device stays pending: from every reachable state of the daemon, whatever the
    attempts lead to, the workers can finish, and then nothing is pending, so that
    every device can be contacted again. *)
Theorem pending_drains n d :
  daemon_reachable (n, d) -> di_alive d = true ->
  exists d', daemon_steps (n, d) (n, d') /\ di_workers d' = [] /\ pending_connections_ d' = ∅.
Proof.
  intros Hr Ha. remember (di_workers d) as l eqn:Hl. revert d Hr Ha Hl.
  assert (Hreach : forall nd nd', daemon_reachable nd -> daemon_steps nd nd' -> daemon_reachable nd').
  { intros nd nd' H Hs. induction Hs as [|x y z Hxy _ IH]; [done|]. apply IH. by eapply daemon_next. }
  induction l as [|w l IH]; intros d Hr Ha Hl.
  - exists d. split_and!; [apply rtc_refl|done|]. apply daemon_reachable_ok in Hr as [_ [_ Hp _ _]]. cbn in Hp.
    by rewrite (Hp Ha), <-Hl.
  - destruct (worker_finishes n d w l (eq_sym Hl)) as (d1 & Hs1 & Hw1 & Ha1).
    destruct (IH d1) as (d' & Hs & Hw & Hp); [by eapply Hreach|by rewrite Ha1|done|].
    exists d'. split_and!; [by etransitivity|done..].
Qed.

(** C38. A worker outlives the discovery client: the threads refer to the object, and its
    destructor does not wait for them; whenever an attempt is under way the object
    can be destroyed before the attempt ends, and the worker then uses it. *)
Theorem worker_outlives_client n d w l :
  di_alive d = true -> di_workers d = w :: l ->
  exists d', daemon_steps (n, d) (n, d') /\ di_fault d' = true.
Proof.
  intros Ha Hw. set (d1 := destroy d).
  assert (Hend : forall d0 w0, di_workers d0 = w0 :: l -> wk_phase w0 = Waiting -> di_alive d0 = false ->
    exists d', daemon_steps (n, d0) (n, d') /\ di_fault d' = true).
  { intros d0 w0 Hw0 Hph Ha0. exists (worker_ends 0 w0 d0). split; [|cbn; by rewrite Ha0, orb_true_r].
    apply rtc_once, daemon_worker_ends; [by rewrite Hw0|done]. }
  assert (exists d', daemon_steps (n, d1) (n, d') /\ di_fault d' = true) as (d' & Hs & Hf).
  { destruct (wk_phase w) eqn:Hph; [|by apply (Hend d1 w)].
    destruct (Hend (worker_waits 0 d1) (set_phase Waiting w)) as (d' & Hsteps & ?); [cbn; by rewrite Hw|done|done|].
    exists d'. split; [|done]. eapply rtc_l; [|exact Hsteps].
    apply (daemon_connect_failed n d1 0 w None (fun _ => None) (fun _ _ => true) []); [by cbn; rewrite Hw|done|done]. }
  exists d'. split; [|done]. eapply rtc_l; [|exact Hs]. by apply daemon_destroy.
Qed.
End daemon.

(** ** A concrete daemon *)

Module DiscoveryScenario.
Import Scenario AuthScenario SmallJson ConnectionScenario NetworkScenario ServiceScenario.

Definition found : DiscoveredDevice :=
  mkDiscoveredDevice (trust_uuid_to_string peer2) "Gasoline" "192.168.1.7" 42666.
Definition disc1 : Disc := snd (on_device_discovered my_id [] found true no_discovery).
Definition worker1 : Worker := mkWorker (trust_uuid_to_string peer2) "192.168.1.7" 42666 Connecting.

Lemma daemon_found : daemon_reachable my_id (initial store_ready 0, disc1).
Proof.
  eapply daemon_next; [apply (daemon_initial my_id store_ready 0)|].
  exact (daemon_discovered my_id (initial store_ready 0) no_discovery found eq_refl).
Qed.
Lemma disc1_workers : di_workers disc1 = [worker1].
Proof. vm_compute. reflexivity. Qed.
Lemma disc1_alive : di_alive disc1 = true.
Proof. vm_compute. reflexivity. Qed.

Lemma daemon_refines_network_witness :
  di_workers disc1 = [worker1] /\ pending_connections_ disc1 = {[ trust_uuid_to_string peer2 ]}.
Proof.
  split; [exact disc1_workers|].
  destruct (daemon_refines_network my_id (initial store_ready 0) disc1 daemon_found) as (_ & Hp & _).
  destruct (Hp disc1_alive) as [H _]. rewrite H, disc1_workers. apply (right_id_L ∅ (∪)).
Defined.

Lemma pending_drains_witness :
  exists d', daemon_steps my_id (initial store_ready 0, disc1) (initial store_ready 0, d') /\ pending_connections_ d' = ∅.
Proof.
  destruct (pending_drains my_id (initial store_ready 0) disc1 daemon_found disc1_alive) as (d' & Hs & _ & Hp).
  exists d'. split; [exact Hs|exact Hp].
Defined.

Lemma worker_outlives_client_witness :
  exists d', daemon_steps my_id (initial store_ready 0, disc1) (initial store_ready 0, d') /\ di_fault d' = true.
Proof. exact (worker_outlives_client my_id (initial store_ready 0) disc1 worker1 [] disc1_alive disc1_workers). Defined.
End DiscoveryScenario.
