(* ===== verification/Noise.v ===== *)
(** * The Noise session

    [core/noise/noise_session.*], the move-only owner of a handshake and then of
    a transport cipher, and the functions of [core/noise/clatter_ffi/src/lib.rs]
    it calls.  The crate [clatter], which has the cryptography, is the class
    [Clatter]; what is relied on of it is [ClatterLaws].  The heap holds the boxes
    behind the handles; buffers have addresses, so that the checks of the C
    interface for null, wrapping and overlapping buffers are computed; pointers to
    the caller's own variables [out_handle] and [complete] are never null.  Using or
    freeing a handle that is not allocated is the outcome [Undefined]. *)

From S2P Require Import Prelude.
From Stdlib Require Import Lia.

(** ** The C interface: [gasoline_clatter_ffi.h] *)

Inductive noise_result : Set :=
| NoiseOk | InvalidArgument | InvalidState | BufferTooSmall
| Oversized | CryptoError | Panic | InternalError.

#[export] Instance noise_result_eq_decision : EqDecision noise_result.
Proof. solve_decision. Defined.

Definition MAX_MESSAGE : Z := 65535.
Definition TAG_SIZE : Z := 16.
Definition MAX_PLAINTEXT : Z := MAX_MESSAGE - TAG_SIZE.
Definition HASH_SIZE : Z := 32.
Definition MAX_PROLOGUE : Z := 4096.

(** ** The crate [clatter] *)

Inductive HandshakeError : Set :=
| HsInvalidState | HsErrorState | HsBufferTooSmall | HsInvalidMessage | HsOther.

Inductive TransportError : Set :=
| TrBufferTooSmall | TrTooShort | TrOneWayViolation | TrCipher.

(** A call into the crate returns a value or an error, or panics. *)
Inductive outcome (E A : Type) : Type :=
| Done (a : A)
| Fails (e : E)
| Panics.
Arguments Done {E A} a.
Arguments Fails {E A} e.
Arguments Panics {E A}.

(** A call that writes a message takes the output slice and returns the slice
    after the call with the number of bytes written.  [hs_new] takes the entropy
    its ephemeral key will come from. *)
Class Clatter := {
  Handshake : Type;
  Transport : Type;
  hs_new : nat -> list byte -> bool -> outcome HandshakeError Handshake;
  get_next_message_overhead : Handshake -> outcome HandshakeError Z;
  write_message : Handshake -> list byte -> list byte ->
    Handshake * outcome HandshakeError (list byte * Z);
  read_message : Handshake -> list byte -> list byte ->
    Handshake * outcome HandshakeError (list byte * Z);
  is_finished : Handshake -> bool;
  get_hash : Handshake -> list byte;
  finalize : Handshake -> outcome HandshakeError Transport;
  get_handshake_hash : Transport -> list byte;
  send : Transport -> list byte -> list byte ->
    Transport * outcome TransportError (list byte * Z);
  receive : Transport -> list byte -> list byte ->
    Transport * outcome TransportError (list byte * Z);
  rekey_sender : Transport -> Transport * outcome TransportError unit;
  rekey_receiver : Transport -> Transport * outcome TransportError unit
}.

(** Slices keep their length, what is written fits, hashes have the size of
    BLAKE2s. *)
Class ClatterLaws (lib : Clatter) := {
  overhead_nonneg hs o : get_next_message_overhead hs = Done o -> 0 <= o;
  write_fits hs l b hs' b' n :
    write_message hs l b = (hs', Done (b', n)) -> length b' = length b /\ 0 <= n <= zlen b;
  read_fits hs l b hs' b' n :
    read_message hs l b = (hs', Done (b', n)) -> length b' = length b /\ 0 <= n <= zlen b;
  send_fits t l b t' b' n :
    send t l b = (t', Done (b', n)) -> length b' = length b /\ 0 <= n <= zlen b;
  receive_fits t l b t' b' n :
    receive t l b = (t', Done (b', n)) -> length b' = length b /\ 0 <= n <= zlen b;
  hash_size hs : zlen (get_hash hs) = HASH_SIZE;
  handshake_hash_size t : zlen (get_handshake_hash t) = HASH_SIZE
}.

(** What the Noise specification promises of the pattern NN over a reliable link:
    two parties with the same prologue exchange two messages, agree on the
    handshake hash, and end with ciphers that are [linked]: what one sends the
    other receives, both ways, for a number of messages that the nonces bound, and
    after one rekeys its sender and the other its receiver.  [stage k a b]: after
    [k] messages, [a] is to write and [b] to read. *)
Class NoiseChannel (lib : Clatter) := {
  stage : nat -> Handshake -> Handshake -> Prop;
  linked : Z -> Transport -> Transport -> Prop;
  nn_overhead : nat -> Z;
  channel_messages : Z;
  nn_start prologue e1 e2 :
    zlen prologue <= MAX_PROLOGUE ->
    exists a b, hs_new e1 prologue true = Done a /\ hs_new e2 prologue false = Done b /\ stage 0 a b;
  nn_overheads k a b :
    stage k a b -> (k < 2)%nat ->
    get_next_message_overhead a = Done (nn_overhead k) /\ get_next_message_overhead b = Done (nn_overhead k);
  nn_message k a b payload out :
    stage k a b -> (k < 2)%nat -> zlen payload + nn_overhead k <= MAX_MESSAGE ->
    zlen payload + nn_overhead k <= zlen out ->
    exists a' out', write_message a payload out = (a', Done (out', zlen payload + nn_overhead k)) /\
      forall buffer, zlen payload <= zlen buffer ->
      exists b' buffer',
        read_message b (take (Z.to_nat (zlen payload + nn_overhead k)) out') buffer
          = (b', Done (buffer', zlen payload)) /\
        take (length payload) buffer' = payload /\ stage (S k) b' a';
  nn_done a b :
    stage 2 a b ->
    is_finished a = true /\ is_finished b = true /\
    exists ta tb, finalize a = Done ta /\ finalize b = Done tb /\
      get_handshake_hash ta = get_handshake_hash tb /\ linked channel_messages ta tb;
  linked_sym n a b : linked n a b -> linked n b a;
  linked_send n a b l out :
    linked n a b -> 0 < n -> zlen l <= MAX_PLAINTEXT -> zlen out = zlen l + TAG_SIZE ->
    exists a' out', send a l out = (a', Done (out', zlen l + TAG_SIZE)) /\
      forall buffer, zlen buffer = zlen l ->
      exists b', receive b out' buffer = (b', Done (l, zlen l)) /\ linked (n - 1) a' b';
  linked_rekey n a b :
    linked n a b ->
    exists a' b', rekey_sender a = (a', Done tt) /\ rekey_receiver b = (b', Done tt) /\ linked n a' b'
}.

Section noise.
Context {lib : Clatter}.

(** ** Memory *)

Inductive SessionState : Type :=
| InHandshake (hs : Handshake)
| InTransport (t : Transport)
| Failed.

(** A box: a mutex over the state, poisoned by a panic of its holder. *)
Record NoiseHandle := { hstate : SessionState; poisoned : bool }.

(** The variables of the caller that the C functions write through pointers. *)
Record Locals := {
  out_handle : option nat;
  output : list byte;
  output_len : Z;
  complete : Z
}.

Record Memory := {
  boxes : gmap nat NoiseHandle;
  next_box : nat;
  locals : Locals
}.

Definition set_boxes (f : gmap nat NoiseHandle -> gmap nat NoiseHandle) (m : Memory) : Memory :=
  {| boxes := f (boxes m); next_box := next_box m; locals := locals m |}.
Definition set_locals (f : Locals -> Locals) (m : Memory) : Memory :=
  {| boxes := boxes m; next_box := next_box m; locals := f (locals m) |}.

Definition set_out_handle (h : option nat) (l : Locals) : Locals :=
  {| out_handle := h; output := output l; output_len := output_len l; complete := complete l |}.
Definition set_output (b : list byte) (n : Z) (l : Locals) : Locals :=
  {| out_handle := out_handle l; output := b; output_len := n; complete := complete l |}.
Definition set_complete (c : Z) (l : Locals) : Locals :=
  {| out_handle := out_handle l; output := output l; output_len := output_len l; complete := c |}.

(** How a function body of the library ends early: an error code, a panic on
    its way to [catch_unwind], or undefined behaviour. *)
Inductive Stop : Set :=
| Code (c : noise_result)
| Panicking
| Undefined.

Abbreviation ffi A := (stx Memory Stop A).

(** ** Pointers and buffers *)

Definition checked_add (a b : Z) : option Z := if a + b <? 2 ^ 64 then Some (a + b) else None.

Definition wraps (a b : Z) : bool :=
  match checked_add a b with None => true | Some _ => false end.

Definition validate_const_buffer (data len : Z) : ffi unit :=
  if negb (len =? 0) && ((data =? 0) || wraps data len) then throw (Code InvalidArgument)
  else ret tt.

Definition validate_mut_buffer (data len : Z) : ffi unit :=
  if negb (len =? 0) && ((data =? 0) || wraps data len) then throw (Code InvalidArgument)
  else ret tt.

(** For a pointer to [usize]: 8 bytes, aligned to 8. *)
Definition validate_output_parameter (address : Z) : ffi unit :=
  if (address =? 0) || negb (address `mod` 8 =? 0) || wraps address 8
  then throw (Code InvalidArgument) else ret tt.

Definition checked_slice (data : Z) (contents : list byte) : ffi (list byte) :=
  if zlen contents =? 0 then ret []
  else validate_const_buffer data (zlen contents) ;;; ret contents.

Definition ranges_overlap (a a_len b b_len : Z) : bool :=
  if (a_len =? 0) || (b_len =? 0) then false
  else match checked_add a a_len, checked_add b b_len with
       | Some a_end, Some b_end => (a <? b_end) && (b <? a_end)
       | _, _ => true
       end.

(** Where the caller keeps its input, its output buffer and the output length. *)
Record Placement := { at_input : Z; at_output : Z; at_len : Z }.

Definition three_overlap (p : Placement) (len capacity : Z) : bool :=
  ranges_overlap (at_input p) len (at_output p) capacity
  || ranges_overlap (at_input p) len (at_len p) 8
  || ranges_overlap (at_output p) capacity (at_len p) 8.

(** ** The functions of the library *)

Definition map_handshake_error (e : HandshakeError) : noise_result :=
  match e with
  | HsInvalidState | HsErrorState => InvalidState
  | HsBufferTooSmall => BufferTooSmall
  | HsInvalidMessage => CryptoError
  | HsOther => CryptoError
  end.

Definition map_transport_error (e : TransportError) : noise_result :=
  match e with
  | TrBufferTooSmall => BufferTooSmall
  | TrTooShort => InvalidArgument
  | TrOneWayViolation => InvalidState
  | TrCipher => CryptoError
  end.

(** [result.map_err(f)?]; a panic unwinds. *)
Definition try_ {E A} (f : E -> noise_result) (o : outcome E A) : ffi A :=
  match o with
  | Done a => ret a
  | Fails e => throw (Code (f e))
  | Panics => throw Panicking
  end.

Definition guard (body : ffi unit) : ffi noise_result := fun m =>
  match body m with
  | (Ok _, m') => (Ok NoiseOk, m')
  | (Throw (Code c), m') => (Ok c, m')
  | (Throw Panicking, m') => (Ok Panic, m')
  | (Throw Undefined, m') => (Throw Undefined, m')
  end.

Definition handle_ref (handle : option nat) : ffi nat :=
  match handle with
  | None => throw (Code InvalidArgument)
  | Some h => ret h
  end.

Definition poison (h : nat) : Memory -> Memory :=
  set_boxes (alter (fun b => {| hstate := hstate b; poisoned := true |}) h).

Definition put_state (h : nat) (st : SessionState) : ffi unit :=
  modify (set_boxes (alter (fun b => {| hstate := st; poisoned := poisoned b |}) h)).

(** [let state = handle.state.lock()...?; body]: the guard is held to the end. *)
Definition with_lock {A} (h : nat) (body : SessionState -> ffi A) : ffi A := fun m =>
  match boxes m !! h with
  | None => (Throw Undefined, m)
  | Some b =>
      if poisoned b then (Throw (Code InternalError), m)
      else match body (hstate b) m with
           | (Throw Panicking, m') => (Throw Panicking, poison h m')
           | r => r
           end
  end.

Definition box_new (st : SessionState) : ffi nat := fun m =>
  (Ok (next_box m),
   {| boxes := <[next_box m := {| hstate := st; poisoned := false |}]> (boxes m);
      next_box := S (next_box m); locals := locals m |}).

Definition create (entropy : nat) (at_prologue : Z) (prologue : list byte) (initiator : bool) : ffi unit :=
  modify (set_locals (set_out_handle None)) ;;;
  require (Code Oversized) (negb (zlen prologue >? MAX_PROLOGUE)) ;;;
  let! prologue := checked_slice at_prologue prologue in
  let! handshake := try_ map_handshake_error (hs_new entropy prologue initiator) in
  let! handle := box_new (InHandshake handshake) in
  modify (set_locals (set_out_handle (Some handle))).

Definition gasoline_noise_create_initiator entropy at_prologue prologue : ffi noise_result :=
  guard (create entropy at_prologue prologue true).
Definition gasoline_noise_create_responder entropy at_prologue prologue : ffi noise_result :=
  guard (create entropy at_prologue prologue false).

Definition write_len (n : Z) : ffi unit :=
  modify (set_locals (fun l => set_output (output l) n l)).

Definition gasoline_noise_handshake_write (handle : option nat) (p : Placement) (payload : list byte) : ffi noise_result :=
  guard (
    let! capacity := gets (fun m => zlen (output (locals m))) in
    validate_output_parameter (at_len p) ;;;
    validate_const_buffer (at_input p) (zlen payload) ;;;
    validate_mut_buffer (at_output p) capacity ;;;
    require (Code InvalidArgument) (negb (three_overlap p (zlen payload) capacity)) ;;;
    write_len 0 ;;;
    require (Code Oversized) (negb ((zlen payload >? MAX_MESSAGE) || (capacity >? MAX_MESSAGE))) ;;;
    let! h := handle_ref handle in
    with_lock h (fun st =>
      match st with
      | InHandshake handshake =>
          let! overhead := try_ map_handshake_error (get_next_message_overhead handshake) in
          let! required := match checked_add (zlen payload) overhead with
                           | Some r => ret r
                           | None => throw (Code Oversized)
                           end in
          require (Code Oversized) (negb (required >? MAX_MESSAGE)) ;;;
          require (Code BufferTooSmall) (negb (capacity <? required)) ;;;
          let! payload := checked_slice (at_input p) payload in
          let! buffer := gets (fun m => output (locals m)) in
          let! out := checked_slice (at_output p) buffer in
          let '(handshake', r) := write_message handshake payload out in
          put_state h (InHandshake handshake') ;;;
          let! '(out', written) := try_ map_handshake_error r in
          modify (set_locals (set_output out' written))
      | _ => throw (Code InvalidState)
      end)).

Definition gasoline_noise_handshake_read (handle : option nat) (p : Placement) (message : list byte) : ffi noise_result :=
  guard (
    let! capacity := gets (fun m => zlen (output (locals m))) in
    validate_output_parameter (at_len p) ;;;
    validate_const_buffer (at_input p) (zlen message) ;;;
    validate_mut_buffer (at_output p) capacity ;;;
    require (Code InvalidArgument) (negb (three_overlap p (zlen message) capacity)) ;;;
    write_len 0 ;;;
    require (Code Oversized) (negb ((zlen message >? MAX_MESSAGE) || (capacity >? MAX_MESSAGE))) ;;;
    let! h := handle_ref handle in
    with_lock h (fun st =>
      match st with
      | InHandshake handshake =>
          let! overhead := try_ map_handshake_error (get_next_message_overhead handshake) in
          require (Code CryptoError) (negb (zlen message <? overhead)) ;;;
          require (Code BufferTooSmall) (negb (capacity <? zlen message - overhead)) ;;;
          let! message := checked_slice (at_input p) message in
          let! buffer := gets (fun m => output (locals m)) in
          let! out := checked_slice (at_output p) buffer in
          let '(handshake', r) := read_message handshake message out in
          put_state h (InHandshake handshake') ;;;
          let! '(out', written) := try_ map_handshake_error r in
          modify (set_locals (set_output out' written))
      | _ => throw (Code InvalidState)
      end)).

Definition gasoline_noise_handshake_is_complete (handle : option nat) : ffi noise_result :=
  guard (
    modify (set_locals (set_complete 0)) ;;;
    let! h := handle_ref handle in
    with_lock h (fun st =>
      match st with
      | InHandshake handshake =>
          modify (set_locals (set_complete (if is_finished handshake then 1 else 0)))
      | InTransport _ => modify (set_locals (set_complete 1))
      | Failed => throw (Code InvalidState)
      end)).

(** [copy_from_slice] panics when the lengths differ. *)
Definition copy_from_slice (src : list byte) : ffi unit :=
  if zlen src =? HASH_SIZE then modify (set_locals (fun l => set_output (src ++ drop (length src) (output l)) (output_len l) l))
  else throw Panicking.

Definition gasoline_noise_copy_handshake_hash (handle : option nat) (at_hash : Z) : ffi noise_result :=
  guard (
    let! capacity := gets (fun m => zlen (output (locals m))) in
    require (Code BufferTooSmall) (negb (capacity <? HASH_SIZE)) ;;;
    validate_mut_buffer at_hash HASH_SIZE ;;;
    let! h := handle_ref handle in
    with_lock h (fun st =>
      match st with
      | InHandshake handshake =>
          if is_finished handshake then copy_from_slice (get_hash handshake)
          else throw (Code InvalidState)
      | InTransport transport => copy_from_slice (get_handshake_hash transport)
      | Failed => throw (Code InvalidState)
      end)).

Definition gasoline_noise_enter_transport (handle : option nat) : ffi noise_result :=
  guard (
    let! h := handle_ref handle in
    with_lock h (fun old =>
      put_state h Failed ;;;
      match old with
      | InHandshake handshake =>
          if is_finished handshake then
            let! transport := try_ map_handshake_error (finalize handshake) in
            put_state h (InTransport transport)
          else put_state h (InHandshake handshake) ;;; throw (Code InvalidState)
      | _ => put_state h old ;;; throw (Code InvalidState)
      end)).

Definition gasoline_noise_transport_encrypt (handle : option nat) (p : Placement) (plaintext : list byte) : ffi noise_result :=
  guard (
    let! capacity := gets (fun m => zlen (output (locals m))) in
    require (Code InvalidArgument) (negb (at_len p =? 0)) ;;;
    write_len 0 ;;;
    require (Code Oversized) (negb ((zlen plaintext >? MAX_PLAINTEXT) || (capacity >? MAX_MESSAGE))) ;;;
    require (Code BufferTooSmall) (negb (capacity <? zlen plaintext + TAG_SIZE)) ;;;
    require (Code InvalidArgument)
      (negb (ranges_overlap (at_input p) (zlen plaintext) (at_output p) capacity)) ;;;
    let! plaintext := checked_slice (at_input p) plaintext in
    let! buffer := gets (fun m => output (locals m)) in
    let! out := checked_slice (at_output p) buffer in
    let! h := handle_ref handle in
    with_lock h (fun st =>
      match st with
      | InTransport transport =>
          let '(transport', r) := send transport plaintext out in
          put_state h (InTransport transport') ;;;
          let! '(out', written) := try_ map_transport_error r in
          modify (set_locals (set_output out' written))
      | _ => throw (Code InvalidState)
      end)).

Definition gasoline_noise_transport_decrypt (handle : option nat) (p : Placement) (ciphertext : list byte) : ffi noise_result :=
  guard (
    let! capacity := gets (fun m => zlen (output (locals m))) in
    require (Code InvalidArgument) (negb (at_len p =? 0)) ;;;
    write_len 0 ;;;
    require (Code Oversized) (negb ((zlen ciphertext >? MAX_MESSAGE) || (capacity >? MAX_PLAINTEXT))) ;;;
    require (Code InvalidArgument) (negb (zlen ciphertext <? TAG_SIZE)) ;;;
    require (Code BufferTooSmall) (negb (capacity <? zlen ciphertext - TAG_SIZE)) ;;;
    require (Code InvalidArgument)
      (negb (ranges_overlap (at_input p) (zlen ciphertext) (at_output p) capacity)) ;;;
    let! ciphertext := checked_slice (at_input p) ciphertext in
    let! buffer := gets (fun m => output (locals m)) in
    let! out := checked_slice (at_output p) buffer in
    let! h := handle_ref handle in
    with_lock h (fun st =>
      match st with
      | InTransport transport =>
          let '(transport', r) := receive transport ciphertext out in
          put_state h (InTransport transport') ;;;
          match r with
          | Done (out', written) => modify (set_locals (set_output out' written))
          | Fails error => put_state h Failed ;;; throw (Code (map_transport_error error))
          | Panics => throw Panicking
          end
      | _ => throw (Code InvalidState)
      end)).

(** The two functions differ in the method they call. *)
Definition rekey_with (f : Transport -> Transport * outcome TransportError unit) (handle : option nat) : ffi noise_result :=
  guard (
    let! h := handle_ref handle in
    with_lock h (fun st =>
      match st with
      | InTransport transport =>
          let '(transport', r) := f transport in
          put_state h (InTransport transport') ;;;
          try_ map_transport_error r
      | _ => throw (Code InvalidState)
      end)).
Definition gasoline_noise_rekey_sender := rekey_with rekey_sender.
Definition gasoline_noise_rekey_receiver := rekey_with rekey_receiver.

Definition gasoline_noise_destroy (handle : option nat) : ffi noise_result :=
  guard (
    match handle with
    | None => ret tt
    | Some h =>
        let! live := gets (fun m => bool_decide (is_Some (boxes m !! h))) in
        if live : bool then modify (set_boxes (delete h)) else throw Undefined
    end).

(** ** [NoiseSession] *)

Definition result_name (r : noise_result) : string :=
  match r with
  | NoiseOk => "ok"
  | InvalidArgument => "invalid argument"
  | InvalidState => "invalid state"
  | BufferTooSmall => "buffer too small"
  | Oversized => "oversized input"
  | CryptoError => "cryptographic error"
  | Panic => "contained Rust panic"
  | InternalError => "internal error"
  end.

(** An exception: [result()] and [what()]. *)
Record NoiseError := { result_ : noise_result; what : string }.

Definition error_message (operation : string) (result : noise_result) : string :=
  (operation ++ ": " ++ result_name result)%string.

Definition noise_error (operation : string) (result : noise_result) : NoiseError :=
  {| result_ := result; what := error_message operation result |}.

Inductive Raised : Set :=
| Raise (e : NoiseError)
| Fault.

Abbreviation cpp A := (stx Memory Raised A).

(** A call of the C interface from C++: its code is a value. *)
Definition call {A} (f : ffi A) : cpp A := fun m =>
  match f m with
  | (Ok a, m') => (Ok a, m')
  | (Throw _, m') => (Throw Fault, m')
  end.

Definition check (operation : string) (f : ffi noise_result) : cpp unit :=
  let! result := call f in
  require (Raise (noise_error operation result)) (bool_decide (result = NoiseOk)).

Definition initiator (entropy : nat) (at_prologue : Z) (prologue : list byte) : cpp (option nat) :=
  modify (set_locals (set_out_handle None)) ;;;
  check "create initiator" (gasoline_noise_create_initiator entropy at_prologue prologue) ;;;
  gets (fun m => out_handle (locals m)).

Definition responder (entropy : nat) (at_prologue : Z) (prologue : list byte) : cpp (option nat) :=
  modify (set_locals (set_out_handle None)) ;;;
  check "create responder" (gasoline_noise_create_responder entropy at_prologue prologue) ;;;
  gets (fun m => out_handle (locals m)).

(** [if (handle_ != nullptr) (void)gasoline_noise_destroy(handle_)]. *)
Definition destructor (handle_ : option nat) : cpp unit :=
  match handle_ with
  | Some _ => call (gasoline_noise_destroy handle_) ;;; ret tt
  | None => ret tt
  end.

Definition zeros (n : Z) : list byte := replicate (Z.to_nat n) x00.

(** [std::vector::resize]. *)
Definition resize (n : Z) (l : list byte) : list byte :=
  take (Z.to_nat n) l ++ zeros (n - zlen l).

(** [std::vector<uint8_t> output(n); size_t written = 0]. *)
Definition new_output (n : Z) : cpp unit := modify (set_locals (set_output (zeros n) 0)).
(** [output.resize(written); return output]. *)
Definition take_output : cpp (list byte) :=
  gets (fun m => resize (output_len (locals m)) (output (locals m))).

Definition write_handshake (handle_ : option nat) (p : Placement) (payload : list byte) : cpp (list byte) :=
  require (Raise (noise_error "write handshake" Oversized)) (negb (zlen payload >? MAX_MESSAGE)) ;;;
  new_output MAX_MESSAGE ;;;
  check "write handshake" (gasoline_noise_handshake_write handle_ p payload) ;;;
  take_output.

Definition read_handshake (handle_ : option nat) (p : Placement) (message : list byte) : cpp (list byte) :=
  require (Raise (noise_error "read handshake" Oversized)) (negb (zlen message >? MAX_MESSAGE)) ;;;
  new_output (zlen message) ;;;
  check "read handshake" (gasoline_noise_handshake_read handle_ p message) ;;;
  take_output.

Definition handshake_complete (handle_ : option nat) : cpp bool :=
  modify (set_locals (set_complete 0)) ;;;
  check "check handshake" (gasoline_noise_handshake_is_complete handle_) ;;;
  gets (fun m => negb (complete (locals m) =? 0)).

Definition handshake_hash (handle_ : option nat) (p : Placement) : cpp (list byte) :=
  modify (set_locals (set_output (zeros HASH_SIZE) 0)) ;;;
  check "copy handshake hash" (gasoline_noise_copy_handshake_hash handle_ (at_output p)) ;;;
  gets (fun m => output (locals m)).

Definition enter_transport (handle_ : option nat) : cpp unit :=
  check "enter transport" (gasoline_noise_enter_transport handle_).

Definition encrypt (handle_ : option nat) (p : Placement) (plaintext : list byte) : cpp (list byte) :=
  require (Raise (noise_error "encrypt" Oversized)) (negb (zlen plaintext >? MAX_PLAINTEXT)) ;;;
  new_output (zlen plaintext + TAG_SIZE) ;;;
  check "encrypt" (gasoline_noise_transport_encrypt handle_ p plaintext) ;;;
  take_output.

Definition maximum_plaintext (ciphertext : list byte) : Z :=
  if zlen ciphertext >=? TAG_SIZE then zlen ciphertext - TAG_SIZE else 0.

Definition decrypt (handle_ : option nat) (p : Placement) (ciphertext : list byte) : cpp (list byte) :=
  require (Raise (noise_error "decrypt" Oversized)) (negb (zlen ciphertext >? MAX_MESSAGE)) ;;;
  new_output (maximum_plaintext ciphertext) ;;;
  check "decrypt" (gasoline_noise_transport_decrypt handle_ p ciphertext) ;;;
  take_output.

Definition session_rekey_sender (handle_ : option nat) : cpp unit :=
  check "rekey sender" (gasoline_noise_rekey_sender handle_).
Definition session_rekey_receiver (handle_ : option nat) : cpp unit :=
  check "rekey receiver" (gasoline_noise_rekey_receiver handle_).

(** ** Programs over session objects *)

Inductive Operation : Type :=
| WriteHandshake (payload : list byte)
| ReadHandshake (message : list byte)
| HandshakeComplete
| HandshakeHash
| EnterTransport
| Encrypt (plaintext : list byte)
| Decrypt (ciphertext : list byte)
| RekeySender
| RekeyReceiver.

Inductive Reply : Type :=
| Bytes (l : list byte)
| Flag (b : bool)
| Nothing.

Definition perform (handle_ : option nat) (p : Placement) (op : Operation) : cpp Reply :=
  match op with
  | WriteHandshake l => let! r := write_handshake handle_ p l in ret (Bytes r)
  | ReadHandshake l => let! r := read_handshake handle_ p l in ret (Bytes r)
  | HandshakeComplete => let! b := handshake_complete handle_ in ret (Flag b)
  | HandshakeHash => let! r := handshake_hash handle_ p in ret (Bytes r)
  | EnterTransport => enter_transport handle_ ;;; ret Nothing
  | Encrypt l => let! r := encrypt handle_ p l in ret (Bytes r)
  | Decrypt l => let! r := decrypt handle_ p l in ret (Bytes r)
  | RekeySender => session_rekey_sender handle_ ;;; ret Nothing
  | RekeyReceiver => session_rekey_receiver handle_ ;;; ret Nothing
  end.

(** The members of the live objects, by object. *)
Record Program := { memory : Memory; objects : gmap nat (option nat) }.

Inductive Action : Type :=
| Create (i : nat) (is_initiator : bool) (entropy : nat) (at_prologue : Z) (prologue : list byte)
| MoveConstruct (j i : nat)
| MoveAssign (j i : nat)
| Destruct (i : nat)
| Invoke (i : nat) (p : Placement) (op : Operation).

(** An action on objects that are not there (or a construction in place of one
    that is) cannot be written: it does nothing. *)
Definition act (a : Action) (P : Program) : result Raised Reply * Program :=
  match a with
  | Create i is_initiator entropy at_prologue prologue =>
      match objects P !! i with
      | Some _ => (Ok Nothing, P)
      | None =>
          match (if is_initiator then initiator else responder) entropy at_prologue prologue (memory P) with
          | (Ok h, m) => (Ok Nothing, {| memory := m; objects := <[i := h]> (objects P) |})
          | (Throw e, m) => (Throw e, {| memory := m; objects := objects P |})
          end
      end
  | MoveConstruct j i =>
      match objects P !! j, objects P !! i with
      | None, Some h => (Ok Nothing, {| memory := memory P; objects := <[j := h]> (<[i := None]> (objects P)) |})
      | _, _ => (Ok Nothing, P)
      end
  | MoveAssign j i =>
      match objects P !! j, objects P !! i with
      | Some old, Some h =>
          if bool_decide (j = i) then (Ok Nothing, P)
          else match destructor old (memory P) with
               | (Ok _, m) => (Ok Nothing, {| memory := m; objects := <[j := h]> (<[i := None]> (objects P)) |})
               | (Throw e, m) => (Throw e, {| memory := m; objects := objects P |})
               end
      | _, _ => (Ok Nothing, P)
      end
  | Destruct i =>
      match objects P !! i with
      | Some h =>
          match destructor h (memory P) with
          | (Ok _, m) => (Ok Nothing, {| memory := m; objects := delete i (objects P) |})
          | (Throw e, m) => (Throw e, {| memory := m; objects := objects P |})
          end
      | None => (Ok Nothing, P)
      end
  | Invoke i p op =>
      match objects P !! i with
      | Some h => let '(r, m) := perform h p op (memory P) in (r, {| memory := m; objects := objects P |})
      | None => (Ok Nothing, P)
      end
  end.

Fixpoint acts (l : list Action) (P : Program) : list (result Raised Reply) * Program :=
  match l with
  | [] => ([], P)
  | a :: l =>
      let '(r, P1) := act a P in
      let '(rs, P2) := acts l P1 in
      (r :: rs, P2)
  end.

Definition no_locals : Locals := {| out_handle := None; output := []; output_len := 0; complete := 0 |}.
Definition program_start : Program :=
  {| memory := {| boxes := ∅; next_box := 0; locals := no_locals |}; objects := ∅ |}.

(** ** Ownership *)

(** Every box belongs to exactly one object, and every handle to a box. *)
Record owned (P : Program) : Prop := {
  own_live i h : objects P !! i = Some (Some h) -> is_Some (boxes (memory P) !! h);
  own_unique i j h : objects P !! i = Some (Some h) -> objects P !! j = Some (Some h) -> i = j;
  own_all h : is_Some (boxes (memory P) !! h) -> exists i, objects P !! i = Some (Some h);
  own_fresh h : is_Some (boxes (memory P) !! h) -> (h < next_box (memory P))%nat
}.

(** What a function of the library does to the set of boxes: nothing. *)
Definition same_boxes (m m' : Memory) : Prop :=
  next_box m' = next_box m /\ forall h, is_Some (boxes m' !! h) <-> is_Some (boxes m !! h).

#[local] Instance same_boxes_refl : Reflexive same_boxes.
Proof. by intros m. Qed.
#[local] Instance same_boxes_trans : Transitive same_boxes.
Proof. intros m1 m2 m3 [E1 H1] [E2 H2]. split; [congruence|]. intros h. by rewrite H2, H1. Qed.

(** A body that keeps the boxes and, when the handles [hs] are live, is defined. *)
Definition tame {E A} (bad : E) (live : list nat) (f : stx Memory E A) : Prop :=
  forall m r m', Forall (fun h => is_Some (boxes m !! h)) live -> f m = (r, m') ->
    same_boxes m m' /\ r <> Throw bad.

Lemma tame_bind {E A B} (bad : E) live (f : stx Memory E A) (k : A -> stx Memory E B) :
  tame bad live f -> (forall a, tame bad live (k a)) -> tame bad live (bind f k).
Proof.
  intros Hf Hk m r m' Hl Hrun. apply bind_run in Hrun as [(a & m1 & H1 & H2)|(e & H1 & ->)].
  - destruct (Hf _ _ _ Hl H1) as [Hs _].
    assert (Hl' : Forall (fun h => is_Some (boxes m1 !! h)) live)
      by (eapply Forall_impl; [exact Hl|]; intros; by apply Hs).
    destruct (Hk a _ _ _ Hl' H2) as [Hs2 Hr]. split; [by etrans|done].
  - destruct (Hf _ _ _ Hl H1) as [Hs Hr]. split; [done|]. intros [= ->]. by apply Hr.
Qed.

Lemma tame_ret {E A} (bad : E) live (a : A) : tame bad live (ret a).
Proof. intros m r m' _ [= <- <-]. by split. Qed.
Lemma tame_throw {E A} (bad e : E) live : e <> bad -> tame (A := A) bad live (throw e).
Proof. intros Hne m r m' _ [= <- <-]. split; [done|congruence]. Qed.
Lemma tame_require {E} (bad e : E) live b : e <> bad -> tame bad live (require e b).
Proof. intros. destruct b; [apply tame_ret|by apply tame_throw]. Qed.
Lemma tame_gets {E A} (bad : E) live (f : Memory -> A) : tame bad live (gets f).
Proof. intros m r m' _ [= <- <-]. by split. Qed.
Lemma tame_locals {E} (bad : E) live f : tame bad live (modify (set_locals f)).
Proof. intros m r m' _ [= <- <-]. by split. Qed.

Lemma same_boxes_alter f h m : same_boxes m (set_boxes (alter f h) m).
Proof.
  split; [done|]. intros h'. cbn [boxes set_boxes]. destruct (decide (h = h')) as [->|].
  - rewrite lookup_alter_eq. by rewrite fmap_is_Some.
  - by rewrite lookup_alter_ne.
Qed.

Lemma tame_put live h st : tame Undefined live (put_state h st).
Proof. intros m r m' _ [= <- <-]. split; [apply same_boxes_alter|done]. Qed.

Lemma tame_try {X A} live (f : X -> noise_result) (o : outcome X A) : tame Undefined live (try_ f o).
Proof. destruct o; [apply tame_ret|by apply tame_throw..]. Qed.

Lemma tame_lock {A} h live (body : SessionState -> ffi A) :
  h ∈ live -> (forall st, tame Undefined live (body st)) -> tame Undefined live (with_lock h body).
Proof.
  intros Hin Hb m r m' Hl Hrun. unfold with_lock in Hrun.
  destruct (proj1 (Forall_forall _ _) Hl _ Hin) as [b Hlk]. rewrite Hlk in Hrun.
  destruct (poisoned b); [by injection Hrun as <- <-|].
  destruct (body (hstate b) m) as [r1 m1] eqn:E. destruct (Hb _ _ _ _ Hl E) as [Hs Hr].
  destruct r1 as [a|[]]; injection Hrun as <- <-; split; try done.
  etrans; [exact Hs|]. apply same_boxes_alter.
Qed.

Lemma tame_guard live body : tame Undefined live body -> tame Undefined live (guard body).
Proof.
  intros Hb m r m' Hl Hrun. unfold guard in Hrun. destruct (body m) as [r1 m1] eqn:E.
  destruct (Hb _ _ _ Hl E) as [Hs Hr].
  destruct r1 as [a|[]]; injection Hrun as <- <-; split; done.
Qed.

Lemma tame_call {A} live (f : ffi A) : tame Undefined live f -> (forall m, is_ok (fst (f m)) = true \/ fst (f m) = Throw Undefined) ->
  tame Fault live (call f).
Proof.
  intros Hf Hc m r m' Hl Hrun. unfold call in Hrun. specialize (Hc m).
  destruct (f m) as [r1 m1] eqn:E. destruct (Hf _ _ _ Hl E) as [Hs Hr]. cbn in Hc.
  destruct r1 as [a|e]; injection Hrun as <- <-; split; try done.
  destruct Hc as [[=]|[= ->]]. by destruct Hr.
Qed.

Lemma guard_value body m : is_ok (fst (guard body m)) = true \/ fst (guard body m) = Throw Undefined.
Proof. unfold guard. destruct (body m) as [[?|[]] ?]; cbn; auto. Qed.

Lemma tame_check live op body : tame Undefined live body -> tame Fault live (check op (guard body)).
Proof.
  intros Hb. apply tame_bind; [|intros; by apply tame_require].
  apply tame_call; [by apply tame_guard|intros; apply guard_value].
Qed.

Lemma tame_validate live data len : tame Undefined live (validate_const_buffer data len).
Proof. unfold validate_const_buffer. case_match; [by apply tame_throw|apply tame_ret]. Qed.
Lemma tame_parameter live a : tame Undefined live (validate_output_parameter a).
Proof. unfold validate_output_parameter. case_match; [by apply tame_throw|apply tame_ret]. Qed.
Lemma tame_slice live a l : tame Undefined live (checked_slice a l).
Proof.
  unfold checked_slice. case_match; [apply tame_ret|].
  apply tame_bind; [apply tame_validate|intros; apply tame_ret].
Qed.
Lemma tame_copy live l : tame Undefined live (copy_from_slice l).
Proof. unfold copy_from_slice. case_match; [apply tame_locals|by apply tame_throw]. Qed.

(** One step of a body: its primitive, its first part, or its case. *)
Ltac tame_step :=
  first
    [ apply tame_ret | by apply tame_throw | by apply tame_require | apply tame_gets
    | apply tame_locals | apply tame_put | apply tame_try | apply tame_validate
    | apply tame_parameter | apply tame_slice | apply tame_copy
    | apply tame_lock; [set_solver|intros []]
    | apply tame_check | apply tame_bind; [|intros ?]
    | match goal with |- tame _ _ (match ?x with _ => _ end) => destruct x end ].

(** Every method leaves the boxes allocated, and is defined on a live handle and
    on no handle. *)
Lemma perform_tame handle_ p op : tame Fault (option_list handle_) (perform handle_ p op).
Proof.
  destruct op; cbn [perform];
    unfold write_handshake, read_handshake, handshake_complete, handshake_hash, enter_transport,
      encrypt, decrypt, session_rekey_sender, session_rekey_receiver, new_output, take_output,
      gasoline_noise_rekey_sender, gasoline_noise_rekey_receiver, rekey_with, write_len,
      gasoline_noise_handshake_write, gasoline_noise_handshake_read,
      gasoline_noise_handshake_is_complete, gasoline_noise_copy_handshake_hash,
      gasoline_noise_enter_transport, gasoline_noise_transport_encrypt,
      gasoline_noise_transport_decrypt, handle_ref;
    destruct handle_; cbn [option_list]; repeat tame_step.
Qed.

(** The destructor frees the box of its handle. *)
Lemma destructor_frees handle_ m :
  (forall h, handle_ = Some h -> is_Some (boxes m !! h)) ->
  exists m', destructor handle_ m = (Ok tt, m') /\ next_box m' = next_box m /\
    boxes m' = (match handle_ with Some h => delete h (boxes m) | None => boxes m end).
Proof.
  intros Hl. destruct handle_ as [h|]; [|by exists m]. exists (set_boxes (delete h) m).
  split; [|done]. unfold destructor, call, gasoline_noise_destroy, guard, bind, gets, ret.
  rewrite bool_decide_eq_true_2 by eauto. reflexivity.
Qed.

(** Construction: a box of its own, or nothing. *)
Definition constructs (m m' : Memory) (r : result Raised (option nat)) : Prop :=
  match r with
  | Ok h => h = Some (next_box m) /\ next_box m' = S (next_box m) /\
            exists hs, boxes m' = <[next_box m := {| hstate := InHandshake hs; poisoned := false |}]> (boxes m)
  | Throw e => e <> Fault /\ boxes m' = boxes m /\ next_box m' = next_box m
  end.

Lemma check_create entropy a prologue role op m r m' :
  bind (check op (guard (create entropy a prologue role)))
       (fun _ => gets (fun m => out_handle (locals m))) m = (r, m') ->
  constructs m m' r.
Proof.
  intros Hrun. unfold bind, check, call, guard in Hrun. unfold create, bind at 1, modify in Hrun.
  set (m0 := set_locals (set_out_handle None) m) in *.
  unfold require, checked_slice, validate_const_buffer, try_, throw, ret, bind, box_new, gets in Hrun.
  repeat (case_match; simplify_eq/=; try (repeat split; try done; eauto; fail));
    bool_inv; by destruct e.
Qed.

Lemma create_constructs (is_initiator : bool) entropy a prologue m r m' :
  (if is_initiator then initiator else responder) entropy a prologue m = (r, m') ->
  constructs m m' r.
Proof.
  intros Hrun. assert (constructs (set_locals (set_out_handle None) m) m' r); [|done].
  destruct is_initiator; unfold initiator, responder in Hrun; unfold bind at 1, modify in Hrun;
    by eapply check_create.
Qed.

(** An object with a box of its own. *)
Lemma owned_add P i h m' b :
  owned P -> objects P !! i = None -> h = next_box (memory P) ->
  next_box m' = S (next_box (memory P)) -> boxes m' = <[h := b]> (boxes (memory P)) ->
  owned {| memory := m'; objects := <[i := Some h]> (objects P) |}.
Proof.
  intros [H1 H2 H3 H4] Hi -> Hn Hb.
  assert (Hnew : forall j, objects P !! j <> Some (Some (next_box (memory P)))).
  { intros j Hj. apply H1, H4 in Hj. lia. }
  split; cbn [memory objects]; intros *; rewrite ?Hb, ?Hn.
  - rewrite !lookup_insert. case_decide; [|intros ?%H1; case_decide; eauto].
    intros [= <-]. case_decide; eauto; done.
  - rewrite !lookup_insert. do 2 case_decide; subst; try done; eauto; intros; simplify_eq/=; by edestruct Hnew.
  - rewrite lookup_insert. case_decide as E; [subst; exists i; by rewrite lookup_insert_eq|].
    intros [j Hj]%H3. exists j. rewrite lookup_insert_ne; [done|]. by intros ->; rewrite Hi in Hj.
  - rewrite lookup_insert. case_decide; [lia|]. intros ?%H4. lia.
Qed.

(** Moving a handle, its source left empty. *)
Lemma owned_move P j i h :
  owned P -> objects P !! i = Some h -> i <> j -> (forall g, objects P !! j <> Some (Some g)) ->
  owned {| memory := memory P; objects := <[j := h]> (<[i := None]> (objects P)) |}.
Proof.
  intros [H1 H2 H3 H4] Hi Hne Hj.
  split; cbn [memory objects]; intros *; try exact (H4 _).
  - rewrite !lookup_insert. case_decide; [intros [= ->]; eauto|]. case_decide; [done|eauto].
  - rewrite !lookup_insert. repeat case_decide; subst; try done; eauto; intros; simplify_eq; eauto;
      exfalso; eauto.
  - intros [k Hk]%H3. destruct (decide (k = i)) as [->|Hki].
    + exists j. rewrite lookup_insert_eq. congruence.
    + exists k. rewrite !lookup_insert_ne; try done. intros ->. by destruct (Hj h0).
Qed.

(** Emptying an object and freeing its box. *)
Lemma owned_free P i h m' :
  owned P -> objects P !! i = Some h -> next_box m' = next_box (memory P) ->
  boxes m' = (match h with Some g => delete g (boxes (memory P)) | None => boxes (memory P) end) ->
  owned {| memory := m'; objects := <[i := None]> (objects P) |}.
Proof.
  intros [H1 H2 H3 H4] Hi Hn Hb. split; cbn [memory objects]; intros *; rewrite ?Hn, ?Hb.
  - rewrite lookup_insert. case_decide; [done|]. intros Hj. destruct h as [g|]; [|eauto].
    rewrite lookup_delete_ne; [eauto|]. intros ->. eauto.
  - rewrite !lookup_insert. repeat case_decide; try done. eauto.
  - intros Hg. assert (Hg' : is_Some (boxes (memory P) !! h0) /\ h <> Some h0).
    { destruct h as [g|]; [|done]. rewrite lookup_delete_is_Some in Hg. destruct Hg. split; congruence. }
    destruct Hg' as [Hg' Hne]. apply H3 in Hg' as [k Hk]. exists k. rewrite lookup_insert_ne; [done|].
    intros ->. congruence.
  - intros Hg. apply H4. destruct h as [g|]; [|done]. rewrite lookup_delete_is_Some in Hg. by destruct Hg.
Qed.

(** An empty object's end changes nothing. *)
Lemma owned_forget P i m :
  owned {| memory := m; objects := <[i := None]> (objects P) |} ->
  owned {| memory := m; objects := delete i (objects P) |}.
Proof.
  intros [H1 H2 H3 H4]. split; cbn [memory objects] in *; intros *; try exact (H4 _).
  - rewrite lookup_delete. case_decide; [done|]. intros Hj. apply (H1 i0). by rewrite lookup_insert_ne.
  - rewrite !lookup_delete. repeat case_decide; try done. intros Ha Hb. apply (H2 _ _ h); by rewrite lookup_insert_ne.
  - intros [k Hk]%H3. exists k. rewrite lookup_insert in Hk. rewrite lookup_delete. by case_decide.
Qed.

(** Methods keep what is owned. *)
Lemma owned_same P m' : owned P -> same_boxes (memory P) m' -> owned {| memory := m'; objects := objects P |}.
Proof.
  intros [H1 H2 H3 H4] [Hn Hs]. split; cbn [memory objects]; intros *; rewrite ?Hn, ?Hs; eauto.
Qed.

Lemma act_owned a P r P' : owned P -> act a P = (r, P') -> owned P' /\ r <> Throw Fault.
Proof.
  intros HP Hrun. destruct a as [i role e at_ pr|j i|j i|i|i p op]; cbn [act] in Hrun.
  - destruct (objects P !! i) eqn:Hi; [by injection Hrun as <- <-|].
    destruct ((if role then initiator else responder) e at_ pr (memory P)) as [[h|x] m] eqn:E;
      apply create_constructs in E; injection Hrun as <- <-.
    + destruct E as (-> & Hn & hs & Hb). split; [|done]. by eapply owned_add.
    + destruct E as (Hx & Hb & Hn). split; [|congruence]. apply owned_same; [done|].
      split; [done|]. intros. by rewrite Hb.
  - destruct (objects P !! j) eqn:Hj; [by injection Hrun as <- <-|].
    destruct (objects P !! i) as [h|] eqn:Hi; injection Hrun as <- <-; [|done].
    split; [|done]. apply owned_move; try done; congruence.
  - destruct (objects P !! j) as [old|] eqn:Hj; [|by injection Hrun as <- <-].
    destruct (objects P !! i) as [h|] eqn:Hi; [|by injection Hrun as <- <-].
    case_bool_decide as Hji; [by injection Hrun as <- <-|].
    destruct (destructor_frees old (memory P)) as (m & Hd & Hn & Hb).
    { intros g ->. by eapply own_live. }
    rewrite Hd in Hrun. injection Hrun as <- <-. split; [|done].
    pose proof (owned_free _ _ _ _ HP Hj Hn Hb) as HQ.
    eapply (owned_move _ j i h) in HQ; [|cbn [objects]..].
    + cbn [memory objects] in HQ. by rewrite insert_insert_ne, insert_insert_eq, insert_insert_ne in HQ by done.
    + by rewrite lookup_insert_ne.
    + done.
    + intros g. by rewrite lookup_insert_eq.
  - destruct (objects P !! i) as [h|] eqn:Hi; [|by injection Hrun as <- <-].
    destruct (destructor_frees h (memory P)) as (m & Hd & Hn & Hb).
    { intros g ->. by eapply own_live. }
    rewrite Hd in Hrun. injection Hrun as <- <-. split; [|done].
    apply owned_forget. by eapply owned_free.
  - destruct (objects P !! i) as [h|] eqn:Hi; [|by injection Hrun as <- <-].
    destruct (perform h p op (memory P)) as [r1 m] eqn:E. injection Hrun as <- <-.
    eapply perform_tame in E as [Hs Hr]; [by split; [apply owned_same|]|].
    destruct h as [g|]; cbn; [|done]. apply Forall_singleton. by eapply own_live.
Qed.

Lemma owned_start : owned program_start.
Proof. split; cbn; intros *; rewrite ?lookup_empty; try done; by intros [? ?]. Qed.

Lemma acts_owned l P rs P' :
  owned P -> acts l P = (rs, P') -> owned P' /\ Forall (fun r => r <> Throw Fault) rs.
Proof.
  revert P rs. induction l as [|a l IH]; intros P rs HP; cbn [acts].
  - intros [= <- <-]. by split.
  - destruct (act a P) as [r P1] eqn:E. destruct (acts l P1) as [rs1 P2] eqn:E2.
    intros [= <- <-]. apply act_owned in E as [HP1 Hr]; [|done].
    destruct (IH _ _ HP1 E2) as [HP2 Hrs]. split; [done|by constructor].
Qed.

(** C22. Whatever a program does with [NoiseSession] objects (construct them, move
    them, assign them, destroy them, call any method with any buffers), no handle
    is used or freed when it is not allocated; every allocated handle belongs to
    exactly one object, and when the last object is gone nothing is leaked. *)
Theorem noise_memory_safe l rs P :
  acts l program_start = (rs, P) ->
  Forall (fun r => r <> Throw Fault) rs /\
  (forall h, is_Some (boxes (memory P) !! h) <-> exists i, objects P !! i = Some (Some h)) /\
  (forall i j h, objects P !! i = Some (Some h) -> objects P !! j = Some (Some h) -> i = j) /\
  (objects P = ∅ -> boxes (memory P) = ∅).
Proof.
  intros Hrun. destruct (acts_owned _ _ _ _ owned_start Hrun) as [HP Hrs].
  assert (Hiff : forall h, is_Some (boxes (memory P) !! h) <-> exists i, objects P !! i = Some (Some h)).
  { intros h. split; [apply own_all, HP|intros [i Hi]; by eapply own_live]. }
  split; [done|]. split; [exact Hiff|]. split; [apply own_unique, HP|].
  intros Hempty. apply map_empty. intros h. apply eq_None_not_Some. intros Hh.
  apply Hiff in Hh as [i Hi]. by rewrite Hempty, lookup_empty in Hi.
Qed.
End noise.
