(* ===== verification/NoiseContract.v ===== *)
(** * The Noise session: its meaning

    A specification of [NoiseSession] without handles, boxes and buffers
    ([ideal_acts]), the proof that the code of [Noise.v] implements it, and what
    follows: a session that failed stays failed, and two sessions that completed a
    handshake understand each other.  The module [NoiseScenario] has an instance of
    the handshake library and concrete runs. *)

From S2P Require Import Prelude Noise.
From Stdlib Require Import Lia.

Section noise.
Context {lib : Clatter}.

Abbreviation ffi A := (stx Memory Stop A).
Abbreviation cpp A := (stx Memory Raised A).

(** ** What the methods mean *)

(** The wrapper without its buffers: a session is a handshake, then a transport,
    or has failed; a method is a call of the crate between two guards on sizes. *)
Definition settle {E A} (f : E -> noise_result) (k : A -> Reply) (r : outcome E A) : outcome noise_result Reply :=
  match r with
  | Done a => Done (k a)
  | Fails e => Fails (f e)
  | Panics => Panics
  end.

Definition written_bytes (bn : list byte * Z) : Reply := Bytes (take (Z.to_nat (snd bn)) (fst bn)).

Definition ideal (op : Operation) (st : SessionState) : SessionState * outcome noise_result Reply :=
  match op, st with
  | WriteHandshake l, InHandshake hs =>
      match get_next_message_overhead hs with
      | Done o =>
          if zlen l + o >? MAX_MESSAGE then (st, Fails Oversized)
          else let '(hs', r) := write_message hs l (zeros MAX_MESSAGE) in
               (InHandshake hs', settle map_handshake_error written_bytes r)
      | Fails e => (st, Fails (map_handshake_error e))
      | Panics => (st, Panics)
      end
  | ReadHandshake l, InHandshake hs =>
      match get_next_message_overhead hs with
      | Done o =>
          if zlen l <? o then (st, Fails CryptoError)
          else let '(hs', r) := read_message hs l (zeros (zlen l)) in
               (InHandshake hs', settle map_handshake_error written_bytes r)
      | Fails e => (st, Fails (map_handshake_error e))
      | Panics => (st, Panics)
      end
  | HandshakeComplete, InHandshake hs => (st, Done (Flag (is_finished hs)))
  | HandshakeComplete, InTransport t => (st, Done (Flag true))
  | HandshakeHash, InHandshake hs =>
      (st, if is_finished hs then Done (Bytes (get_hash hs)) else Fails InvalidState)
  | HandshakeHash, InTransport t => (st, Done (Bytes (get_handshake_hash t)))
  | EnterTransport, InHandshake hs =>
      if is_finished hs then
        match finalize hs with
        | Done t => (InTransport t, Done Nothing)
        | Fails e => (Failed, Fails (map_handshake_error e))
        | Panics => (Failed, Panics)
        end
      else (st, Fails InvalidState)
  | Encrypt l, InTransport t =>
      let '(t', r) := send t l (zeros (zlen l + TAG_SIZE)) in
      (InTransport t', settle map_transport_error written_bytes r)
  | Decrypt l, InTransport t =>
      let '(t', r) := receive t l (zeros (zlen l - TAG_SIZE)) in
      (match r with Fails _ => Failed | _ => InTransport t' end,
       settle map_transport_error written_bytes r)
  | RekeySender, InTransport t =>
      let '(t', r) := rekey_sender t in
      (InTransport t', settle map_transport_error (fun _ => Nothing) r)
  | RekeyReceiver, InTransport t =>
      let '(t', r) := rekey_receiver t in
      (InTransport t', settle map_transport_error (fun _ => Nothing) r)
  | _, _ => (st, Fails InvalidState)
  end.

(** Inputs refused whatever the state. *)
Definition refused (op : Operation) : option noise_result :=
  match op with
  | WriteHandshake l | ReadHandshake l => if zlen l >? MAX_MESSAGE then Some Oversized else None
  | Encrypt l => if zlen l >? MAX_PLAINTEXT then Some Oversized else None
  | Decrypt l => if zlen l >? MAX_MESSAGE then Some Oversized
                 else if zlen l <? TAG_SIZE then Some InvalidArgument else None
  | _ => None
  end.

Definition panicked {E A} (r : outcome E A) : bool := match r with Panics => true | _ => false end.

(** A moved-from session is [None]; a panic poisons the session. *)
Definition ideal_session (op : Operation) (s : option NoiseHandle) : option NoiseHandle * outcome noise_result Reply :=
  match refused op with
  | Some c => (s, Fails c)
  | None =>
      match s with
      | None => (s, Fails InvalidArgument)
      | Some b =>
          if poisoned b then (s, Fails InternalError)
          else let '(st, r) := ideal op (hstate b) in
               (Some {| hstate := st; poisoned := panicked r |}, r)
      end
  end.

Definition operation_name (op : Operation) : string :=
  match op with
  | WriteHandshake _ => "write handshake" | ReadHandshake _ => "read handshake"
  | HandshakeComplete => "check handshake" | HandshakeHash => "copy handshake hash"
  | EnterTransport => "enter transport" | Encrypt _ => "encrypt" | Decrypt _ => "decrypt"
  | RekeySender => "rekey sender" | RekeyReceiver => "rekey receiver"
  end.

Definition raised (op : Operation) (r : outcome noise_result Reply) : result Raised Reply :=
  match r with
  | Done x => Ok x
  | Fails c => Throw (Raise (noise_error (operation_name op) c))
  | Panics => Throw (Raise (noise_error (operation_name op) Panic))
  end.

(** *** Where buffers are *)

(** A region the allocator gave: not null, not around the end of the address space. *)
Definition region (a n : Z) : bool := (n =? 0) || (negb (a =? 0) && (a + n <? 2 ^ 64)).
Definition disjoint_regions (a n b k : Z) : bool :=
  (n =? 0) || (k =? 0) || (a + n <=? b) || (b + k <=? a).

Definition input_size (op : Operation) : Z :=
  match op with
  | WriteHandshake l | ReadHandshake l | Encrypt l | Decrypt l => zlen l
  | _ => 0
  end.
Definition output_size (op : Operation) : Z :=
  match op with
  | WriteHandshake _ => MAX_MESSAGE
  | ReadHandshake l => zlen l
  | HandshakeHash => HASH_SIZE
  | Encrypt l => zlen l + TAG_SIZE
  | Decrypt l => maximum_plaintext l
  | _ => 0
  end.

(** The caller's input, the vector the method allocates and its local [written]
    are three objects. *)
Definition well_placed (p : Placement) (op : Operation) : bool :=
  region (at_input p) (input_size op) && region (at_output p) (output_size op)
  && region (at_len p) 8 && (at_len p `mod` 8 =? 0)
  && disjoint_regions (at_input p) (input_size op) (at_output p) (output_size op)
  && disjoint_regions (at_input p) (input_size op) (at_len p) 8
  && disjoint_regions (at_output p) (output_size op) (at_len p) 8.

Lemma region_wraps a n : region a n = true -> negb (n =? 0) && ((a =? 0) || wraps a n) = false.
Proof.
  unfold region, wraps, checked_add. destruct (n =? 0); [done|].
  intros [H1%negb_true_iff H2]%andb_prop. by rewrite H1, H2.
Qed.

Lemma validate_const_placed a n m : region a n = true -> validate_const_buffer a n m = (Ok tt, m).
Proof. intros H. unfold validate_const_buffer. by rewrite region_wraps. Qed.
Lemma validate_mut_placed a n m : region a n = true -> validate_mut_buffer a n m = (Ok tt, m).
Proof. apply validate_const_placed. Qed.
Lemma slice_placed a l m : region a (zlen l) = true -> checked_slice a l m = (Ok l, m).
Proof.
  intros H. unfold checked_slice. destruct (Z.eqb_spec (zlen l) 0).
  - by destruct l.
  - unfold bind. by rewrite validate_const_placed.
Qed.
Lemma parameter_placed a m :
  region a 8 = true -> a `mod` 8 = 0 -> validate_output_parameter a m = (Ok tt, m).
Proof.
  intros H Ha. pose proof (region_wraps _ _ H) as Hw. cbn in Hw. apply orb_false_iff in Hw as [H1 H2].
  unfold validate_output_parameter. by rewrite H1, H2, Ha.
Qed.
Lemma overlap_placed a n b k :
  region a n = true -> region b k = true -> disjoint_regions a n b k = true -> ranges_overlap a n b k = false.
Proof.
  unfold region, disjoint_regions, ranges_overlap, checked_add.
  destruct (n =? 0), (k =? 0); try done. cbn [orb].
  intros [_ ->]%andb_prop [_ ->]%andb_prop Hd. apply andb_false_iff. rewrite !Z.ltb_ge.
  apply orb_prop in Hd as [Hd|Hd]; bool_inv; lia.
Qed.

(** *** The methods do what they mean *)

Lemma bind_value {S E A B} (f : stx S E A) (k : A -> stx S E B) s a s' :
  f s = (Ok a, s') -> bind f k s = k a s'.
Proof. unfold bind. by intros ->. Qed.

Lemma length_zeros n : 0 <= n -> zlen (zeros n) = n.
Proof. intros. unfold zeros. rewrite length_replicate. lia. Qed.

Lemma resize_take n l : 0 <= n <= zlen l -> resize n l = take (Z.to_nat n) l.
Proof.
  intros H. unfold resize, zeros. replace (Z.to_nat (n - zlen l)) with 0%nat by lia. apply app_nil_r.
Qed.

(** How the locked part of a function ends. *)
Definition stops {A} (r : outcome noise_result A) : result Stop unit :=
  match r with
  | Done _ => Ok tt
  | Fails c => Throw (Code c)
  | Panics => Throw Panicking
  end.

(** The locked part of a function on an allocated box: the box becomes the one
    meant, and a reply that is made can be read from the locals. *)
Record locked (m : Memory) (h : nat) (st' : SessionState) (r : outcome noise_result Reply)
    (read : Memory -> Reply) (x : result Stop unit * Memory) : Prop := {
  locked_stop : fst x = stops r;
  locked_code : r <> Fails NoiseOk;
  locked_box : boxes (snd x) = <[h := {| hstate := st'; poisoned := false |}]> (boxes m);
  locked_reply a : r = Done a -> read (snd x) = a
}.

Lemma alter_box (bs : gmap nat NoiseHandle) h b f : bs !! h = Some b -> alter f h bs = <[h := f b]> bs.
Proof.
  intros Hb. apply map_eq. intros k. rewrite lookup_insert. case_decide; subst.
  - by rewrite lookup_alter_eq, Hb.
  - by rewrite lookup_alter_ne.
Qed.

Lemma check_with_lock op h body m b :
  boxes m !! h = Some b ->
  check op (guard (with_lock h body)) m =
  if poisoned b then (Throw (Raise (noise_error op InternalError)), m)
  else match body (hstate b) m with
       | (Ok _, m') => (Ok tt, m')
       | (Throw (Code c), m') =>
           (if bool_decide (c = NoiseOk) then Ok tt else Throw (Raise (noise_error op c)), m')
       | (Throw Panicking, m') => (Throw (Raise (noise_error op Panic)), poison h m')
       | (Throw Undefined, m') => (Throw Fault, m')
       end.
Proof.
  intros Hb. unfold check, call, bind, guard, with_lock. rewrite Hb.
  destruct (poisoned b); [done|]. destruct (body (hstate b) m) as [[a|[c| |]] m']; try done.
  unfold require. by case_bool_decide.
Qed.

(** A method answers and leaves the box as meant. *)
Definition meets (handle_ : option nat) (op : Operation) (m : Memory) (x : result Raised Reply * Memory) : Prop :=
  let s := ideal_session op (handle_ ≫= fun h => boxes m !! h) in
  fst x = raised op (snd s) /\
  boxes (snd x) = match handle_, fst s with
                  | Some h, Some b => <[h := b]> (boxes m)
                  | _, _ => boxes m
                  end.

(** A method after its guards: [refused] and the buffers are dealt with, what
    remains is the handle and the lock. *)
Lemma locked_method handle_ body (op : Operation) m m0 read :
  (forall h, handle_ = Some h -> is_Some (boxes m !! h)) -> boxes m0 = boxes m ->
  refused op = None ->
  (forall h b, handle_ = Some h -> boxes m !! h = Some b -> poisoned b = false ->
     locked m h (fst (ideal op (hstate b))) (snd (ideal op (hstate b))) read (body h (hstate b) m0)) ->
  meets handle_ op m
    (bind (check (operation_name op) (guard (let! h := handle_ref handle_ in with_lock h (body h))))
          (fun _ => gets read) m0).
Proof.
  intros Hlive Hm0 Href Hbody. unfold meets. unfold ideal_session. rewrite Href.
  destruct handle_ as [h|]; [|by split].
  destruct (Hlive h eq_refl) as [b Hb]. cbn [mbind option_bind]. rewrite Hb.
  change (let! h' := handle_ref (Some h) in with_lock h' (body h')) with (with_lock h (body h)).
  unfold bind at 1 2. rewrite (check_with_lock _ _ _ _ b) by congruence.
  destruct (poisoned b) eqn:Hp.
  - split; [done|]. cbn [fst snd]. rewrite Hm0. by rewrite insert_id.
  - destruct (Hbody h b eq_refl Hb Hp) as [H1 Hc H2 H3].
    destruct (body h (hstate b) m0) as [x m1], (ideal op (hstate b)) as [st' r]; cbn [fst snd] in *.
    subst x. destruct r as [a|c|]; cbn [stops raised panicked].
    + split; [|exact H2]. cbn [fst gets]. by rewrite (H3 a).
    + rewrite bool_decide_eq_false_2 by congruence. by split.
    + split; [done|]. cbn [snd poison set_boxes boxes]. rewrite H2. by rewrite alter_insert_eq.
Qed.

(** A refused input. *)
Lemma refused_method handle_ op m c :
  refused op = Some c -> (forall h, handle_ = Some h -> is_Some (boxes m !! h)) ->
  forall m', boxes m' = boxes m -> meets handle_ op m (Throw (Raise (noise_error (operation_name op) c)), m').
Proof.
  intros Href Hlive m' Hm. unfold meets, ideal_session. rewrite Href. split; [done|]. cbn [fst snd].
  rewrite Hm. destruct handle_ as [h|]; [|done]. cbn. destruct (boxes m !! h) eqn:E; [|done].
  by rewrite insert_id.
Qed.

Lemma check_body op body body' m m' :
  body m = body' m' -> check op (guard body) m = check op (guard body') m'.
Proof. intros H. unfold check, call, bind, guard. by rewrite H. Qed.

Lemma checked_then_read op body body' (read : Memory -> Reply) m m' (k : cpp Reply) :
  body m = body' m' -> (forall m, k m = (Ok (read m), m)) ->
  bind (check op (guard body)) (fun _ => k) m = bind (check op (guard body')) (fun _ => gets read) m'.
Proof.
  intros H Hk. unfold bind at 1 2. rewrite (check_body _ _ _ _ _ H).
  destruct (check op (guard body') m') as [[[]|e] m1]; [by rewrite Hk|done].
Qed.

Section laws.
Context {laws : ClatterLaws lib}.

(** The bytes a method returns. *)
Definition read_bytes (m : Memory) : Reply := Bytes (resize (output_len (locals m)) (output (locals m))).

Lemma locked_throw m h b m0 (st : SessionState) c read :
  boxes m !! h = Some b -> poisoned b = false -> hstate b = st -> boxes m0 = boxes m -> c <> NoiseOk ->
  locked m h st (Fails c) read (Throw (Code c), m0).
Proof.
  intros Hb Hp <- Hm Hc. split; cbn [fst snd stops]; [done|congruence| |done].
  rewrite Hm. symmetry. apply insert_id. rewrite Hb. by destruct b; cbn in *; subst.
Qed.

Lemma locked_panic m h b m0 (st : SessionState) read :
  boxes m !! h = Some b -> poisoned b = false -> hstate b = st -> boxes m0 = boxes m ->
  locked m h st Panics read (Throw Panicking, m0).
Proof.
  intros Hb Hp <- Hm. split; cbn [fst snd stops]; [done|congruence| |done].
  rewrite Hm. symmetry. apply insert_id. rewrite Hb. by destruct b; cbn in *; subst.
Qed.

(** The common end of the four functions that fill the output. *)
Lemma locked_output {X} (f : X -> noise_result) m h b m0 st' (r : outcome X (list byte * Z)) n :
  boxes m !! h = Some b -> poisoned b = false -> boxes m0 = boxes m -> (forall e, f e <> NoiseOk) ->
  (forall out w, r = Done (out, w) -> zlen out = n /\ 0 <= w <= n) ->
  locked m h st' (settle f written_bytes r) read_bytes
    ((put_state h st' ;;;
      let! '(out', written) := try_ f r in modify (set_locals (set_output out' written))) m0).
Proof.
  intros Hb Hp Hm Hf Hfit.
  assert (Hbox : alter (fun b => {| hstate := st'; poisoned := poisoned b |}) h (boxes m0)
                 = <[h := {| hstate := st'; poisoned := false |}]> (boxes m)).
  { rewrite Hm, (alter_box _ _ b) by done. by rewrite Hp. }
  destruct r as [[out w]|e|]; (split; [done|cbn; congruence|exact Hbox|]); intros a [= <-].
  destruct (Hfit _ _ eq_refl). unfold read_bytes, written_bytes.
  cbn. by rewrite resize_take by lia.
Qed.
(** Steps through guards that hold. *)
Ltac placed :=
  match goal with
  | H : well_placed _ _ = true |- _ =>
      unfold well_placed in H; cbn [input_size output_size] in H; bool_inv;
      repeat match goal with
             | R1 : region ?a ?n = true, R2 : region ?b ?k = true,
               D : disjoint_regions ?a ?n ?b ?k = true |- _ =>
                 pose proof (overlap_placed _ _ _ _ R1 R2 D); clear D
             end
  end.

(** The frame of a method that sets up a local variable, calls the library and
    reads the variable back. *)
Lemma framed_method {X} handle_ op (pre : Memory -> Memory) (g : Memory -> X) (k : X -> Reply) fbody body m m0 :
  (forall h, handle_ = Some h -> is_Some (boxes m !! h)) -> boxes m0 = boxes m -> refused op = None ->
  fbody (pre m) = (let! h := handle_ref handle_ in with_lock h (body h)) m0 ->
  (forall h b, handle_ = Some h -> boxes m !! h = Some b -> poisoned b = false ->
     locked m h (fst (ideal op (hstate b))) (snd (ideal op (hstate b))) (fun m => k (g m))
       (body h (hstate b) m0)) ->
  meets handle_ op m
    ((let! r := (modify pre ;;; check (operation_name op) (guard fbody) ;;; gets g) in ret (k r)) m).
Proof.
  intros Hlive Hm0 Href Hbody Hl.
  pose proof (locked_method handle_ body op m m0 (fun m => k (g m)) Hlive Hm0 Href Hl) as Hm.
  erewrite <-(checked_then_read _ _ _ _ _ _ (gets (fun m => k (g m)))) in Hm; [|exact Hbody|done].
  unfold modify. unfold bind in Hm |- *.
  destruct (check _ _ _) as [[[]|x] m1]; exact Hm.
Qed.

(** The frame of the four methods with an output vector: the function is called
    with the new vector, and its guards hold. *)
Lemma buffered_method handle_ op e g n fbody body m :
  (forall h, handle_ = Some h -> is_Some (boxes m !! h)) ->
  refused op = None -> g = true ->
  fbody (set_locals (set_output (zeros n) 0) m)
  = (let! h := handle_ref handle_ in with_lock h (body h)) (set_locals (set_output (zeros n) 0) m) ->
  (forall h b, handle_ = Some h -> boxes m !! h = Some b -> poisoned b = false ->
     locked m h (fst (ideal op (hstate b))) (snd (ideal op (hstate b))) read_bytes
       (body h (hstate b) (set_locals (set_output (zeros n) 0) m))) ->
  meets handle_ op m
    ((let! r := (require e g ;;; new_output n ;;; check (operation_name op) (guard fbody) ;;; take_output)
      in ret (Bytes r)) m).
Proof.
  intros Hlive Href -> Hbody Hl.
  exact (framed_method _ _ (set_locals (set_output (zeros n) 0)) _ Bytes fbody body m
           (set_locals (set_output (zeros n) 0) m) Hlive eq_refl Href Hbody Hl).
Qed.

Lemma slices_placed {A} a a' l n m (k : list byte -> list byte -> ffi A) :
  region a (zlen l) = true -> region a' n = true -> 0 <= n -> output (locals m) = zeros n ->
  (let! x := checked_slice a l in let! b := gets (fun m => output (locals m)) in
   let! out := checked_slice a' b in k x out) m = k l (zeros n) m.
Proof.
  intros H1 H2 Hn Hm. rewrite (bind_value _ _ _ _ _ (slice_placed _ _ _ H1)), bind_gets, Hm.
  by rewrite (bind_value _ _ _ _ _ (slice_placed a' (zeros n) _ ltac:(by rewrite length_zeros))).
Qed.

Lemma region_nonnull a n : region a n = true -> n <> 0 -> a =? 0 = false.
Proof.
  unfold region. intros H Hn. rewrite (proj2 (Z.eqb_neq n 0) Hn) in H. cbn [orb] in H.
  by apply andb_prop in H as [?%negb_true_iff _].
Qed.

Lemma write_handshake_meets handle_ p l m :
  (forall h, handle_ = Some h -> is_Some (boxes m !! h)) ->
  well_placed p (WriteHandshake l) = true ->
  meets handle_ (WriteHandshake l) m (perform handle_ p (WriteHandshake l) m).
Proof.
  intros Hlive Hp. cbn [perform]. unfold write_handshake.
  destruct (zlen l >? MAX_MESSAGE) eqn:Hbig.
  { cbn [negb require bind throw]. apply refused_method; [|done..]. cbn [refused]. by rewrite Hbig. }
  placed. eapply (buffered_method _ (WriteHandshake l)); [done|cbn [refused]; by rewrite Hbig|done| |].
  - rewrite bind_gets. cbn [set_locals set_output locals output]. rewrite length_zeros by done.
    rewrite (bind_value _ _ _ _ _ (parameter_placed _ _ H4 H3)).
    rewrite (bind_value _ _ _ _ _ (validate_const_placed _ _ _ H)).
    rewrite (bind_value _ _ _ _ _ (validate_mut_placed _ _ _ H5)).
    unfold three_overlap. rewrite H0, H1, H6, Hbig. cbn [orb negb require].
    reflexivity.
  - intros h b _ Hb Hok. cbn beta. set (m0 := set_locals _ m).
    destruct (hstate b) as [hs|t|] eqn:Hst; cbn [ideal fst snd]; try by eapply locked_throw.
    destruct (get_next_message_overhead hs) as [o|e|] eqn:Ho; cbn [try_]; unfold bind at 1;
      cbn [ret throw]; [|eapply locked_throw; eauto; by destruct e|by eapply locked_panic].
    apply overhead_nonneg in Ho. unfold checked_add.
    destruct (Z.ltb_spec (zlen l + o) (2 ^ 64)) as [Hlt|Hge]; unfold bind at 1; cbn [ret throw];
      destruct (zlen l + o >? MAX_MESSAGE) eqn:Hov; cbn [negb require];
      try (by eapply locked_throw); [|rewrite Z.gtb_ltb in Hov; apply Z.ltb_ge in Hov; unfold MAX_MESSAGE in *; lia].
    rewrite Z.gtb_ltb in Hov. rewrite Hov. cbn [negb require].
    do 2 (unfold bind at 1; cbn [ret]).
    rewrite (slices_placed _ _ l MAX_MESSAGE) by done.
    destruct (write_message hs l (zeros MAX_MESSAGE)) as [hs' r] eqn:Hw. cbn [fst snd].
    eapply (locked_output _ _ _ b _ _ _ MAX_MESSAGE); eauto; [by intros []|].
    intros out w ->. apply write_fits in Hw. pose proof (length_zeros MAX_MESSAGE ltac:(done)). lia.
Qed.

Lemma read_handshake_meets handle_ p l m :
  (forall h, handle_ = Some h -> is_Some (boxes m !! h)) ->
  well_placed p (ReadHandshake l) = true ->
  meets handle_ (ReadHandshake l) m (perform handle_ p (ReadHandshake l) m).
Proof.
  intros Hlive Hp. cbn [perform]. unfold read_handshake.
  destruct (zlen l >? MAX_MESSAGE) eqn:Hbig.
  { cbn [negb require bind throw]. apply refused_method; [|done..]. cbn [refused]. by rewrite Hbig. }
  placed. eapply (buffered_method _ (ReadHandshake l)); [done|cbn [refused]; by rewrite Hbig|done| |].
  - rewrite bind_gets. cbn [set_locals set_output locals output]. rewrite length_zeros by lia.
    rewrite (bind_value _ _ _ _ _ (parameter_placed _ _ H4 H3)).
    rewrite (bind_value _ _ _ _ _ (validate_const_placed _ _ _ H)).
    rewrite (bind_value _ _ _ _ _ (validate_mut_placed _ _ _ H5)).
    unfold three_overlap. rewrite H0, H1, H6, Hbig. cbn [orb negb require].
    reflexivity.
  - intros h b _ Hb Hok. cbn beta. set (m0 := set_locals _ m).
    destruct (hstate b) as [hs|t|] eqn:Hst; cbn [ideal fst snd]; try by eapply locked_throw.
    destruct (get_next_message_overhead hs) as [o|e|] eqn:Ho; cbn [try_]; unfold bind at 1;
      cbn [ret throw]; [|eapply locked_throw; eauto; by destruct e|by eapply locked_panic].
    apply overhead_nonneg in Ho.
    destruct (Z.ltb_spec (zlen l) o); cbn [negb require]; [by eapply locked_throw|].
    destruct (Z.ltb_spec (zlen l) (zlen l - o)); [lia|]. cbn [negb require].
    do 2 (unfold bind at 1; cbn [ret]).
    rewrite (slices_placed _ _ l (zlen l)) by (done || lia).
    destruct (read_message hs l (zeros (zlen l))) as [hs' r] eqn:Hw. cbn [fst snd].
    eapply (locked_output _ _ _ b _ _ _ (zlen l)); eauto; [by intros []|].
    intros out w ->. apply read_fits in Hw. pose proof (length_zeros (zlen l) ltac:(lia)). lia.
Qed.

Lemma encrypt_meets handle_ p l m :
  (forall h, handle_ = Some h -> is_Some (boxes m !! h)) ->
  well_placed p (Encrypt l) = true ->
  meets handle_ (Encrypt l) m (perform handle_ p (Encrypt l) m).
Proof.
  intros Hlive Hp. cbn [perform]. unfold encrypt.
  destruct (zlen l >? MAX_PLAINTEXT) eqn:Hbig.
  { cbn [negb require bind throw]. apply refused_method; [|done..]. cbn [refused]. by rewrite Hbig. }
  assert (Hn : 0 <= zlen l + TAG_SIZE <= MAX_MESSAGE).
  { rewrite Z.gtb_ltb, Z.ltb_ge in Hbig. unfold MAX_PLAINTEXT, MAX_MESSAGE, TAG_SIZE in *. lia. }
  placed. eapply (buffered_method _ (Encrypt l)); [done|cbn [refused]; by rewrite Hbig|done| |].
  - rewrite bind_gets. cbn [set_locals set_output locals output]. rewrite length_zeros by lia.
    rewrite (region_nonnull _ _ H4), Hbig, H1, Z.ltb_irrefl by done.
    rewrite Z.gtb_ltb. rewrite (proj2 (Z.ltb_ge MAX_MESSAGE (zlen l + TAG_SIZE))) by lia.
    cbn [orb negb require]. unfold bind at 1; cbn [ret]. unfold write_len, modify at 1. unfold bind at 1.
    do 3 (unfold bind at 1; cbn [ret]). rewrite (slices_placed _ _ l (zlen l + TAG_SIZE)) by (done || lia).
    reflexivity.
  - intros h b _ Hb Hok. cbn beta. set (m0 := set_locals _ m).
    destruct (hstate b) as [hs|t|] eqn:Hst; cbn [ideal fst snd]; try by eapply locked_throw.
    destruct (send t l (zeros (zlen l + TAG_SIZE))) as [t' r] eqn:Hw. cbn [fst snd].
    eapply (locked_output _ _ _ b _ _ _ (zlen l + TAG_SIZE)); eauto; [by intros []|].
    intros out w ->. apply send_fits in Hw. pose proof (length_zeros (zlen l + TAG_SIZE) ltac:(lia)). lia.
Qed.
Lemma buffered_refused handle_ op e g n fbody m c m1 :
  (forall h, handle_ = Some h -> is_Some (boxes m !! h)) ->
  refused op = Some c -> c <> NoiseOk -> g = true ->
  fbody (set_locals (set_output (zeros n) 0) m) = (Throw (Code c), m1) -> boxes m1 = boxes m ->
  meets handle_ op m
    ((let! r := (require e g ;;; new_output n ;;; check (operation_name op) (guard fbody) ;;; take_output)
      in ret (Bytes r)) m).
Proof.
  intros Hlive Href Hc -> Hbody Hm. unfold bind at 1, require, ret at 1, new_output, modify.
  assert (Hcheck : check (operation_name op) (guard fbody) (set_locals (set_output (zeros n) 0) m)
                   = (Throw (Raise (noise_error (operation_name op) c)), m1)).
  { unfold check, call, guard, bind. rewrite Hbody. unfold require. by rewrite bool_decide_eq_false_2. }
  unfold bind. rewrite Hcheck. by apply refused_method.
Qed.

(** The locked part of [gasoline_noise_transport_decrypt]. *)
Lemma decrypt_locked m h b m0 l n :
  boxes m !! h = Some b -> poisoned b = false -> boxes m0 = boxes m ->
  n = zlen l - TAG_SIZE -> 0 <= n ->
  locked m h (fst (ideal (Decrypt l) (hstate b))) (snd (ideal (Decrypt l) (hstate b))) read_bytes
    ((match hstate b with
      | InTransport transport =>
          let '(transport', r) := receive transport l (zeros n) in
          put_state h (InTransport transport') ;;;
          match r with
          | Done (out', written) => modify (set_locals (set_output out' written))
          | Fails error => put_state h Failed ;;; throw (Code (map_transport_error error))
          | Panics => throw Panicking
          end
      | _ => throw (Code InvalidState)
      end) m0).
Proof.
  intros Hb Hok Hm -> Hn.
  destruct (hstate b) as [hs|t|] eqn:Hst; cbn [ideal fst snd]; try by eapply locked_throw.
  destruct (receive t l (zeros (zlen l - TAG_SIZE))) as [t' r] eqn:Hw. cbn [fst snd].
  destruct r as [[out w]|e|]; cbn [settle].
  - eapply (locked_output map_transport_error _ _ b _ _ (Done (out, w))); eauto; [by intros []|].
    intros ? ? [= <- <-]. apply receive_fits in Hw.
    pose proof (length_zeros (zlen l - TAG_SIZE) Hn). split; [reflexivity|]. lia.
  - split; [done|by destruct e| |done].
    cbn [snd bind put_state modify throw set_boxes boxes].
    rewrite Hm, (alter_box (boxes m) _ b) by done. by rewrite alter_insert_eq, Hok.
  - split; [done..| |done].
    cbn [snd bind put_state modify throw set_boxes boxes]. by rewrite Hm, (alter_box _ _ b), Hok by done.
Qed.

Lemma decrypt_meets handle_ p l m :
  (forall h, handle_ = Some h -> is_Some (boxes m !! h)) ->
  well_placed p (Decrypt l) = true ->
  meets handle_ (Decrypt l) m (perform handle_ p (Decrypt l) m).
Proof.
  intros Hlive Hp. cbn [perform]. unfold decrypt.
  destruct (zlen l >? MAX_MESSAGE) eqn:Hbig.
  { cbn [negb require bind throw]. apply refused_method; [|done..]. cbn [refused]. by rewrite Hbig. }
  assert (Hn : 0 <= maximum_plaintext l <= MAX_PLAINTEXT).
  { rewrite Z.gtb_ltb, Z.ltb_ge in Hbig.
    unfold maximum_plaintext, MAX_PLAINTEXT, MAX_MESSAGE, TAG_SIZE in *.
    rewrite Z.geb_leb. destruct (Z.leb_spec 16 (zlen l)); lia. }
  placed.
  destruct (zlen l <? TAG_SIZE) eqn:Hshort.
  - eapply (buffered_refused _ (Decrypt l)); [done|cbn [refused]; by rewrite Hbig, Hshort|done..| |].
    + rewrite bind_gets. cbn [set_locals set_output locals output]. rewrite length_zeros by lia.
      rewrite (region_nonnull _ _ H4), Hbig, Hshort by done. rewrite Z.gtb_ltb.
      rewrite (proj2 (Z.ltb_ge MAX_PLAINTEXT (maximum_plaintext l))) by lia. reflexivity.
    + done.
  - assert (Hmax : maximum_plaintext l = zlen l - TAG_SIZE).
    { apply Z.ltb_ge in Hshort. unfold maximum_plaintext. rewrite Z.geb_leb.
      by rewrite (proj2 (Z.leb_le _ _)). }
    eapply (buffered_method _ (Decrypt l)); [done|cbn [refused]; by rewrite Hbig, Hshort|done| |].
    + rewrite bind_gets. cbn [set_locals set_output locals output]. rewrite length_zeros by lia.
      rewrite (region_nonnull _ _ H4), Hbig, Hshort, H1 by done. rewrite Z.gtb_ltb.
      rewrite (proj2 (Z.ltb_ge MAX_PLAINTEXT (maximum_plaintext l))), <-Hmax, Z.ltb_irrefl by lia.
      cbn [orb negb require]. unfold bind at 1; cbn [ret]. unfold write_len, modify at 1. unfold bind at 1.
      do 4 (unfold bind at 1; cbn [ret]).
      rewrite (slices_placed _ _ l (maximum_plaintext l)) by (done || lia). reflexivity.
    + intros h b _ Hb Hok. by apply decrypt_locked; try lia.
Qed.
(** A function that leaves the state of the session alone. *)
Lemma locked_keep m h b m0 read a :
  boxes m !! h = Some b -> poisoned b = false -> boxes m0 = boxes m -> read m0 = a ->
  locked m h (hstate b) (Done a) read (Ok tt, m0).
Proof.
  intros Hb Hp Hm Hr. split; cbn [fst snd stops]; [done..| |by intros ? [= <-]].
  rewrite Hm. symmetry. apply insert_id. rewrite Hb. by destruct b; cbn in *; subst.
Qed.

Lemma complete_meets handle_ p m :
  (forall h, handle_ = Some h -> is_Some (boxes m !! h)) ->
  meets handle_ HandshakeComplete m (perform handle_ p HandshakeComplete m).
Proof.
  intros Hlive. eapply (framed_method _ HandshakeComplete); [done| |done|reflexivity|]; [done|].
  intros h b _ Hb Hok. cbn beta. pose proof (locked_keep m h b) as Hkeep.
  destruct (hstate b) as [hs|t|] eqn:Hst; cbn [ideal fst snd].
  - apply Hkeep; try done. cbn. by destruct (is_finished hs).
  - by apply Hkeep.
  - by eapply locked_throw.
Qed.

Lemma copy_hash_run l m :
  zlen l = HASH_SIZE -> output (locals m) = zeros HASH_SIZE ->
  copy_from_slice l m = (Ok tt, set_locals (fun v => set_output l (output_len v) v) m).
Proof.
  intros Hl Hm. unfold copy_from_slice. rewrite Hl, Z.eqb_refl. unfold modify, set_locals.
  rewrite Hm, drop_ge, app_nil_r; [done|]. pose proof (length_zeros HASH_SIZE ltac:(done)). lia.
Qed.

Lemma hash_meets handle_ p m :
  (forall h, handle_ = Some h -> is_Some (boxes m !! h)) ->
  well_placed p HandshakeHash = true ->
  meets handle_ HandshakeHash m (perform handle_ p HandshakeHash m).
Proof.
  intros Hlive Hp. placed. cbn [perform]. unfold handshake_hash.
  eapply (framed_method _ HandshakeHash _ _ Bytes); [done| |done| |].
  2:{ rewrite bind_gets. cbn [set_locals set_output locals output]. rewrite length_zeros, Z.ltb_irrefl by done.
      cbn [negb require]. unfold bind at 1; cbn [ret].
      rewrite (bind_value _ _ _ _ _ (validate_mut_placed _ _ _ H5)). reflexivity. }
  - done.
  - intros h b _ Hb Hok. cbn beta. pose proof (locked_keep m h b) as Hkeep.
    destruct (hstate b) as [hs|t|] eqn:Hst; cbn [ideal fst snd]; [|by rewrite copy_hash_run by (done || apply handshake_hash_size); apply Hkeep|by eapply locked_throw].
    destruct (is_finished hs); [|by eapply locked_throw].
    rewrite copy_hash_run by (done || apply hash_size). by apply Hkeep.
Qed.

(** The frame of a method without a result. *)
Lemma plain_method handle_ op body m :
  (forall h, handle_ = Some h -> is_Some (boxes m !! h)) -> refused op = None ->
  (forall h b, handle_ = Some h -> boxes m !! h = Some b -> poisoned b = false ->
     locked m h (fst (ideal op (hstate b))) (snd (ideal op (hstate b))) (fun _ => Nothing)
       (body h (hstate b) m)) ->
  meets handle_ op m
    ((check (operation_name op) (guard (let! h := handle_ref handle_ in with_lock h (body h))) ;;;
      ret Nothing) m).
Proof. intros Hlive Href Hl. exact (locked_method _ _ _ _ _ (fun _ => Nothing) Hlive eq_refl Href Hl). Qed.

Lemma enter_transport_meets handle_ p m :
  (forall h, handle_ = Some h -> is_Some (boxes m !! h)) ->
  meets handle_ EnterTransport m (perform handle_ p EnterTransport m).
Proof.
  intros Hlive. apply (plain_method _ EnterTransport); [done..|]. intros h b _ Hb Hok.
  assert (Hput : forall st st' m', boxes m' = boxes m ->
    alter (fun b => {| hstate := st'; poisoned := poisoned b |}) h
      (alter (fun b => {| hstate := st; poisoned := poisoned b |}) h (boxes m'))
    = <[h := {| hstate := st'; poisoned := false |}]> (boxes m)).
  { intros st st' m' ->. by rewrite (alter_box (boxes m) _ b), alter_insert_eq, Hok by done. }
  destruct (hstate b) as [hs|t|] eqn:Hst; cbn [ideal]; [|by split; try apply Hput..].
  destruct (is_finished hs); [|by split; try apply Hput].
  destruct (finalize hs) as [t|e|].
  - split; [done..|by apply Hput|by intros ? [= <-]].
  - split; [done|by destruct e| |done]. cbn. by rewrite (alter_box (boxes m) _ b), Hok by done.
  - split; [done..| |done]. cbn. by rewrite (alter_box (boxes m) _ b), Hok by done.
Qed.

Lemma rekey_locked f m h b t :
  boxes m !! h = Some b -> poisoned b = false -> hstate b = InTransport t ->
  locked m h (InTransport (fst (f t))) (settle map_transport_error (fun _ => Nothing) (snd (f t)))
    (fun _ => Nothing)
    ((let '(t', r) := f t in put_state h (InTransport t') ;;; try_ map_transport_error r) m).
Proof.
  intros Hb Hok Hst. destruct (f t) as [t' r]. cbn [fst snd].
  assert (Hput : alter (fun b => {| hstate := InTransport t'; poisoned := poisoned b |}) h (boxes m)
                 = <[h := {| hstate := InTransport t'; poisoned := false |}]> (boxes m)).
  { by rewrite (alter_box (boxes m) _ b), Hok by done. }
  destruct r as [[]|e|]; (split; [done|first [done|by destruct e]|exact Hput|by intros ? [= <-]]).
Qed.

Lemma rekey_meets handle_ m op f :
  op = RekeySender /\ f = rekey_sender \/ op = RekeyReceiver /\ f = rekey_receiver ->
  (forall h, handle_ = Some h -> is_Some (boxes m !! h)) ->
  meets handle_ op m ((check (operation_name op) (rekey_with f handle_) ;;; ret Nothing) m).
Proof.
  intros Hop Hlive. apply plain_method; [done|by destruct Hop as [[-> ->]|[-> ->]]|].
  intros h b _ Hb Hok. pose proof (rekey_locked f m h b) as Hr.
  destruct Hop as [[-> ->]|[-> ->]];
    (destruct (hstate b) as [hs|t|] eqn:Hst; [by eapply locked_throw| |by eapply locked_throw]);
    specialize (Hr _ Hb Hok eq_refl); cbn [ideal] in *; revert Hr;
    destruct (rekey_sender t), (rekey_receiver t); done.
Qed.

Lemma perform_meets handle_ p op m :
  (forall h, handle_ = Some h -> is_Some (boxes m !! h)) -> well_placed p op = true ->
  meets handle_ op m (perform handle_ p op m).
Proof.
  intros Hlive Hp. destruct op.
  - by apply write_handshake_meets.
  - by apply read_handshake_meets.
  - by apply complete_meets.
  - by apply hash_meets.
  - by apply enter_transport_meets.
  - by apply encrypt_meets.
  - by apply decrypt_meets.
  - apply (rekey_meets _ _ RekeySender); auto.
  - apply (rekey_meets _ _ RekeyReceiver); auto.
Qed.

(** ** Sessions as values *)

(** The sessions of a program's objects; a moved-from object has none. *)
Definition sessions (P : Program) : gmap nat (option NoiseHandle) :=
  (fun h => h ≫= fun h => boxes (memory P) !! h) <$> objects P.

Definition creation_name (is_initiator : bool) : string :=
  if is_initiator then "create initiator" else "create responder".

Definition ideal_create (is_initiator : bool) (entropy : nat) (prologue : list byte) : outcome noise_result NoiseHandle :=
  if zlen prologue >? MAX_PROLOGUE then Fails Oversized
  else match hs_new entropy prologue is_initiator with
       | Done hs => Done {| hstate := InHandshake hs; poisoned := false |}
       | Fails e => Fails (map_handshake_error e)
       | Panics => Fails Panic
       end.

(** The meaning of a program: objects hold sessions, moves hand them over. *)
Definition ideal_act (a : Action) (O : gmap nat (option NoiseHandle)) : result Raised Reply * gmap nat (option NoiseHandle) :=
  match a with
  | Create i is_initiator entropy _ prologue =>
      match O !! i with
      | Some _ => (Ok Nothing, O)
      | None =>
          match ideal_create is_initiator entropy prologue with
          | Done s => (Ok Nothing, <[i := Some s]> O)
          | Fails c => (Throw (Raise (noise_error (creation_name is_initiator) c)), O)
          | Panics => (Throw (Raise (noise_error (creation_name is_initiator) Panic)), O)
          end
      end
  | MoveConstruct j i =>
      match O !! j, O !! i with
      | None, Some s => (Ok Nothing, <[j := s]> (<[i := None]> O))
      | _, _ => (Ok Nothing, O)
      end
  | MoveAssign j i =>
      match O !! j, O !! i with
      | Some _, Some s => (Ok Nothing, if bool_decide (j = i) then O else <[j := s]> (<[i := None]> O))
      | _, _ => (Ok Nothing, O)
      end
  | Destruct i => (Ok Nothing, delete i O)
  | Invoke i _ op =>
      match O !! i with
      | Some s => let '(s', r) := ideal_session op s in (raised op r, <[i := s']> O)
      | None => (Ok Nothing, O)
      end
  end.

Fixpoint ideal_acts (l : list Action) (O : gmap nat (option NoiseHandle)) : list (result Raised Reply) * gmap nat (option NoiseHandle) :=
  match l with
  | [] => ([], O)
  | a :: l =>
      let '(r, O1) := ideal_act a O in
      let '(rs, O2) := ideal_acts l O1 in
      (r :: rs, O2)
  end.

(** The buffers of an action are where an allocator puts them. *)
Definition placed_action (a : Action) : bool :=
  match a with
  | Create _ _ _ at_prologue prologue => region at_prologue (zlen prologue)
  | Invoke _ p op => well_placed p op
  | _ => true
  end.

Lemma create_meets (is_initiator : bool) entropy a prologue m :
  region a (zlen prologue) = true ->
  exists m', (if is_initiator then initiator else responder) entropy a prologue m
    = (match ideal_create is_initiator entropy prologue with
       | Done _ => Ok (Some (next_box m))
       | Fails c => Throw (Raise (noise_error (creation_name is_initiator) c))
       | Panics => Throw (Raise (noise_error (creation_name is_initiator) Panic))
       end, m') /\
  boxes m' = match ideal_create is_initiator entropy prologue with
             | Done s => <[next_box m := s]> (boxes m)
             | _ => boxes m
             end.
Proof.
  intros Hp.
  assert (forall op, exists m',
    bind (check op (guard (create entropy a prologue is_initiator)))
         (fun _ => gets (fun m => out_handle (locals m))) (set_locals (set_out_handle None) m)
    = (match ideal_create is_initiator entropy prologue with
       | Done _ => Ok (Some (next_box m))
       | Fails c => Throw (Raise (noise_error op c))
       | Panics => Throw (Raise (noise_error op Panic))
       end, m') /\
    boxes m' = match ideal_create is_initiator entropy prologue with
               | Done s => <[next_box m := s]> (boxes m)
               | _ => boxes m
               end) as H; [|destruct is_initiator; apply H].
  intros op. unfold bind at 1, check, call, guard. unfold bind at 1.
  unfold create. unfold bind at 1, modify at 1. unfold ideal_create.
  destruct (zlen prologue >? MAX_PROLOGUE); cbn [negb require]; unfold bind at 1; cbn [ret throw];
    [by eexists|].
  rewrite (bind_value _ _ _ _ _ (slice_placed _ _ _ Hp)).
  destruct (hs_new entropy prologue is_initiator) as [hs|e|]; [by eexists|destruct e; by eexists|by eexists].
Qed.

Lemma sessions_lookup P i : sessions P !! i = (fun h => h ≫= fun h => boxes (memory P) !! h) <$> objects P !! i.
Proof. apply lookup_fmap. Qed.

(** A box is seen through its owner only. *)
Lemma sessions_update P i h b m' :
  owned P -> objects P !! i = Some (Some h) -> boxes m' = <[h := b]> (boxes (memory P)) ->
  sessions {| memory := m'; objects := objects P |} = <[i := Some b]> (sessions P).
Proof.
  intros HP Hi Hb. apply map_eq. intros j. rewrite sessions_lookup. cbn [memory objects]. rewrite Hb.
  destruct (decide (i = j)) as [<-|Hne].
  - rewrite lookup_insert_eq, Hi. cbn. by rewrite lookup_insert_eq.
  - rewrite lookup_insert_ne, sessions_lookup by done.
    destruct (objects P !! j) as [[g|]|] eqn:Hj; cbn; try done.
    rewrite lookup_insert_ne; [done|]. intros <-. by destruct Hne; eapply own_unique.
Qed.

Lemma sessions_free P i h m' :
  owned P -> objects P !! i = Some h ->
  boxes m' = (match h with Some g => delete g (boxes (memory P)) | None => boxes (memory P) end) ->
  forall j, j <> i -> sessions {| memory := m'; objects := objects P |} !! j = sessions P !! j.
Proof.
  intros HP Hi Hb j Hne. rewrite !sessions_lookup. cbn [memory objects]. rewrite Hb.
  destruct (objects P !! j) as [[g|]|] eqn:Hj; cbn; try done.
  destruct h as [g'|]; [|done]. rewrite lookup_delete_ne; [done|]. intros ->.
  by destruct Hne; eapply own_unique.
Qed.

Lemma sessions_add P i s m' :
  owned P -> boxes m' = <[next_box (memory P) := s]> (boxes (memory P)) ->
  sessions {| memory := m'; objects := <[i := Some (next_box (memory P))]> (objects P) |}
  = <[i := Some s]> (sessions P).
Proof.
  intros HP Hb. unfold sessions. cbn [memory objects]. rewrite fmap_insert, Hb. cbn.
  rewrite lookup_insert_eq. f_equal. apply map_fmap_ext. intros j [g|] Hj; [|done]. cbn.
  rewrite lookup_insert_ne; [done|]. intros <-. apply (own_live _ HP) in Hj. apply (own_fresh _ HP) in Hj. lia.
Qed.

Lemma sessions_same P m' : boxes m' = boxes (memory P) -> sessions {| memory := m'; objects := objects P |} = sessions P.
Proof. intros Hb. unfold sessions. cbn [memory objects]. by rewrite Hb. Qed.

(** Assignment: the old session of the target is freed, its new one is the source's. *)
Lemma sessions_assign P j i old h m :
  owned P -> objects P !! j = Some old -> objects P !! i = Some h -> j <> i ->
  boxes m = (match old with Some g => delete g (boxes (memory P)) | None => boxes (memory P) end) ->
  sessions {| memory := m; objects := <[j := h]> (<[i := None]> (objects P)) |}
  = <[j := h ≫= fun h => boxes (memory P) !! h]> (<[i := None]> (sessions P)).
Proof.
  intros HP Hj Hi Hji Hb. symmetry. apply map_eq. intros k.
  destruct (decide (j = k)) as [<-|Hjk]; [|destruct (decide (i = k)) as [<-|Hik]].
  + rewrite lookup_insert_eq, sessions_lookup. cbn [objects]. rewrite lookup_insert_eq. cbn.
    pose proof (sessions_free _ _ _ _ HP Hj Hb i ltac:(done)) as Hs. rewrite !sessions_lookup in Hs.
    cbn [objects memory] in Hs. rewrite Hi in Hs. by injection Hs as ->.
  + rewrite lookup_insert_ne, lookup_insert_eq, sessions_lookup by done. cbn [objects].
    by rewrite lookup_insert_ne, lookup_insert_eq by done.
  + rewrite !lookup_insert_ne by done. rewrite <-(sessions_free _ _ _ _ HP Hj Hb) by done.
    rewrite !sessions_lookup. cbn [objects memory]. by rewrite !lookup_insert_ne by done.
Qed.

(** Each action means what [ideal_act] says of the sessions. *)
Lemma act_ideal a P r P' :
  owned P -> placed_action a = true -> act a P = (r, P') -> ideal_act a (sessions P) = (r, sessions P').
Proof.
  intros HP Hpl Hrun. destruct a as [i role e at_ pr|j i|j i|i|i p op]; cbn [act ideal_act placed_action] in *;
    rewrite ?sessions_lookup.
  - destruct (objects P !! i) eqn:Hi; cbn; [by injection Hrun as <- <-|].
    destruct (create_meets role e at_ pr (memory P) Hpl) as (m & Hc & Hb). rewrite Hc in Hrun.
    destruct (ideal_create role e pr); injection Hrun as <- <-; f_equal; symmetry;
      by (apply sessions_add || apply sessions_same).
  - destruct (objects P !! j) eqn:Hj; cbn; [by injection Hrun as <- <-|].
    destruct (objects P !! i) as [h|] eqn:Hi; cbn; injection Hrun as <- <-; [|done].
    f_equal. unfold sessions. cbn [memory objects]. by rewrite !fmap_insert.
  - destruct (objects P !! j) as [old|] eqn:Hj; cbn; [|by injection Hrun as <- <-].
    destruct (objects P !! i) as [h|] eqn:Hi; cbn; [|by injection Hrun as <- <-].
    case_bool_decide as Hji; [by injection Hrun as <- <-|].
    destruct (destructor_frees old (memory P)) as (m & Hd & Hn & Hb).
    { intros g ->. by eapply own_live. }
    rewrite Hd in Hrun. injection Hrun as <- <-. f_equal. symmetry. by eapply sessions_assign.
  - destruct (objects P !! i) as [h|] eqn:Hi; cbn.
    2:{ injection Hrun as <- <-. rewrite delete_id; [done|]. by rewrite sessions_lookup, Hi. }
    destruct (destructor_frees h (memory P)) as (m & Hd & Hn & Hb).
    { intros g ->. by eapply own_live. }
    rewrite Hd in Hrun. injection Hrun as <- <-. f_equal. apply map_eq. intros k.
    destruct (decide (i = k)) as [<-|Hik].
    + rewrite lookup_delete_eq, sessions_lookup. cbn [objects]. by rewrite lookup_delete_eq.
    + rewrite lookup_delete_ne by done. rewrite <-(sessions_free _ _ _ _ HP Hi Hb) by done.
      rewrite !sessions_lookup. cbn [objects memory]. by rewrite lookup_delete_ne by done.
  - destruct (objects P !! i) as [h|] eqn:Hi; cbn; [|by injection Hrun as <- <-].
    destruct (perform_meets h p op (memory P)) as [Hr Hb]; [|done|].
    { intros g ->. by eapply own_live. }
    destruct (perform h p op (memory P)) as [r1 m]. injection Hrun as <- <-. cbn [fst snd] in *.
    destruct (ideal_session op (h ≫= fun h => boxes (memory P) !! h)) as [s' r2] eqn:Hid; cbn [fst snd] in *.
    subst r1. f_equal. symmetry. destruct h as [g|]; cbn [mbind option_bind] in *.
    + destruct (own_live _ HP _ _ Hi) as [b Hg]. rewrite Hg in Hid.
      assert (Hs : exists b', s' = Some b').
      { unfold ideal_session in Hid. repeat case_match; simplify_eq; eauto. }
      destruct Hs as [b' ->]. by eapply sessions_update.
    + assert (s' = None) as ->. { unfold ideal_session in Hid. repeat case_match; by simplify_eq. }
      rewrite sessions_same by done. symmetry. apply insert_id. by rewrite sessions_lookup, Hi.
Qed.

Lemma acts_ideal l P rs P' :
  owned P -> forallb placed_action l = true -> acts l P = (rs, P') ->
  ideal_acts l (sessions P) = (rs, sessions P').
Proof.
  revert P rs. induction l as [|a l IH]; intros P rs HP Hl; cbn [acts ideal_acts].
  - by intros [= <- <-].
  - cbn [forallb] in Hl. apply andb_prop in Hl as [Ha Hl].
    destruct (act a P) as [r P1] eqn:E. destruct (acts l P1) as [rs1 P2] eqn:E2. intros [= <- <-].
    rewrite (act_ideal _ _ _ _ HP Ha E). apply act_owned in E as [HP1 _]; [|done].
    by rewrite (IH _ _ HP1 Hl E2).
Qed.

(** C9. Handles, boxes, buffers and error codes implement sessions that are plain
    values: with buffers where an allocator puts them, every program over
    [NoiseSession] objects gets exactly the replies and exceptions of [ideal_acts],
    in which an object holds a session or, once moved from, nothing, a method is
    one call of the handshake library between two checks of sizes, and no buffer
    is ever too small. *)
Theorem noise_refines_sessions l rs P :
  forallb placed_action l = true -> acts l program_start = (rs, P) ->
  ideal_acts l ∅ = (rs, sessions P).
Proof. intros Hl Hrun. exact (acts_ideal _ _ _ _ owned_start Hl Hrun). Qed.

(** ** Failure is final *)

(** The action leaves object [i] where it is. *)
Definition untouched (i : nat) (a : Action) : bool :=
  match a with
  | MoveConstruct _ k | Destruct k => negb (k =? i)%nat
  | MoveAssign j k => negb (j =? i)%nat && negb (k =? i)%nat
  | _ => true
  end.
Definition invokes (i : nat) (a : Action) : bool :=
  match a with Invoke k _ _ => (k =? i)%nat | _ => false end.

Definition refuses (i : nat) (a : Action) (r : result Raised Reply) : Prop :=
  invokes i a = true -> exists e, r = Throw (Raise e).

Lemma failed_session op : exists c, ideal_session op (Some {| hstate := Failed; poisoned := false |})
  = (Some {| hstate := Failed; poisoned := false |}, Fails c).
Proof. unfold ideal_session. destruct (refused op) as [c|]; [by eexists|]. destruct op; by eexists. Qed.

Lemma failed_act i a O r O' :
  O !! i = Some (Some {| hstate := Failed; poisoned := false |}) -> untouched i a = true ->
  ideal_act a O = (r, O') ->
  O' !! i = Some (Some {| hstate := Failed; poisoned := false |}) /\ refuses i a r.
Proof.
  intros Hi Hu Hrun. unfold refuses.
  destruct a as [k role e at_ pr|j k|j k|k|k p op]; cbn [ideal_act untouched invokes] in *; bool_inv;
    rewrite ?Nat.eqb_neq in *; try (split; [|done]).
  - destruct (O !! k) eqn:Hk; [by simplify_eq|].
    assert (k <> i) by congruence. repeat case_match; simplify_eq; rewrite ?lookup_insert_ne; done.
  - destruct (O !! j) eqn:Hj; [by simplify_eq|]. assert (j <> i) by congruence.
    case_match; simplify_eq; rewrite ?lookup_insert_ne; done.
  - repeat case_match; simplify_eq; rewrite ?lookup_insert_ne; done.
  - simplify_eq. by rewrite lookup_delete_ne.
  - destruct (Nat.eqb_spec k i) as [->|Hne].
    + rewrite Hi in Hrun. destruct (failed_session op) as [c Hc]. rewrite Hc in Hrun. simplify_eq.
      rewrite lookup_insert_eq. split; [done|]. by eexists.
    + split; [|done]. repeat case_match; simplify_eq; rewrite ?lookup_insert_ne; done.
Qed.

Lemma failed_acts i l O rs O' :
  O !! i = Some (Some {| hstate := Failed; poisoned := false |}) -> forallb (untouched i) l = true ->
  ideal_acts l O = (rs, O') ->
  O' !! i = Some (Some {| hstate := Failed; poisoned := false |}) /\ Forall2 (refuses i) l rs.
Proof.
  revert O rs. induction l as [|a l IH]; intros O rs Hi Hl; cbn [ideal_acts forallb] in *.
  - intros [= <- <-]. by split.
  - apply andb_prop in Hl as [Ha Hl]. destruct (ideal_act a O) as [r O1] eqn:E.
    destruct (ideal_acts l O1) as [rs1 O2] eqn:E2. intros [= <- <-].
    apply (failed_act i) in E as [H1 Hr]; [|done..]. destruct (IH _ _ H1 Hl E2). split; [done|by constructor].
Qed.

(** C26. A ciphertext that does not authenticate ends the session: the call throws,
    and afterwards, whatever the program does with this and other objects, every
    method called on the object throws, so that no further message is encrypted
    or decrypted under its keys. *)
Theorem noise_failure_final l0 rs0 P i p ciphertext t t' e l rs P' :
  acts l0 program_start = (rs0, P) ->
  sessions P !! i = Some (Some {| hstate := InTransport t; poisoned := false |}) ->
  TAG_SIZE <= zlen ciphertext <= MAX_MESSAGE ->
  receive t ciphertext (zeros (zlen ciphertext - TAG_SIZE)) = (t', Fails e) ->
  forallb placed_action (Invoke i p (Decrypt ciphertext) :: l) = true ->
  forallb (untouched i) l = true ->
  acts (Invoke i p (Decrypt ciphertext) :: l) P = (rs, P') ->
  Forall2 (refuses i) (Invoke i p (Decrypt ciphertext) :: l) rs.
Proof.
  intros H0 Hi Hlen Hrec Hpl Hl Hrun. apply acts_owned in H0 as [HP _]; [|apply owned_start].
  apply (acts_ideal _ _ _ _ HP Hpl) in Hrun. cbn [ideal_acts ideal_act] in Hrun. rewrite Hi in Hrun.
  assert (Hid : ideal_session (Decrypt ciphertext) (Some {| hstate := InTransport t; poisoned := false |})
    = (Some {| hstate := Failed; poisoned := false |}, Fails (map_transport_error e))).
  { unfold ideal_session. cbn [refused]. rewrite Z.gtb_ltb, !(proj2 (Z.ltb_ge _ _)) by lia.
    cbn [poisoned hstate ideal]. by rewrite Hrec. }
  rewrite Hid in Hrun. destruct (ideal_acts l _) as [rs1 O2] eqn:E. injection Hrun as <- _.
  apply (failed_acts i) in E as [_ Hrs]; [|by rewrite lookup_insert_eq|done].
  constructor; [|done]. intros _. by eexists.
Qed.

(** ** Two parties *)

(** A message of one party read by the other. *)
Definition transfer (place : Operation -> Placement) (i j : nat) (write read : list byte -> Operation) (payload : list byte) (P : Program) : result Raised Reply * Program :=
  match act (Invoke i (place (write payload)) (write payload)) P with
  | (Ok (Bytes message), P1) => act (Invoke j (place (read message)) (read message)) P1
  | x => x
  end.

Inductive Turn : Type :=
| Say (forward : bool) (plaintext : list byte)
| Rekey (forward : bool).

Definition turn (place : Operation -> Placement) (i j : nat) (t : Turn) (P : Program) : result Raised Reply * Program :=
  match t with
  | Say forward l => transfer place (if forward then i else j) (if forward then j else i) Encrypt Decrypt l P
  | Rekey forward =>
      match act (Invoke (if forward then i else j) (place RekeySender) RekeySender) P with
      | (Ok _, P1) => act (Invoke (if forward then j else i) (place RekeyReceiver) RekeyReceiver) P1
      | x => x
      end
  end.

Fixpoint script (l : list (Program -> result Raised Reply * Program)) (P : Program) : list (result Raised Reply) * Program :=
  match l with
  | [] => ([], P)
  | f :: l =>
      let '(r, P1) := f P in
      let '(rs, P2) := script l P1 in
      (r :: rs, P2)
  end.

(** Both parties are created, shake hands, enter transport and compare hashes. *)
Definition handshake_script (place : Operation -> Placement) (i j e1 e2 : nat) (at_prologue : Z) (prologue hello answer : list byte) : list (Program -> result Raised Reply * Program) :=
  [act (Create i true e1 at_prologue prologue);
   act (Create j false e2 at_prologue prologue);
   transfer place i j WriteHandshake ReadHandshake hello;
   transfer place j i WriteHandshake ReadHandshake answer;
   act (Invoke i (place EnterTransport) EnterTransport);
   act (Invoke j (place EnterTransport) EnterTransport);
   act (Invoke i (place HandshakeHash) HandshakeHash);
   act (Invoke j (place HandshakeHash) HandshakeHash)].

Definition said (t : Turn) : Z := match t with Say _ _ => 1 | Rekey _ => 0 end.
Definition heard (t : Turn) : result Raised Reply :=
  match t with Say _ l => Ok (Bytes l) | Rekey _ => Ok Nothing end.
Definition sayable (t : Turn) : bool :=
  match t with Say _ l => zlen l <=? MAX_PLAINTEXT | Rekey _ => true end.
Definition messages (l : list Turn) : Z := foldr (fun t n => said t + n) 0 l.

(** Buffers of permitted sizes can be allocated. *)
Definition allocator (place : Operation -> Placement) : Prop :=
  forall op, input_size op <= MAX_MESSAGE -> well_placed (place op) op = true.

Abbreviation live st := (Some (Some {| hstate := st; poisoned := false |})).

(** A method call that succeeds, seen from its object's session. *)
Lemma invoke_step P i p op st st' r :
  owned P -> sessions P !! i = live st -> well_placed p op = true -> refused op = None ->
  ideal op st = (st', Done r) ->
  exists P', act (Invoke i p op) P = (Ok r, P') /\ owned P' /\
    sessions P' !! i = live st' /\ (forall k, k <> i -> sessions P' !! k = sessions P !! k).
Proof.
  intros HP Hi Hp Href Hid. destruct (act (Invoke i p op) P) as [x P'] eqn:E.
  pose proof (act_ideal (Invoke i p op) _ _ _ HP Hp E) as Hact.
  destruct (act_owned _ _ _ _ HP E) as [HP' _].
  cbn [ideal_act] in Hact. rewrite Hi in Hact. unfold ideal_session in Hact. rewrite Href in Hact.
  cbn [poisoned hstate] in Hact. rewrite Hid in Hact. injection Hact as <- Hs.
  exists P'. split; [done|]. split; [done|]. rewrite <-Hs. split; [by rewrite lookup_insert_eq|].
  intros k Hk. by rewrite lookup_insert_ne.
Qed.

Section channel.
Context {channel : NoiseChannel lib} (place : Operation -> Placement) (Hplace : allocator place).

(** A message of the handshake arrives. *)
Lemma handshake_transfer P k i j a b payload :
  owned P -> i <> j -> sessions P !! i = live (InHandshake a) -> sessions P !! j = live (InHandshake b) ->
  stage k a b -> (k < 2)%nat -> zlen payload + nn_overhead k <= MAX_MESSAGE ->
  exists P' a' b', transfer place i j WriteHandshake ReadHandshake payload P = (Ok (Bytes payload), P') /\
    owned P' /\ sessions P' !! i = live (InHandshake a') /\ sessions P' !! j = live (InHandshake b') /\
    stage (S k) b' a'.
Proof.
  intros HP Hij Hi Hj Hst Hk Hlen. destruct (nn_overheads _ _ _ Hst Hk) as [Hoa Hob].
  pose proof (overhead_nonneg _ _ Hoa) as Ho. pose proof (length_zeros MAX_MESSAGE ltac:(done)) as Hz.
  destruct (nn_message _ _ _ payload (zeros MAX_MESSAGE) Hst Hk ltac:(lia) ltac:(lia)) as (a' & out & Hw & Hread).
  assert (Hmsg : zlen (take (Z.to_nat (zlen payload + nn_overhead k)) out) = zlen payload + nn_overhead k).
  { apply write_fits in Hw. rewrite length_take. lia. }
  set (msg := take _ out) in *.
  destruct (invoke_step P i (place (WriteHandshake payload)) (WriteHandshake payload) (InHandshake a)
              (InHandshake a') (Bytes msg) HP Hi) as (P1 & E1 & HP1 & H1i & H1k).
  { apply Hplace. cbn. lia. }
  { cbn [refused]. by rewrite Z.gtb_ltb, (proj2 (Z.ltb_ge _ _)) by lia. }
  { cbn [ideal]. rewrite Hoa, Z.gtb_ltb, (proj2 (Z.ltb_ge _ _)), Hw by lia. done. }
  destruct (Hread (zeros (zlen msg))) as (b' & buf & Hr & Htake & Hst'); [rewrite length_zeros by lia; lia|].
  destruct (invoke_step P1 j (place (ReadHandshake msg)) (ReadHandshake msg) (InHandshake b)
              (InHandshake b') (Bytes payload) HP1) as (P2 & E2 & HP2 & H2j & H2k).
  { by rewrite H1k. }
  { apply Hplace. cbn [input_size]. lia. }
  { cbn [refused]. by rewrite Z.gtb_ltb, (proj2 (Z.ltb_ge _ _)) by lia. }
  { cbn [ideal]. rewrite Hob, (proj2 (Z.ltb_ge _ _)), Hr by lia. cbn [settle]. unfold written_bytes.
    cbn [fst snd]. by rewrite Nat2Z.id, Htake. }
  exists P2, a', b'. unfold transfer. rewrite E1, E2.
  split; [reflexivity|]. split; [exact HP2|]. split; [by rewrite (H2k i Hij)|]. split; [exact H2j|exact Hst'].
Qed.

(** Both objects are in transport and their ciphers fit. *)
Definition in_channel (i j : nat) (n : Z) (P : Program) : Prop :=
  owned P /\ exists ta tb, sessions P !! i = live (InTransport ta) /\
    sessions P !! j = live (InTransport tb) /\ linked n ta tb.

Lemma in_channel_sym i j n P : in_channel i j n P -> in_channel j i n P.
Proof. intros (HP & ta & tb & Hi & Hj & Hl). split; [done|]. exists tb, ta. eauto using linked_sym. Qed.

Lemma say_step i j n P l :
  in_channel i j n P -> i <> j -> 0 < n -> zlen l <= MAX_PLAINTEXT ->
  exists P', transfer place i j Encrypt Decrypt l P = (Ok (Bytes l), P') /\ in_channel i j (n - 1) P'.
Proof.
  intros (HP & ta & tb & Hi & Hj & Hl) Hij Hn Hlen.
  assert (0 <= zlen l + TAG_SIZE <= MAX_MESSAGE) by (unfold MAX_PLAINTEXT, TAG_SIZE in *; lia).
  destruct (linked_send _ _ _ l (zeros (zlen l + TAG_SIZE)) Hl Hn Hlen) as (ta' & out & Hs & Hrec);
    [apply length_zeros; lia|].
  assert (Hout : zlen out = zlen l + TAG_SIZE).
  { apply send_fits in Hs as [-> _]. apply length_zeros. lia. }
  destruct (invoke_step P i (place (Encrypt l)) (Encrypt l) (InTransport ta)
              (InTransport ta') (Bytes out) HP Hi) as (P1 & E1 & HP1 & H1i & H1k).
  { apply Hplace. cbn [input_size]. unfold TAG_SIZE in *. lia. }
  { cbn [refused]. by rewrite Z.gtb_ltb, (proj2 (Z.ltb_ge _ _)) by lia. }
  { cbn [ideal]. rewrite Hs. cbn [settle]. unfold written_bytes. cbn [fst snd]. by rewrite take_ge by lia. }
  destruct (Hrec (zeros (zlen out - TAG_SIZE))) as (tb' & Hr & Hl'); [rewrite length_zeros; lia|].
  destruct (invoke_step P1 j (place (Decrypt out)) (Decrypt out) (InTransport tb)
              (InTransport tb') (Bytes l) HP1) as (P2 & E2 & HP2 & H2j & H2k).
  { by rewrite H1k. }
  { apply Hplace. cbn [input_size]. lia. }
  { cbn [refused]. by rewrite Z.gtb_ltb, !(proj2 (Z.ltb_ge _ _)) by lia. }
  { cbn [ideal]. rewrite Hr. cbn [settle]. unfold written_bytes. cbn [fst snd]. by rewrite take_ge by lia. }
  exists P2. unfold transfer. rewrite E1, E2. split; [reflexivity|]. split; [exact HP2|].
  exists ta', tb'. split; [by rewrite (H2k i Hij)|]. split; [exact H2j|exact Hl'].
Qed.

Lemma rekey_step i j n P :
  in_channel i j n P -> i <> j ->
  exists P1 P', act (Invoke i (place RekeySender) RekeySender) P = (Ok Nothing, P1) /\
    act (Invoke j (place RekeyReceiver) RekeyReceiver) P1 = (Ok Nothing, P') /\ in_channel i j n P'.
Proof.
  intros (HP & ta & tb & Hi & Hj & Hl) Hij.
  destruct (linked_rekey _ _ _ Hl) as (ta' & tb' & Hs & Hr & Hl').
  destruct (invoke_step P i (place RekeySender) RekeySender _ (InTransport ta') Nothing HP Hi)
    as (P1 & E1 & HP1 & H1i & H1k); [by apply Hplace|done|cbn [ideal]; by rewrite Hs|].
  rewrite <-(H1k j) in Hj by done.
  destruct (invoke_step P1 j (place RekeyReceiver) RekeyReceiver _ (InTransport tb') Nothing HP1 Hj)
    as (P2 & E2 & HP2 & H2j & H2k); [by apply Hplace|done|cbn [ideal]; by rewrite Hr|].
  exists P1, P2. split; [exact E1|]. split; [exact E2|]. split; [exact HP2|].
  exists ta', tb'. split; [by rewrite (H2k i Hij)|]. by split.
Qed.

Lemma turn_step i j n P t :
  in_channel i j n P -> i <> j -> said t <= n -> sayable t = true ->
  exists P', turn place i j t P = (heard t, P') /\ in_channel i j (n - said t) P'.
Proof.
  intros HC Hij Hn Hs. assert (Hji : j <> i) by congruence.
  destruct t as [[] l|[]]; cbn [turn said heard sayable] in *; bool_inv.
  - apply say_step; try done. lia.
  - apply in_channel_sym in HC.
    destruct (say_step _ _ _ _ l HC Hji) as (P' & E & HC'); [lia|done|]. eauto using in_channel_sym.
  - destruct (rekey_step _ _ _ _ HC Hij) as (P1 & P' & E1 & E2 & HC').
    rewrite E1, Z.sub_0_r. eauto.
  - apply in_channel_sym in HC. destruct (rekey_step _ _ _ _ HC Hji) as (P1 & P' & E1 & E2 & HC').
    rewrite E1, Z.sub_0_r. eauto using in_channel_sym.
Qed.

Lemma messages_cons t l : messages (t :: l) = said t + messages l.
Proof. reflexivity. Qed.
Lemma messages_nonneg l : 0 <= messages l.
Proof. induction l as [|[] l IH]; [done|rewrite messages_cons; cbn [said]; lia..]. Qed.

Lemma conversation_heard i j l n P :
  in_channel i j n P -> i <> j -> messages l <= n -> forallb sayable l = true ->
  exists P', script (turn place i j <$> l) P = (heard <$> l, P') /\ in_channel i j (n - messages l) P'.
Proof.
  revert n P. induction l as [|t l IH]; intros n P HC Hij Hn Hl.
  - exists P. by rewrite Z.sub_0_r.
  - cbn [forallb] in Hl. apply andb_prop in Hl as [Ht Hl].
    rewrite messages_cons in *.
    pose proof (messages_nonneg l). destruct (turn_step _ _ _ _ t HC Hij ltac:(lia) Ht) as (P1 & E1 & HC1).
    destruct (IH _ _ HC1 Hij ltac:(lia) Hl) as (P2 & E2 & HC2).
    exists P2. cbn [fmap list_fmap script]. rewrite E1. change (list_fmap _ _ _ l) with (turn place i j <$> l).
    rewrite E2. split; [done|].
    by replace (n - (said t + messages l)) with (n - said t - messages l) by lia.
Qed.

Lemma create_step P i role e at_ prologue hs :
  owned P -> sessions P !! i = None -> region at_ (zlen prologue) = true -> zlen prologue <= MAX_PROLOGUE ->
  hs_new e prologue role = Done hs ->
  exists P', act (Create i role e at_ prologue) P = (Ok Nothing, P') /\ owned P' /\
    sessions P' !! i = live (InHandshake hs) /\ (forall k, k <> i -> sessions P' !! k = sessions P !! k).
Proof.
  intros HP Hi Hp Hlen Hnew. destruct (act (Create i role e at_ prologue) P) as [r P'] eqn:E.
  pose proof (act_ideal (Create i role e at_ prologue) _ _ _ HP Hp E) as Hact.
  destruct (act_owned _ _ _ _ HP E) as [HP' _].
  cbn [ideal_act] in Hact. rewrite Hi in Hact. unfold ideal_create in Hact.
  rewrite Z.gtb_ltb, (proj2 (Z.ltb_ge _ _)), Hnew in Hact by lia. injection Hact as <- Hs.
  exists P'. split; [done|]. split; [done|]. rewrite <-Hs. split; [by rewrite lookup_insert_eq|].
  intros k Hk. by rewrite lookup_insert_ne.
Qed.

(** A step of a script that is known. *)
Lemma script_cons f l P r P1 : f P = (r, P1) -> script (f :: l) P = (r :: fst (script l P1), snd (script l P1)).
Proof. intros H. cbn [script]. rewrite H. by destruct (script l P1). Qed.

Lemma script_app l1 l2 P :
  script (l1 ++ l2) P
  = (fst (script l1 P) ++ fst (script l2 (snd (script l1 P))), snd (script l2 (snd (script l1 P)))).
Proof.
  revert P. induction l1 as [|f l1 IH]; intros P; cbn [app script fst snd]; [by destruct (script l2 P)|].
  destruct (f P) as [r P1]. rewrite IH. by destruct (script l1 P1).
Qed.

(** The two parties meet. *)
Lemma handshake_heard i j e1 e2 at_ prologue hello answer P :
  owned P -> i <> j -> sessions P !! i = None -> sessions P !! j = None ->
  region at_ (zlen prologue) = true -> zlen prologue <= MAX_PROLOGUE ->
  zlen hello + nn_overhead 0 <= MAX_MESSAGE -> zlen answer + nn_overhead 1 <= MAX_MESSAGE ->
  exists hash P', zlen hash = HASH_SIZE /\ in_channel i j channel_messages P' /\
    script (handshake_script place i j e1 e2 at_ prologue hello answer) P
    = ([Ok Nothing; Ok Nothing; Ok (Bytes hello); Ok (Bytes answer); Ok Nothing; Ok Nothing;
        Ok (Bytes hash); Ok (Bytes hash)], P').
Proof.
  intros HP Hij Hi Hj Hat Hlen Hh Ha. assert (Hji : j <> i) by congruence.
  destruct (nn_start prologue e1 e2 Hlen) as (a & b & Hna & Hnb & Hst).
  destruct (create_step P i true e1 at_ prologue a) as (P1 & E1 & HP1 & H1i & H1k); try assumption.
  rewrite <-(H1k j) in Hj by done.
  destruct (create_step P1 j false e2 at_ prologue b) as (P2 & E2 & HP2 & H2j & H2k); try assumption.
  rewrite <-(H2k i) in H1i by done.
  destruct (handshake_transfer P2 0 i j a b hello) as (P3 & a1 & b1 & E3 & HP3 & H3i & H3j & Hst1);
    try assumption; [lia|].
  destruct (handshake_transfer P3 1 j i b1 a1 answer) as (P4 & b2 & a2 & E4 & HP4 & H4j & H4i & Hst2);
    try assumption; [lia|].
  destruct (nn_done _ _ Hst2) as (Hfa & Hfb & ta & tb & Hza & Hzb & Hhash & Hl).
  destruct (invoke_step P4 i (place EnterTransport) EnterTransport _ (InTransport ta) Nothing HP4 H4i)
    as (P5 & E5 & HP5 & H5i & H5k); [by apply Hplace|done|cbn [ideal]; by rewrite Hfa, Hza|].
  rewrite <-(H5k j) in H4j by done.
  destruct (invoke_step P5 j (place EnterTransport) EnterTransport _ (InTransport tb) Nothing HP5 H4j)
    as (P6 & E6 & HP6 & H6j & H6k); [by apply Hplace|done|cbn [ideal]; by rewrite Hfb, Hzb|].
  rewrite <-(H6k i) in H5i by done.
  destruct (invoke_step P6 i (place HandshakeHash) HandshakeHash _ (InTransport ta)
              (Bytes (get_handshake_hash ta)) HP6 H5i)
    as (P7 & E7 & HP7 & H7i & H7k); [by apply Hplace|reflexivity..|].
  rewrite <-(H7k j) in H6j by done.
  destruct (invoke_step P7 j (place HandshakeHash) HandshakeHash _ (InTransport tb)
              (Bytes (get_handshake_hash tb)) HP7 H6j)
    as (P8 & E8 & HP8 & H8j & H8k); [by apply Hplace|reflexivity..|].
  exists (get_handshake_hash ta), P8. split; [apply handshake_hash_size|]. split.
  { split; [done|]. exists ta, tb. rewrite (H8k i) by done. by split. }
  unfold handshake_script. rewrite <-Hhash in E8.
  by rewrite (script_cons _ _ _ _ _ E1), (script_cons _ _ _ _ _ E2), (script_cons _ _ _ _ _ E3),
    (script_cons _ _ _ _ _ E4), (script_cons _ _ _ _ _ E5), (script_cons _ _ _ _ _ E6),
    (script_cons _ _ _ _ _ E7), (script_cons _ _ _ _ _ E8).
Qed.

(** C19. Two [NoiseSession] objects of the two roles with one prologue complete
    their handshake in two messages, whose payloads arrive, agree on a handshake
    hash of 32 bytes, and from then on every plaintext of up to 65519 bytes that
    one encrypts is what the other decrypts, in both directions, in any order and
    across any number of rekeyings. *)
Theorem noise_conversation i j e1 e2 at_ prologue hello answer l :
  i <> j -> region at_ (zlen prologue) = true -> zlen prologue <= MAX_PROLOGUE ->
  zlen hello + nn_overhead 0 <= MAX_MESSAGE -> zlen answer + nn_overhead 1 <= MAX_MESSAGE ->
  forallb sayable l = true -> messages l <= channel_messages ->
  exists hash, zlen hash = HASH_SIZE /\
    fst (script (handshake_script place i j e1 e2 at_ prologue hello answer ++ (turn place i j <$> l)) program_start)
    = [Ok Nothing; Ok Nothing; Ok (Bytes hello); Ok (Bytes answer); Ok Nothing; Ok Nothing;
       Ok (Bytes hash); Ok (Bytes hash)] ++ (heard <$> l).
Proof.
  intros Hij Hat Hlen Hh Ha Hl Hn.
  destruct (handshake_heard i j e1 e2 at_ prologue hello answer program_start)
    as (hash & P & Hhash & HC & E); try done; [apply owned_start|].
  destruct (conversation_heard i j l _ P HC Hij Hn Hl) as (P' & E' & _).
  exists hash. split; [done|]. rewrite script_app, E. cbn [fst snd]. by rewrite E'.
Qed.
End channel.
End laws.
End noise.

(** ** A library and a conversation *)

Module NoiseScenario.
(** A handshake library without secrets: messages carry zeros where keys and tags
    would be. *)
Record ToyHandshake := { toy_initiator : bool; toy_step : nat; toy_prologue : list byte }.

Definition toy_overhead (k : nat) : Z := match k with O => 32 | _ => 48 end.
Definition toy_hash (prologue : list byte) : list byte := take 32 (prologue ++ zeros 32).

(** A payload with a tag, over an output slice. *)
Definition seal (n : Z) (l out : list byte) : option (list byte * Z) :=
  if zlen l + n <=? zlen out
  then Some ((l ++ zeros n) ++ drop (length l + Z.to_nat n) out, zlen l + n) else None.
Definition unseal (n : Z) (c buffer : list byte) : option (list byte * Z) :=
  if (n <=? zlen c) && (zlen c - n <=? zlen buffer)
     && bool_decide (drop (length c - Z.to_nat n) c = zeros n)
  then Some (take (length c - Z.to_nat n) c ++ drop (length c - Z.to_nat n) buffer, zlen c - n) else None.

Definition toy_exchange (writing : bool) (f : option (list byte * Z)) (hs : ToyHandshake) : ToyHandshake * outcome HandshakeError (list byte * Z) :=
  if (toy_step hs <? 2)%nat && Bool.eqb writing (Bool.eqb (toy_initiator hs) (Nat.even (toy_step hs))) then
    match f with
    | Some x => ({| toy_initiator := toy_initiator hs; toy_step := S (toy_step hs);
                    toy_prologue := toy_prologue hs |}, Done x)
    | None => (hs, Fails HsInvalidMessage)
    end
  else (hs, Fails HsInvalidState).

Definition of_option {A} (t : list byte) (x : option A) : list byte * outcome TransportError A :=
  (t, match x with Some a => Done a | None => Fails TrCipher end).

#[export] Instance toy : Clatter := {
  Handshake := ToyHandshake;
  Transport := list byte;
  hs_new _ prologue role := Done {| toy_initiator := role; toy_step := 0; toy_prologue := prologue |};
  get_next_message_overhead hs := Done (toy_overhead (toy_step hs));
  write_message hs l out := toy_exchange true (seal (toy_overhead (toy_step hs)) l out) hs;
  read_message hs c buffer := toy_exchange false (unseal (toy_overhead (toy_step hs)) c buffer) hs;
  is_finished hs := (toy_step hs =? 2)%nat;
  get_hash hs := toy_hash (toy_prologue hs);
  finalize hs := Done (toy_prologue hs);
  get_handshake_hash t := toy_hash t;
  send t l out := of_option t (seal TAG_SIZE l out);
  receive t c buffer := of_option t (unseal TAG_SIZE c buffer);
  rekey_sender t := (t, Done tt);
  rekey_receiver t := (t, Done tt)
}.

Lemma seal_fits n l out out' k :
  0 <= n -> seal n l out = Some (out', k) -> length out' = length out /\ 0 <= k <= zlen out.
Proof.
  unfold seal. intros Hn. destruct (Z.leb_spec (zlen l + n) (zlen out)); [|done]. intros [= <- <-].
  rewrite !length_app, length_drop. unfold zeros. rewrite length_replicate. lia.
Qed.
Lemma unseal_fits n c b b' k :
  0 <= n -> unseal n c b = Some (b', k) -> length b' = length b /\ 0 <= k <= zlen b.
Proof.
  unfold unseal. intros Hn. destruct (_ && _) eqn:E; [|done]. intros [= <- <-]. bool_inv.
  rewrite length_app, length_take, length_drop. lia.
Qed.
Lemma toy_overhead_nonneg k : 0 <= toy_overhead k.
Proof. by destruct k. Qed.
Lemma toy_exchange_done w f hs hs' x : toy_exchange w f hs = (hs', Done x) -> f = Some x.
Proof. unfold toy_exchange. repeat case_match; intros; by simplify_eq. Qed.
Lemma of_option_done {A} t (f : option A) t' x : of_option t f = (t', Done x) -> f = Some x.
Proof. unfold of_option. case_match; intros; by simplify_eq. Qed.
Lemma toy_hash_size l : zlen (toy_hash l) = HASH_SIZE.
Proof.
  unfold toy_hash. rewrite length_take, length_app. unfold zeros. rewrite length_replicate.
  unfold HASH_SIZE. lia.
Qed.

#[export] Instance toy_laws : ClatterLaws toy.
Proof.
  split.
  - intros hs o [= <-]. apply toy_overhead_nonneg.
  - intros *. intros H%toy_exchange_done. eapply seal_fits; [|done]. apply toy_overhead_nonneg.
  - intros *. intros H%toy_exchange_done. eapply unseal_fits; [|done]. apply toy_overhead_nonneg.
  - intros *. intros H%of_option_done. by eapply seal_fits in H.
  - intros *. intros H%of_option_done. by eapply unseal_fits in H.
  - intros hs. apply toy_hash_size.
  - intros t. apply toy_hash_size.
Qed.

Definition toy_stage (k : nat) (a b : ToyHandshake) : Prop :=
  exists prologue, a = {| toy_initiator := Nat.even k; toy_step := k; toy_prologue := prologue |} /\
    b = {| toy_initiator := negb (Nat.even k); toy_step := k; toy_prologue := prologue |}.

Lemma seal_some n l out :
  0 <= n -> zlen l + n <= zlen out ->
  exists out', seal n l out = Some (out', zlen l + n) /\ take (Z.to_nat (zlen l + n)) out' = l ++ zeros n.
Proof.
  intros Hn H. unfold seal. rewrite (proj2 (Z.leb_le _ _)) by done. eexists; split; [done|].
  apply take_app_length'. rewrite length_app. unfold zeros. rewrite length_replicate. lia.
Qed.

Lemma unseal_sealed n l buffer :
  0 <= n -> zlen l <= zlen buffer ->
  unseal n (l ++ zeros n) buffer = Some (l ++ drop (length l) buffer, zlen l).
Proof.
  intros Hn H. unfold unseal. rewrite length_app. unfold zeros. rewrite length_replicate.
  replace (length l + Z.to_nat n - Z.to_nat n)%nat with (length l) by lia.
  rewrite take_app_length, drop_app_length.
  rewrite !(proj2 (Z.leb_le _ _)), bool_decide_eq_true_2 by (done || lia).
  cbn [andb]. do 2 f_equal. lia.
Qed.

#[export] Program Instance toy_channel : NoiseChannel toy := {
  stage := toy_stage;
  linked n a b := a = b;
  nn_overhead := toy_overhead;
  channel_messages := 2 ^ 64 - 1
}.
Next Obligation. intros prologue e1 e2 _. do 2 eexists. split; [done|]. split; [done|]. by exists prologue. Qed.
Next Obligation. intros k a b (prologue & -> & ->) _. done. Qed.
Next Obligation.
  intros k a b payload out (prologue & -> & ->) Hk _ Hlen. cbn in *.
  destruct (seal_some _ _ _ (toy_overhead_nonneg k) Hlen) as (out' & Hs & Ht).
  unfold toy_exchange. cbn [toy_step toy_initiator toy_prologue]. rewrite Hs.
  rewrite (proj2 (Nat.ltb_lt k 2) Hk). rewrite Bool.eqb_reflx. cbn [Bool.eqb andb]. do 2 eexists. split; [done|].
  intros buffer Hb. rewrite Ht, unseal_sealed by (done || apply toy_overhead_nonneg).
  replace (Bool.eqb (negb (Nat.even k)) (Nat.even k)) with false by by destruct (Nat.even k).
  do 2 eexists. split; [done|]. split; [apply take_app_length|].
  exists prologue. rewrite Nat.even_succ, <-Nat.negb_even. by destruct (Nat.even k).
Qed.
Next Obligation.
  intros a b (prologue & -> & ->). split; [done|]. split; [done|]. by exists prologue, prologue.
Qed.
Next Obligation. done. Qed.
Next Obligation.
  intros n a b l out -> _ _ Hlen.
  destruct (seal_some TAG_SIZE l out ltac:(done) ltac:(lia)) as (out' & Hs & Ht).
  cbn [send toy receive]. rewrite Hs. do 2 eexists. split; [done|]. intros buffer Hb.
  apply seal_fits in Hs as [Hl _]; [|done]. rewrite take_ge in Ht by lia. rewrite Ht.
  rewrite unseal_sealed by (done || lia). rewrite drop_ge, app_nil_r by lia. by eexists.
Qed.
Next Obligation. intros n a b ->. by do 2 eexists. Qed.

Definition place (op : Operation) : Placement :=
  {| at_input := 2 ^ 20; at_output := 2 ^ 21; at_len := 2 ^ 22 |}.

Lemma placeable : allocator place.
Proof.
  intros op Hin. assert (Hout : output_size op <= 65551).
  { destruct op; cbn [input_size output_size] in *; unfold maximum_plaintext, MAX_MESSAGE, HASH_SIZE, TAG_SIZE in *;
      try case_match; lia. }
  assert (Hz : 0 <= input_size op /\ 0 <= output_size op).
  { destruct op; cbn [input_size output_size]; unfold maximum_plaintext, MAX_MESSAGE, HASH_SIZE, TAG_SIZE;
      rewrite ?Z.geb_leb; try case_match; bool_inv; lia. }
  unfold MAX_MESSAGE in Hin.
  unfold well_placed, place. cbn [at_input at_output at_len].
  rewrite !andb_true_iff. unfold region, disjoint_regions. split_and!; reflexivity || lia.
Qed.

(** Construct, move, assign over, use and destroy. *)
Definition lifetimes : list Action :=
  [Create 0 true 1 8 []; Create 1 false 2 8 []; MoveConstruct 2 0; Invoke 0 (place HandshakeComplete) HandshakeComplete;
   Invoke 2 (place (WriteHandshake [x01])) (WriteHandshake [x01]); MoveAssign 2 1; Destruct 0; Destruct 1; Destruct 2].

Lemma noise_memory_safe_witness :
  let x := acts lifetimes program_start in
  Forall (fun r => r <> Throw Fault) (fst x) /\ boxes (memory (snd x)) = ∅ /\
  nth_error (fst x) 3 = Some (Throw (Raise (noise_error "check handshake" InvalidArgument))).
Proof.
  destruct (noise_memory_safe lifetimes (fst (acts lifetimes program_start)) (snd (acts lifetimes program_start)))
    as (H1 & _ & _ & H4); [apply surjective_pairing|].
  split; [exact H1|]. split; [apply H4; vm_compute; reflexivity|vm_compute; reflexivity].
Defined.

Lemma noise_refines_sessions_witness :
  ideal_acts lifetimes ∅
  = (fst (acts lifetimes program_start), sessions (snd (acts lifetimes program_start))).
Proof. apply noise_refines_sessions; [vm_compute; reflexivity|apply surjective_pairing]. Defined.

Definition shaken : list Action :=
  [Create 0 true 1 8 []; Create 1 false 2 8 [];
   Invoke 0 (place (WriteHandshake [])) (WriteHandshake []);
   Invoke 1 (place (ReadHandshake [])) (ReadHandshake (zeros 32));
   Invoke 1 (place (WriteHandshake [])) (WriteHandshake []);
   Invoke 0 (place (ReadHandshake [])) (ReadHandshake (zeros 48));
   Invoke 0 (place EnterTransport) EnterTransport; Invoke 1 (place EnterTransport) EnterTransport].
Definition forged : list byte := replicate 20 x01.
Definition after : list Action :=
  [Invoke 0 (place (Encrypt [x01])) (Encrypt [x01]); Destruct 1;
   Invoke 0 (place (Decrypt (zeros 16))) (Decrypt (zeros 16)); Invoke 0 (place RekeySender) RekeySender].

Lemma noise_failure_final_witness :
  Forall2 (refuses 0) (Invoke 0 (place (Decrypt forged)) (Decrypt forged) :: after)
    (fst (acts (Invoke 0 (place (Decrypt forged)) (Decrypt forged) :: after) (snd (acts shaken program_start)))).
Proof.
  eapply (noise_failure_final (lib := toy) shaken _ (snd (acts shaken program_start)) 0 (place (Decrypt forged)) forged [] [] TrCipher after).
  - apply surjective_pairing.
  - vm_compute. reflexivity.
  - vm_compute. split; discriminate.
  - vm_compute. reflexivity.
  - vm_compute. reflexivity.
  - reflexivity.
  - apply surjective_pairing.
Defined.

Lemma noise_conversation_witness :
  exists hash, zlen hash = HASH_SIZE /\
    fst (script (handshake_script place 0 1 5 6 8 [x02] [x03] [] ++
                 (turn place 0 1 <$> [Say true [x04; x05]; Rekey true; Say false []; Say true [x06]])) program_start)
    = [Ok Nothing; Ok Nothing; Ok (Bytes [x03]); Ok (Bytes []); Ok Nothing; Ok Nothing;
       Ok (Bytes hash); Ok (Bytes hash)] ++
      [Ok (Bytes [x04; x05]); Ok Nothing; Ok (Bytes []); Ok (Bytes [x06])].
Proof.
  apply (noise_conversation place placeable 0 1 5 6 8 [x02] [x03] [] [Say true [x04; x05]; Rekey true; Say false []; Say true [x06]]);
    [lia|vm_compute; congruence..].
Defined.
End NoiseScenario.
