(* ===== verification/Daemon.v ===== *)
(** * The daemon from its start

    [daemon/main.cpp]: the identity and the trust store are opened before anything
    else, then the threads run.  [main_prepare] is the first part; [daemon_life] the
    second: the steps of the daemon ([Discovery.v]), the test message of the sender
    thread, and requests of the trust store (which the process itself does not yet
    make; an administrator's tool or another process does), from the tables that
    were found on disk.  The theorems put the components together, from the files
    to the sessions. *)

From S2P Require Import Prelude V2Framing Uuid Storage Identity IdentityHistory TrustTables TrustStore TrustLedger TrustContract TrustOpen SessionAuth EventBus Registry Packet Connection Network Service Avahi Discovery.

Inductive BootError : Type :=
| IdentityError (e : StorageError)
| TrustError (e : OpenError).

Section boot.
Context {SO : Sodium}.

(** [get_my_device_identity()], then [std::make_shared<TrustStore>()]; an exception of
    either leaves [main]. *)
Definition main_prepare (ienv : IdentityEnv) (identity_name : string) (oenv : OpenEnv) (sys : Sys) (site : Site)
  : result BootError (DeviceIdentity * Tables) * (Sys * Site) :=
  match load_or_create ienv identity_name sys with
  | (Throw e, sys') => (Throw (IdentityError e), (sys', site))
  | (Ok identity, sys') =>
      match open_store oenv site with
      | (Throw e, site') => (Throw (TrustError e), (sys', site'))
      | (Ok tables, site') => (Ok (identity, tables), (sys', site'))
      end
  end.
End boot.

Section daemon.
Context {txt : SqlText} {JL : JsonLibrary} (my_device_id : string).

(** The sender thread: it looks for a READY peer once a second, and sends one
    message to all of them when there is one. *)
Definition found_ready (devices : list Device) : bool :=
  existsb (fun d => bool_decide (dev_state d = READY) && negb (bool_decide (dev_id d = my_device_id))) devices.
Definition send_test_message : stx World Exn bool :=
  let! devices := gets w_registry in
  if found_ready devices then broadcast_message my_device_id "Hello from my system";;; ret true else ret false.

(** The life of a daemon that opened the tables [t]: what it went through, with the
    requests that reached the store, oldest first. *)
Inductive daemon_life (t : Tables) : history -> Net * Disc -> Prop :=
| life_start env data_version clock :
    daemon_life t [] (initial (env, mkImpl t 0 data_version 0 0) clock, no_discovery)
| life_step h nd nd' :
    daemon_life t h nd -> daemon_step my_device_id nd nd' ->
    w_store (n_world nd'.1) = w_store (n_world nd.1) -> daemon_life t h nd'
| life_sender h n d :
    daemon_life t h (n, d) ->
    (forall dev, dev ∈ w_registry (n_world n) -> free (dev_session_id dev) (n_world n)) ->
    daemon_life t h (set_world (snd (send_test_message (n_world n))) n, d)
| life_request h n d env req env' :
    daemon_life t h (n, d) ->
    daemon_life t (h ++ [(env, req)])
      (set_world (set_store (env', snd (TrustLedger.execute env req (w_store (n_world n)).2)) (n_world n)) n, d).

(** ** Broadcasts are steps of the network *)

(** A step that leaves the store alone. *)
Definition store_step (n n' : Net) : Prop :=
  step my_device_id n n' /\ w_store (n_world n') = w_store (n_world n).

Lemma free_io sid j w w' : io_frame sid w w' -> free j w -> free j w'.
Proof.
  intros [] (c & Hc & Hb). destruct (decide (j = sid)) as [->|Hne].
  - rewrite Hc in fr_conn. inversion fr_conn as [c0 c' Hev Heq Hl|]; subst. exists c'. split; [done|].
    revert Hb. destruct Hev. unfold busy. by rewrite ev_critical, ev_cleanup.
  - exists c. by rewrite fr_others.
Qed.

Lemma broadcast_steps packet devices n :
  (forall dev, dev ∈ devices -> dev_connection dev = Some (dev_session_id dev) /\ free (dev_session_id dev) (n_world n)) ->
  rtc store_step n (set_world (snd (broadcast_loop my_device_id packet devices (n_world n))) n).
Proof.
  revert n. induction devices as [|dev devices IH]; intros n Hd.
  - destruct n. apply rtc_refl.
  - cbn [broadcast_loop]. rewrite bind_gets. unfold Datatypes.id.
    assert (Hrest : forall dev, dev ∈ devices -> dev_connection dev = Some (dev_session_id dev) /\ free (dev_session_id dev) (n_world n))
      by (intros; apply Hd; by right).
    destruct (Hd dev) as [-> Hfree]; [left|]. destruct (lock_weak _ _) as [[sid b]|] eqn:Hl; [|by apply IH].
    assert (sid = dev_session_id dev) as ->.
    { unfold lock_weak in Hl. destruct (alive (n_world n) (dev_session_id dev)); [|done]. by injection Hl. }
    destruct (_ || _); [by apply IH|]. cbn [send_packet_to].
    assert (Hs : store_step n (set_world (snd (send_packet (dev_session_id dev) packet (n_world n))) n)).
    { split; [by apply step_send|]. apply (fr_store _ _ _ (send_packet_io (dev_session_id dev) packet (n_world n))). }
    unfold bind. destruct (send_packet (dev_session_id dev) packet (n_world n)) as [[z|e] w'] eqn:E;
      cbn [snd] in *; [|by apply rtc_once].
    eapply rtc_l; [exact Hs|]. apply (IH (set_world w' n)). intros dev' Hdev'. destruct (Hrest _ Hdev').
    split; [done|]. eapply free_io; [|done]. pose proof (send_packet_io (dev_session_id dev) packet (n_world n)) as Hio.
    by rewrite E in Hio.
Qed.

Context {JLaws : JsonLaws}.

Lemma test_message_steps n :
  reachable my_device_id n ->
  (forall dev, dev ∈ w_registry (n_world n) -> free (dev_session_id dev) (n_world n)) ->
  rtc store_step n (set_world (snd (send_test_message (n_world n))) n).
Proof.
  intros Hr Hf. unfold send_test_message. rewrite bind_gets.
  destruct (found_ready _); [|destruct n; apply rtc_refl].
  destruct (reachable_devices my_device_id n Hr) as (Had & _ & _). rewrite Forall_forall in Had.
  pose proof (broadcast_steps (message_json my_device_id "Hello from my system") (w_registry (n_world n)) n) as Hb.
  unfold broadcast_message. rewrite bool_decide_eq_false_2 by done.
  unfold bind at 1 2. cbn [gets].
  destruct (broadcast_loop _ _ _ _) as [[u|e] w]; cbn [snd ret] in *; apply Hb; intros dev Hdev; split;
    try (by apply Hf); by apply (Had dev Hdev).
Qed.
(** ** From the tables on disk to a READY session *)

Lemma replay_app h1 h2 im : replay (h1 ++ h2) im = replay h2 (replay h1 im).
Proof. revert im. induction h1 as [|[env req] h1 IH]; intros im; cbn; [done|apply IH]. Qed.

(** The store of a past state is the opened one after a part of the requests. *)
Definition stored_by (t : Tables) (data_version : Z) (h : history) (n : Net) : Prop :=
  (w_store (n_world n)).2 = replay h (mkImpl t 0 data_version 0 0).

Definition past_stores (t : Tables) (data_version : Z) (h : history) (past : list Net) : Prop :=
  Forall (fun n0 => exists h1 h2, h = h1 ++ h2 /\ stored_by t data_version h1 n0) past.

Lemma past_extend t dv h h' past : past_stores t dv h past -> past_stores t dv (h ++ h') past.
Proof.
  intros H. eapply Forall_impl; [exact H|]. intros n0 (h1 & h2 & -> & Hs). exists h1, (h2 ++ h'). by rewrite (assoc_L (++)).
Qed.
Lemma past_cons t dv h past n : stored_by t dv h n -> past_stores t dv h past -> past_stores t dv h (n :: past).
Proof. intros Hn Hp. constructor; [|done]. exists h, []. by rewrite app_nil_r. Qed.

Lemma stores_rtc t dv h past n n' :
  rtc store_step n n' -> execution my_device_id past n -> stored_by t dv h n -> past_stores t dv h past ->
  exists past', execution my_device_id past' n' /\ stored_by t dv h n' /\ past_stores t dv h past'.
Proof.
  intros Hs. revert past. induction Hs as [|n n1 n' [Hs Heq] _ IH]; intros past He Hn Hp; [eauto|].
  apply (IH (n :: past)); [by eapply execution_step|by unfold stored_by; rewrite Heq|by apply past_cons].
Qed.

Lemma life_execution t h nd :
  daemon_life t h nd ->
  exists dv past, execution my_device_id past nd.1 /\ stored_by t dv h nd.1 /\ past_stores t dv h past.
Proof.
  induction 1 as [env dv clock|h [n d] [n' d'] _ (dv & past & He & Hn & Hp) Hs Heq
    |h n d _ (dv & past & He & Hn & Hp) Hf|h n d env req env' _ (dv & past & He & Hn & Hp)]; cbn [fst] in *.
  - exists dv, []. split; [apply execution_initial|]. split; [done|by constructor].
  - exists dv. destruct (daemon_step_network my_device_id n d n' d' (execution_reachable _ _ _ He) Hs) as [->|Hstep]; [eauto|].
    exists (n :: past). split; [by eapply execution_step|]. unfold stored_by in *. by rewrite Heq; split; [|apply past_cons].
  - exists dv. eapply (stores_rtc t dv h past n); [|exact He|exact Hn|exact Hp]. apply test_message_steps; [by eapply execution_reachable|done].
  - exists dv, (n :: past). split; [eapply execution_step; [exact He|apply step_store]|]. split.
    + unfold stored_by in *. cbn. by rewrite replay_app, Hn.
    + by apply past_extend, past_cons.
Qed.

Lemma current_stored (s : Env * Impl) a :
  authorization_is_current s a = true ->
  active_authorization (ap_uuid a) (ap_public_key a) (im_tables s.2)
  = Some (mkActivePeerAuthorization (ap_revision a) (ap_permissions a)).
Proof.
  unfold authorization_is_current, matches_current.
  destruct (query_authorization _ _ _) as [[cur|]|e] eqn:E; [|done..].
  apply query_exact in E. cbn in E. intros H. bool_inv. rewrite <-E. destruct cur. cbn in *. by subst.
Qed.

Lemma life_ready t h n d sid c :
  daemon_life t h (n, d) -> w_connections (n_world n) !! sid = Some c -> c_ready c = true ->
  exists a h1 h2 dv, c_authorized_peer c = Some a /\ ap_device_id a <> my_device_id /\ h = h1 ++ h2 /\
    active_authorization (ap_uuid a) (ap_public_key a) (im_tables (replay h1 (mkImpl t 0 dv 0 0)))
    = Some (mkActivePeerAuthorization (ap_revision a) (ap_permissions a)).
Proof.
  intros (dv & past & He & _ & Hp)%life_execution Hc Hr. cbn [fst] in *.
  destruct (ready_history _ _ _ _ _ He Hc Hr) as (a & n0 & Ha & Hn0 & Hcur & Hne & _).
  unfold past_stores in Hp. rewrite Forall_forall in Hp. destruct (Hp _ Hn0) as (h1 & h2 & -> & Hs).
  exists a, h1, h2, dv. split; [done|]. split; [done|]. split; [done|]. rewrite <-Hs. by apply current_stored.
Qed.

(** Requests that can add a device. *)
Definition adds_device (er : Env * request) : bool :=
  match er.2 with ReqImport _ | ReqFinalize _ _ _ => true | _ => false end.

Lemma run_empty h l l' : ledger_run h l l' -> l = ∅ -> forallb (fun er => negb (adds_device er)) h = true -> l' = ∅.
Proof.
  induction 1 as [|env req h l l' _ IH|env req h u a l l1 l' Hp Hs _ IH]; intros -> Hh; [done| |];
    cbn [forallb] in Hh; apply andb_prop in Hh as [Hr Hh]; [by apply IH|].
  destruct req; cbn in Hp, Hr; try done; destruct Hp as [<- ->]; inversion Hs; subst;
    match goal with H : ∅ !! _ = Some _ |- _ => by rewrite lookup_empty in H end.
Qed.

Lemma nobody_authorized h dv u k :
  forallb (fun er => negb (adds_device er)) h = true ->
  active_authorization u k (im_tables (replay h (mkImpl empty_tables 0 dv 0 0))) = None.
Proof.
  intros Hh. destruct (replay_effect h (mkImpl empty_tables 0 dv 0 0) empty_tables_ok) as [_ Hrun].
  apply run_empty in Hrun; [|done|done]. unfold im_ledger in Hrun.
  unfold active_authorization, select_active_revision.
  destruct (trusted_devices _ !! u) as [row|] eqn:Hrow; [|done].
  pose proof (ledger_lookup (im_tables (replay h (mkImpl empty_tables 0 dv 0 0))) u) as Hl.
  by rewrite Hrun, Hrow, lookup_empty in Hl.
Qed.
End daemon.

(** ** From the files *)

Section files.
Context {SO : Sodium} {SL : SodiumLaws} {txt : SqlText} {JL : JsonLibrary} {JLaws : JsonLaws}.

Lemma main_prepare_ok ienv name oenv sys site identity t s :
  main_prepare ienv name oenv sys site = (Ok (identity, t), s) ->
  load_or_create ienv name sys = (Ok identity, s.1) /\ open_store oenv site = (Ok t, s.2).
Proof.
  unfold main_prepare. destruct (load_or_create ienv name sys) as [[d|e] sys'] eqn:E1; [|done].
  destruct (open_store oenv site) as [[tb|e] site'] eqn:E2; [|done]. by intros [= -> -> <-].
Qed.

(** From the files to the sessions: after [main] has loaded the identity and opened
    the trust store, a session that is READY, at any moment of the daemon's life
    and whatever its threads, its peers and the users of the store did, is
    authorized for a device other than this one, under the key, revision and
    permissions that the opened tables held after the requests made up to an
    earlier moment. *)
Theorem ready_from_disk ienv name oenv sys site identity t s h n d sid c :
  main_prepare ienv name oenv sys site = (Ok (identity, t), s) ->
  daemon_life (device_id_ identity) t h (n, d) ->
  w_connections (n_world n) !! sid = Some c -> c_ready c = true ->
  tables_of (site_content s.2) = Some t /\
  exists a h1 h2 data_version, c_authorized_peer c = Some a /\ ap_device_id a <> device_id_ identity /\ h = h1 ++ h2 /\
    active_authorization (ap_uuid a) (ap_public_key a) (im_tables (replay h1 (mkImpl t 0 data_version 0 0)))
    = Some (mkActivePeerAuthorization (ap_revision a) (ap_permissions a)).
Proof.
  intros [_ Ho]%main_prepare_ok Hlife Hc Hr. split; [|by eapply life_ready].
  apply open_store_run in Ho. by destruct Ho as (_ & ? & _).
Qed.

(** C18. A first start trusts nobody: when there was no database, no session of the
    daemon ever becomes READY, whoever connects and whatever the threads do, until
    a device is imported or a pairing is completed. *)
Theorem first_start_trusts_nobody ienv name oenv sys site identity t s h n d sid c :
  site_files site !! oe_name oenv = None ->
  main_prepare ienv name oenv sys site = (Ok (identity, t), s) ->
  forallb (fun er => negb (adds_device er)) h = true ->
  daemon_life (device_id_ identity) t h (n, d) ->
  w_connections (n_world n) !! sid = Some c -> c_ready c = false.
Proof.
  intros Hnone [_ Ho]%main_prepare_ok Hh Hlife Hc. destruct (c_ready c) eqn:Hr; [|done]. exfalso.
  destruct (life_ready _ _ _ _ _ _ _ Hlife Hc Hr) as (a & h1 & h2 & dv & _ & _ & -> & Hact).
  apply open_store_run in Ho. rewrite Hnone in Ho. destruct Ho as (Hspec & Ht & _).
  injection Hspec as Hspec. rewrite <-Hspec in Ht. injection Ht as <-.
  rewrite forallb_app in Hh. apply andb_prop in Hh as [Hh1 _].
  pose proof (nobody_authorized h1 dv (ap_uuid a) (ap_public_key a) Hh1) as Hno.
  unfold empty_tables in Hno. congruence.
Qed.
End files.

(** ** A first start, an import, a session *)

Module DaemonScenario.
Import Scenario AuthScenario SmallJson ConnectionScenario NetworkScenario OpenScenario.
#[local] Existing Instance IdentityScenario.toy_sodium.

Definition owner : IdentityEnv := mkIdentityEnv 1000 18 3 (replicate 15 x00 ++ [x01]) (repeat x07 32).
Definition identity0 : DeviceIdentity := mkDeviceIdentity my_id (repeat x07 32) (repeat x07 64).
Definition booted : result BootError (DeviceIdentity * Tables) * (Sys * Site) :=
  main_prepare owner "device_id" machine (mkSys IdentityScenario.empty [] []) (empty_site []).

Lemma booted_run :
  main_prepare owner "device_id" machine (mkSys IdentityScenario.empty [] []) (empty_site [])
  = (Ok (identity0, empty_tables), snd booted).
Proof. apply run_eta. vm_compute. reflexivity. Qed.

(** The peer is imported, and a pairing begun; then a session is made READY. *)
Definition requests : history := [(env0, ReqImport device1); (env0, ReqCreateAttempt attempt2)].

Lemma life_initial t h env im req env' r im' :
  daemon_life my_id t h (initial (env, im) 0, no_discovery) -> TrustLedger.execute env req im = (r, im') ->
  daemon_life my_id t (h ++ [(env, req)]) (initial (env', im') 0, no_discovery).
Proof.
  intros H Hreq. pose proof (life_request my_id t h _ _ env req env' H) as Hl.
  cbn [initial n_world w_store snd] in Hl. rewrite Hreq in Hl. exact Hl.
Qed.

Lemma import_request : TrustLedger.execute env0 (ReqImport device1) fresh_store = (Ok tt, imported).
Proof. exact imported_run. Qed.
Lemma attempt_request : TrustLedger.execute env0 (ReqCreateAttempt attempt2) imported = (Ok tt, ready).
Proof. exact ready_run. Qed.

Lemma life0 : daemon_life my_id empty_tables requests (n0, no_discovery).
Proof.
  exact (life_initial empty_tables [(env0, ReqImport device1)] env0 imported (ReqCreateAttempt attempt2) env0 _ ready
    (life_initial empty_tables [] env0 fresh_store (ReqImport device1) env0 _ imported
      (life_start my_id empty_tables env0 0 0) import_request) attempt_request).
Qed.

Lemma life_net n n' :
  daemon_life my_id empty_tables requests (n, no_discovery) -> step my_id n n' ->
  w_store (n_world n') = w_store (n_world n) ->
  daemon_life my_id empty_tables requests (n', no_discovery).
Proof. intros Hl Hs Heq. eapply life_step; [exact Hl|by apply daemon_net|exact Heq]. Qed.

Lemma life6 : daemon_life my_id empty_tables requests (n6, no_discovery).
Proof.
  apply (life_net n5); [|exact step6|reflexivity].
  apply (life_net n4); [|exact step5|reflexivity].
  apply (life_net n3); [|exact step4|reflexivity].
  apply (life_net n2); [|exact step3|reflexivity].
  apply (life_net n1); [|exact step2|reflexivity].
  apply (life_net n0); [|exact step1|reflexivity].
  exact life0.
Qed.

Lemma ready_from_disk_witness :
  exists a h1 h2 data_version, c_authorized_peer (conn 1 (n_world n6)) = Some a /\ requests = h1 ++ h2 /\
    active_authorization (ap_uuid a) (ap_public_key a) (im_tables (replay h1 (mkImpl empty_tables 0 data_version 0 0)))
    = Some (mkActivePeerAuthorization (ap_revision a) (ap_permissions a)).
Proof.
  destruct (ready_from_disk owner "device_id" machine _ _ identity0 empty_tables _ requests n6 no_discovery 1
              (conn 1 (n_world n6)) booted_run life6) as (_ & a & h1 & h2 & dv & Ha & _ & Hh & Hact).
  - vm_compute. reflexivity.
  - vm_compute. reflexivity.
  - exists a, h1, h2, dv. split; [exact Ha|]. split; [exact Hh|exact Hact].
Defined.

(** A stranger connects to a daemon that was just started. *)
Definition fresh_net : Net := initial (env0, mkImpl empty_tables 0 0 0 0) 0.
Definition visited : Net := set_world (snd (create 5 Incoming (n_world fresh_net))) fresh_net.

Lemma life_visited : daemon_life my_id empty_tables [] (visited, no_discovery).
Proof.
  eapply life_step; [apply (life_start my_id empty_tables env0 0 0)| |reflexivity].
  apply daemon_net, (step_create my_id fresh_net 5 Incoming). vm_compute. reflexivity.
Qed.

Lemma first_start_trusts_nobody_witness : c_ready (conn 1 (n_world visited)) = false.
Proof.
  apply (first_start_trusts_nobody owner "device_id" machine (mkSys IdentityScenario.empty [] []) (empty_site [])
           identity0 empty_tables (snd booted) [] visited no_discovery 1).
  - reflexivity.
  - exact booted_run.
  - reflexivity.
  - exact life_visited.
  - vm_compute. reflexivity.
Defined.
End DaemonScenario.
