(* ===== verification/Process.v ===== *)
(** * The process ([daemon/main.cpp], [core/utils/device_id.cpp])

    [main] statement by statement, with its threads: it ignores SIGPIPE, loads the
    identity, opens the trust store, starts the monitor with the session
    authentication, starts four threads, runs discovery itself and joins the threads.
    A statement that throws, or a thread that does, ends the process, since an
    exception that leaves [main] or a thread calls [std::terminate].  Beside [main] the
    threads that exist do what [Discovery.v] and [Daemon.v] say; each kind of step needs the
    thread that makes it.  The theorems say that the process fails closed, that READY
    sessions go back to the tables on disk, and how [main] ends. *)

From S2P Require Import Prelude V2Framing Uuid Storage Identity IdentityHistory TrustTables TrustStore TrustLedger TrustContract TrustOpen SessionAuth EventBus Registry Packet Connection Network Service Avahi Discovery Daemon.

(** ** Data *)

(** The monitor belongs to the session authentication, the others to [main]. *)
Inductive thread : Type := MonitorThread | ServerThread | PublisherThread | SenderThread | ApiThread.
#[export] Instance thread_eq_dec : EqDecision thread.
Proof. solve_decision. Defined.
#[export] Instance thread_countable : Countable thread.
Proof.
  refine (inj_countable'
    (fun t => match t with MonitorThread => 0 | ServerThread => 1 | PublisherThread => 2 | SenderThread => 3 | ApiThread => 4 end%nat)
    (fun n => match n with 0 => MonitorThread | 1 => ServerThread | 2 => PublisherThread | 3 => SenderThread | _ => ApiThread end%nat) _).
  by intros [].
Defined.
Inductive thread_state : Type := Running | Finished.

Inductive statement : Type :=
| IgnoreSigpipe
| LoadIdentity
| OpenStore
| MakeAuthentication
| MakeServer
| MakeDiscoveryClient
| MakeDiscoveryService
| StartThread (t : thread)
| RunDiscovery
| Join (t : thread)
| ReturnZero.

Definition main_code : list statement :=
  [IgnoreSigpipe; LoadIdentity; OpenStore; MakeAuthentication;
   MakeServer; MakeDiscoveryClient; MakeDiscoveryService;
   StartThread ServerThread; StartThread PublisherThread; StartThread SenderThread; StartThread ApiThread;
   RunDiscovery;
   Join ServerThread; Join PublisherThread; Join SenderThread; Join ApiThread;
   ReturnZero].

Inductive process_end : Type := Exited (code : Z) | Terminated.

(** What a statement of [main] meets: whether it throws, and what the authentication
    finds of the store and of the clock. *)
Record MainEvent : Type := mkMainEvent {
  me_throws : bool;
  me_env : Env;
  me_data_version : Z;
  me_clock : Z
}.

Section process.
Context {SO : Sodium} {txt : SqlText} {JL : JsonLibrary}.

Record Process : Type := mkProcess {
  pr_pc : nat;
  pr_end : option process_end;
  pr_sigpipe_ignored : bool;
  pr_sys : Sys;
  pr_site : Site;
  pr_identity : option DeviceIdentity;        (** the static of [get_my_device_identity] *)
  pr_tables : option Tables;                  (** what the store was opened with *)
  pr_threads : gmap thread thread_state;
  pr_work : option (history * (Net * Disc))   (** the shared state, once there is one *)
}.
Definition set_pc x p := mkProcess x (pr_end p) (pr_sigpipe_ignored p) (pr_sys p) (pr_site p) (pr_identity p) (pr_tables p) (pr_threads p) (pr_work p).
Definition set_end x p := mkProcess (pr_pc p) x (pr_sigpipe_ignored p) (pr_sys p) (pr_site p) (pr_identity p) (pr_tables p) (pr_threads p) (pr_work p).
Definition set_sigpipe x p := mkProcess (pr_pc p) (pr_end p) x (pr_sys p) (pr_site p) (pr_identity p) (pr_tables p) (pr_threads p) (pr_work p).
Definition set_sys x p := mkProcess (pr_pc p) (pr_end p) (pr_sigpipe_ignored p) x (pr_site p) (pr_identity p) (pr_tables p) (pr_threads p) (pr_work p).
Definition set_site x p := mkProcess (pr_pc p) (pr_end p) (pr_sigpipe_ignored p) (pr_sys p) x (pr_identity p) (pr_tables p) (pr_threads p) (pr_work p).
Definition set_identity x p := mkProcess (pr_pc p) (pr_end p) (pr_sigpipe_ignored p) (pr_sys p) (pr_site p) x (pr_tables p) (pr_threads p) (pr_work p).
Definition set_opened x p := mkProcess (pr_pc p) (pr_end p) (pr_sigpipe_ignored p) (pr_sys p) (pr_site p) (pr_identity p) x (pr_threads p) (pr_work p).
Definition set_threads x p := mkProcess (pr_pc p) (pr_end p) (pr_sigpipe_ignored p) (pr_sys p) (pr_site p) (pr_identity p) (pr_tables p) x (pr_work p).
Definition set_work x p := mkProcess (pr_pc p) (pr_end p) (pr_sigpipe_ignored p) (pr_sys p) (pr_site p) (pr_identity p) (pr_tables p) (pr_threads p) x.

Context (ienv : IdentityEnv) (identity_name : string) (oenv : OpenEnv).

(** ** The identity of the process *)

(** A local static: an exception leaves it uninitialized. *)
Definition get_my_device_identity (p : Process) : result StorageError DeviceIdentity * Process :=
  match pr_identity p with
  | Some known => (Ok known, p)
  | None =>
      match load_or_create ienv identity_name (pr_sys p) with
      | (Ok loaded, sys) => (Ok loaded, set_identity (Some loaded) (set_sys sys p))
      | (Throw e, sys) => (Throw e, set_sys sys p)
      end
  end.
Definition get_my_device_id (p : Process) : result StorageError string * Process :=
  let '(r, p') := get_my_device_identity p in
  (match r with Ok known => Ok (device_id_ known) | Throw e => Throw e end, p').

(** ** [main] *)

Definition advance (p : Process) : Process := set_pc (S (pr_pc p)) p.
Definition terminate (p : Process) : Process := set_end (Some Terminated) p.

(** The next statement of [main]; [None] when it waits or the process has ended. *)
Definition main_next (ev : MainEvent) (p : Process) : option Process :=
  match pr_end p, main_code !! pr_pc p with
  | None, Some s =>
      match s with
      | IgnoreSigpipe => Some (advance (set_sigpipe true p))
      | LoadIdentity =>
          let '(r, p') := get_my_device_identity p in
          Some (match r with Ok _ => advance p' | Throw _ => terminate p' end)
      | OpenStore =>
          match open_store oenv (pr_site p) with
          | (Ok tables, site) => Some (advance (set_opened (Some tables) (set_site site p)))
          | (Throw _, site) => Some (terminate (set_site site p))
          end
      | MakeAuthentication =>
          match pr_tables p with
          | Some tables =>
              if me_throws ev then Some (terminate p)
              else Some (advance (set_work (Some ([], (initial (me_env ev, mkImpl tables 0 (me_data_version ev) 0 0) (me_clock ev), no_discovery)))
                                   (set_threads (<[MonitorThread := Running]> (pr_threads p)) p)))
          | None => Some (terminate p)
          end
      | MakeServer | MakeDiscoveryClient | MakeDiscoveryService | RunDiscovery =>
          Some (if me_throws ev then terminate p else advance p)
      | StartThread t =>
          Some (if me_throws ev then terminate p else advance (set_threads (<[t := Running]> (pr_threads p)) p))
      | Join t =>
          match pr_threads p !! t with
          | Some Running => None
          | _ => Some (advance p)
          end
      | ReturnZero =>
          Some (set_end (Some (Exited 0))
                 (set_work (prod_map id (prod_map id destroy) <$> pr_work p) p))
      end
  | _, _ => None
  end.

(** ** The threads *)

(** [main] is inside [discovery.start()]. *)
Definition discovering (p : Process) : Prop := main_code !! pr_pc p = Some RunDiscovery.

(** What the threads of the process do to the shared state. *)
Inductive activity (my_device_id : string) (p : Process) : Net * Disc -> Net * Disc -> Prop :=
(* the monitor, the workers of sessions, the API's readers, the peers and the clock *)
| act_session n n' d :
    step my_device_id n n' -> w_next_session_id (n_world n') = w_next_session_id (n_world n) ->
    w_store (n_world n') = w_store (n_world n) ->
    activity my_device_id p (n, d) (n', d)
| act_accept n d fd :
    pr_threads p !! ServerThread = Some Running -> w_next_session_id (n_world n) < 2 ^ 64 - 1 ->
    activity my_device_id p (n, d) (set_world (snd (create fd Incoming (n_world n))) n, d)
| act_discovered n d device :
    discovering p -> di_alive d = true ->
    activity my_device_id p (n, d) (n, snd (on_device_discovered my_device_id (w_registry (n_world n)) device true d))
(* the detached threads of discovery *)
| act_connect_failed n d i w sock inet_pton connected closed :
    di_workers d !! i = Some w -> wk_phase w = Connecting ->
    connect_socket sock (wk_ip w) (wk_port w) inet_pton connected = (None, closed) ->
    activity my_device_id p (n, d) (n, worker_waits i d)
| act_connected n d i w sock inet_pton connected fd :
    di_workers d !! i = Some w -> wk_phase w = Connecting ->
    connect_socket sock (wk_ip w) (wk_port w) inet_pton connected = (Some fd, []) -> w_next_session_id (n_world n) < 2 ^ 64 - 1 ->
    activity my_device_id p (n, d) (set_world (snd (create fd Outgoing (n_world n))) n, worker_waits i d)
| act_worker_ends n d i w :
    di_workers d !! i = Some w -> wk_phase w = Waiting ->
    activity my_device_id p (n, d) (n, worker_ends i w d)
(* a detached thread of the API server *)
| act_send n d device_id text :
    is_Some (pr_threads p !! ApiThread) ->
    (forall dev, find_id device_id (w_registry (n_world n)) = Some dev -> free (dev_session_id dev) (n_world n)) ->
    activity my_device_id p (n, d) (set_world (snd (send_to_device my_device_id device_id text (n_world n))) n, d)
| act_test_message n d :
    pr_threads p !! SenderThread = Some Running ->
    (forall dev, dev ∈ w_registry (n_world n) -> free (dev_session_id dev) (n_world n)) ->
    activity my_device_id p (n, d) (set_world (snd (send_test_message my_device_id (n_world n))) n, d).

(** A step of the process; the store may also be used by an administrator's tool. *)
Inductive process_step : Process -> Process -> Prop :=
| proc_main ev p p' : main_next ev p = Some p' -> process_step p p'
| proc_thread_ends p t :
    pr_end p = None -> t <> MonitorThread -> pr_threads p !! t = Some Running ->
    process_step p (set_threads (<[t := Finished]> (pr_threads p)) p)
| proc_thread_throws p t :
    pr_end p = None -> pr_threads p !! t = Some Running -> process_step p (terminate p)
| proc_work p me h nd nd' :
    pr_end p = None -> pr_identity p = Some me -> pr_work p = Some (h, nd) ->
    activity (device_id_ me) p nd nd' -> process_step p (set_work (Some (h, nd')) p)
| proc_request p h n d env req env' :
    pr_end p = None -> pr_work p = Some (h, (n, d)) ->
    process_step p (set_work (Some (h ++ [(env, req)],
      (set_world (set_store (env', snd (TrustLedger.execute env req (w_store (n_world n)).2)) (n_world n)) n, d))) p).

Definition process_boot (sys : Sys) (site : Site) : Process :=
  mkProcess 0 None false sys site None None ∅ None.
Definition process_reachable (sys : Sys) (site : Site) : Process -> Prop := rtc process_step (process_boot sys site).

(** ** What holds at every statement *)

Context {JLaws : JsonLaws}.

(** Where a thread is started, and where it is joined. *)
Definition start_at (t : thread) : nat :=
  match t with MonitorThread => 3 | ServerThread => 7 | PublisherThread => 8 | SenderThread => 9 | ApiThread => 10 end.
Definition join_at (t : thread) : nat :=
  match t with MonitorThread => 17 | ServerThread => 12 | PublisherThread => 13 | SenderThread => 14 | ApiThread => 15 end.

(** The activity of the process is a life of the daemon, and no session exists before
    the server or discovery was started. *)
Record work_ok (p : Process) (me : DeviceIdentity) (t : Tables) (h : history) (n : Net) (d : Disc) : Prop := {
  wo_life : daemon_life (device_id_ me) t h (n, d);
  wo_early : (pr_pc p <= 7)%nat -> w_next_session_id (n_world n) = 1 /\ di_workers d = [];
  wo_alive : pr_end p = None -> di_alive d = true
}.

Record process_ok (sys0 : Sys) (site0 : Site) (p : Process) : Prop := {
  po_pc : (pr_pc p <= 16)%nat;
  po_sigpipe : (1 <= pr_pc p)%nat -> pr_sigpipe_ignored p = true;
  po_sys : pr_end p = None -> (pr_pc p <= 1)%nat -> pr_sys p = sys0 /\ pr_identity p = None;
  po_site : pr_end p = None -> (pr_pc p <= 2)%nat -> pr_site p = site0;
  po_identity : (2 <= pr_pc p)%nat -> exists me, pr_identity p = Some me /\ load_or_create ienv identity_name sys0 = (Ok me, pr_sys p);
  po_tables : (3 <= pr_pc p)%nat -> exists t, pr_tables p = Some t /\ open_store oenv site0 = (Ok t, pr_site p);
  po_threads t : is_Some (pr_threads p !! t) <-> (start_at t < pr_pc p)%nat;
  po_joined t : (join_at t < pr_pc p)%nat -> pr_threads p !! t = Some Finished;
  po_no_work : (pr_pc p <= 3)%nat -> pr_work p = None;
  po_work h n d : pr_work p = Some (h, (n, d)) ->
    exists me t, pr_identity p = Some me /\ pr_tables p = Some t /\ work_ok p me t h n d;
  po_end z : pr_end p = Some (Exited z) -> z = 0 /\ pr_pc p = 16%nat
}.

Lemma send_to_device_store my n device_id text :
  reachable my n ->
  w_store (n_world (set_world (snd (send_to_device my device_id text (n_world n))) n)) = w_store (n_world n).
Proof.
  intros Hr. destruct (reachable_devices my n Hr) as (Had & _ & _). rewrite Forall_forall in Had.
  unfold send_to_device. case_bool_decide; [done|]. rewrite bind_gets. cbn [n_world set_world].
  destruct (send_to_first_step device_id (message_json my text) (w_registry (n_world n)) (n_world n)) as [->|(dev & _ & ->)].
  - intros dev Hd. apply (Had dev Hd).
  - done.
  - apply (fr_store _ _ _ (send_packet_io _ _ _)).
Qed.

Lemma activity_life my p t h nd nd' :
  daemon_life my t h nd -> activity my p nd nd' -> daemon_life my t h nd'.
Proof.
  intros Hl Ha. assert (reachable my nd.1) as Hr.
  { apply life_execution in Hl as (dv & past & He & _). by eapply execution_reachable. }
  destruct Ha; cbn [fst] in Hr; try (by apply life_sender); (eapply life_step; [exact Hl| |]); try reflexivity; try done.
  - by apply daemon_net.
  - by apply daemon_accept.
  - by apply daemon_discovered.
  - by eapply daemon_connect_failed.
  - by eapply daemon_connected.
  - by eapply daemon_worker_ends.
  - by apply daemon_send.
  - by apply send_to_device_store.
Qed.

Lemma discovered_alive my registry device d :
  di_alive (snd (on_device_discovered my registry device true d)) = di_alive d.
Proof. unfold on_device_discovered. by repeat case_match. Qed.

Lemma activity_ok sys0 site0 p me t h n d n' d' :
  process_ok sys0 site0 p -> pr_end p = None -> work_ok p me t h n d -> activity (device_id_ me) p (n, d) (n', d') ->
  work_ok p me t h n' d'.
Proof.
  intros Hok Hend [Hl He Hal] Ha. split.
  - by eapply activity_life.
  - intros Hk. destruct (He Hk) as [Hnext Hw]. pose proof (po_threads _ _ _ Hok) as Ht.
    inversion Ha; subst; cbn [n_world set_world]; try (by rewrite Hw in *; done).
    + split; [congruence|done].
    + assert (7 < pr_pc p)%nat as Hlt by (apply (Ht ServerThread); eauto). lia.
    + match goal with H : discovering p |- _ => unfold discovering in H end.
      exfalso. destruct (pr_pc p) as [|[|[|[|[|[|[|[|k]]]]]]]]; (done || lia).
    + assert (10 < pr_pc p)%nat as Hlt by by apply (Ht ApiThread). lia.
    + assert (9 < pr_pc p)%nat as Hlt by (apply (Ht SenderThread); eauto). lia.
  - intros _. specialize (Hal Hend). inversion Ha; subst; try done. by rewrite discovered_alive.
Qed.

(** *** Every step keeps it *)

Section steps.
Context (sys0 : Sys) (site0 : Site).
Abbreviation ok := (process_ok sys0 site0).

Lemma boot_ok : ok (process_boot sys0 site0).
Proof. constructor; cbn; try lia; try done. intros t. rewrite lookup_empty. split; [by intros [? [=]]|lia]. Qed.

Lemma work_ok_pc p p' me t h n d :
  (pr_pc p <= pr_pc p')%nat -> (pr_end p' = None -> pr_end p = None) -> work_ok p me t h n d -> work_ok p' me t h n d.
Proof. intros Hk He [Hl Hearly Ha]. split; [done| |by auto]. intros Hle. apply Hearly. lia. Qed.

(** The process ends. *)
Lemma terminate_ok p : ok p -> ok (terminate p).
Proof.
  intros []. constructor; cbn; try done. intros h n d Hw. destruct (po_work0 h n d Hw) as (me & t & ? & ? & Hwo).
  exists me, t. split; [done|]. split; [done|]. by eapply (work_ok_pc p).
Qed.

(** A statement that changes at most the threads. *)
Lemma advance_ok p threads :
  ok p -> (3 < pr_pc p < 16)%nat ->
  (forall t, is_Some (threads !! t) <-> (start_at t < S (pr_pc p))%nat) ->
  (forall t, (join_at t < S (pr_pc p))%nat -> threads !! t = Some Finished) ->
  ok (advance (set_threads threads p)).
Proof.
  intros [] Hk Ht Hj. constructor; cbn; try done; try lia.
  - intros _. apply po_sigpipe0. lia.
  - intros _. apply po_identity0. lia.
  - intros _. apply po_tables0. lia.
  - intros h n d Hw. destruct (po_work0 h n d Hw) as (me & t & ? & ? & Hwo).
    exists me, t. split; [done|]. split; [done|]. eapply (work_ok_pc p); [cbn; lia|done|done].
  - intros z Hz. by destruct (po_end0 z Hz); lia.
Qed.

Lemma plain_ok p :
  ok p -> (3 < pr_pc p < 16)%nat -> (forall t, start_at t <> pr_pc p /\ join_at t <> pr_pc p) -> ok (advance p).
Proof.
  intros Hok Hk Hne. replace p with (set_threads (pr_threads p) p) at 1 by by destruct p.
  apply advance_ok; [done|done| |].
  - intros t. rewrite (po_threads _ _ _ Hok). destruct (Hne t). lia.
  - intros t Hj. apply (po_joined _ _ _ Hok). destruct (Hne t). lia.
Qed.

Lemma start_ok p t :
  ok p -> pr_pc p = start_at t -> (3 < pr_pc p)%nat -> ok (advance (set_threads (<[t := Running]> (pr_threads p)) p)).
Proof.
  intros Hok Hk Hlt. assert (start_at t <= 10)%nat by (destruct t; cbn; lia). apply advance_ok; [done|lia| |].
  - intros t'. destruct (decide (t' = t)) as [->|Hne].
    + rewrite lookup_insert_eq. split; [lia|by eexists].
    + rewrite lookup_insert_ne, (po_threads _ _ _ Hok) by done.
      assert (start_at t' <> start_at t) by (by destruct t', t). lia.
  - intros t' Hj. assert (12 <= join_at t')%nat by (destruct t'; cbn; lia). lia.
Qed.

Lemma join_ok p t :
  ok p -> pr_pc p = join_at t -> (pr_pc p < 16)%nat -> pr_threads p !! t <> Some Running -> ok (advance p).
Proof.
  intros Hok Hk Hlt Hrun. assert (12 <= join_at t)%nat by (destruct t; cbn; lia).
  replace p with (set_threads (pr_threads p) p) at 1 by by destruct p. apply advance_ok; [done|lia| |].
  - intros t'. rewrite (po_threads _ _ _ Hok). assert (start_at t' <= 10)%nat by (destruct t'; cbn; lia). lia.
  - intros t' Hj. destruct (decide (t' = t)) as [->|Hne].
    + assert (is_Some (pr_threads p !! t)) as [st Hst].
      { apply (po_threads _ _ _ Hok). assert (start_at t <= 10)%nat by (destruct t; cbn; lia). lia. }
      rewrite Hst in *. by destruct st.
    + apply (po_joined _ _ _ Hok). assert (join_at t' <> join_at t) by (by destruct t', t). lia.
Qed.

(** The first statements: no thread and no shared state yet. *)
Lemma sigpipe_ok p : ok p -> pr_pc p = 0%nat -> ok (advance (set_sigpipe true p)).
Proof.
  intros [] Hk. rewrite Hk in *. constructor; cbn; rewrite ?Hk; try done; try lia.
  - intros He _. by apply po_sys0; [|lia].
  - intros He _. by apply po_site0; [|lia].
  - intros t. rewrite po_threads0. destruct t; cbn; lia.
  - intros t. destruct t; cbn; lia.
  - intros _. apply po_no_work0. lia.
  - intros h n d. by rewrite po_no_work0 by lia.
  - intros z Hz. by destruct (po_end0 z Hz).
Qed.

Lemma load_ok p r p' :
  ok p -> pr_pc p = 1%nat -> pr_end p = None -> get_my_device_identity p = (r, p') ->
  ok match r with Ok _ => advance p' | Throw _ => terminate p' end.
Proof.
  intros Hok Hk He. unfold get_my_device_identity. destruct (po_sys _ _ _ Hok He) as [Hsys Hid]; [lia|].
  rewrite Hsys, Hid. destruct Hok. rewrite Hk in *.
  destruct (load_or_create ienv identity_name sys0) as [[me|e] sys] eqn:Hl; intros [= <- <-];
    constructor; cbn; rewrite ?Hk; try done; try lia; try (by auto with lia).
  - intros _. by exists me.
  - intros t. rewrite po_threads0. destruct t; cbn; lia.
  - intros t. destruct t; cbn; lia.
  - intros h n d. by rewrite po_no_work0 by lia.
  - intros z Hz. by destruct (po_end0 z Hz).
  - intros h n d. by rewrite po_no_work0 by lia.
Qed.

Lemma open_ok p :
  ok p -> pr_pc p = 2%nat -> pr_end p = None ->
  match open_store oenv (pr_site p) with
  | (Ok tables, site) => ok (advance (set_opened (Some tables) (set_site site p)))
  | (Throw _, site) => ok (terminate (set_site site p))
  end.
Proof.
  intros Hok Hk He. rewrite (po_site _ _ _ Hok He) by lia. destruct Hok. rewrite Hk in *.
  destruct (open_store oenv site0) as [[t|e] site] eqn:Ho; constructor; cbn; rewrite ?Hk; try done; try lia.
  - intros _. apply po_sigpipe0. lia.
  - intros _. apply po_identity0. lia.
  - intros _. by exists t.
  - intros t'. rewrite po_threads0. destruct t'; cbn; lia.
  - intros t'. destruct t'; cbn; lia.
  - intros _. apply po_no_work0. lia.
  - intros h n d. by rewrite po_no_work0 by lia.
  - intros z Hz. by destruct (po_end0 z Hz).
  - intros h n d. by rewrite po_no_work0 by lia.
Qed.

Lemma authentication_ok p t env dv clock :
  ok p -> pr_pc p = 3%nat -> pr_tables p = Some t ->
  ok (advance (set_work (Some ([], (initial (env, mkImpl t 0 dv 0 0) clock, no_discovery)))
                (set_threads (<[MonitorThread := Running]> (pr_threads p)) p))).
Proof.
  intros Hok Hk Ht. destruct Hok. rewrite Hk in *. constructor; cbn; rewrite ?Hk; try done; try lia.
  - intros _. apply po_sigpipe0. lia.
  - intros _. apply po_identity0. lia.
  - intros _. apply po_tables0. lia.
  - intros t'. destruct (decide (t' = MonitorThread)) as [->|Hne].
    + rewrite lookup_insert_eq. cbn. split; [lia|by eexists].
    + rewrite lookup_insert_ne, po_threads0 by done. destruct t'; cbn; (done || lia).
  - intros t'. destruct t'; cbn; lia.
  - intros h n d [= <- <- <-]. destruct po_identity0 as (me & Hme & _); [lia|]. exists me, t. split; [done|]. split; [done|].
    split; [apply life_start|done|done].
  - intros z Hz. by destruct (po_end0 z Hz).
Qed.

Lemma return_ok p :
  ok p -> pr_pc p = 16%nat -> pr_end p = None ->
  ok (set_end (Some (Exited 0)) (set_work (prod_map id (prod_map id destroy) <$> pr_work p) p)).
Proof.
  intros Hok Hk He. destruct Hok. rewrite Hk in *. constructor; cbn; rewrite ?Hk; try done; try lia.
  - intros h n d Hw. destruct (pr_work p) as [[h0 [n0 d0]]|] eqn:E; [|done]. cbn in Hw. injection Hw as <- <- <-.
    destruct (po_work0 h0 n0 d0 eq_refl) as (me & t & Hme & Ht & [Hl _ Ha]). exists me, t. split; [done|]. split; [done|].
    split; cbn; [|rewrite Hk; lia|done]. eapply life_step; [exact Hl|apply daemon_destroy; by apply Ha|done].
  - intros z [= <-]. done.
Qed.

Lemma main_next_ok ev p p' : ok p -> main_next ev p = Some p' -> ok p'.
Proof.
  intros Hok. unfold main_next. destruct (pr_end p) eqn:He; [done|].
  destruct (pr_pc p) as [|[|[|[|[|[|[|[|[|[|[|[|[|[|[|[|[|k]]]]]]]]]]]]]]]]] eqn:Hk; cbn [main_code lookup list_lookup];
    try (destruct (me_throws ev); intros [= <-]; [by apply terminate_ok|]);
    try (apply plain_ok; [done|lia|intros t; rewrite Hk; by destruct t]);
    try (apply start_ok; [done|by rewrite Hk|lia]).
  - intros [= <-]. by apply sigpipe_ok.
  - destruct (get_my_device_identity p) as [r q] eqn:Hg. intros [= <-]. by eapply load_ok.
  - pose proof (open_ok p Hok Hk He) as Ho. by destruct (open_store oenv (pr_site p)) as [[t|e] site]; intros [= <-].
  - destruct (pr_tables p) as [t|] eqn:Ht; [|intros [= <-]; by apply terminate_ok].
    destruct (me_throws ev); intros [= <-]; [by apply terminate_ok|by apply authentication_ok].
  - destruct (pr_threads p !! ServerThread) as [[|]|] eqn:Ht; [done|..]; intros [= <-]; (apply (join_ok p ServerThread); [done|done|lia|by rewrite Ht]).
  - destruct (pr_threads p !! PublisherThread) as [[|]|] eqn:Ht; [done|..]; intros [= <-]; (apply (join_ok p PublisherThread); [done|done|lia|by rewrite Ht]).
  - destruct (pr_threads p !! SenderThread) as [[|]|] eqn:Ht; [done|..]; intros [= <-]; (apply (join_ok p SenderThread); [done|done|lia|by rewrite Ht]).
  - destruct (pr_threads p !! ApiThread) as [[|]|] eqn:Ht; [done|..]; intros [= <-]; (apply (join_ok p ApiThread); [done|done|lia|by rewrite Ht]).
  - intros [= <-]. by apply return_ok.
  - by destruct k.
Qed.

Lemma thread_ends_ok p t :
  ok p -> t <> MonitorThread -> pr_threads p !! t = Some Running -> ok (set_threads (<[t := Finished]> (pr_threads p)) p).
Proof.
  intros [] Hmon Ht. constructor; cbn; try done.
  - intros t'. rewrite <-po_threads0. destruct (decide (t' = t)) as [->|Hne]; [|by rewrite lookup_insert_ne].
    rewrite lookup_insert_eq, Ht. split; by eexists.
  - intros t' Hj. destruct (decide (t' = t)) as [->|Hne]; [by rewrite lookup_insert_eq|].
    rewrite lookup_insert_ne by done. by apply po_joined0.
  - intros h n d Hw. destruct (po_work0 h n d Hw) as (me & tb & ? & ? & [? ? ?]). by exists me, tb.
Qed.

(** The shared state changes. *)
Lemma set_work_ok p h n d me t :
  ok p -> (3 < pr_pc p)%nat -> pr_identity p = Some me -> pr_tables p = Some t -> work_ok p me t h n d ->
  ok (set_work (Some (h, (n, d))) p).
Proof.
  intros [] Hk Hme Ht [Hl He Ha]. constructor; cbn; try done; [lia|]. intros h' n' d' [= <- <- <-]. by exists me, t.
Qed.

Lemma process_step_ok p p' : ok p -> process_step p p' -> ok p'.
Proof.
  intros Hok Hs. destruct Hs as [ev p p' Hm|p t He Hne Ht|p t He Ht|p me h [n d] [n' d'] He Hme Hw Ha|p h n d env req env' He Hw].
  - by eapply main_next_ok.
  - by apply thread_ends_ok.
  - by apply terminate_ok.
  - destruct (po_work _ _ _ Hok h n d Hw) as (me' & t & Hme' & Ht & Hwo). rewrite Hme in Hme'. injection Hme' as <-.
    eapply set_work_ok; [done| |done|done|by eapply activity_ok].
    destruct (decide (pr_pc p <= 3)%nat) as [Hk|]; [by rewrite (po_no_work _ _ _ Hok Hk) in Hw|lia].
  - destruct (po_work _ _ _ Hok h n d Hw) as (me & t & Hme & Ht & [Hl Hearly Ha]).
    eapply set_work_ok; [done| |done|done|split; [by apply life_request|done|done]].
    destruct (decide (pr_pc p <= 3)%nat) as [Hk|]; [by rewrite (po_no_work _ _ _ Hok Hk) in Hw|lia].
Qed.

Lemma process_reachable_ok p : process_reachable sys0 site0 p -> ok p.
Proof. intros Hr. pose proof boot_ok as Hb. induction Hr; eauto using process_step_ok. Qed.
End steps.

(** ** The claims *)

(** C33. The process fails closed: a thread of the daemon exists, or a session was ever
    created, only after the identity and the trust store were loaded from the disk the
    process started on, and with SIGPIPE ignored; sessions only after the server or
    discovery was started.  When the identity or the store cannot be loaded, no thread
    is ever started. *)
Theorem process_fails_closed sys site p :
  process_reachable sys site p ->
  (pr_threads p <> ∅ \/ pr_work p <> None ->
   pr_sigpipe_ignored p = true /\
   exists me t s, main_prepare ienv identity_name oenv sys site = (Ok (me, t), s) /\
     pr_identity p = Some me /\ pr_tables p = Some t) /\
  (forall h n d, pr_work p = Some (h, (n, d)) -> w_next_session_id (n_world n) <> 1 ->
   is_Some (pr_threads p !! ServerThread)).
Proof.
  intros Hok%process_reachable_ok. split.
  - intros Hex. assert (3 < pr_pc p)%nat as Hk.
    { destruct (decide (pr_pc p <= 3)%nat) as [Hk|]; [|lia]. destruct Hex as [Hex|Hex]; [|by rewrite (po_no_work _ _ _ Hok Hk) in Hex].
      apply map_choose in Hex as (t & st & Ht). assert (start_at t < pr_pc p)%nat as Hlt by (apply (po_threads _ _ _ Hok); eauto).
      destruct t; cbn in Hlt; lia. }
    split; [apply (po_sigpipe _ _ _ Hok); lia|]. destruct (po_identity _ _ _ Hok) as (me & Hme & Hl); [lia|].
    destruct (po_tables _ _ _ Hok) as (t & Ht & Ho); [lia|]. exists me, t, (pr_sys p, pr_site p).
    split; [|done]. unfold main_prepare. by rewrite Hl, Ho.
  - intros h n d Hw Hid. destruct (po_work _ _ _ Hok h n d Hw) as (me & t & _ & _ & [_ He _]).
    apply (po_threads _ _ _ Hok). cbn. destruct (decide (pr_pc p <= 7)%nat) as [Hk|]; [|lia]. by destruct (He Hk).
Qed.

(** C3. From the files to the sessions: a session that is READY, at any moment of the
    process and whatever its threads, its peers and the users of the store did, is
    authorized for a device other than this one, under the key, revision and
    permissions that the tables found on disk held after the requests made up to an
    earlier moment. *)
Theorem ready_goes_back_to_disk sys site p h n d sid c :
  process_reachable sys site p -> pr_work p = Some (h, (n, d)) ->
  w_connections (n_world n) !! sid = Some c -> c_ready c = true ->
  exists me t s, main_prepare ienv identity_name oenv sys site = (Ok (me, t), s) /\ tables_of (site_content s.2) = Some t /\
  exists a h1 h2 data_version, c_authorized_peer c = Some a /\ ap_device_id a <> device_id_ me /\ h = h1 ++ h2 /\
    active_authorization (ap_uuid a) (ap_public_key a) (im_tables (replay h1 (mkImpl t 0 data_version 0 0)))
    = Some (mkActivePeerAuthorization (ap_revision a) (ap_permissions a)).
Proof.
  intros Hok%process_reachable_ok Hw Hc Hr. destruct (po_work _ _ _ Hok h n d Hw) as (me & t & Hme & Ht & [Hlife _ _]).
  assert (3 < pr_pc p)%nat as Hk.
  { destruct (decide (pr_pc p <= 3)%nat) as [Hk|]; [by rewrite (po_no_work _ _ _ Hok Hk) in Hw|lia]. }
  destruct (po_identity _ _ _ Hok) as (me' & Hme' & Hl); [lia|]. rewrite Hme in Hme'. injection Hme' as <-.
  destruct (po_tables _ _ _ Hok) as (t' & Ht' & Ho); [lia|]. rewrite Ht in Ht'. injection Ht' as <-.
  assert (main_prepare ienv identity_name oenv sys site = (Ok (me, t), (pr_sys p, pr_site p))) as Hprep.
  { unfold main_prepare. by rewrite Hl, Ho. }
  exists me, t, (pr_sys p, pr_site p). split; [done|].
  exact (ready_from_disk _ _ _ _ _ _ _ _ _ _ _ _ _ Hprep Hlife Hc Hr).
Qed.

(** How [main] ends: it returns only 0, and only after discovery returned and all four
    threads were joined; until the process has ended, [main] goes on, except where it
    joins a thread that still runs; and a process that has ended makes no further step. *)
Theorem main_ends sys site p :
  process_reachable sys site p ->
  match pr_end p with
  | Some (Exited code) =>
      code = 0 /\ (forall t, t <> MonitorThread -> pr_threads p !! t = Some Finished) /\
      forall p', ~ process_step p p'
  | Some Terminated => forall p', ~ process_step p p'
  | None =>
      (forall ev, exists p', main_next ev p = Some p') \/
      exists t, main_code !! pr_pc p = Some (Join t) /\ pr_threads p !! t = Some Running
  end.
Proof.
  intros Hok%process_reachable_ok.
  assert (pr_end p <> None -> forall p', ~ process_step p p') as Hfinal.
  { intros He p' Hs. inversion Hs as [ev q q' Hm| | | |]; subst; try done. unfold main_next in Hm. by destruct (pr_end p). }
  destruct (pr_end p) as [[code|]|] eqn:He; [|by apply Hfinal|].
  - destruct (po_end _ _ _ Hok code He) as [-> Hk]. split; [done|]. split; [|by apply Hfinal].
    intros t Ht. apply (po_joined _ _ _ Hok). rewrite Hk. destruct t; cbn; (done || lia).
  - pose proof (po_pc _ _ _ Hok) as Hk. unfold main_next. rewrite He.
    destruct (lookup_lt_is_Some_2 main_code (pr_pc p)) as [st Hst]; [cbn; lia|]. rewrite Hst.
    destruct st; try (left; intros ev; eauto; fail).
    + left. intros ev. destruct (get_my_device_identity p). eauto.
    + left. intros ev. destruct (open_store oenv (pr_site p)) as [[tb|e] si]; eauto.
    + left. intros ev. destruct (pr_tables p), (me_throws ev); eauto.
    + destruct (pr_threads p !! t) as [[|]|] eqn:Ht; [right; eauto|left; eauto..].
Qed.
End process.

(** ** A first start, an import, a connection *)

Module ProcessScenario.
Import Scenario AuthScenario SmallJson ConnectionScenario NetworkScenario OpenScenario DiscoveryScenario DaemonScenario.
#[local] Existing Instance IdentityScenario.toy_sodium.

Abbreviation reached := (process_reachable owner "device_id" machine (mkSys IdentityScenario.empty [] []) (empty_site [])).
Abbreviation boot0 := (process_boot (mkSys IdentityScenario.empty [] []) (empty_site [])).

Fixpoint main_run (evs : list MainEvent) (p : Process) : option Process :=
  match evs with
  | [] => Some p
  | ev :: evs => match main_next owner "device_id" machine ev p with Some p' => main_run evs p' | None => None end
  end.
Lemma main_run_reached evs p p' : reached p -> main_run evs p = Some p' -> reached p'.
Proof.
  revert p. induction evs as [|ev evs IH]; intros p Hr; cbn [main_run]; [by intros [= <-]|].
  destruct (main_next owner "device_id" machine ev p) as [q|] eqn:Hm; [|done]. apply IH.
  eapply rtc_r; [exact Hr|by eapply proc_main].
Qed.

(** [main] inside [discovery.start()]. *)
Definition quiet : MainEvent := mkMainEvent false env0 0 0.
Definition main_runs (k : nat) : bool := match main_run (repeat quiet k) boot0 with Some _ => true | None => false end.
Definition started : Process := default boot0 (main_run (repeat quiet 11) boot0).
Lemma started_reached : reached started.
Proof.
  assert (main_runs 11 = true) as Hruns by (vm_compute; reflexivity). unfold main_runs, started in *.
  destruct (main_run (repeat quiet 11) boot0) as [p|] eqn:Hr; [|done].
  apply (main_run_reached (repeat quiet 11) boot0); [apply rtc_refl|exact Hr].
Qed.

Definition at_work (h : history) (nd : Net * Disc) : Process := set_work (Some (h, nd)) started.
Lemma started_at_work : started = at_work [] (initial (env0, fresh_store) 0, no_discovery).
Proof. vm_compute. reflexivity. Qed.
Lemma started_end : pr_end started = None.
Proof. vm_compute. reflexivity. Qed.
Lemma started_identity : pr_identity started = Some identity0.
Proof. vm_compute. reflexivity. Qed.
Lemma started_discovering : main_code !! pr_pc started = Some RunDiscovery.
Proof. vm_compute. reflexivity. Qed.

#[local] Opaque started.
Lemma work_reached h nd nd' : reached (at_work h nd) -> activity my_id (at_work h nd) nd nd' -> reached (at_work h nd').
Proof.
  intros Hr Ha. eapply rtc_r; [exact Hr|].
  exact (proc_work owner "device_id" machine (at_work h nd) identity0 h nd nd' started_end started_identity eq_refl Ha).
Qed.
Lemma session_reached h n n' d :
  reached (at_work h (n, d)) -> step my_id n n' -> w_next_session_id (n_world n') = w_next_session_id (n_world n) ->
  w_store (n_world n') = w_store (n_world n) -> reached (at_work h (n', d)).
Proof. intros Hr Hs Hid Hst. eapply work_reached; [exact Hr|by apply act_session]. Qed.
Lemma request_reached h env im req env' r im' :
  reached (at_work h (initial (env, im) 0, no_discovery)) -> TrustLedger.execute env req im = (r, im') ->
  reached (at_work (h ++ [(env, req)]) (initial (env', im') 0, no_discovery)).
Proof.
  intros Hr Hreq. eapply rtc_r; [exact Hr|].
  pose proof (proc_request owner "device_id" machine (at_work h (initial (env, im) 0, no_discovery)) h _ _ env req env' started_end eq_refl) as Hs.
  cbn [initial n_world w_store snd] in Hs. rewrite Hreq in Hs. exact Hs.
Qed.

Lemma requested_reached : reached (at_work requests (n0, no_discovery)).
Proof.
  apply (request_reached [(env0, ReqImport device1)] env0 imported (ReqCreateAttempt attempt2) env0 (Ok tt) ready);
    [|exact attempt_request].
  apply (request_reached [] env0 fresh_store (ReqImport device1) env0 (Ok tt) imported); [|exact import_request].
  rewrite <-started_at_work. exact started_reached.
Qed.

Definition disc2 : Disc := worker_waits 0 disc1.
Lemma connected_reached : reached (at_work requests (n1, disc2)).
Proof.
  eapply (work_reached requests (n0, disc1)).
  - eapply (work_reached requests (n0, no_discovery)); [exact requested_reached|].
    exact (act_discovered my_id (at_work requests (n0, no_discovery)) n0 no_discovery found started_discovering eq_refl).
  - apply (act_connected my_id _ n0 disc1 0 worker1 (Some 5) (fun _ => Some 0) (fun _ _ => true) 5); [|reflexivity..|vm_compute; reflexivity].
    by rewrite disc1_workers.
Qed.
Lemma ready_reached : reached (at_work requests (n6, disc2)).
Proof.
  apply (session_reached _ n5); [|exact step6|vm_compute; reflexivity|reflexivity].
  apply (session_reached _ n4); [|exact step5|vm_compute; reflexivity|reflexivity].
  apply (session_reached _ n3); [|exact step4|vm_compute; reflexivity|reflexivity].
  apply (session_reached _ n2); [|exact step3|vm_compute; reflexivity|reflexivity].
  apply (session_reached _ n1); [exact connected_reached|exact step2|vm_compute; reflexivity|reflexivity].
Qed.

Lemma process_fails_closed_witness :
  pr_sigpipe_ignored (at_work requests (n6, disc2)) = true /\
  is_Some (pr_threads (at_work requests (n6, disc2)) !! ServerThread).
Proof.
  destruct (process_fails_closed owner "device_id" machine _ _ _ ready_reached) as [Hload Hsession].
  split.
  - apply Hload. right. discriminate.
  - apply (Hsession requests n6 disc2); [reflexivity|]. vm_compute. discriminate.
Defined.

Lemma ready_goes_back_to_disk_witness :
  exists a h1 h2 data_version, c_authorized_peer (conn 1 (n_world n6)) = Some a /\ requests = h1 ++ h2 /\
    active_authorization (ap_uuid a) (ap_public_key a) (im_tables (replay h1 (mkImpl empty_tables 0 data_version 0 0)))
    = Some (mkActivePeerAuthorization (ap_revision a) (ap_permissions a)).
Proof.
  destruct (ready_goes_back_to_disk owner "device_id" machine _ _ _ requests n6 disc2 1 (conn 1 (n_world n6)) ready_reached)
    as (me & t & s & Hprep & _ & a & h1 & h2 & dv & Ha & _ & Hh & Hact).
  - reflexivity.
  - vm_compute. reflexivity.
  - vm_compute. reflexivity.
  - rewrite booted_run in Hprep. injection Hprep as <- <- _.
    exists a, h1, h2, dv. split; [exact Ha|]. split; [exact Hh|exact Hact].
Defined.

Lemma main_ends_witness :
  (forall ev, exists p', main_next owner "device_id" machine ev started = Some p') \/
  exists t, main_code !! pr_pc started = Some (Join t) /\ pr_threads started !! t = Some Running.
Proof.
  pose proof (main_ends owner "device_id" machine _ _ _ started_reached) as H. rewrite started_end in H. exact H.
Defined.
End ProcessScenario.
